(* ===== verification/_CoqProject ===== *)
-Q . S2P
Prelude.v
Bits.v
Regex.v
OxmField.v
OpenflowBasic.v
Packet.v
PacketParser.v
TraceTree.v
OxmTheorems.v
OxmAdapter.v
Tracing.v
TracingProofs.v
LoadTrees.v
MapleRuntime.v
MapleLog.v
RaftTypes.v
RaftStorage.v
RaftServer.v
RaftInv.v
RaftCluster.v
Addresses.v
AddressTheorems.v
RaftWire.v
RaftNetwork.v
Events.v
Handlers.v
Switch.v
Decision.v
LinkDiscovery.v
Topology.v
Forwarding.v
Stp.v
Forest.v
StpTheorems.v
Flow.v
Controller.v
ControllerProofs.v
ScopeInv.v
ControllerTheorems.v
Dispatch.v
Hosts.v
Messaging.v
FlowManager.v
Json.v
JsonTotal.v
JsonRoundtrip.v
Rest.v
RestStats.v
RestListener.v
SwitchStats.v
Loader.v
StaticFlows.v
Applications.v
RestRoutes.v
WebViews.v
MessageUnion.v
