(* ===== verification/Prelude.v ===== *)
(** * A verification development for the RUNOS OpenFlow controller with a replicated log

    The repository is an OpenFlow controller in C++.  A packet that misses in a
    switch goes to the controller, is parsed (src/PacketParser.cc), and is given
    to a policy written against the packet interface (src/api/Packet.hh).  The
    Maple runtime (src/maple) records what the policy looks at in a trace tree
    and compiles the tree into flow rules for the switch.  Several controllers
    share state through a Raft log (src/raft), fed by the applications.

    ** The parts and the files that model them

    - Prelude.v: results and errors ([res]), machine integers ([wrap]), bit
      equalities, list lemmas.
    - Bits.v: src/types/bits.hh.  A bitset is its size and its value; the string
      and big-endian buffer codecs are computed as the code does.
    - Regex.v: the subset of std::regex that address parsing and the paths of the REST
      server use, and numbers as text.
    - Addresses.v, AddressTheorems.v: src/types/ethaddr.cc, IPv4Addr.cc,
      IPv6Addr.cc.
    - OxmField.v: src/oxm/type.hh, field.hh: types, values, masks, fields and
      their operators.  OpenflowBasic.v: the registry of the basic match fields
      (src/oxm/openflow_basic.hh, src/openflow/common.hh).
    - Packet.v: the class [Packet] (src/api/Packet.hh) with the laws
      [PacketLaws] its clients rely on, and src/oxm/field_set.hh, which is one
      implementation.  OxmTheorems.v: the properties of bits, fields and field
      sets.
    - PacketParser.v: src/PacketParser.cc, the other implementation of [Packet].
    - TraceTree.v: src/maple/TraceTree.cc: the tree, its lookup and its compiler,
      and the flow table of a switch that runs the compiled rules; which of the
      installed rules the backend really sends is a parameter ([keeps]).
    - Tracing.v: the tracer, the tracing packet (src/maple/TraceablePacketImpl.cc)
      and src/maple/Runtime.hh; a policy is a tree of loads, tests and writes.
      TracingProofs.v: the tree is a sound cache of the policy.  LoadTrees.v:
      policies without tests, whose rules exclude each other.  MapleRuntime.v: the
      reachable states of a runtime and its theorems.
    - RaftTypes.v: src/raft/raft_entry.hpp, raft_rpc.hpp, raft_state.hpp,
      raft_callbacks.hpp.  RaftStorage.v: the class [Storage]
      (raft_storage.hpp), its laws [StorageLaws] over an abstract log, and
      mem_storage.cpp, which satisfies them.  RaftServer.v: raft_server.ipp, one
      definition per event handler, over any storage.  RaftInv.v: what each
      handler preserves.  RaftCluster.v: several servers and the messages
      between them as a step relation, and the elections.
    - RaftWire.v: the text of the messages and the newline tokenizer
      (simple_serialize.cpp, simple_message_processor.cpp).  RaftNetwork.v: the
      sessions and the network server (asio_tcp_session.cpp,
      asio_tcp_server.cpp) that join a raft server to its connections.
    - Decision.v: src/Decision.cc.  Flow.v: src/Flow.cc, and FlowImpl and MapleBackend
      of src/Controller.cc.  Controller.v: SwitchScope of src/Controller.cc, with
      SwitchConnection::send; its operations run in the state and exception monad
      [st] of the prelude, which keeps the state when something throws.
      ControllerProofs.v: the rules of policies that only load and write, and policies
      run under ModTrackingPacket.  ScopeInv.v: the reachable states of a scope
      ([scope_reaches]) and their invariant [scope_ok].  ControllerTheorems.v: the
      properties of what is sent.  Dispatch.v: ControllerImpl: connections, the
      scopes of the switches, transactions.
    - Events.v: src/Event.cc: the list of events and its polling by the web
      interface.
    - Handlers.v: what the handlers of the applications read of a packet.
      Switch.v: src/Switch.cc, with the signals it emits as output.
      LinkDiscovery.v: src/LinkDiscovery.cc, with the LLDP frame, the links in an
      ordered set with iterators that can dangle, and the abstract links with
      deadlines.  Topology.v: src/Topology.cc; the shortest-path tree of Boost is a
      parameter that [dijkstra_ok] describes and [bfs] satisfies.  Forwarding.v:
      src/LearningSwitch.cc, src/SimpleLearningSwitch.cc and the way of a frame
      from switch to switch.  Stp.v: src/STP.cc over Boost's Kruskal, a parameter
      that [kruskal_ok] of Forest.v describes and [greedy] satisfies;
      StpTheorems.v: the topology and the spanning tree run together, and what
      flooding does.  Hosts.v: src/HostManager.cc and src/ArpHandler.cc.
      FlowManager.v: src/FlowManager.cc.
    - Messaging.v: src/Messaging.cc: links and hosts become requests to the Raft
      server, and the entries of its log become the consistent topology; it joins
      the storage of RaftStorage.v, the graph of Topology.v and the hosts of Hosts.v.
    - Json.v: src/json11.cpp: values, accessors, printing and the recursive-descent
      parser with its error texts, over a class of floating-point numbers;
      JsonTotal.v and JsonRoundtrip.v: its theorems, and an instance on whole numbers.
      Rest.v: src/RestFlowMod.cc and the reading of numbers and requests in
      src/RestStringProcessing.cc.  RestStats.v: src/RestMultipart.cc and the JSON of
      replies in src/RestStringProcessing.cc;
      libfluid's texts of addresses are a class with laws.  RestListener.v: src/RestListener.cc and
      src/Rest.hh.  SwitchStats.v: src/Stats.cc.  Loader.v: src/Loader.cc,
      src/Config.hh and src/Application.hh; an application carries its [init] and
      [startUp], which may throw.  StaticFlows.v: src/StaticFlowPusher.cc;
      the addresses of libfluid are a class with laws.
      WebViews.v: the JSON of switches, links, hosts, rules and events, and
      src/WebUIManager.cc.  MessageUnion.v: src/OFMsgUnion.cc,
      compared with the type numbers of OpenFlow 1.3.
    - Applications.v: the names, dependencies and [init] functions of all applications,
      the set-up half of src/Controller.cc, src/Main.cc and src/network-settings.json:
      the loader runs their bodies ([app_of]).  RestRoutes.v: the paths that
      the applications accept, as the regular expressions of src/RestListener.cc, and
      the parameters that each handler reads.
    - OxmAdapter.v: src/FluidOXMAdapter.cc, over the header of libfluid as a class with
      laws.  MapleLog.v: src/maple/LoggableTracer.cc.

    ** How state and effects are modelled

    Code that can throw, assert or exit returns [res]: [Ok] or [Throw] of the
    component's error type ([oxm_error], [error], [addr_error], [crash],
    [fatal]).  Objects are records; a method is a function from the record to
    the new one.  Where objects are shared by pointer (the sessions of
    RaftNetwork.v) they live in a store and the state holds pointers.  Calls to
    libraries the repository does not contain (boost::asio, the switch) are
    outputs: Backend calls, raft callbacks, writes and connects; their
    completions are operations.  Integers are [Z] with wrap-around written out
    ([u8], [u16], [u64]).

    ** What the theorems show

    - Fields and packets: the operators of one type never throw and work bit by
      bit, those of different types always throw; a field set is a partial map
      of bits; the packet parser never reads outside the packet, except that a
      truncated IPv6 header is a null dereference; a write changes the bytes of its
      field only, and there only the bits it names, but for VLAN_VID, whose write
      clears the priority and the drop bit ([vlan_write_clears_priority]).
    - Maple: tracing a policy does not change what it computes, and leaves a reachable
      runtime, also when the policy throws; the tree and the policy decide every
      packet alike.  So does the compiled table in a switch, for policies that only
      load or in a backend that keeps every rule; the backend of src/Controller.cc
      does not keep the barriers of the tests ([missing_barrier_misforwards]).
    - Raft: MemStorage implements the log; from any reachable cluster no handler
      crashes, other than by the assertion on the leader's commit term; without
      stale votes there is one leader per term; the commit index is a majority's.
      Two runs show what the code does not ensure: a stale vote makes two
      leaders, and nodes commit different entries.
    - Wire and connections: messages survive printing, any division into reads
      and parsing; unreadable input drops the session and nothing else; clients
      are told of every entry once.  Theorems also pin down the cases in which the code
      fails: data with spaces, huge counts, crossed connections, failed accepts.
    - Addresses: parsing and printing agree, IPv6 parsing computes the denoted
      value and is total, and the noexcept functions that terminate the program
      are characterised.
    - Controller: for a policy without tests, every rule ever sent does to the packets it
      matches what the policy does, and a packet that misses is answered as long as the
      policy has decided every packet; timeouts fit the message; messages
      of one switch do not touch another, and reach the transaction that asked.
      Three runs show what the code does not ensure: the barrier rules of the
      trace tree are never installed, one undecided packet stops all further
      rules, and a handled packet is sent again.
    - Events: polling brings a client to the objects that exist.
    - Services: the signals of the switch manager tell all ports; link discovery
      implements the abstract set of links, and what it sends it understands;
      computeRoute ends with a shortest route over the links that are known, and
      the learning switch delivers along it; flooding over the spanning tree reaches
      all and repeats nothing; the host table implements the abstract one, and
      requests are answered with its addresses.  Runs show where looped or moved
      cables, parallel links, late signals and switches that go down break them.
    - Replication: an event comes out of the log as it went in, and the consistent
      topology is what the committed events make, while the log is looked at with
      nothing uncommitted in it; a theorem shows what happens otherwise, and that
      a second replicated host frees memory twice.  The flow manager keeps one rule
      for each flow in the last part of a reply that a switch sent, under its old
      identifier where the flow was there before.
    - REST: the JSON parser ends on every text, within its length, and reads what the
      printer writes as an equal value; a request for a flow entry sends nothing or
      one safe FlowMod, though [rest_prerequisites_missing] shows two fields that are
      sent without those they require; a request for statistics, by GET or POST, is answered
      by the first reply of a handled type, and with its contents unless it is an aggregate, and what the answers show of actions and matches is read back by
      the requests, but for the listed fields.  A browser that polls for names has
      exactly the existing objects of these applications, and no path leads out of the directory of the pages.
    - Start-up: the loader initialises what the services need, dependencies first, in
      existing threads, and starts what it initialised; with sound dependencies it
      succeeds, or ends with what the first [init] or [startUp] that fails throws.  The static flow pusher sends the flows of the configuration, in
      order.  [loader_hazards], [rest_hazards] and others show what goes wrong
      otherwise.
    - Messages: a received message becomes the object of its type, except where
      [messages_unpacked] shows that it does not; the pages get each object at its last
      place, under its last name.
    - Composition: whatever services the configuration names, the applications find each
      other and the controller has the configured pipeline ([applications_start]);
      [shipped_configuration] runs the file of the repository, and
      [messaging_undeclared] shows the one application whose dependencies are not
      declared.  A request is served by one route, and its handler reads only
      parameters that are there ([rest_requests_routed]).  A field that is packed into
      a message is read back ([adapter_roundtrip]), and the log of a run is the path in
      the trace tree ([log_is_path]).

    ** Bounds and fuel

    [show_digits] runs 64 steps, enough for 64-bit numbers in base 2 or more
    ([show_base_ok]).  [newline_tokenizer] runs as many steps as there are bytes,
    enough because each line is at least its newline ([tokenizer_lines]).  The
    cluster theorems are stated for runs of fewer than 2^64 - 4 steps, the
    point past which terms and indices could wrap; those of a scope for fewer than
    2^63 - 1 steps, when the cookies would; those of events for fewer than 2^31 - 1
    reports and polls, since the REST server reads the identifiers of events as int.  The walk of computeRoute has one step for each vertex, enough
    because it climbs a tree, and [route_shortest] proves that it ends; the loop
    over expired links has one for each link.  The JSON parser has the
    length of the text and one more for each loop, and 201 levels, one more than the
    code allows; [json_parse_total] proves that both are enough.  The loader has one
    level more than there are applications, since each level takes one that is
    registered; [startup_order] proves that no start-up goes deeper.  The loop that
    erases dots has the length of the path.

    ** What is not modelled

    The OpenFlow constant headers, the HTTP server and the event loop, timer
    durations, the destination of log output, and the memory limits of vectors below
    their maximal size.  A policy is
    a syntax tree over the packet it is given: what the handlers keep between
    packets is not part of it; the handlers of the applications are modelled as
    functions of the packet, the decision and their state instead.  The signals
    of flows are left out.  Boost's graph algorithms and libfluid's
    text of an address are parameters.  The threads of src/Messaging.cc are rounds
    of their loops.  Of JSON, the order of values is left
    out; floating-point operations are an interface.  HTTP and the Qt event loop are
    libraries: a request that waits is a state, and the one thread of the server
    means that there is one. In the [init]
    functions the connections of Qt signals, the timers and the settings that are only
    stored are left out.  src/raft/base64.h declares a codec whose code is not in the
    repository, and no file includes the headers openflow-1.0.h, openflow-1.3.5.h and
    openflow-1.5.1.h of src/openflow.  The hash functions of addresses, Boost
    serialization of the backup file and what else remains of the files is includes,
    declarations and calls of libraries. *)

From Stdlib Require Export Ascii String.
From stdpp Require Export base list gmap strings.
From Stdlib Require Export ZArith Lia Bool Btauto.

(** ** Exceptions and fatal errors

    C++ exceptions, failed assertions and [exit] are the [Throw] values of an
    error type; a normal return is [Ok]. *)

Inductive res (E A : Type) : Type :=
| Ok (a : A)
| Throw (e : E).
Arguments Ok {E A} a.
Arguments Throw {E A} e.

#[export] Instance res_ret {E} : MRet (res E) := fun A a => Ok a.
#[export] Instance res_bind {E} : MBind (res E) := fun A B f m =>
  match m with Ok a => f a | Throw e => Throw e end.

#[export] Instance res_eq_dec {E A} `{EqDecision E, EqDecision A} : EqDecision (res E A).
Proof. solve_decision. Defined.

Lemma res_bind_Ok {E A B} (f : A -> res E B) a : (Ok a ≫= f) = f a.
Proof. reflexivity. Qed.

Lemma res_bind_Throw {E A B} (f : A -> res E B) e : (Throw e ≫= f) = Throw e.
Proof. reflexivity. Qed.

Lemma res_bind_inv {E A B} (m : res E A) (f : A -> res E B) b :
  (m ≫= f) = Ok b -> exists a, m = Ok a /\ f a = Ok b.
Proof. destruct m; cbn; [eauto | discriminate]. Qed.

(** [assert] of the source: continue, or fail with the given error. *)
Definition guard_or {E} (b : bool) (e : E) : res E unit := if b then Ok tt else Throw e.

Lemma guard_or_Ok {E} b (e : E) u : guard_or b e = Ok u -> b = true.
Proof. by destruct b. Qed.

(** Split a successful chain of binds into its steps. *)
Ltac inv_ok :=
  repeat match goal with
  | H : (_ ≫= _) = Ok _ |- _ =>
      let a := fresh "a" in let Ha := fresh "Hok" in
      apply res_bind_inv in H as (a & Ha & H)
  | H : Ok _ = Ok _ |- _ => injection H as H
  | H : Throw _ = Ok _ |- _ => discriminate H
  | H : Ok _ = Throw _ |- _ => discriminate H
  | H : mret _ = Ok _ |- _ => injection H as H
  | H : guard_or _ _ = Ok _ |- _ => apply guard_or_Ok in H
  end; subst.

(** ** State and exceptions

    A computation on a state that may throw; what it did to the state before it
    threw remains. *)

Definition st (E S A : Type) : Type := S -> S * res E A.

Section st.
Context {E S : Type}.

#[export] Instance st_ret : MRet (st E S) := fun A a s => (s, Ok a).
#[export] Instance st_bind : MBind (st E S) := fun A B k m s =>
  match m s with (s', Ok a) => k a s' | (s', Throw e) => (s', Throw e) end.
Definition st_get : st E S S := fun s => (s, Ok s).
Definition st_update (f : S -> S) : st E S unit := fun s => (f s, Ok tt).
Definition st_lift {A} (r : res E A) : st E S A := fun s => (s, r).

(** [m] preserves [I], whether it throws or not. *)
Definition preserves {A} (I : S -> Prop) (m : st E S A) : Prop := forall s, I s -> I (m s).1.

Lemma preserves_bind {A B} (I : S -> Prop) (m : st E S A) (k : A -> st E S B) :
  preserves I m -> (forall a, preserves I (k a)) -> preserves I (m ≫= k).
Proof.
  intros Hm Hk s Hs. specialize (Hm s Hs). unfold mbind, st_bind. destruct (m s) as [s' [a|e]]; [|done]. by apply Hk.
Qed.

Lemma preserves_ret {A} (I : S -> Prop) (a : A) : preserves I (mret (M := st E S) a).
Proof. by intros s. Qed.
Lemma preserves_get (I : S -> Prop) : preserves I st_get.
Proof. by intros s. Qed.
Lemma preserves_lift {A} (I : S -> Prop) (r : res E A) : preserves I (st_lift r).
Proof. by intros s. Qed.
Lemma preserves_update (I : S -> Prop) f : (forall s, I s -> I (f s)) -> preserves I (st_update f).
Proof. intros Hf s. apply Hf. Qed.
End st.

Create HintDb preserves.
#[export] Hint Resolve preserves_bind preserves_ret preserves_get preserves_lift preserves_update : preserves.

(** ** Machine integers

    A [w]-bit unsigned integer is a [Z]; every operation that can leave the
    range writes its reduction modulo [2^w] out. *)

Definition wrap (w z : Z) : Z := (z mod 2 ^ w)%Z.
Abbreviation u8 := (wrap 8).
Abbreviation u16 := (wrap 16).
Abbreviation u32 := (wrap 32).
Abbreviation u64 := (wrap 64).

Definition in_width (w z : Z) : Prop := (0 <= z < 2 ^ w)%Z.

Lemma wrap_small w z : in_width w z -> wrap w z = z.
Proof. apply Z.mod_small. Qed.

Lemma wrap_in_width w z : (0 <= w)%Z -> in_width w (wrap w z).
Proof. intros. apply Z.mod_pos_bound. by apply Z.pow_pos_nonneg. Qed.

Lemma wrap_land w z : (0 <= w)%Z -> wrap w z = Z.land z (Z.ones w).
Proof. intros. symmetry. by apply Z.land_ones. Qed.

(** ** Bit-level equalities on [Z] *)

Lemma Z_testbit_high w z i : in_width w z -> (w <= i)%Z -> Z.testbit z i = false.
Proof.
  intros [Hz Hw] Hi. destruct (decide (z = 0%Z)) as [->|Hn]; [apply Z.bits_0|].
  apply Z.bits_above_log2; [done|].
  assert (Z.log2 z < w)%Z by (apply Z.log2_lt_pow2; lia). lia.
Qed.

Lemma in_width_testbit w z :
  (0 <= w)%Z -> (0 <= z)%Z -> (forall i, (w <= i)%Z -> Z.testbit z i = false) -> in_width w z.
Proof.
  intros Hw Hz Hi. split; [done|].
  destruct (decide (z = 0%Z)) as [->|Hn]; [by apply Z.pow_pos_nonneg|].
  apply Z.log2_lt_pow2; [lia|].
  destruct (Z.lt_ge_cases (Z.log2 z) w) as [|Hge]; [done|].
  specialize (Hi _ Hge). rewrite Z.bit_log2 in Hi; [done|lia].
Qed.

Create Rewrite HintDb zbits.
#[export] Hint Rewrite Z.land_spec Z.lor_spec Z.lxor_spec Z.ldiff_spec Z.bits_0 : zbits.

(** Two integers are equal when all their bits are: the goal becomes a boolean
    identity. *)
Ltac zbitwise :=
  apply Z.bits_inj'; intros ?i ?Hi; autorewrite with zbits; try btauto.

(** ** Lists *)

Lemma filter_ext_in {A} (P Q : A -> Prop) `{forall x, Decision (P x), forall x, Decision (Q x)} (l : list A) :
  (forall x, x ∈ l -> P x <-> Q x) -> filter P l = filter Q l.
Proof.
  induction l as [|x l IH]; intros Hl; [done|]. rewrite !filter_cons.
  rewrite IH by (intros y Hy; apply Hl; by apply list_elem_of_further).
  destruct (decide (P x)) as [Hp|Hp], (decide (Q x)) as [Hq|Hq]; try done;
    exfalso; apply Hl in Hp || apply Hl in Hq || idtac; try done; by apply list_elem_of_here.
Qed.

Lemma Forall_impl_in {A} (P Q : A -> Prop) (l : list A) :
  Forall P l -> (forall x, x ∈ l -> P x -> Q x) -> Forall Q l.
Proof. rewrite !Forall_forall. auto. Qed.
