(* ===== verification/Bits.v ===== *)
(** * Bitsets (src/types/bits.hh)

    [runos::bits<>] is a boost::dynamic_bitset and [runos::bits<N>] a
    std::bitset.  Both are modelled by one record: a size and the unsigned
    integer whose binary digits are the bits (bit 0 is the least significant).
    The conversions go through strings and through big-endian byte buffers, as
    in the source. *)

From S2P Require Import Prelude.
Local Open Scope Z_scope.

Record bits := Bits { bsize : Z; bval : Z }.

#[export] Instance bits_eq_dec : EqDecision bits.
Proof. solve_decision. Defined.

#[export] Instance bits_countable : Countable bits.
Proof.
  apply (inj_countable' (fun b => (bsize b, bval b)) (fun p => Bits p.1 p.2)).
  by intros [].
Defined.

Definition bits_wf (b : bits) : Prop := 0 <= bsize b /\ in_width (bsize b) (bval b).

#[export] Instance bits_wf_dec b : Decision (bits_wf b).
Proof. unfold bits_wf, in_width. apply _. Defined.

(** ** Constructors and observers *)

Definition bits_zero (n : Z) : bits := Bits n 0.
Definition bits_of_ull (n v : Z) : bits := Bits n (wrap n v).
Definition bits_set (b : bits) : bits := Bits (bsize b) (Z.ones (bsize b)).
Definition bits_all (b : bits) : bool := bval b =? Z.ones (bsize b).
Definition bits_none (b : bits) : bool := bval b =? 0.
Definition bits_eqb (a b : bits) : bool := (bsize a =? bsize b) && (bval a =? bval b).
Definition bits_test (b : bits) (i : Z) : bool := Z.testbit (bval b) i.
Definition to_ullong (b : bits) : Z := bval b.

(** ** Bit operations *)

Definition bits_and (a b : bits) : bits := Bits (bsize a) (Z.land (bval a) (bval b)).
Definition bits_or (a b : bits) : bits := Bits (bsize a) (Z.lor (bval a) (bval b)).
Definition bits_xor (a b : bits) : bits := Bits (bsize a) (Z.lxor (bval a) (bval b)).
Definition bits_not (a : bits) : bits := Bits (bsize a) (Z.ldiff (Z.ones (bsize a)) (bval a)).

(** ** Strings: the most significant bit first *)

Fixpoint bits_chars (n : nat) (v : Z) : string :=
  match n with
  | O => ""
  | S k => String (if Z.testbit v (Z.of_nat k) then "1" else "0")%char (bits_chars k v)
  end.

Fixpoint chars_val (s : string) (acc : Z) : Z :=
  match s with
  | EmptyString => acc
  | String c s' => chars_val s' (2 * acc + (if decide (c = "1"%char) then 1 else 0))
  end.

Definition bits_to_string (b : bits) : string := bits_chars (Z.to_nat (bsize b)) (bval b).
Definition bits_of_string (s : string) : bits := Bits (Z.of_nat (String.length s)) (chars_val s 0).

Inductive bits_error := std_bad_cast.

(** [explicit operator bits<N>() const] of the dynamic bitset. *)
Definition bits_static_cast (N : Z) (b : bits) : res bits_error bits :=
  if bsize b =? N then Ok (bits_of_string (bits_to_string b)) else Throw std_bad_cast.

(** [bits<N>::operator bits<>() const]. *)
Definition bits_dynamic_cast (b : bits) : bits := bits_of_string (bits_to_string b).

(** ** Big-endian buffers *)

Definition num_blocks (nb : Z) : Z := nb / 8 + (if nb mod 8 =? 0 then 0 else 1).

Definition be_val (bs : list Z) : Z := fold_left (fun acc b => acc * 256 + b) bs 0.

Fixpoint be_bytes (n : nat) (v : Z) : list Z :=
  match n with
  | O => []
  | S k => be_bytes k (v / 256) ++ [v mod 256]
  end.

(** The constructor from a buffer walks [reverse_iterator(buffer + n)] up to
    [reverse_iterator(buffer - 1)]: n + 1 blocks, the last of them the byte
    stored just before the buffer ([before]); [resize] then drops it. *)
Definition bits_from_buffer (before : Z) (nb : Z) (buf : list Z) : bits :=
  Bits nb (wrap nb (be_val (before :: take (Z.to_nat (num_blocks nb)) buf))).

Definition bits_to_buffer (b : bits) : list Z :=
  be_bytes (Z.to_nat (num_blocks (bsize b))) (bval b).

(** ** Well-formedness *)

Lemma bits_eqb_eq a b : bits_eqb a b = true <-> a = b.
Proof.
  destruct a, b; unfold bits_eqb; cbn. rewrite andb_true_iff, !Z.eqb_eq.
  split; [intros []; congruence | by intros [= -> ->]].
Qed.

Lemma ones_in_width n : 0 <= n -> in_width n (Z.ones n).
Proof.
  intros. rewrite Z.ones_equiv. pose proof (Z.pow_pos_nonneg 2 n). unfold in_width. lia.
Qed.

Lemma zero_in_width n : 0 <= n -> in_width n 0.
Proof. intros. pose proof (Z.pow_pos_nonneg 2 n). unfold in_width. lia. Qed.

Lemma land_in_width n a b : 0 <= n -> in_width n a -> 0 <= b -> in_width n (Z.land a b).
Proof.
  intros Hn Ha Hb. apply in_width_testbit; [done| apply Z.land_nonneg; left; apply Ha |].
  intros i Hi. rewrite Z.land_spec, (Z_testbit_high n a); auto.
Qed.

Lemma lor_in_width n a b : 0 <= n -> in_width n a -> in_width n b -> in_width n (Z.lor a b).
Proof.
  intros Hn Ha Hb. apply in_width_testbit; [done| apply Z.lor_nonneg; split; [apply Ha|apply Hb] |].
  intros i Hi. by rewrite Z.lor_spec, (Z_testbit_high n a), (Z_testbit_high n b).
Qed.

Lemma lxor_in_width n a b : 0 <= n -> in_width n a -> in_width n b -> in_width n (Z.lxor a b).
Proof.
  intros Hn Ha Hb. apply in_width_testbit; [done| |].
  - apply Z.lxor_nonneg. split; intros _; [apply Hb|apply Ha].
  - intros i Hi. by rewrite Z.lxor_spec, (Z_testbit_high n a), (Z_testbit_high n b).
Qed.

Lemma ldiff_ones_in_width n a : 0 <= n -> 0 <= a -> in_width n (Z.ldiff (Z.ones n) a).
Proof.
  intros Hn Ha. apply in_width_testbit; [done| apply Z.ldiff_nonneg; left; apply ones_in_width; done|].
  intros i Hi. rewrite Z.ldiff_spec, (Z_testbit_high n (Z.ones n)); auto using ones_in_width.
Qed.

Create HintDb bits.
#[export] Hint Resolve ones_in_width zero_in_width land_in_width lor_in_width lxor_in_width
  ldiff_ones_in_width wrap_in_width : bits.

Lemma bits_wf_nonneg b : bits_wf b -> 0 <= bval b.
Proof. by intros [_ [? _]]. Qed.
#[export] Hint Resolve bits_wf_nonneg : bits.

Lemma bits_zero_wf n : 0 <= n -> bits_wf (bits_zero n).
Proof. split; cbn; auto with bits. Qed.
Lemma bits_of_ull_wf n v : 0 <= n -> bits_wf (bits_of_ull n v).
Proof. split; cbn; auto with bits. Qed.
Lemma bits_set_wf b : 0 <= bsize b -> bits_wf (bits_set b).
Proof. split; cbn; auto with bits. Qed.
Lemma bits_and_wf a b : bits_wf a -> bits_wf b -> bits_wf (bits_and a b).
Proof. intros [] Hb. split; cbn; auto with bits. Qed.
Lemma bits_or_wf a b : bits_wf a -> bits_wf b -> bsize a = bsize b -> bits_wf (bits_or a b).
Proof. intros [] [] E. split; cbn; [done|]. apply lor_in_width; [done..|congruence]. Qed.
Lemma bits_xor_wf a b : bits_wf a -> bits_wf b -> bsize a = bsize b -> bits_wf (bits_xor a b).
Proof. intros [] [] E. split; cbn; [done|]. apply lxor_in_width; [done..|congruence]. Qed.
Lemma bits_not_wf a : bits_wf a -> bits_wf (bits_not a).
Proof. intros H. split; cbn; [apply H|]. apply ldiff_ones_in_width; [apply H|auto with bits]. Qed.
#[export] Hint Resolve bits_zero_wf bits_of_ull_wf bits_set_wf bits_and_wf bits_or_wf bits_xor_wf
  bits_not_wf : bits.

(** ** Algebra

    [Z.ones] behaves as the unit of [&] on values of the right width. *)

Lemma bits_wf_testbit_high b i : bits_wf b -> bsize b <= i -> Z.testbit (bval b) i = false.
Proof. intros [] ?. by eapply Z_testbit_high. Qed.

Lemma testbit_ones n i : 0 <= n -> 0 <= i -> Z.testbit (Z.ones n) i = (i <? n).
Proof. intros. rewrite Z.testbit_ones; [|done]. by rewrite (proj2 (Z.leb_le 0 i)). Qed.

Lemma bits_and_set b : bits_wf b -> bits_and b (bits_set b) = b.
Proof.
  intros [Hs Hv]. destruct b as [n v]. unfold bits_and; cbn in *. f_equal.
  rewrite Z.land_ones by done. by apply Z.mod_small.
Qed.

Lemma bits_and_self b : bits_and b b = b.
Proof. destruct b. unfold bits_and; cbn. by rewrite Z.land_diag. Qed.

Lemma bits_and_comm a b : bsize a = bsize b -> bits_and a b = bits_and b a.
Proof. intros E. unfold bits_and. by rewrite E, Z.land_comm. Qed.

Lemma bits_and_assoc a b c : bits_and a (bits_and b c) = bits_and (bits_and a b) c.
Proof. unfold bits_and; cbn. by rewrite Z.land_assoc. Qed.

Lemma bits_all_set b : bits_all b = true -> b = bits_set b.
Proof. destruct b. unfold bits_all, bits_set; cbn. intros ->%Z.eqb_eq. done. Qed.

Lemma bits_none_zero b : bits_none b = true -> b = bits_zero (bsize b).
Proof. destruct b. unfold bits_none, bits_zero; cbn. intros ->%Z.eqb_eq. done. Qed.

(** ** Strings round trip *)

Lemma bits_chars_length n v : String.length (bits_chars n v) = n.
Proof. induction n; cbn; congruence. Qed.

Lemma chars_val_chars n v acc :
  chars_val (bits_chars n v) acc = acc * 2 ^ Z.of_nat n + v mod 2 ^ Z.of_nat n.
Proof.
  revert acc. induction n as [|k IH]; intros acc; cbn [chars_val bits_chars].
  - rewrite Z.pow_0_r, Z.mod_1_r. lia.
  - rewrite IH, Nat2Z.inj_succ, Z.pow_succ_r by lia.
    assert (H : v mod (2 * 2 ^ Z.of_nat k)
      = (if Z.testbit v (Z.of_nat k) then 1 else 0) * 2 ^ Z.of_nat k + v mod 2 ^ Z.of_nat k).
    { rewrite (Z.mul_comm 2), Z.rem_mul_r by lia.
      pose proof (Z.testbit_spec' v (Z.of_nat k)) as Hb. rewrite <- Hb by lia.
      destruct (Z.testbit v (Z.of_nat k)); cbn [Z.b2z]; lia. }
    rewrite H. destruct (Z.testbit v (Z.of_nat k)); case_decide; try done; lia.
Qed.

Lemma bits_string_id b : bits_wf b -> bits_of_string (bits_to_string b) = b.
Proof.
  intros [Hs Hv]. destruct b as [n v]; cbn in *. unfold bits_of_string, bits_to_string; cbn.
  rewrite bits_chars_length, chars_val_chars, Z2Nat.id, Z.mod_small by done. by f_equal.
Qed.

(** ** Buffers round trip *)

Lemma be_val_acc bs acc :
  fold_left (fun acc b => acc * 256 + b) bs acc = acc * 256 ^ Z.of_nat (length bs) + be_val bs.
Proof.
  unfold be_val. revert acc. induction bs as [|b bs IH]; intros acc; cbn [fold_left length].
  - rewrite Z.pow_0_r. lia.
  - rewrite IH, (IH (0 * 256 + b)), Nat2Z.inj_succ, Z.pow_succ_r by lia. lia.
Qed.

Lemma be_val_cons b bs : be_val (b :: bs) = b * 256 ^ Z.of_nat (length bs) + be_val bs.
Proof. unfold be_val at 1. cbn. by rewrite be_val_acc. Qed.

Lemma be_val_app xs ys : be_val (xs ++ ys) = be_val xs * 256 ^ Z.of_nat (length ys) + be_val ys.
Proof. unfold be_val at 1. rewrite fold_left_app. apply be_val_acc. Qed.

Lemma be_bytes_length n v : length (be_bytes n v) = n.
Proof. revert v. induction n; intros v; cbn; [done|]. rewrite length_app, IHn. cbn. lia. Qed.

Lemma be_val_bytes n v : be_val (be_bytes n v) = v mod 256 ^ Z.of_nat n.
Proof.
  revert v. induction n as [|k IH]; intros v; cbn [be_bytes].
  - by rewrite Z.pow_0_r, Z.mod_1_r.
  - rewrite be_val_app, IH. cbn [length]. change (be_val [v mod 256]) with (v mod 256).
    change (256 ^ Z.of_nat 1) with 256.
    rewrite Nat2Z.inj_succ, Z.pow_succ_r, Z.rem_mul_r by lia. lia.
Qed.

Lemma num_blocks_bound nb : 0 <= nb -> 0 <= num_blocks nb /\ nb <= 8 * num_blocks nb < nb + 8.
Proof.
  intros. unfold num_blocks. pose proof (Z.mod_pos_bound nb 8). pose proof (Z.div_mod nb 8).
  pose proof (Z.div_pos nb 8). destruct (Z.eqb_spec (nb mod 8) 0); lia.
Qed.

Lemma pow256 k : 0 <= k -> 256 ^ k = 2 ^ (8 * k).
Proof. intros. by rewrite Z.pow_mul_r. Qed.

Lemma wrap_high_blocks nb k hi lo :
  0 <= nb -> nb <= 8 * k -> wrap nb (hi * 256 ^ k + lo) = wrap nb lo.
Proof.
  intros. unfold wrap. rewrite pow256 by lia.
  replace (8 * k) with (nb + (8 * k - nb)) by lia. rewrite Z.pow_add_r by lia.
  replace (hi * (2 ^ nb * 2 ^ (8 * k - nb)) + lo) with (lo + hi * 2 ^ (8 * k - nb) * 2 ^ nb) by lia.
  apply Z.mod_add. pose proof (Z.pow_pos_nonneg 2 nb). lia.
Qed.

(** Reading a buffer that is long enough does not depend on the byte before it. *)
Lemma bits_from_buffer_val before nb buf :
  0 <= nb -> (Z.to_nat (num_blocks nb) <= length buf)%nat ->
  bval (bits_from_buffer before nb buf) = wrap nb (be_val (take (Z.to_nat (num_blocks nb)) buf)).
Proof.
  intros Hn Hl. cbn [bits_from_buffer bval]. rewrite be_val_cons, length_take, Nat.min_l by done.
  apply wrap_high_blocks; [done|]. pose proof (num_blocks_bound nb). lia.
Qed.

Lemma bits_from_buffer_wf before nb buf : 0 <= nb -> bits_wf (bits_from_buffer before nb buf).
Proof. split; cbn; auto with bits. Qed.
#[export] Hint Resolve bits_from_buffer_wf : bits.

Lemma bits_to_buffer_length b : length (bits_to_buffer b) = Z.to_nat (num_blocks (bsize b)).
Proof. apply be_bytes_length. Qed.

Lemma bits_buffer_roundtrip before b rest :
  bits_wf b -> bits_from_buffer before (bsize b) (bits_to_buffer b ++ rest) = b.
Proof.
  intros [Hs Hv]. pose proof (num_blocks_bound _ Hs) as [Hnb Hsz].
  assert (Hval : bval (bits_from_buffer before (bsize b) (bits_to_buffer b ++ rest)) = bval b).
  { rewrite bits_from_buffer_val; [|done|rewrite length_app, bits_to_buffer_length; lia].
    rewrite take_app_length' by (symmetry; apply bits_to_buffer_length).
    unfold bits_to_buffer. rewrite be_val_bytes, Z2Nat.id by lia.
    rewrite pow256, Z.mod_small by (first [lia | split; [apply Hv|];
      apply Z.lt_le_trans with (2 ^ bsize b); [apply Hv | apply Z.pow_le_mono_r; lia]]).
    by apply wrap_small. }
  destruct b as [n v]. cbn [bsize bval] in *. unfold bits_from_buffer in *. cbn [bval] in Hval.
  by rewrite Hval.
Qed.
