(* ===== verification/Regex.v ===== *)
(** * Regular expressions (what src/types/IPv6Addr.cc and the paths of the REST server use)

    ECMAScript patterns over characters, matched against a whole string by
    derivatives, with the language they denote. *)

From S2P Require Import Prelude.
Local Open Scope Z_scope.

Inductive regex :=
| r_empty
| r_eps
| r_class (p : ascii -> bool)
| r_seq (a b : regex)
| r_alt (a b : regex)
| r_star (a : regex).

Fixpoint nullable (r : regex) : bool :=
  match r with
  | r_empty | r_class _ => false
  | r_eps => true
  | r_seq a b => nullable a && nullable b
  | r_alt a b => nullable a || nullable b
  | r_star _ => true
  end.

Fixpoint derive (c : ascii) (r : regex) : regex :=
  match r with
  | r_empty | r_eps => r_empty
  | r_class p => if p c then r_eps else r_empty
  | r_seq a b =>
      if nullable a then r_alt (r_seq (derive c a) b) (derive c b) else r_seq (derive c a) b
  | r_alt a b => r_alt (derive c a) (derive c b)
  | r_star a => r_seq (derive c a) (r_star a)
  end.

(** [std::regex_match(s, r)] *)
Fixpoint regex_match (r : regex) (s : list ascii) : bool :=
  match s with
  | [] => nullable r
  | c :: s' => regex_match (derive c r) s'
  end.

(** [r+] *)
Definition r_plus (r : regex) : regex := r_seq r (r_star r).

(** [r{m,n}] *)
Fixpoint r_power (r : regex) (n : nat) : regex :=
  match n with O => r_eps | S k => r_seq r (r_power r k) end.
Fixpoint r_upto (r : regex) (n : nat) : regex :=
  match n with O => r_eps | S k => r_alt r_eps (r_seq r (r_upto r k)) end.
Definition r_repeat (r : regex) (m n : nat) : regex := r_seq (r_power r m) (r_upto r (n - m)).
Definition r_char (c : ascii) : regex := r_class (fun x => bool_decide (x = c)).

(** The language of an expression. *)
Inductive denotes : regex -> list ascii -> Prop :=
| d_eps : denotes r_eps []
| d_class p c : p c = true -> denotes (r_class p) [c]
| d_seq a b s t : denotes a s -> denotes b t -> denotes (r_seq a b) (s ++ t)
| d_left a b s : denotes a s -> denotes (r_alt a b) s
| d_right a b s : denotes b s -> denotes (r_alt a b) s
| d_star_nil a : denotes (r_star a) []
| d_star a s t : denotes a s -> denotes (r_star a) t -> denotes (r_star a) (s ++ t).

Lemma denotes_nil r : denotes r [] <-> nullable r = true.
Proof.
  induction r as [| |p|a IHa b IHb|a IHa b IHb|a IHa]; cbn.
  - split; [inversion 1|done].
  - split; [done|constructor].
  - split; [inversion 1|done].
  - rewrite andb_true_iff, <- IHa, <- IHb. split.
    + intros H. inversion H as [| |? ? s t Ha Hb E| | | |]; subst.
      match goal with E : _ ++ _ = [] |- _ => apply app_eq_nil in E as [-> ->] end. done.
    + intros [Ha Hb]. by apply (d_seq a b [] []).
  - rewrite orb_true_iff, <- IHa, <- IHb. split.
    + intros H. inversion H; subst; auto.
    + intros [?|?]; [by apply d_left|by apply d_right].
  - split; [done|constructor].
Qed.

(** A text that a star denotes and that is not empty starts with a part that is not. *)
Lemma denotes_star_cons a c s : denotes (r_star a) (c :: s) <-> exists u t, s = u ++ t /\ denotes a (c :: u) /\ denotes (r_star a) t.
Proof.
  split; [|intros (u & t & -> & Hu & Ht); by apply (d_star a (c :: u) t)].
  remember (r_star a) as r eqn:Er. remember (c :: s) as w eqn:Ew. intros H. revert Er Ew.
  induction H as [| | | | | |a' u t Hu _ Ht IH]; try done. intros [= ->] Ew. destruct u as [|x u]; [by apply IH|].
  injection Ew as -> <-. by exists u, t.
Qed.

Lemma denotes_cons r c s : denotes r (c :: s) <-> denotes (derive c r) s.
Proof.
  revert s. induction r as [| |p|a IHa b IHb|a IHa b IHb|a IHa]; intros s; cbn.
  - split; inversion 1.
  - split; inversion 1.
  - split.
    + intros H. inversion H as [|? ? Hp| | | | |]; subst. rewrite Hp. constructor.
    + destruct (p c) eqn:Hp; intros H; inversion H; subst. by constructor.
  - assert (Hseq : denotes (r_seq a b) (c :: s) <->
      denotes (r_seq (derive c a) b) s \/ (nullable a = true /\ denotes (derive c b) s)).
    { split.
      - intros H. inversion H as [| |? ? u t Ha Hb E| | | |]; subst. destruct u as [|x u]; cbn in *.
        + subst t. right. by rewrite <- denotes_nil, <- IHb.
        + match goal with E : _ :: _ = _ |- _ => injection E as -> <- end. left. constructor; [by apply IHa|done].
      - intros [H|[Hn Hb]].
        + inversion H as [| |? ? u t Ha Hb E| | | |]; subst. apply IHa in Ha. by apply (d_seq a b (c :: u) t).
        + apply denotes_nil in Hn. apply IHb in Hb. by apply (d_seq a b [] (c :: s)). }
    rewrite Hseq. destruct (nullable a); [|split; [intros [?|[? _]]; done|auto]]. split.
    + intros [H|[_ H]]; [by apply d_left|by apply d_right].
    + intros H. inversion H; subst; auto.
  - split.
    + intros H. inversion H; subst; [apply d_left|apply d_right]; [by apply IHa|by apply IHb].
    + intros H. inversion H; subst; [apply d_left|apply d_right]; [by apply IHa|by apply IHb].
  - rewrite denotes_star_cons. split.
    + intros (u & t & -> & Hu & Ht). constructor; [by apply IHa|done].
    + intros H. inversion H as [| |? ? u t Ha Hb E| | | |]; subst. exists u, t. split; [done|]. split; [by apply IHa|done].
Qed.

(** The matcher decides the language. *)
Lemma regex_match_ok r s : regex_match r s = true <-> denotes r s.
Proof.
  revert r. induction s as [|c s IH]; intros r; cbn; [symmetry; apply denotes_nil|].
  by rewrite IH, denotes_cons.
Qed.

(** ** Characters *)

Definition char_code (c : ascii) : Z := Z.of_nat (nat_of_ascii c).
Definition is_digit (c : ascii) : bool := (48 <=? char_code c) && (char_code c <=? 57).
(** [std::isspace], and what an input stream skips before it reads. *)
Definition is_space (c : ascii) : bool :=
  (char_code c =? 32) || ((9 <=? char_code c) && (char_code c <=? 13)).

Fixpoint skip_ws (s : list ascii) : list ascii :=
  match s with c :: s' => if is_space c then skip_ws s' else s | [] => [] end.

Definition is_xdigit (c : ascii) : bool :=
  is_digit c || ((97 <=? char_code c) && (char_code c <=? 102)) || ((65 <=? char_code c) && (char_code c <=? 70)).

(** [.] of ECMAScript *)
Definition is_any (c : ascii) : bool := negb ((char_code c =? 10) || (char_code c =? 13)).

Definition xdigit_val (c : ascii) : Z :=
  let n := char_code c in
  if is_digit c then n - 48 else if 97 <=? n then n - 87 else n - 55.

(** [std::stoi(s, 0, base)] of a string of digits *)
Definition stoi (base : Z) (s : list ascii) : Z := fold_left (fun acc c => acc * base + xdigit_val c) s 0.

(** [%x] and [%u] of one digit, and of a number by its digits *)
Definition digit_char (d : Z) : ascii := ascii_of_nat (Z.to_nat (if d <? 10 then d + 48 else d + 87)).

Fixpoint show_digits (fuel : nat) (base n : Z) : list ascii :=
  match fuel with
  | O => []
  | S k => (if n <? base then [] else show_digits k base (n / base)) ++ [digit_char (n mod base)]
  end.

(** Enough digits for any 64-bit number in base 2 or more. *)
Definition show_base (base n : Z) : list ascii := show_digits 64 base n.

(** ** Printing and reading numbers *)

Lemma digit_char_val d : 0 <= d < 16 -> xdigit_val (digit_char d) = d /\ is_xdigit (digit_char d) = true
  /\ (d < 10 -> is_digit (digit_char d) = true).
Proof.
  intros Hd. assert (H : Forall (fun d => xdigit_val (digit_char d) = d /\ is_xdigit (digit_char d) = true
    /\ (d < 10 -> is_digit (digit_char d) = true)) (map Z.of_nat (seq 0 16))).
  { cbn. repeat (apply Forall_cons; split; [by vm_compute|]). by apply Forall_nil. }
  rewrite Forall_forall in H. apply H. apply list_elem_of_fmap. exists (Z.to_nat d). split; [lia|].
  apply elem_of_seq. lia.
Qed.

Lemma stoi_snoc base l c : stoi base (l ++ [c]) = stoi base l * base + xdigit_val c.
Proof. unfold stoi. by rewrite fold_left_app. Qed.

Lemma show_digits_ok fuel base n :
  2 <= base <= 16 -> 0 <= n < base ^ Z.of_nat fuel -> (0 < fuel)%nat ->
  stoi base (show_digits fuel base n) = n
  /\ Forall (fun c => is_xdigit c = true /\ (base <= 10 -> is_digit c = true)) (show_digits fuel base n)
  /\ show_digits fuel base n <> [].
Proof.
  intros Hb. revert n. induction fuel as [|k IH]; intros n Hn Hf; [lia|]. cbn [show_digits].
  pose proof (Z.mod_pos_bound n base ltac:(lia)) as Hm. destruct (digit_char_val (n mod base)) as (Hv & Hx & Hd); [lia|].
  pose proof (Z.div_mod n base ltac:(lia)) as Hdm. rewrite Nat2Z.inj_succ, Z.pow_succ_r in Hn by lia.
  destruct (Z.ltb_spec n base) as [Hlt|Hge].
  - assert (Hz : n mod base = n) by (apply Z.mod_small; lia). split_and!.
    + cbn [app]. change (stoi base [digit_char (n mod base)]) with (0 * base + xdigit_val (digit_char (n mod base))). lia.
    + cbn [app]. apply Forall_cons. split; [|by apply Forall_nil]. split; [done|]. intros. apply Hd. lia.
    + done.
  - assert (0 < k)%nat by (destruct k; [|lia]; cbn in Hn; lia).
    destruct (IH (n / base)) as (IHv & IHf & IHn); [|done|].
    { split; [apply Z.div_pos; lia|]. apply Z.div_lt_upper_bound; lia. }
    split_and!.
    + rewrite stoi_snoc, IHv, Hv. lia.
    + apply Forall_app. split; [done|]. apply Forall_cons. split; [|by apply Forall_nil]. split; [done|]. intros. apply Hd. lia.
    + by destruct (show_digits k base (n / base)).
Qed.

Lemma show_digits_length fuel base n k :
  2 <= base -> 0 <= n < base ^ Z.of_nat k -> (0 < k)%nat -> (length (show_digits fuel base n) <= k)%nat.
Proof.
  intros Hb. revert n k. induction fuel as [|f IH]; intros n k Hn Hk; cbn [show_digits]; [cbn; lia|].
  rewrite length_app. cbn [length]. destruct (Z.ltb_spec n base); [cbn; lia|].
  destruct k as [|k]; [lia|]. rewrite Nat2Z.inj_succ, Z.pow_succ_r in Hn by lia.
  assert (0 < k)%nat by (destruct k; [|lia]; cbn in Hn; lia).
  specialize (IH (n / base) k). assert (length (show_digits f base (n / base)) <= k)%nat; [|lia].
  apply IH; [|done]. split; [apply Z.div_pos; lia|]. apply Z.div_lt_upper_bound; lia.
Qed.

Lemma show_base_ok base n k :
  2 <= base <= 16 -> 0 <= n < base ^ Z.of_nat k -> (0 < k <= 64)%nat ->
  stoi base (show_base base n) = n /\ (1 <= length (show_base base n) <= k)%nat
  /\ Forall (fun c => is_xdigit c = true /\ (base <= 10 -> is_digit c = true)) (show_base base n).
Proof.
  intros Hb Hn Hk. destruct (show_digits_ok 64 base n Hb) as (Hv & Hf & Hne); [|lia|].
  { split; [lia|]. apply Z.lt_le_trans with (base ^ Z.of_nat k); [lia|]. apply Z.pow_le_mono_r; lia. }
  pose proof (show_digits_length 64 base n k ltac:(lia) Hn ltac:(lia)).
  split_and!; try done. unfold show_base. destruct (show_digits 64 base n); [done|cbn; lia].
Qed.

(** ** Languages of repetitions *)

Lemma denotes_upto p s n :
  Forall (fun c => p c = true) s -> (length s <= n)%nat -> denotes (r_upto (r_class p) n) s.
Proof.
  revert s. induction n as [|n IH]; intros [|c s] Hp Hl; cbn in *; try lia; [constructor|by apply d_left; constructor|].
  apply Forall_cons in Hp as [Hc Hp]. apply d_right. apply (d_seq _ _ [c] s); [by constructor|]. apply IH; [done|lia].
Qed.

Lemma denotes_repeat_1 p s n :
  Forall (fun c => p c = true) s -> (1 <= length s <= n)%nat -> denotes (r_repeat (r_class p) 1 n) s.
Proof.
  intros Hp Hl. destruct s as [|c s]; cbn in Hl; [lia|]. apply Forall_cons in Hp as [Hc Hp]. unfold r_repeat.
  apply (d_seq _ _ [c] s).
  - apply (d_seq _ _ [c] []); [by constructor|constructor].
  - apply denotes_upto; [done|lia].
Qed.

Lemma denotes_char c : denotes (r_char c) [c].
Proof. constructor. by apply bool_decide_eq_true. Qed.
