(* ===== verification/OxmField.v ===== *)
(** * OXM types, values, masks and fields (src/oxm)

    [oxm::type], [oxm::value], [oxm::mask] and [oxm::field] with their
    constructors (which throw on a bad bit length or a bad mask) and operators
    (which throw on operands of different types).  The statically typed
    templates [value<T>], [mask<T>], [field<T>] are the same records at the
    constant type [T].

    The abstraction used by every client is [fbit]: a field is a partial map
    from bit positions to booleans.  Each operator is characterised by its
    effect on that map, and a well-formed field is determined by it. *)

From S2P Require Import Prelude Bits.
Local Open Scope Z_scope.

(** ** oxm::type *)

Record type := Type_ { t_ns : Z; t_id : Z; t_maskable : bool; t_nbits : Z }.

#[export] Instance type_eq_dec : EqDecision type.
Proof. solve_decision. Defined.

Definition nbytes (t : type) : Z := t_nbits t / 8 + (if t_nbits t mod 8 =? 0 then 0 else 1).

(** [operator==] of types looks at the namespace and the id only. *)
Definition type_eqb (s t : type) : bool := (t_ns s =? t_ns t) && (t_id s =? t_id t).

(** What [std::hash<type>] and [EqualByType] identify a type by. *)
Definition type_key (t : type) : Z * Z := (t_ns t, t_id t).

Lemma type_eqb_key s t : type_eqb s t = true <-> type_key s = type_key t.
Proof.
  unfold type_eqb, type_key. rewrite andb_true_iff, !Z.eqb_eq.
  split; [intros []; congruence | by intros [=]].
Qed.

Lemma type_eqb_refl t : type_eqb t t = true.
Proof. by apply type_eqb_key. Qed.

Inductive oxm_error := bad_cast | bad_operands | bad_bit_length | bad_mask.

#[export] Instance oxm_error_eq_dec : EqDecision oxm_error.
Proof. solve_decision. Defined.

(** ** Holders *)

Record value := Value { v_type : type; v_bits : bits }.
Record mask := Mask { m_type : type; m_bits : bits }.
Record field := Field { f_type : type; f_value : bits; f_mask : bits }.

#[export] Instance value_eq_dec : EqDecision value.
Proof. solve_decision. Defined.
#[export] Instance mask_eq_dec : EqDecision mask.
Proof. solve_decision. Defined.
#[export] Instance field_eq_dec : EqDecision field.
Proof. solve_decision. Defined.

Definition check_value (t : type) (v : bits) : res oxm_error unit :=
  if bsize v =? t_nbits t then Ok tt else Throw bad_bit_length.

Definition check_mask (t : type) (m : bits) : res oxm_error unit :=
  if negb (bsize m =? t_nbits t) then Throw bad_bit_length
  else if negb (t_maskable t) && negb (bits_all m || bits_none m) then Throw bad_mask
  else Ok tt.

Definition make_value (t : type) (v : bits) : res oxm_error value :=
  check_value t v ≫= fun _ => Ok (Value t v).

Definition make_mask (t : type) (m : bits) : res oxm_error mask :=
  check_mask t m ≫= fun _ => Ok (Mask t m).

(** The fuzzy match constructor: both holders are checked, then
    [m_value &= m_mask]. *)
Definition make_field (t : type) (v m : bits) : res oxm_error field :=
  check_value t v ≫= fun _ =>
  check_mask t m ≫= fun _ =>
  Ok (Field t (bits_and v m) m).

Definition exact (m : bits) : bool := bits_all m.
Definition wildcard (m : bits) : bool := bits_none m.
Definition fuzzy (m : bits) : bool := negb (exact m || wildcard m).

Definition mask_exact (t : type) : res oxm_error mask := make_mask t (bits_set (bits_zero (t_nbits t))).
Definition field_wildcard (t : type) : res oxm_error field :=
  make_field t (bits_zero (t_nbits t)) (bits_zero (t_nbits t)).
Definition field_exact (t : type) (v : bits) : res oxm_error field :=
  make_field t v (bits_set (bits_zero (t_nbits t))).

Definition value_of_field (f : field) : res oxm_error value := make_value (f_type f) (f_value f).
Definition mask_of_field (f : field) : res oxm_error mask := make_mask (f_type f) (f_mask f).
Definition field_of_value (v : value) : res oxm_error field := field_exact (v_type v) (v_bits v).

(** Explicit downcasts to the statically typed templates. *)
Definition value_cast (T : type) (v : value) : res oxm_error value :=
  if type_eqb (v_type v) T then make_value T (v_bits v) else Throw bad_cast.
Definition mask_cast (T : type) (m : mask) : res oxm_error mask :=
  if type_eqb (m_type m) T then make_mask T (m_bits m) else Throw bad_cast.
Definition field_cast (T : type) (f : field) : res oxm_error field :=
  if type_eqb (f_type f) T then make_field T (f_value f) (f_mask f) else Throw bad_cast.

(** ** Operators *)

Definition binop_type (l r : type) : res oxm_error type :=
  if type_eqb l r then Ok l else Throw bad_operands.

Definition mask_eqb (l r : mask) : bool :=
  type_eqb (m_type l) (m_type r) && bits_eqb (m_bits l) (m_bits r).
Definition value_eqb (l r : value) : bool :=
  type_eqb (v_type l) (v_type r) && bits_eqb (v_bits l) (v_bits r).
Definition field_eqb (l r : field) : bool :=
  type_eqb (f_type l) (f_type r) && bits_eqb (f_value l) (f_value r)
  && bits_eqb (f_mask l) (f_mask r).

(** construct: [value & mask] *)
Definition value_and_mask (l : value) (r : mask) : res oxm_error field :=
  binop_type (v_type l) (m_type r) ≫= fun t => make_field t (v_bits l) (m_bits r).

(** bit operations on masks *)
Definition mask_not (r : mask) : res oxm_error mask := make_mask (m_type r) (bits_not (m_bits r)).
Definition mask_or (l r : mask) : res oxm_error mask :=
  binop_type (m_type l) (m_type r) ≫= fun t => make_mask t (bits_or (m_bits l) (m_bits r)).
Definition mask_xor (l r : mask) : res oxm_error mask :=
  binop_type (m_type l) (m_type r) ≫= fun t => make_mask t (bits_xor (m_bits l) (m_bits r)).
Definition mask_and (l r : mask) : res oxm_error mask :=
  binop_type (m_type l) (m_type r) ≫= fun t => make_mask t (bits_and (m_bits l) (m_bits r)).

(** match *)
Definition value_match (l r : value) : res oxm_error bool :=
  binop_type (v_type l) (v_type r) ≫= fun _ => Ok (value_eqb l r).

Definition field_match_value (l : field) (r : value) : res oxm_error bool :=
  binop_type (f_type l) (v_type r) ≫= fun _ =>
  mask_of_field l ≫= fun m => value_and_mask r m ≫= fun f => Ok (field_eqb l f).

Definition field_match (l r : field) : res oxm_error bool :=
  mask_of_field l ≫= fun ml => mask_of_field r ≫= fun mr =>
  mask_and ml mr ≫= fun m =>
  value_of_field l ≫= fun vl => value_and_mask vl m ≫= fun fl =>
  value_of_field r ≫= fun vr => value_and_mask vr m ≫= fun fr =>
  Ok (field_eqb fl fr).

(** rewrite *)
Definition field_rewrite_value (l : field) (r : value) : res oxm_error value :=
  binop_type (f_type l) (v_type r) ≫= fun _ => Ok r.
Definition value_rewrite_value (l r : value) : res oxm_error value :=
  binop_type (v_type l) (v_type r) ≫= fun _ => Ok r.
Definition value_rewrite (l : value) (r : field) : res oxm_error value :=
  binop_type (v_type l) (f_type r) ≫= fun t =>
  make_value t (bits_or (bits_and (v_bits l) (bits_not (f_mask r))) (f_value r)).
Definition field_rewrite (l r : field) : res oxm_error field :=
  value_of_field l ≫= fun vl => value_rewrite vl r ≫= fun v =>
  mask_of_field l ≫= fun ml => mask_of_field r ≫= fun mr => mask_or ml mr ≫= fun m =>
  value_and_mask v m.

(** widen: [field & mask] *)
Definition field_and_mask (l : field) (r : mask) : res oxm_error field :=
  binop_type (f_type l) (m_type r) ≫= fun t =>
  make_field t (f_value l) (bits_and (f_mask l) (m_bits r)).

(** construct from a type *)
Definition type_and (t : type) (mv : bits) : res oxm_error mask := make_mask t mv.
Definition type_is (t : type) (v : bits) : res oxm_error value := make_value t v.
Definition mask_is (m : mask) (v : bits) : res oxm_error field := make_field (m_type m) v (m_bits m).

(** ** Well-formedness

    The set of OXM types in use gives each (namespace, id) one width. *)

Class TypeRegistry := {
  known : type -> Prop;
  known_nbits : forall t, known t -> 0 < t_nbits t;
  known_coherent : forall s t, known s -> known t -> type_key s = type_key t -> s = t;
}.

Section fields.
Context {R : TypeRegistry}.

Definition bits_at (t : type) (b : bits) : Prop := bits_wf b /\ bsize b = t_nbits t.

Definition mask_ok (t : type) (m : bits) : Prop :=
  bits_at t m /\ (t_maskable t = true \/ bits_all m = true \/ bits_none m = true).

Definition value_wf (v : value) : Prop := known (v_type v) /\ bits_at (v_type v) (v_bits v).
Definition mask_wf (m : mask) : Prop := known (m_type m) /\ mask_ok (m_type m) (m_bits m).
Definition field_wf (f : field) : Prop :=
  known (f_type f) /\ bits_at (f_type f) (f_value f) /\ mask_ok (f_type f) (f_mask f)
  /\ bits_and (f_value f) (f_mask f) = f_value f.

Lemma type_eqb_known s t : known s -> known t -> type_eqb s t = true -> s = t.
Proof. intros ?? ?%type_eqb_key. by apply known_coherent. Qed.

Lemma binop_type_same t : binop_type t t = Ok t.
Proof. unfold binop_type. by rewrite type_eqb_refl. Qed.

Lemma binop_type_Ok s t u : known s -> known t -> binop_type s t = Ok u -> s = t /\ u = t.
Proof.
  unfold binop_type. intros Hs Ht. destruct (type_eqb s t) eqn:E; [|done].
  intros [= <-]. apply type_eqb_known in E; subst; auto.
Qed.

Lemma check_value_ok t v : bsize v = t_nbits t -> check_value t v = Ok tt.
Proof. unfold check_value. intros ->. by rewrite Z.eqb_refl. Qed.

Lemma check_mask_ok t m : mask_ok t m -> check_mask t m = Ok tt.
Proof.
  intros [[_ Hs] Hm]. unfold check_mask. rewrite Hs, Z.eqb_refl. cbn.
  destruct Hm as [->|[->| ->]]; [done| |]; rewrite ?orb_true_r; by destruct (t_maskable t).
Qed.

Lemma check_mask_inv t m : bits_wf m -> check_mask t m = Ok tt -> mask_ok t m.
Proof.
  unfold check_mask. destruct (Z.eqb_spec (bsize m) (t_nbits t)); cbn; [|done].
  intros Hwf H. split; [done|]. destruct (t_maskable t); [by left|].
  destruct (bits_all m); [by right; left|]. destruct (bits_none m); [by right; right|done].
Qed.

Lemma make_mask_ok t m : mask_ok t m -> make_mask t m = Ok (Mask t m).
Proof. intros H. unfold make_mask. by rewrite check_mask_ok. Qed.

Lemma make_value_ok t v : bits_at t v -> make_value t v = Ok (Value t v).
Proof. intros [_ H]. unfold make_value. by rewrite check_value_ok. Qed.

Lemma make_field_ok t v m :
  bits_at t v -> mask_ok t m -> make_field t v m = Ok (Field t (bits_and v m) m).
Proof. intros [_ H] Hm. unfold make_field. by rewrite check_value_ok, check_mask_ok. Qed.

Lemma bits_and_at t a b : bits_at t a -> bits_at t b -> bits_at t (bits_and a b).
Proof. intros [] []. split; [auto with bits|done]. Qed.
Lemma bits_or_at t a b : bits_at t a -> bits_at t b -> bits_at t (bits_or a b).
Proof. intros [] []. split; [apply bits_or_wf; congruence|done]. Qed.
Lemma bits_not_at t a : bits_at t a -> bits_at t (bits_not a).
Proof. intros []. split; [auto with bits|done]. Qed.

Lemma make_field_wf t v m :
  known t -> bits_at t v -> mask_ok t m -> field_wf (Field t (bits_and v m) m).
Proof.
  intros Ht Hv Hm. split_and!; cbn; [done| apply bits_and_at; [done|apply Hm] |done|].
  by rewrite <- bits_and_assoc, bits_and_self.
Qed.

(** *** Masks closed under the bit operations *)

Lemma all_or_none_val t m :
  bits_at t m -> bits_all m = true \/ bits_none m = true ->
  bval m = Z.ones (t_nbits t) \/ bval m = 0.
Proof.
  intros [_ <-]. unfold bits_all, bits_none. rewrite !Z.eqb_eq. done.
Qed.

Lemma ones_or_zero_mask_ok t m :
  bits_at t m -> bval m = Z.ones (t_nbits t) \/ bval m = 0 -> mask_ok t m.
Proof.
  intros [Hw Hs] Hv. split; [done|]. right. unfold bits_all, bits_none. rewrite !Z.eqb_eq, Hs. done.
Qed.

Lemma nbits_nonneg t m : bits_at t m -> 0 <= t_nbits t.
Proof. intros [[? _] <-]. done. Qed.

Lemma mask_ok_and t a b : mask_ok t a -> mask_ok t b -> mask_ok t (bits_and a b).
Proof.
  intros [Ha Ca] [Hb Cb]. pose proof (bits_and_at _ _ _ Ha Hb) as Hab.
  destruct (t_maskable t) eqn:E; [split; [done|by left]|].
  destruct Ca as [|Ca]; [congruence|]. destruct Cb as [|Cb]; [congruence|].
  apply (all_or_none_val t) in Ca, Cb; try done.
  apply ones_or_zero_mask_ok; [done|]. cbn. pose proof (nbits_nonneg _ _ Ha).
  destruct Ca as [->| ->], Cb as [->| ->]; rewrite ?Z.land_diag, ?Z.land_0_r, ?Z.land_0_l; auto.
Qed.

Lemma mask_ok_or t a b : mask_ok t a -> mask_ok t b -> mask_ok t (bits_or a b).
Proof.
  intros [Ha Ca] [Hb Cb]. pose proof (bits_or_at _ _ _ Ha Hb) as Hab.
  destruct (t_maskable t) eqn:E; [split; [done|by left]|].
  destruct Ca as [|Ca]; [congruence|]. destruct Cb as [|Cb]; [congruence|].
  apply (all_or_none_val t) in Ca, Cb; try done.
  apply ones_or_zero_mask_ok; [done|]. cbn.
  destruct Ca as [->| ->], Cb as [->| ->]; rewrite ?Z.lor_diag, ?Z.lor_0_r, ?Z.lor_0_l; auto.
Qed.

Lemma mask_ok_not t a : mask_ok t a -> mask_ok t (bits_not a).
Proof.
  intros [Ha Ca]. pose proof (bits_not_at _ _ Ha) as Hn.
  destruct (t_maskable t) eqn:E; [split; [done|by left]|].
  destruct Ca as [|Ca]; [congruence|]. apply (all_or_none_val t) in Ca; try done.
  apply ones_or_zero_mask_ok; [done|]. cbn. destruct Ha as [_ ->].
  destruct Ca as [->| ->]; [right; apply Z.ldiff_diag | left; apply Z.ldiff_0_r].
Qed.

Lemma mask_ok_set t : 0 <= t_nbits t -> mask_ok t (bits_set (bits_zero (t_nbits t))).
Proof.
  intros. apply ones_or_zero_mask_ok; [|by left]. split; [by apply bits_set_wf|done].
Qed.

Lemma mask_ok_zero t : 0 <= t_nbits t -> mask_ok t (bits_zero (t_nbits t)).
Proof. intros. apply ones_or_zero_mask_ok; [|by right]. split; [by apply bits_zero_wf|done]. Qed.

(** ** A field as a partial map of bits *)

Definition fbit (f : field) (i : Z) : option bool :=
  if Z.testbit (bval (f_mask f)) i then Some (Z.testbit (bval (f_value f)) i) else None.

Definition mbit (m : mask) (i : Z) : bool := Z.testbit (bval (m_bits m)) i.

Lemma field_value_masked f i :
  field_wf f -> Z.testbit (bval (f_mask f)) i = false -> Z.testbit (bval (f_value f)) i = false.
Proof.
  intros (_ & _ & _ & E) Hm. rewrite <- E. unfold bits_and; cbn.
  by rewrite Z.land_spec, Hm, andb_false_r.
Qed.

Lemma field_ext f g :
  field_wf f -> field_wf g -> f_type f = f_type g ->
  (forall i, 0 <= i -> fbit f i = fbit g i) -> f = g.
Proof.
  intros Hf Hg Ht Hb.
  assert (Hm : bval (f_mask f) = bval (f_mask g)).
  { apply Z.bits_inj'. intros i Hi. specialize (Hb i Hi). unfold fbit in Hb.
    by destruct (Z.testbit (bval (f_mask f)) i), (Z.testbit (bval (f_mask g)) i). }
  assert (Hv : bval (f_value f) = bval (f_value g)).
  { apply Z.bits_inj'. intros i Hi. specialize (Hb i Hi). unfold fbit in Hb. rewrite <- Hm in Hb.
    destruct (Z.testbit (bval (f_mask f)) i) eqn:E; [congruence|].
    rewrite !field_value_masked; [done|done| by rewrite <- Hm |done|done]. }
  destruct Hf as (_ & [_ Hs] & [[_ Hs'] _] & _), Hg as (_ & [_ Gs] & [[_ Gs'] _] & _).
  destruct f as [t [n v] [n' m]], g as [t2 [n2 v2] [n2' m2]]; cbn in *. subst. congruence.
Qed.

Lemma fbit_make t v m i :
  fbit (Field t (bits_and v m) m) i
  = if Z.testbit (bval m) i then Some (Z.testbit (bval v) i) else None.
Proof.
  unfold fbit; cbn. rewrite Z.land_spec. by destruct (Z.testbit (bval m) i); rewrite ?andb_true_r.
Qed.

(** *** The operators on well-formed operands *)

Lemma mask_of_field_ok f : field_wf f -> mask_of_field f = Ok (Mask (f_type f) (f_mask f)).
Proof. intros (_ & _ & ? & _). by apply make_mask_ok. Qed.

Lemma mask_of_field_wf f : field_wf f -> mask_wf (Mask (f_type f) (f_mask f)).
Proof. by intros (? & _ & ? & _). Qed.

Lemma mask_not_ok m :
  mask_wf m -> mask_not m = Ok (Mask (m_type m) (bits_not (m_bits m)))
    /\ mask_wf (Mask (m_type m) (bits_not (m_bits m))).
Proof.
  intros [Hk Hm]. apply mask_ok_not in Hm. split; [by apply make_mask_ok|done].
Qed.

Lemma mbit_not m i :
  mask_wf m -> 0 <= i < t_nbits (m_type m) ->
  mbit (Mask (m_type m) (bits_not (m_bits m))) i = negb (mbit m i).
Proof.
  intros [Hk [[Hw Hs] _]] Hi. unfold mbit; cbn.
  rewrite Z.ldiff_spec, testbit_ones by lia. rewrite Hs.
  by rewrite (proj2 (Z.ltb_lt _ _)) by lia.
Qed.

Lemma fbit_high f i : field_wf f -> t_nbits (f_type f) <= i -> fbit f i = None.
Proof.
  intros (_ & _ & [[Hw Hs] _] & _) Hi. unfold fbit.
  by rewrite bits_wf_testbit_high by (rewrite ?Hs; done).
Qed.

Lemma field_and_mask_ok f m :
  field_wf f -> mask_wf m -> f_type f = m_type m ->
  exists g, field_and_mask f m = Ok g /\ field_wf g /\ f_type g = f_type f
    /\ forall i, fbit g i = if mbit m i then fbit f i else None.
Proof.
  intros (Hk & Hv & Hm & E) [_ Hmm] Ht. unfold field_and_mask. rewrite <- Ht, binop_type_same.
  rewrite res_bind_Ok. rewrite <- Ht in Hmm. pose proof (mask_ok_and _ _ _ Hm Hmm) as Hok.
  rewrite make_field_ok by done. eexists; split; [reflexivity|].
  split; [by apply make_field_wf|]. split; [done|]. intros i. rewrite fbit_make.
  unfold mbit, fbit; cbn. rewrite Z.land_spec.
  by destruct (Z.testbit (bval (f_mask f)) i), (Z.testbit (bval (m_bits m)) i).
Qed.

Lemma value_and_mask_ok v m :
  value_wf v -> mask_wf m -> v_type v = m_type m ->
  exists g, value_and_mask v m = Ok g /\ field_wf g /\ f_type g = v_type v
    /\ f_mask g = m_bits m
    /\ forall i, fbit g i = if mbit m i then Some (Z.testbit (bval (v_bits v)) i) else None.
Proof.
  intros [Hk Hv] [_ Hmm] Ht. unfold value_and_mask. rewrite <- Ht, binop_type_same, res_bind_Ok.
  rewrite <- Ht in Hmm. rewrite make_field_ok by done. eexists; split; [reflexivity|].
  split; [by apply make_field_wf|]. split_and!; [done..|]. intros i. by rewrite fbit_make.
Qed.

Lemma value_of_field_ok f :
  field_wf f -> value_of_field f = Ok (Value (f_type f) (f_value f))
    /\ value_wf (Value (f_type f) (f_value f)).
Proof. intros (? & ? & _ & _). split; [by apply make_value_ok|done]. Qed.

Lemma field_rewrite_ok f g :
  field_wf f -> field_wf g -> f_type f = f_type g ->
  exists h, field_rewrite f g = Ok h /\ field_wf h /\ f_type h = f_type f
    /\ forall i, 0 <= i ->
       fbit h i = match fbit g i with Some b => Some b | None => fbit f i end.
Proof.
  intros Hf Hg Ht. unfold field_rewrite.
  destruct (value_of_field_ok f Hf) as [-> _]. rewrite res_bind_Ok.
  unfold value_rewrite; cbn [v_type v_bits]. rewrite <- Ht, binop_type_same, res_bind_Ok.
  pose proof Hf as (Hk & Hv & Hm & _). pose proof Hg as (_ & Gv & Gm & _). rewrite <- Ht in Gv, Gm.
  assert (Hat : bits_at (f_type f)
    (bits_or (bits_and (f_value f) (bits_not (f_mask g))) (f_value g))).
  { apply bits_or_at; [apply bits_and_at; [done|apply bits_not_at, Gm]|done]. }
  rewrite make_value_ok, res_bind_Ok by done.
  rewrite !mask_of_field_ok, !res_bind_Ok by done.
  unfold mask_or; cbn [m_type m_bits]. rewrite <- Ht, binop_type_same, res_bind_Ok.
  pose proof (mask_ok_or _ _ _ Hm Gm) as Hor. rewrite make_mask_ok, res_bind_Ok by done.
  unfold value_and_mask; cbn [v_type v_bits m_type m_bits]. rewrite binop_type_same, res_bind_Ok.
  rewrite make_field_ok by done. eexists; split; [reflexivity|].
  split; [by apply make_field_wf|]. split; [done|]. intros i Hi. rewrite fbit_make.
  unfold fbit at 1. cbn. rewrite !Z.lor_spec, Z.land_spec, Z.ldiff_spec.
  destruct Gm as [[Gw Gs] _]. pose proof (nbits_nonneg _ _ Hv). rewrite testbit_ones, Gs by lia.
  destruct (Z.testbit (bval (f_mask g)) i) eqn:Eg; rewrite ?orb_true_r, ?orb_false_r.
  - by rewrite andb_false_r, andb_false_r.
  - unfold fbit. destruct (Z.testbit (bval (f_mask f)) i) eqn:Ef; [|done].
    rewrite (field_value_masked g) by done. rewrite orb_false_r, andb_true_r.
    destruct (Z.ltb_spec i (t_nbits (f_type f))); [by rewrite andb_true_r|].
    destruct Hm as [[Hw Hs] _]. rewrite bits_wf_testbit_high in Ef; [done|done|lia].
Qed.

(** Two fields match when no bit known to both differs. *)
Lemma field_match_ok f g :
  field_wf f -> field_wf g -> f_type f = f_type g ->
  exists b, field_match f g = Ok b /\
    (b = true <-> forall i x y, 0 <= i -> fbit f i = Some x -> fbit g i = Some y -> x = y).
Proof.
  intros Hf Hg Ht. unfold field_match. rewrite !mask_of_field_ok, !res_bind_Ok by done.
  unfold mask_and; cbn [m_type m_bits]. rewrite <- Ht, binop_type_same, res_bind_Ok.
  pose proof Hf as (Hk & Hv & Hm & _). pose proof Hg as (_ & Gv & Gm & _). rewrite <- Ht in Gv, Gm.
  pose proof (mask_ok_and _ _ _ Hm Gm) as Hand. rewrite make_mask_ok, res_bind_Ok by done.
  destruct (value_of_field_ok f Hf) as [-> Wf], (value_of_field_ok g Hg) as [-> Wg].
  rewrite <- Ht in Wg |- *. rewrite res_bind_Ok.
  destruct (value_and_mask_ok (Value (f_type f) (f_value f))
    (Mask (f_type f) (bits_and (f_mask f) (f_mask g)))) as (a & -> & Wa & Ta & Ma & Ba); try done.
  rewrite !res_bind_Ok.
  destruct (value_and_mask_ok (Value (f_type f) (f_value g))
    (Mask (f_type f) (bits_and (f_mask f) (f_mask g)))) as (b & -> & Wb & Tb & Mb & Bb); try done.
  rewrite !res_bind_Ok. exists (field_eqb a b). split; [done|].
  unfold mbit in Ba, Bb; cbn in *.
  assert (Hab : field_eqb a b = true <-> a = b).
  { unfold field_eqb. rewrite Ta, Tb, type_eqb_refl, andb_true_l, andb_true_iff, !bits_eqb_eq.
    clear Wa Wb Ba Bb. destruct a, b; cbn in *; subst.
    split; [intros [-> _]; done | intros [= ->]; done]. }
  rewrite Hab. clear Hab. split.
  - intros <- i x y Hi Hx Hy. specialize (Ba i). specialize (Bb i). rewrite Ba in Bb.
    rewrite Z.land_spec in Bb. unfold fbit in Hx, Hy.
    destruct (Z.testbit (bval (f_mask f)) i), (Z.testbit (bval (f_mask g)) i); try done.
    cbn in Bb. congruence.
  - intros H. apply field_ext; [done..|congruence|]. intros i Hi. rewrite Ba, Bb, Z.land_spec.
    specialize (H i). unfold fbit in H.
    destruct (Z.testbit (bval (f_mask f)) i), (Z.testbit (bval (f_mask g)) i); cbn; try done.
    f_equal. eauto.
Qed.

End fields.
