(* ===== verification/OpenflowBasic.v ===== *)
(** * The OpenFlow basic match fields (src/openflow/common.hh, src/oxm/openflow_basic.hh)

    The enumeration [of::oxm::basic_match_fields], the OXM types the controller
    defines over it, and the registry they form. *)

From S2P Require Import Prelude Bits OxmField.
Local Open Scope Z_scope.

(** ** of::oxm *)

Inductive oxm_ns := NXM_0 | NXM_1 | OPENFLOW_BASIC | EXPERIMENTER.

Definition ns_value (n : oxm_ns) : Z :=
  match n with
  | NXM_0 => 0x0000 | NXM_1 => 0x0001 | OPENFLOW_BASIC => 0x8000 | EXPERIMENTER => 0xFFFF
  end.

Inductive basic_match_fields :=
| IN_PORT
| IN_PHY_PORT
| METADATA
| ETH_DST
| ETH_SRC
| ETH_TYPE
| VLAN_VID
| VLAN_PCP
| IP_DSCP
| IP_ECN
| IP_PROTO
| IPV4_SRC
| IPV4_DST
| TCP_SRC
| TCP_DST
| UDP_SRC
| UDP_DST
| SCTP_SRC
| SCTP_DST
| ICMPV4_TYPE
| ICMPV4_CODE
| ARP_OP
| ARP_SPA
| ARP_TPA
| ARP_SHA
| ARP_THA
| IPV6_SRC
| IPV6_DST
| IPV6_FLABEL
| ICMPV6_TYPE
| ICMPV6_CODE
| IPV6_ND_TARGET
| IPV6_ND_SLL
| IPV6_ND_TLL
| MPLS_LABEL
| MPLS_TC
| MPLS_BOS
| PBB_ISID
| TUNNEL_ID
| IPV6_EXTHDR.

Definition ofb_id (f : basic_match_fields) : Z :=
  match f with
  | IN_PORT => 0
  | IN_PHY_PORT => 1
  | METADATA => 2
  | ETH_DST => 3
  | ETH_SRC => 4
  | ETH_TYPE => 5
  | VLAN_VID => 6
  | VLAN_PCP => 7
  | IP_DSCP => 8
  | IP_ECN => 9
  | IP_PROTO => 10
  | IPV4_SRC => 11
  | IPV4_DST => 12
  | TCP_SRC => 13
  | TCP_DST => 14
  | UDP_SRC => 15
  | UDP_DST => 16
  | SCTP_SRC => 17
  | SCTP_DST => 18
  | ICMPV4_TYPE => 19
  | ICMPV4_CODE => 20
  | ARP_OP => 21
  | ARP_SPA => 22
  | ARP_TPA => 23
  | ARP_SHA => 24
  | ARP_THA => 25
  | IPV6_SRC => 26
  | IPV6_DST => 27
  | IPV6_FLABEL => 28
  | ICMPV6_TYPE => 29
  | ICMPV6_CODE => 30
  | IPV6_ND_TARGET => 31
  | IPV6_ND_SLL => 32
  | IPV6_ND_TLL => 33
  | MPLS_LABEL => 34
  | MPLS_TC => 35
  | MPLS_BOS => 36
  | PBB_ISID => 37
  | TUNNEL_ID => 38
  | IPV6_EXTHDR => 39
  end.

#[export] Instance basic_match_fields_eq_dec : EqDecision basic_match_fields.
Proof. solve_decision. Defined.

(** [define_ofb_type< Final, ID, NBITS, ValueType, MaskType, HASMASK >] *)
Definition define_ofb_type (f : basic_match_fields) (nb : Z) (hasmask : bool) : type :=
  Type_ (ns_value OPENFLOW_BASIC) (ofb_id f) hasmask nb.

Definition in_port : type := define_ofb_type IN_PORT 32 false.
Definition eth_type : type := define_ofb_type ETH_TYPE 16 false.
Definition eth_src : type := define_ofb_type ETH_SRC 48 true.
Definition eth_dst : type := define_ofb_type ETH_DST 48 true.
Definition ip_proto : type := define_ofb_type IP_PROTO 8 false.
Definition ipv4_src : type := define_ofb_type IPV4_SRC 32 true.
Definition ipv4_dst : type := define_ofb_type IPV4_DST 32 true.
Definition tcp_src : type := define_ofb_type TCP_SRC 16 false.
Definition tcp_dst : type := define_ofb_type TCP_DST 16 false.
Definition udp_src : type := define_ofb_type UDP_SRC 16 false.
Definition udp_dst : type := define_ofb_type UDP_DST 16 false.
Definition arp_spa : type := define_ofb_type ARP_SPA 32 true.
Definition arp_tpa : type := define_ofb_type ARP_TPA 32 true.
Definition arp_sha : type := define_ofb_type ARP_SHA 48 true.
Definition arp_tha : type := define_ofb_type ARP_THA 48 true.
Definition arp_op : type := define_ofb_type ARP_OP 16 false.
Definition vlan_vid : type := define_ofb_type VLAN_VID 12 false.
Definition ipv6_src : type := define_ofb_type IPV6_SRC 128 true.
Definition ipv6_dst : type := define_ofb_type IPV6_DST 128 true.
Definition icmp_type : type := define_ofb_type ICMPV4_TYPE 8 false.
Definition icmp_code : type := define_ofb_type ICMPV4_CODE 8 false.

Definition openflow_basic : list type :=
  [in_port; eth_type; eth_src; eth_dst; ip_proto; ipv4_src; ipv4_dst; tcp_src; tcp_dst; udp_src; udp_dst; arp_spa;
   arp_tpa; arp_sha; arp_tha; arp_op; vlan_vid; ipv6_src; ipv6_dst; icmp_type; icmp_code].

(** ** The registry *)

Lemma ofb_id_inj f g : ofb_id f = ofb_id g -> f = g.
Proof. destruct f, g; cbn; intros H; try reflexivity; discriminate H. Qed.

Lemma openflow_basic_nbits t : t ∈ openflow_basic -> 0 < t_nbits t.
Proof.
  intros H. revert t H. apply Forall_forall. unfold openflow_basic. repeat constructor.
Qed.

Lemma openflow_basic_coherent s t :
  s ∈ openflow_basic -> t ∈ openflow_basic -> type_key s = type_key t -> s = t.
Proof.
  intros Hs Ht E.
  assert (H : Forall (fun s => Forall (fun t => type_key s = type_key t -> s = t) openflow_basic)
                openflow_basic).
  { unfold openflow_basic.
    repeat (apply Forall_cons; split;
      [repeat (apply Forall_cons; split; [intros K; first [reflexivity | discriminate K]|]);
       apply Forall_nil; exact I |]).
    by apply Forall_nil. }
  rewrite Forall_forall in H. specialize (H s Hs). rewrite Forall_forall in H. auto.
Qed.

#[export] Instance basic_registry : TypeRegistry := {|
  known t := t ∈ openflow_basic;
  known_nbits := openflow_basic_nbits;
  known_coherent := openflow_basic_coherent;
|}.

(** A field holds at most 128 bits and its id fits the 7-bit OXM field number. *)
Lemma openflow_basic_ranges :
  Forall (fun t => t_nbits t <= 128 /\ 0 <= t_id t < 40 /\ t_ns t = 0x8000) openflow_basic.
Proof. unfold openflow_basic. repeat (constructor; [split_and!; (done || cbn; lia)|]). constructor. Qed.
