(* ===== verification/Packet.v ===== *)
(** * The packet interface and field sets (src/api/Packet.hh, src/oxm/field_set.hh)

    [Packet] is the abstract class every packet implementation derives from;
    [PacketLaws] states what its clients (the trace tree, the applications)
    rely on.  [field_set] is the hash set of non-wildcarded fields keyed by
    type, used both as a match and as the cache of a traced packet. *)

From S2P Require Import Prelude Bits OxmField.
Local Open Scope Z_scope.

(** ** Exceptions that cross the packet interface *)

Inductive error :=
| E_oxm (e : oxm_error)
| E_out_of_range
| E_invalid_argument
| E_inconsistent_trace
| E_nullptr_dereference
| E_assertion_failed.

#[export] Instance error_eq_dec : EqDecision error.
Proof. solve_decision. Defined.

Definition lift {A} (r : res oxm_error A) : res error A :=
  match r with Ok a => Ok a | Throw e => Throw (E_oxm e) end.

Lemma lift_Ok {A} (a : A) : lift (Ok a) = Ok a.
Proof. reflexivity. Qed.

(** ** class Packet *)

Class Packet (P : Type) := {
  load : P -> mask -> res error field;
  modify : P -> field -> res error P;
}.

(** [virtual bool test(oxm::field<> need) const] *)
Definition test {P} `{Packet P} (p : P) (need : field) : res error bool :=
  lift (mask_of_field need) ≫= fun m => load p m ≫= fun f => lift (field_match f need).

(** [template<class Type> oxm::value<Type> load(Type type) const]: an exact load of
    one type, with its BOOST_ASSERT. *)
Definition load_type {P} `{Packet P} (p : P) (t : type) : res error value :=
  lift (mask_exact t) ≫= fun m => load p m ≫= fun f =>
  lift (field_cast t f) ≫= fun f' =>
  guard_or (exact (f_mask f')) E_assertion_failed ≫= fun _ => lift (value_of_field f').

(** What a packet that carries real data promises: a field is either absent, and
    then every access throws std::out_of_range, or it has a value; [load]
    returns exactly the requested bits of it and [modify] overwrites exactly the
    bits of the patch. *)
Class PacketLaws (P : Type) `{Packet P} `{TypeRegistry} := {
  pkt_wf : P -> Prop;
  pval : P -> type -> option Z;
  load_absent p m : pkt_wf p -> mask_wf m -> pval p (m_type m) = None ->
    load p m = Throw E_out_of_range;
  load_present p m v : pkt_wf p -> mask_wf m -> pval p (m_type m) = Some v ->
    exists f, load p m = Ok f /\ field_wf f /\ f_type f = m_type m
      /\ forall i, 0 <= i -> fbit f i = if mbit m i then Some (Z.testbit v i) else None;
  modify_absent p f : pkt_wf p -> field_wf f -> pval p (f_type f) = None ->
    modify p f = Throw E_out_of_range;
  modify_present p f v : pkt_wf p -> field_wf f -> pval p (f_type f) = Some v ->
    exists p' v', modify p f = Ok p' /\ pkt_wf p' /\ pval p' (f_type f) = Some v'
      /\ (forall i, 0 <= i -> Z.testbit v' i = default (Z.testbit v i) (fbit f i))
      /\ (forall t, known t -> t <> f_type f -> pval p' t = pval p t);
}.

(** ** class field_set *)

Record field_set := FieldSet { entries : gmap (Z * Z) field }.

#[export] Instance field_set_eq_dec : EqDecision field_set.
Proof. solve_decision. Defined.

Definition fs_empty : field_set := FieldSet ∅.

Definition fs_find (fs : field_set) (t : type) : option field := entries fs !! type_key t.

Definition fs_load (fs : field_set) (m : mask) : res oxm_error field :=
  let t := m_type m in
  match fs_find fs t with
  | None => field_wildcard t ≫= fun f => field_and_mask f m
  | Some e => field_and_mask e m
  end.

(** An absent type is first emplaced, then the entry is patched in place. *)
Definition fs_modify (fs : field_set) (patch : field) : res oxm_error field_set :=
  let t := f_type patch in
  let e := default patch (fs_find fs t) in
  field_rewrite e patch ≫= fun e' => Ok (FieldSet (<[type_key t := e']> (entries fs))).

Definition fs_erase (fs : field_set) (m : mask) : res oxm_error field_set :=
  let t := m_type m in
  match fs_find fs t with
  | None => Ok fs
  | Some e =>
      mask_not m ≫= fun nm => field_and_mask e nm ≫= fun e' =>
      Ok (FieldSet (if wildcard (f_mask e') then delete (type_key t) (entries fs)
                    else <[type_key t := e']> (entries fs)))
  end.

Definition fs_clear (fs : field_set) : field_set := fs_empty.

#[export] Instance field_set_packet : Packet field_set := {|
  load fs m := lift (fs_load fs m);
  modify fs f := lift (fs_modify fs f);
|}.

(** [operator&(field_set, Packet)]: every entry of the set holds on the packet. *)
Fixpoint all_of {A} (f : A -> res error bool) (l : list A) : res error bool :=
  match l with
  | [] => Ok true
  | x :: l' => f x ≫= fun b : bool => if b then all_of f l' else Ok false
  end.

Definition fs_match {P} `{Packet P} (fs : field_set) (p : P) : res error bool :=
  all_of (test p) ((map_to_list (entries fs)).*2).

(** ** A field set as a partial map of bits *)

Section field_sets.
Context {R : TypeRegistry}.

Definition fs_bit (fs : field_set) (t : type) (i : Z) : option bool :=
  fs_find fs t ≫= fun f => fbit f i.

(** Stores only non-wildcarded fields, each under its own type. *)
Definition fs_wf (fs : field_set) : Prop :=
  forall k f, entries fs !! k = Some f ->
    type_key (f_type f) = k /\ field_wf f /\ wildcard (f_mask f) = false.

Lemma fs_empty_wf : fs_wf fs_empty.
Proof. intros k f. cbn. by rewrite lookup_empty. Qed.

Lemma fs_find_wf fs t f :
  fs_wf fs -> known t -> fs_find fs t = Some f -> f_type f = t /\ field_wf f.
Proof.
  intros Hwf Ht Hf. destruct (Hwf _ _ Hf) as (Hk & Hw & _). split; [|done].
  apply known_coherent; [apply Hw|done|done].
Qed.

Lemma field_wildcard_ok t :
  known t -> exists f, field_wildcard t = Ok f /\ field_wf f /\ f_type f = t
    /\ forall i, fbit f i = None.
Proof.
  intros Ht. pose proof (known_nbits _ Ht).
  assert (Hz : mask_ok t (bits_zero (t_nbits t))) by (apply mask_ok_zero; lia).
  unfold field_wildcard. rewrite make_field_ok by (done || apply Hz).
  eexists; split; [reflexivity|]. split; [apply make_field_wf; [done|apply Hz|done]|].
  split; [done|]. intros i. unfold fbit; cbn. by rewrite Z.bits_0.
Qed.

Lemma fs_load_ok fs m :
  fs_wf fs -> mask_wf m ->
  exists f, fs_load fs m = Ok f /\ field_wf f /\ f_type f = m_type m
    /\ forall i, fbit f i = if mbit m i then fs_bit fs (m_type m) i else None.
Proof.
  intros Hwf Hm. pose proof Hm as [Hk _]. unfold fs_load, fs_bit.
  destruct (fs_find fs (m_type m)) as [e|] eqn:He.
  - destruct (fs_find_wf _ _ _ Hwf Hk He) as [Ht He'].
    destruct (field_and_mask_ok e m He' Hm Ht) as (g & -> & Wg & Tg & Bg).
    exists g. split_and!; [done..|congruence|]. intros i. by rewrite Bg.
  - destruct (field_wildcard_ok (m_type m) Hk) as (w & -> & Ww & Tw & Bw). rewrite res_bind_Ok.
    destruct (field_and_mask_ok w m Ww Hm Tw) as (g & -> & Wg & Tg & Bg).
    exists g. split_and!; [done..|congruence|]. intros i. rewrite Bg, Bw. by destruct (mbit m i).
Qed.

Lemma wildcard_fbit f :
  field_wf f -> wildcard (f_mask f) = true <-> forall i, 0 <= i -> fbit f i = None.
Proof.
  intros Hf. unfold wildcard, bits_none, fbit. rewrite Z.eqb_eq. split.
  - intros ->. intros i _. by rewrite Z.bits_0.
  - intros H. apply Z.bits_inj'. intros i Hi. rewrite Z.bits_0. specialize (H i Hi).
    by destruct (Z.testbit (bval (f_mask f)) i).
Qed.

Lemma not_wildcard_fbit f :
  field_wf f -> wildcard (f_mask f) = false -> exists i b, 0 <= i /\ fbit f i = Some b.
Proof.
  intros Hf Hw. unfold wildcard, bits_none in Hw. apply Z.eqb_neq in Hw.
  assert (0 <= bval (f_mask f)) by (apply bits_wf_nonneg, Hf).
  exists (Z.log2 (bval (f_mask f))). unfold fbit. rewrite Z.bit_log2 by lia.
  eexists. split; [apply Z.log2_nonneg|reflexivity].
Qed.

(** Two well-formed field sets with the same bits are equal. *)
Lemma fs_ext fs gs :
  fs_wf fs -> fs_wf gs ->
  (forall t i, known t -> 0 <= i -> fs_bit fs t i = fs_bit gs t i) -> fs = gs.
Proof.
  intros Hf Hg Hb. destruct fs as [m1], gs as [m2]; f_equal. apply map_eq. intros k.
  unfold fs_bit, fs_find in Hb. cbn in Hb.
  destruct (m1 !! k) as [f|] eqn:E1, (m2 !! k) as [g|] eqn:E2; [| | |done].
  - destruct (Hf _ _ E1) as (K1 & W1 & _), (Hg _ _ E2) as (K2 & W2 & _). f_equal.
    apply field_ext; [done..| |].
    + apply known_coherent; [apply W1|apply W2|congruence].
    + intros i Hi. specialize (Hb (f_type f) i (proj1 W1) Hi). by rewrite K1, E1, E2 in Hb.
  - destruct (Hf _ _ E1) as (K1 & W1 & N1). destruct (not_wildcard_fbit f W1 N1) as (i & b & Hi & Hbi).
    specialize (Hb (f_type f) i (proj1 W1) Hi). rewrite K1, E1, E2 in Hb. cbn in Hb. congruence.
  - destruct (Hg _ _ E2) as (K2 & W2 & N2). destruct (not_wildcard_fbit g W2 N2) as (i & b & Hi & Hbi).
    specialize (Hb (f_type g) i (proj1 W2) Hi). rewrite K2, E1, E2 in Hb. cbn in Hb. congruence.
Qed.

Lemma fs_bit_insert fs t e s i :
  known t -> known s ->
  fs_bit (FieldSet (<[type_key t := e]> (entries fs))) s i
  = if decide (s = t) then fbit e i else fs_bit fs s i.
Proof.
  intros Ht Hs. unfold fs_bit, fs_find; cbn. case_decide as E; [subst; by rewrite lookup_insert_eq|].
  rewrite lookup_insert_ne; [done|]. intros K. by apply E, known_coherent.
Qed.

(** A patch without bits changes none, but it leaves an entry for its type. *)
Lemma fs_modify_bits fs p :
  fs_wf fs -> field_wf p ->
  exists fs', fs_modify fs p = Ok fs' /\ (wildcard (f_mask p) = false -> fs_wf fs')
    /\ forall t i, known t -> 0 <= i ->
       fs_bit fs' t i =
         if decide (t = f_type p)
         then match fbit p i with Some b => Some b | None => fs_bit fs t i end
         else fs_bit fs t i.
Proof.
  intros Hwf Hp. pose proof Hp as (Hk & _). unfold fs_modify.
  assert (He : field_wf (default p (fs_find fs (f_type p)))
               /\ f_type (default p (fs_find fs (f_type p))) = f_type p).
  { destruct (fs_find fs (f_type p)) eqn:E; cbn; [|done].
    destruct (fs_find_wf _ _ _ Hwf Hk E). by split. }
  destruct He as [We Te].
  destruct (field_rewrite_ok _ p We Hp Te) as (e' & -> & We' & Te' & Be'). rewrite res_bind_Ok.
  eexists; split; [reflexivity|]. split.
  - intros Hn k f. cbn. rewrite lookup_insert. case_decide as K; [|apply Hwf].
    intros [= <-]. split_and!; [congruence|done|].
    destruct (wildcard (f_mask e')) eqn:W; [|done]. rewrite wildcard_fbit in W by done.
    destruct (not_wildcard_fbit p Hp Hn) as (i & b & Hi & Hb). specialize (W i Hi).
    rewrite Be', Hb in W by done. done.
  - intros t i Ht Hi. rewrite fs_bit_insert by done. case_decide as E; [|done]. rewrite Be' by done.
    destruct (fbit p i) eqn:Ei; [done|]. subst t. unfold fs_bit.
    destruct (fs_find fs (f_type p)); cbn; congruence.
Qed.

Lemma fs_modify_ok fs p :
  fs_wf fs -> field_wf p -> wildcard (f_mask p) = false ->
  exists fs', fs_modify fs p = Ok fs' /\ fs_wf fs'
    /\ forall t i, known t -> 0 <= i ->
       fs_bit fs' t i =
         if decide (t = f_type p)
         then match fbit p i with Some b => Some b | None => fs_bit fs t i end
         else fs_bit fs t i.
Proof. intros Hwf Hp Hn. destruct (fs_modify_bits fs p Hwf Hp) as (fs' & ? & Hw & ?). exists fs'. auto. Qed.

Lemma fs_erase_ok fs m :
  fs_wf fs -> mask_wf m ->
  exists fs', fs_erase fs m = Ok fs' /\ fs_wf fs'
    /\ forall t i, known t -> 0 <= i ->
       fs_bit fs' t i =
         if decide (t = m_type m) then if mbit m i then None else fs_bit fs t i else fs_bit fs t i.
Proof.
  intros Hwf Hm. pose proof Hm as [Hk _]. unfold fs_erase.
  destruct (fs_find fs (m_type m)) as [e|] eqn:He.
  2:{ exists fs. split_and!; [done..|]. intros t i Ht Hi. case_decide; [|done]. subst t.
      unfold fs_bit. rewrite He. cbn. by destruct (mbit m i). }
  destruct (fs_find_wf _ _ _ Hwf Hk He) as [Ht We].
  destruct (mask_not_ok m Hm) as [-> Wn]. rewrite res_bind_Ok.
  destruct (field_and_mask_ok e _ We Wn Ht) as (e' & -> & We' & Te' & Be'). rewrite res_bind_Ok.
  assert (Hbits : forall i, 0 <= i -> fbit e' i = if mbit m i then None else fbit e i).
  { intros i Hi. rewrite Be'. destruct (Z.lt_ge_cases i (t_nbits (m_type m))).
    - rewrite mbit_not by (done || lia). by destruct (mbit m i).
    - rewrite (fbit_high e) by (rewrite ?Ht; done). by destruct (mbit _ i), (mbit m i). }
  eexists; split; [reflexivity|]. destruct (wildcard (f_mask e')) eqn:Hwild; split.
  - intros k f. cbn. rewrite lookup_delete. case_decide; [done|apply Hwf].
  - rewrite wildcard_fbit in Hwild by done. intros t i Kt Hi. case_decide as E.
    + subst t. unfold fs_bit, fs_find; cbn. rewrite lookup_delete_eq. cbn.
      specialize (Hbits i Hi). rewrite Hwild in Hbits by done.
      unfold fs_find in He. rewrite He. cbn. by destruct (mbit m i).
    + unfold fs_bit, fs_find; cbn. rewrite lookup_delete_ne; [done|].
      intros K. apply E. symmetry. by apply known_coherent.
  - intros k f. cbn. rewrite lookup_insert. case_decide; [|apply Hwf].
    intros [= <-]. split_and!; [congruence|done|done].
  - intros t i Kt Hi. rewrite fs_bit_insert by done. case_decide as E; [|done]. rewrite Hbits by done.
    subst t. unfold fs_bit. by rewrite He.
Qed.

(** Erasing what a disjoint [modify] added restores the set. *)
Lemma fs_erase_modify fs p fs' m :
  fs_wf fs -> field_wf p -> wildcard (f_mask p) = false ->
  (forall i, 0 <= i -> fbit p i <> None -> fs_bit fs (f_type p) i = None) ->
  fs_modify fs p = Ok fs' -> mask_of_field p = Ok m -> fs_erase fs' m = Ok fs.
Proof.
  intros Hwf Hp Hn Hdisj Hmod Hm. rewrite mask_of_field_ok in Hm by done. injection Hm as <-.
  destruct (fs_modify_ok fs p Hwf Hp Hn) as (fs1 & E1 & W1 & B1).
  rewrite Hmod in E1. injection E1 as <-.
  destruct (fs_erase_ok fs' _ W1 (mask_of_field_wf p Hp)) as (fs2 & -> & W2 & B2). f_equal.
  apply fs_ext; [done..|]. intros t i Ht Hi. rewrite B2, B1 by done. cbn [m_type].
  case_decide as E; [|done]. subst t. specialize (Hdisj i Hi).
  unfold mbit, fbit in *; cbn in *. destruct (Z.testbit (bval (f_mask p)) i); [|done].
  symmetry. by apply Hdisj.
Qed.

End field_sets.
