(* ===== verification/PacketParser.v ===== *)
(** * The packet parser (src/PacketParser.cc, src/types/checked_ptr.hh)

    A packet-in payload is parsed into bindings from OXM field ids to addresses
    in the payload; [load] and [modify] then work in place.  The instance of
    [PacketLaws] at the end is the parser's side of the packet interface: every
    theorem about policies and trace trees holds of parsed packets. *)

From S2P Require Import Prelude Bits OxmField OpenflowBasic Packet.
Local Open Scope Z_scope.

(** ** Memory

    The parser points into two buffers: the payload ([data], with its length)
    and its own [in_port] member (a [big_uint32_t]).  A pointer is a buffer and
    an offset; [before_data] and [before_in_port] are the bytes stored just
    before each buffer, which the [bits] constructor reads and drops. *)

Inductive pointer := in_port_ptr | data_ptr (off : Z).

#[export] Instance pointer_eq_dec : EqDecision pointer.
Proof. solve_decision. Defined.

(** [std::array<void*, 40>], [None] the null pointer *)
Abbreviation bindings_arr := (list (option pointer)).

Record parser := Parser {
  pp_data : list Z;
  pp_in_port : list Z;
  pp_before_data : Z;
  pp_before_in_port : Z;
  pp_bindings : bindings_arr;
}.

(** [std::array::at] *)
Definition at_index {A} (l : list A) (i : Z) : res error A :=
  match l !! Z.to_nat i with Some a => Ok a | None => Throw E_out_of_range end.

(** ** Binding *)

Abbreviation binding_list := (list (basic_match_fields * pointer)).

Definition bind_one (b : bindings_arr) (x : basic_match_fields * pointer) : res error bindings_arr :=
  let id := ofb_id x.1 in
  at_index b id ≫= fun cur =>
  match cur with
  | Some _ => Throw E_invalid_argument
  | None => Ok (<[Z.to_nat id := Some x.2]> b)
  end.

Fixpoint bind (b : bindings_arr) (new_bindings : binding_list) : res error bindings_arr :=
  match new_bindings with
  | [] => Ok b
  | x :: xs => bind_one b x ≫= fun b' => bind b' xs
  end.

Fixpoint rebind (b : bindings_arr) (new_bindings : binding_list) : res error bindings_arr :=
  match new_bindings with
  | [] => Ok b
  | x :: xs =>
      let id := ofb_id x.1 in
      at_index b id ≫= fun cur =>
      match cur with
      | None => Throw E_invalid_argument
      | Some _ => rebind (<[Z.to_nat id := Some x.2]> b) xs
      end
  end.

(** ** Parsing

    [data + off] with [len] bytes left; a header field is read at its offset in
    the packed header struct. *)

Definition read_be (data : list Z) (off n : Z) : Z := be_val (take (Z.to_nat n) (drop (Z.to_nat off) data)).

Definition sizeof_ethernet_hdr := 14.
Definition sizeof_dot1q_hdr := 18.
Definition sizeof_ipv4_hdr := 20.
Definition sizeof_ipv6_hdr := 40.
Definition sizeof_tcp_hdr := 20.
Definition sizeof_udp_hdr := 8.
Definition sizeof_arp_hdr := 28.
Definition sizeof_icmp_hdr := 4.

(** [ihl * 4]; [ihl] is the low nibble of the first byte. *)
Definition ipv4_header_length (data : list Z) (off : Z) : Z := Z.land (read_be data off 1) 15 * 4.

Definition parse_l4 (data : list Z) (protocol off len : Z) (b : bindings_arr) : res error bindings_arr :=
  if protocol =? 0x06 then
    if sizeof_tcp_hdr <=? len then
      bind b [(TCP_SRC, data_ptr off); (TCP_DST, data_ptr (off + 2))]
    else Ok b
  else if protocol =? 0x11 then
    if sizeof_udp_hdr <=? len then
      bind b [(UDP_SRC, data_ptr off); (UDP_DST, data_ptr (off + 2))]
    else Ok b
  else if protocol =? 0x01 then
    if sizeof_icmp_hdr <=? len then
      bind b [(ICMPV4_TYPE, data_ptr off); (ICMPV4_CODE, data_ptr (off + 1))]
    else Ok b
  else Ok b.

Definition parse_ipv4 (data : list Z) (off len : Z) (b : bindings_arr) : res error bindings_arr :=
  if sizeof_ipv4_hdr <=? len then
    bind b [(IP_PROTO, data_ptr (off + 9)); (IPV4_SRC, data_ptr (off + 12)); (IPV4_DST, data_ptr (off + 16))]
    ≫= fun b' =>
    let hl := ipv4_header_length data off in
    if hl <? len then parse_l4 data (read_be data (off + 9) 1) (off + hl) (len - hl) b'
    else Ok b'
  else Ok b.

Definition parse_arp (data : list Z) (off len : Z) (b : bindings_arr) : res error bindings_arr :=
  if sizeof_arp_hdr <=? len then
    if negb (read_be data off 2 =? 1) || negb (read_be data (off + 2) 2 =? 0x0800)
       || negb (read_be data (off + 4) 1 =? 6) || negb (read_be data (off + 5) 1 =? 4)
    then Ok b
    else bind b [(ARP_OP, data_ptr (off + 6)); (ARP_SHA, data_ptr (off + 8)); (ARP_THA, data_ptr (off + 18));
                 (ARP_SPA, data_ptr (off + 14)); (ARP_TPA, data_ptr (off + 24))]
  else Ok b.

(** When the header does not fit, [ipv6] stays null and [ipv6->header_length()]
    throws. *)
Definition parse_ipv6 (data : list Z) (off len : Z) (b : bindings_arr) : res error bindings_arr :=
  if sizeof_ipv6_hdr <=? len then
    bind b [(IPV6_SRC, data_ptr (off + 8)); (IPV6_DST, data_ptr (off + 24)); (IP_PROTO, data_ptr (off + 6))]
    ≫= fun b' =>
    if sizeof_ipv6_hdr <? len then
      parse_l4 data (read_be data (off + 6) 1) (off + sizeof_ipv6_hdr) (len - sizeof_ipv6_hdr) b'
    else Ok b'
  else Throw E_nullptr_dereference.

Definition parse_l3 (data : list Z) (eth_type off len : Z) (b : bindings_arr) : res error bindings_arr :=
  if eth_type =? 0x0800 then parse_ipv4 data off len b
  else if eth_type =? 0x0806 then parse_arp data off len b
  else if eth_type =? 0x86dd then parse_ipv6 data off len b
  else Ok b.

Definition parse_l2 (data : list Z) (len : Z) (b : bindings_arr) : res error bindings_arr :=
  if sizeof_ethernet_hdr <=? len then
    if read_be data 12 2 =? 0x8100 then
      if sizeof_dot1q_hdr <=? len then
        bind b [(ETH_TYPE, data_ptr 16); (ETH_SRC, data_ptr 6); (ETH_DST, data_ptr 0); (VLAN_VID, data_ptr 14)]
        ≫= fun b' =>
        parse_l3 data (read_be data 16 2) sizeof_dot1q_hdr (len - sizeof_dot1q_hdr) b'
      else parse_l3 data 0 0 len b
    else
      bind b [(ETH_TYPE, data_ptr 12); (ETH_SRC, data_ptr 6); (ETH_DST, data_ptr 0)] ≫= fun b' =>
      parse_l3 data (read_be data 12 2) sizeof_ethernet_hdr (len - sizeof_ethernet_hdr) b'
  else Ok b.

(** The constructor; [data] is [None] for a packet-in without payload. *)
Definition packet_parser (data : option (list Z)) (port : Z) (before_data before_in_port : Z) : res error parser :=
  bind (replicate 40 None) [(IN_PORT, in_port_ptr)] ≫= fun b =>
  match data with
  | None => Ok (Parser [] (be_bytes 4 port) before_data before_in_port b)
  | Some d =>
      parse_l2 d (Z.of_nat (length d)) b ≫= fun b' =>
      Ok (Parser d (be_bytes 4 port) before_data before_in_port b')
  end.

(** ** Access *)

Definition access (p : parser) (t : type) : res error pointer :=
  if negb (t_ns t =? ns_value OPENFLOW_BASIC) then Throw E_out_of_range
  else match pp_bindings p !! Z.to_nat (t_id t) with
       | Some (Some ptr) => Ok ptr
       | _ => Throw E_out_of_range
       end.

(** The bytes from a pointer on, and the byte before it. *)
Definition deref (p : parser) (ptr : pointer) : list Z :=
  match ptr with
  | in_port_ptr => pp_in_port p
  | data_ptr off => drop (Z.to_nat off) (pp_data p)
  end.
Definition before (p : parser) (ptr : pointer) : Z :=
  match ptr with
  | in_port_ptr => pp_before_in_port p
  | data_ptr off => if off =? 0 then pp_before_data p else nth (Z.to_nat (off - 1)) (pp_data p) 0
  end.

(** [memcpy] of [bs] to [off]; within the buffer for every bound field. *)
Definition splice (l : list Z) (off : Z) (bs : list Z) : list Z :=
  take (Z.to_nat off) l ++ bs ++ drop (Z.to_nat off + length bs) l.

Definition store (p : parser) (ptr : pointer) (bs : list Z) : parser :=
  match ptr with
  | in_port_ptr =>
      Parser (pp_data p) (splice (pp_in_port p) 0 bs) (pp_before_data p) (pp_before_in_port p) (pp_bindings p)
  | data_ptr off =>
      Parser (splice (pp_data p) off bs) (pp_in_port p) (pp_before_data p) (pp_before_in_port p) (pp_bindings p)
  end.

Definition parser_load (p : parser) (m : mask) : res error field :=
  access p (m_type m) ≫= fun ptr =>
  let value_bits := bits_from_buffer (before p ptr) (t_nbits (m_type m)) (deref p ptr) in
  lift (make_value (m_type m) value_bits) ≫= fun v => lift (value_and_mask v m).

Definition parser_modify (p : parser) (patch : field) : res error parser :=
  lift (mask_exact (f_type patch)) ≫= fun em =>
  parser_load p em ≫= fun cur =>
  lift (field_rewrite cur patch) ≫= fun updated =>
  access p (f_type patch) ≫= fun ptr =>
  Ok (store p ptr (bits_to_buffer (f_value updated))).

#[export] Instance parser_packet : Packet parser := {| load := parser_load; modify := parser_modify |}.

(** [serialize_to], [total_bytes] *)
Definition total_bytes (p : parser) : Z := Z.of_nat (length (pp_data p)).
Definition serialize_to (buffer_size : Z) (p : parser) : list Z :=
  take (Z.to_nat (Z.min (total_bytes p) buffer_size)) (pp_data p).

(** ** Layout invariant

    Every bound field lies inside its buffer and two fields never overlap. *)

Definition blocks (t : type) : Z := num_blocks (t_nbits t).

Definition bound (b : bindings_arr) (t : type) : option pointer := mjoin (b !! Z.to_nat (t_id t)).

(** A field of [n] bytes at [ptr] fits. *)
Definition fits (data_len port_len : Z) (ptr : pointer) (n : Z) : Prop :=
  match ptr with
  | in_port_ptr => n <= port_len
  | data_ptr off => 0 <= off /\ off + n <= data_len
  end.

Definition apart (p : pointer) (n : Z) (q : pointer) (m : Z) : Prop :=
  match p, q with
  | in_port_ptr, in_port_ptr => False
  | data_ptr o, data_ptr o' => o + n <= o' \/ o' + m <= o
  | _, _ => True
  end.

Record layout (data_len port_len : Z) (b : bindings_arr) : Prop := {
  lay_size : length b = 40%nat;
  lay_fits : forall t ptr, known t -> bound b t = Some ptr -> fits data_len port_len ptr (blocks t);
  lay_apart : forall s t p q, known s -> known t -> s <> t ->
    bound b s = Some p -> bound b t = Some q -> apart p (blocks s) q (blocks t);
}.

Definition parser_wf (p : parser) : Prop :=
  layout (Z.of_nat (length (pp_data p))) (Z.of_nat (length (pp_in_port p))) (pp_bindings p).

Definition field_bytes (p : parser) (t : type) (ptr : pointer) : list Z :=
  take (Z.to_nat (blocks t)) (deref p ptr).

Definition parser_val (p : parser) (t : type) : option Z :=
  ptr ← bound (pp_bindings p) t; Some (wrap (t_nbits t) (be_val (field_bytes p t ptr))).

(** ** [load] and [modify] are the packet interface *)

Lemma known_basic t : known t -> t_ns t = 0x8000 /\ 0 <= t_id t < 40 /\ 0 < t_nbits t /\ 0 < blocks t.
Proof.
  intros Ht. pose proof (known_nbits t Ht). pose proof openflow_basic_ranges as Hr.
  rewrite Forall_forall in Hr. destruct (Hr t Ht) as (? & ? & ?). split_and!; [done|lia..|].
  unfold blocks. pose proof (num_blocks_bound (t_nbits t)). lia.
Qed.

Lemma access_known p t :
  known t -> access p t = match bound (pp_bindings p) t with Some ptr => Ok ptr | None => Throw E_out_of_range end.
Proof.
  intros Ht. destruct (known_basic t Ht) as [Hns _]. unfold access, bound. rewrite Hns. cbn.
  by destruct (pp_bindings p !! Z.to_nat (t_id t)) as [[ptr|]|].
Qed.

Lemma deref_long p t ptr :
  parser_wf p -> known t -> bound (pp_bindings p) t = Some ptr ->
  (Z.to_nat (blocks t) <= length (deref p ptr))%nat.
Proof.
  intros Hw Ht Hb. destruct (known_basic t Ht) as (_ & _ & _ & Hbl).
  pose proof (lay_fits _ _ _ Hw t ptr Ht Hb) as Hf. destruct ptr; cbn in *; rewrite ?length_drop; lia.
Qed.

Lemma parser_load_ok p m v :
  parser_wf p -> mask_wf m -> parser_val p (m_type m) = Some v ->
  exists f, parser_load p m = Ok f /\ field_wf f /\ f_type f = m_type m /\ f_mask f = m_bits m
    /\ forall i, 0 <= i -> fbit f i = if mbit m i then Some (Z.testbit v i) else None.
Proof.
  intros Hw Hm Hv. pose proof (proj1 Hm) as Hk. destruct (known_basic _ Hk) as (_ & _ & Hnb & _).
  unfold parser_val in Hv. destruct (bound (pp_bindings p) (m_type m)) as [ptr|] eqn:Eb; [|done].
  injection Hv as <-. unfold parser_load. rewrite access_known, Eb, res_bind_Ok by done.
  pose proof (deref_long p _ _ Hw Hk Eb) as Hlen.
  set (vb := bits_from_buffer _ _ _). assert (Hat : bits_at (m_type m) vb).
  { split; [apply bits_from_buffer_wf; lia|done]. }
  rewrite make_value_ok, lift_Ok, res_bind_Ok by done.
  destruct (value_and_mask_ok (Value (m_type m) vb) m) as (g & -> & Wg & Tg & Mg & Bg); [done..|].
  exists g. split_and!; [done..|]. intros i Hi. rewrite Bg. cbn [v_bits].
  unfold vb. rewrite bits_from_buffer_val by (done || lia). done.
Qed.

Lemma splice_length l off bs :
  0 <= off -> off + Z.of_nat (length bs) <= Z.of_nat (length l) -> length (splice l off bs) = length l.
Proof. intros. unfold splice. rewrite !length_app, length_take, length_drop. lia. Qed.

(** A read that stays off the written bytes sees the old buffer. *)
Lemma splice_apart l off bs off' n :
  0 <= off -> 0 <= off' -> 0 <= n -> off + Z.of_nat (length bs) <= Z.of_nat (length l) ->
  off' + n <= Z.of_nat (length l) ->
  off' + n <= off \/ off + Z.of_nat (length bs) <= off' ->
  take (Z.to_nat n) (drop (Z.to_nat off') (splice l off bs)) = take (Z.to_nat n) (drop (Z.to_nat off') l).
Proof.
  intros Ho Ho' Hn Hl Hl' [Hd|Hd]; unfold splice.
  - rewrite drop_app_le, take_app_le by (rewrite ?length_drop, length_take; lia).
    rewrite <- (take_drop (Z.to_nat off) l) at 2.
    by rewrite drop_app_le, take_app_le by (rewrite ?length_drop, length_take; lia).
  - rewrite drop_app_ge by (rewrite length_take; lia). rewrite length_take, Nat.min_l by lia.
    rewrite drop_app_ge by lia. rewrite drop_drop. do 2 f_equal. lia.
Qed.

Lemma splice_outside l off bs (i : nat) :
  0 <= off -> off + Z.of_nat (length bs) <= Z.of_nat (length l) ->
  ~ (off <= Z.of_nat i < off + Z.of_nat (length bs)) -> splice l off bs !! i = l !! i.
Proof.
  intros Ho Hl Hi. unfold splice. destruct (decide (Z.of_nat i < off)).
  - rewrite lookup_app_l by (rewrite length_take; lia). apply lookup_take_lt. lia.
  - rewrite lookup_app_r, length_take, lookup_app_r, lookup_drop by (rewrite ?length_take; lia). f_equal. lia.
Qed.

Lemma splice_same l off bs :
  0 <= off -> off + Z.of_nat (length bs) <= Z.of_nat (length l) ->
  take (length bs) (drop (Z.to_nat off) (splice l off bs)) = bs.
Proof.
  intros. unfold splice. rewrite drop_app_length' by (rewrite length_take; lia).
  by apply take_app_length'.
Qed.

Lemma bound_store p ptr bs : pp_bindings (store p ptr bs) = pp_bindings p.
Proof. by destruct ptr. Qed.

Section stored.
Variables (p : parser) (t : type) (ptr : pointer) (bs : list Z).
Hypothesis Hw : parser_wf p.
Hypothesis Ht : known t.
Hypothesis Hb : bound (pp_bindings p) t = Some ptr.
Hypothesis Hl : Z.of_nat (length bs) = blocks t.

Lemma store_lengths :
  length (pp_data (store p ptr bs)) = length (pp_data p)
  /\ length (pp_in_port (store p ptr bs)) = length (pp_in_port p).
Proof.
  pose proof (lay_fits _ _ _ Hw t ptr Ht Hb) as Hf. destruct ptr as [|off]; cbn in *.
  - split; [done|]. apply splice_length; lia.
  - split; [|done]. apply splice_length; lia.
Qed.

Lemma store_wf : parser_wf (store p ptr bs).
Proof. unfold parser_wf. destruct store_lengths as [-> ->]. by rewrite bound_store. Qed.

Lemma store_same : field_bytes (store p ptr bs) t ptr = bs.
Proof.
  unfold field_bytes. rewrite <- Hl, Nat2Z.id.
  pose proof (lay_fits _ _ _ Hw t ptr Ht Hb) as Hf. destruct ptr as [|off]; cbn in *.
  - pose proof (splice_same (pp_in_port p) 0 bs) as Hs. cbn [Z.to_nat drop] in Hs. apply Hs; lia.
  - apply splice_same; lia.
Qed.

Lemma store_other s q :
  known s -> s <> t -> bound (pp_bindings p) s = Some q ->
  field_bytes (store p ptr bs) s q = field_bytes p s q.
Proof.
  intros Hs Hne Hq. destruct (known_basic s Hs) as (_ & _ & _ & Hbl).
  pose proof (lay_fits _ _ _ Hw t ptr Ht Hb) as Hf. pose proof (lay_fits _ _ _ Hw s q Hs Hq) as Hg.
  pose proof (lay_apart _ _ _ Hw s t q ptr Hs Ht Hne Hq Hb) as Ha. unfold field_bytes.
  destruct ptr as [|off], q as [|off']; cbn in *; try done. apply splice_apart; lia.
Qed.
End stored.

Lemma to_buffer_blocks t b : bits_at t b -> known t -> Z.of_nat (length (bits_to_buffer b)) = blocks t.
Proof.
  intros [_ Hs] Ht. rewrite bits_to_buffer_length, Hs. destruct (known_basic t Ht) as (_ & _ & _ & H).
  unfold blocks in H. rewrite Z2Nat.id; [done|]. unfold blocks in *. lia.
Qed.

Lemma parser_val_stored p t ptr b :
  bits_at t b -> known t -> field_bytes p t ptr = bits_to_buffer b ->
  bound (pp_bindings p) t = Some ptr -> parser_val p t = Some (bval b).
Proof.
  intros [Hb Hs] Ht Hf Hp. unfold parser_val. rewrite Hp. cbn. rewrite Hf. f_equal.
  pose proof (bits_buffer_roundtrip 0 b [] Hb) as Hr. rewrite app_nil_r in Hr.
  apply (f_equal bval) in Hr. destruct (known_basic t Ht) as (_ & _ & Hnb & _).
  rewrite bits_from_buffer_val in Hr by (rewrite ?bits_to_buffer_length; lia).
  rewrite firstn_all2 in Hr by (rewrite bits_to_buffer_length; lia). by rewrite <- Hs.
Qed.

(** What [modify] stores: the old value of the field, rewritten by the patch. *)
Lemma parser_modify_store p f v :
  parser_wf p -> field_wf f -> parser_val p (f_type f) = Some v ->
  exists ptr h, bound (pp_bindings p) (f_type f) = Some ptr
    /\ parser_modify p f = Ok (store p ptr (bits_to_buffer h)) /\ bits_at (f_type f) h
    /\ forall i, 0 <= i -> Z.testbit (bval h) i = default (Z.testbit v i) (fbit f i).
Proof.
  intros Hw Hf Hv. pose proof (proj1 Hf) as Hk. destruct (known_basic _ Hk) as (_ & _ & Hnb & _).
  unfold parser_modify, mask_exact. rewrite make_mask_ok, lift_Ok, res_bind_Ok by (apply mask_ok_set; lia).
  set (em := Mask (f_type f) (bits_set (bits_zero (t_nbits (f_type f))))).
  assert (Wem : mask_wf em) by (split; [done|apply (mask_ok_set (f_type f)); lia]).
  destruct (parser_load_ok p em v Hw Wem Hv) as (cur & -> & Wc & Tc & Mc & Bc). rewrite res_bind_Ok.
  destruct (field_rewrite_ok cur f Wc Hf Tc) as (h & -> & Wh & Th & Bh). rewrite lift_Ok, res_bind_Ok.
  rewrite access_known by done. unfold parser_val in Hv.
  destruct (bound (pp_bindings p) (f_type f)) as [ptr|] eqn:Eb; [|done]. rewrite res_bind_Ok.
  assert (Hat : bits_at (f_type f) (f_value h)).
  { destruct Wh as (_ & Hat & _). by rewrite Th, Tc in Hat. }
  exists ptr, (f_value h). split_and!; [done..|]. injection Hv as Hv. intros i Hi. specialize (Bh i Hi).
  rewrite Bc in Bh by done. unfold mbit in Bh; cbn in Bh. rewrite testbit_ones in Bh by lia.
  destruct (Z.ltb_spec i (t_nbits (f_type f))) as [Hlt|Hge].
  - unfold fbit in Bh. destruct (Z.testbit (bval (f_mask h)) i).
    + destruct (Z.testbit (bval (f_mask f)) i) eqn:Em; injection Bh as ->.
      { unfold fbit. by rewrite Em. }
      unfold fbit. rewrite Em. cbn. by rewrite <- Hv.
    + by destruct (if Z.testbit (bval (f_mask f)) i then _ else _).
  - rewrite (fbit_high f) by done. cbn. destruct Hat as [Hbw Hsz].
    rewrite (bits_wf_testbit_high (f_value h)) by (rewrite ?Hsz; done).
    rewrite <- Hv. symmetry. apply Z_testbit_high with (t_nbits (f_type f)); [|done].
    apply wrap_in_width. lia.
Qed.

Lemma parser_modify_ok p f v :
  parser_wf p -> field_wf f -> parser_val p (f_type f) = Some v ->
  exists p' v', parser_modify p f = Ok p' /\ parser_wf p' /\ parser_val p' (f_type f) = Some v'
    /\ (forall i, 0 <= i -> Z.testbit v' i = default (Z.testbit v i) (fbit f i))
    /\ (forall t, known t -> t <> f_type f -> parser_val p' t = parser_val p t)
    /\ total_bytes p' = total_bytes p.
Proof.
  intros Hw Hf Hv. pose proof (proj1 Hf) as Hk.
  destruct (parser_modify_store p f v Hw Hf Hv) as (ptr & h & Eb & Em & Hat & Hbits).
  pose proof (to_buffer_blocks _ _ Hat Hk) as Hlen.
  exists (store p ptr (bits_to_buffer h)), (bval h). split_and!; [done| | |done| |].
  - by eapply store_wf.
  - apply (parser_val_stored _ _ ptr); [done..| |by rewrite bound_store]. by apply store_same.
  - intros t Htk Hne. unfold parser_val. rewrite bound_store.
    destruct (bound (pp_bindings p) t) as [q|] eqn:Eq; [|done]. cbn.
    by rewrite (store_other p (f_type f) ptr).
  - unfold total_bytes. f_equal. by eapply store_lengths.
Qed.

Lemma parser_val_absent p t : parser_val p t = None -> bound (pp_bindings p) t = None.
Proof. unfold parser_val. by destruct (bound (pp_bindings p) t). Qed.

#[export, refine] Instance parser_laws : PacketLaws parser := {|
  pkt_wf := parser_wf;
  pval := parser_val;
|}.
Proof.
  - intros p m Hw Hm Hn%parser_val_absent. cbn. unfold parser_load.
    by rewrite access_known, Hn by apply Hm.
  - intros p m v Hw Hm Hv. destruct (parser_load_ok p m v Hw Hm Hv) as (f & ? & ? & ? & _ & ?). eauto.
  - intros p f Hw Hf Hn%parser_val_absent. cbn. unfold parser_modify, mask_exact. pose proof (proj1 Hf) as Hk.
    destruct (known_basic _ Hk) as (_ & _ & Hnb & _).
    rewrite make_mask_ok, lift_Ok, res_bind_Ok by (apply mask_ok_set; lia). unfold parser_load. cbn.
    by rewrite access_known, Hn.
  - intros p f v Hw Hf Hv. destruct (parser_modify_ok p f v Hw Hf Hv) as (p' & v' & ? & ? & ? & ? & ? & _).
    by exists p', v'.
Defined.

(** ** What the constructor builds *)

(** Bytes each bound field takes in its header struct. *)
Definition field_size (f : basic_match_fields) : Z :=
  match f with
  | IP_PROTO | ICMPV4_TYPE | ICMPV4_CODE => 1
  | ETH_TYPE | VLAN_VID | TCP_SRC | TCP_DST | UDP_SRC | UDP_DST | ARP_OP => 2
  | IN_PORT | IPV4_SRC | IPV4_DST | ARP_SPA | ARP_TPA => 4
  | ETH_DST | ETH_SRC | ARP_SHA | ARP_THA => 6
  | IPV6_SRC | IPV6_DST => 16
  | _ => 0
  end.

Lemma field_size_blocks t f : known t -> t_id t = ofb_id f -> blocks t = field_size f.
Proof.
  assert (H : Forall (fun t => forall f, t_id t = ofb_id f -> blocks t = field_size f) openflow_basic).
  { unfold openflow_basic. repeat (apply Forall_cons; split; [by intros []|]). by apply Forall_nil. }
  rewrite Forall_forall in H. intros Ht. exact (H t Ht f).
Qed.

Definition bind_all (b : bindings_arr) (es : binding_list) : bindings_arr :=
  fold_left (fun b x => <[Z.to_nat (ofb_id x.1) := Some x.2]> b) es b.

(** Only the fields of [S] are bound. *)
Definition only (b : bindings_arr) (S : list basic_match_fields) : Prop :=
  length b = 40%nat /\ forall f, f ∉ S -> b !! Z.to_nat (ofb_id f) = Some None.

Lemma ofb_id_range f : 0 <= ofb_id f < 40.
Proof. by destruct f. Qed.

Lemma ofb_id_nat_inj f g : Z.to_nat (ofb_id f) = Z.to_nat (ofb_id g) -> f = g.
Proof. pose proof (ofb_id_range f). pose proof (ofb_id_range g). intros E. apply ofb_id_inj. lia. Qed.

Lemma bind_ok b S es :
  only b S -> NoDup (map fst es ++ S) ->
  bind b es = Ok (bind_all b es) /\ only (bind_all b es) (map fst es ++ S).
Proof.
  revert b S. induction es as [|[f q] es IH]; intros b S Ho Hd; [done|].
  cbn in Hd. apply NoDup_cons in Hd as [Hf Hd]. rewrite elem_of_app in Hf.
  destruct Ho as [Hlen Ho]. cbn [bind bind_all fold_left]. unfold bind_one, at_index. cbn [fst snd].
  rewrite Ho by auto. rewrite res_bind_Ok, res_bind_Ok.
  destruct (IH (<[Z.to_nat (ofb_id f):=Some q]> b) (f :: S)) as [E [Hl' Ho']].
  - split; [by rewrite length_insert|]. intros g [Hg Hg']%not_elem_of_cons.
    rewrite list_lookup_insert_ne; [auto|]. intros ?%ofb_id_nat_inj. by subst.
  - apply NoDup_app. apply NoDup_app in Hd as (H1 & H2 & H3). split_and!; [done| |].
    + intros x Hx [->|?]%elem_of_cons; [by apply Hf; left|by eapply H2].
    + constructor; [|done]. tauto.
  - split; [done|]. split; [done|]. intros g Hg. apply Ho'. cbn in Hg.
    rewrite not_elem_of_cons, not_elem_of_app in Hg. rewrite not_elem_of_app, not_elem_of_cons. tauto.
Qed.

Lemma bound_bind_all b es t q :
  known t -> bound (bind_all b es) t = Some q ->
  (exists f, (f, q) ∈ es /\ t_id t = ofb_id f) \/ bound b t = Some q.
Proof.
  intros Ht. destruct (known_basic t Ht) as (_ & Hr & _).
  revert b. induction es as [|[f q'] es IH]; intros b; cbn; [auto|].
  intros [(g & Hg & Ht')|Hb]%IH; [left; exists g; split; [by right|done]|].
  unfold bound in Hb. cbn in Hb. pose proof (ofb_id_range f).
  destruct (decide (t_id t = ofb_id f)) as [E|E].
  - rewrite E in Hb. destruct (decide (Z.to_nat (ofb_id f) < length b)%nat).
    + rewrite list_lookup_insert_eq in Hb by done. cbn in Hb. injection Hb as ->. left. exists f. split; [left|done].
    + rewrite list_insert_ge in Hb by lia. right. unfold bound. by rewrite E.
  - right. unfold bound. by rewrite list_lookup_insert_ne in Hb by lia.
Qed.

(** The layout invariant with the end of the last bound field. *)
Definition lay (len : Z) (b : bindings_arr) (hi : Z) : Prop :=
  layout len 4 b /\ forall t off, known t -> bound b t = Some (data_ptr off) -> off + blocks t <= hi.

Definition entry_in (lo hi : Z) (x : basic_match_fields * pointer) : Prop :=
  exists o, x.2 = data_ptr o /\ lo <= o /\ o + field_size x.1 <= hi.

Definition entries_apart (x y : basic_match_fields * pointer) : Prop :=
  apart x.2 (field_size x.1) y.2 (field_size y.1).

Lemma apart_sym p n q m : apart p n q m -> apart q m p n.
Proof. destruct p, q; cbn; tauto. Qed.

Lemma bind_all_lay len b es lo hi :
  lay len b lo -> length b = 40%nat -> 0 <= lo -> lo <= hi <= len ->
  Forall (entry_in lo hi) es -> ForallOrdPairs entries_apart es ->
  lay len (bind_all b es) hi.
Proof.
  intros [Hlay Hend] Hlen Hlo Hhi Hin Hap. rewrite Forall_forall in Hin.
  assert (Hsz : length (bind_all b es) = 40%nat).
  { clear -Hlen. revert b Hlen. induction es as [|x es IH]; cbn; [done|]. intros b Hb. apply IH. by rewrite length_insert. }
  assert (Hnew : forall t f q, known t -> (f, q) ∈ es -> t_id t = ofb_id f ->
            exists o, q = data_ptr o /\ lo <= o /\ o + blocks t <= hi).
  { intros t f q Ht Hq E. destruct (Hin _ Hq) as (o & Eq & ? & ?). cbn in *. subst q.
    exists o. rewrite (field_size_blocks t f) by done. done. }
  assert (Hold : forall t f q s q', known t -> known s -> (f, q) ∈ es -> t_id t = ofb_id f ->
            bound b s = Some q' -> apart q' (blocks s) q (blocks t)).
  { intros t f q s q' Ht Hs Hq E Hb. destruct (Hnew t f q Ht Hq E) as (o & -> & ? & ?).
    destruct q'; cbn; [done|]. pose proof (Hend s off Hs Hb). lia. }
  split; [split|].
  - done.
  - intros t q Ht [(f & Hq & E)|Hb]%bound_bind_all; [|by apply Hlay|done].
    destruct (Hnew t f q Ht Hq E) as (o & -> & ? & ?). cbn. lia.
  - intros s t q r Hs Ht Hne [(f & Hq & E)|Hb]%bound_bind_all [(g & Hr & E')|Hb']%bound_bind_all; try done.
    + destruct (ForallOrdPairs_In Hap (f, q) (g, r)) as [Heq|[Ha|Ha]].
      * by apply list_elem_of_In.
      * by apply list_elem_of_In.
      * injection Heq as -> ->. destruct Hne. apply openflow_basic_coherent; [done..|]. unfold type_key.
        destruct (known_basic s Hs) as [-> _], (known_basic t Ht) as [-> _]. congruence.
      * unfold entries_apart in Ha; cbn in Ha. by rewrite (field_size_blocks s f), (field_size_blocks t g).
      * apply apart_sym. unfold entries_apart in Ha; cbn in Ha.
        by rewrite (field_size_blocks s f), (field_size_blocks t g).
    + apply apart_sym. by eapply Hold.
    + by eapply Hold.
    + by eapply lay_apart.
  - intros t off Ht [(f & Hq & E)|Hb]%bound_bind_all; [| |done].
    + destruct (Hnew t f _ Ht Hq E) as (o & [= ->] & ? & ?). done.
    + pose proof (Hend t off Ht Hb). lia.
Qed.

Ltac solve_entries :=
  repeat match goal with
  | |- Forall _ [] => constructor
  | |- ForallOrdPairs _ [] => constructor
  | |- Forall _ (_ :: _) => constructor
  | |- ForallOrdPairs _ (_ :: _) => constructor
  | |- entry_in _ _ _ => eexists; split; [reflexivity|cbn; lia]
  | |- entries_apart _ _ => cbn; lia
  end.

(** One [bind] of the parser: it never meets a bound field, and it lays its
    fields out in [lo, hi). *)
Lemma bind_step b S es :
  only b S -> bool_decide (NoDup (map fst es ++ S)) = true ->
  exists b', bind b es = Ok b' /\ only b' (map fst es ++ S)
    /\ forall len lo hi, lay len b lo -> 0 <= lo -> lo <= hi <= len ->
         Forall (entry_in lo hi) es -> ForallOrdPairs entries_apart es -> lay len b' hi.
Proof.
  intros Ho Hd%bool_decide_eq_true. destruct (bind_ok b S es Ho Hd) as [E Ho'].
  exists (bind_all b es). split_and!; [done..|]. intros len lo hi Hl ????. eapply bind_all_lay; try done.
  apply Ho.
Qed.

Definition l2_fields := [ETH_TYPE; ETH_SRC; ETH_DST; IN_PORT].
Definition l2_vlan_fields := [ETH_TYPE; ETH_SRC; ETH_DST; VLAN_VID; IN_PORT].

Lemma lay_weaken len b lo hi : lay len b lo -> lo <= hi -> lay len b hi.
Proof. intros [Hl He] Hle. split; [done|]. intros t off Ht Hb. specialize (He t off Ht Hb). lia. Qed.

Definition l4_fields := [[TCP_SRC; TCP_DST]; [UDP_SRC; UDP_DST]; [ICMPV4_TYPE; ICMPV4_CODE]].

Definition l4_free (S : list basic_match_fields) : bool :=
  forallb (fun es => bool_decide (NoDup (es ++ S))) l4_fields.

Lemma parse_l4_ok data protocol off len b S :
  only b S -> l4_free S = true ->
  exists b', parse_l4 data protocol off len b = Ok b'
    /\ forall total lo, lay total b lo -> 0 <= lo <= off -> off + len <= total -> layout total 4 b'.
Proof.
  intros Ho Hf. unfold l4_free, l4_fields in Hf. cbn [forallb] in Hf.
  apply andb_prop in Hf as [Ht Hf]. apply andb_prop in Hf as [Hu Hf]. apply andb_prop in Hf as [Hi _].
  assert (Hgo : forall es hl, bool_decide (NoDup (map fst es ++ S)) = true -> hl <= len ->
    (0 <= off -> Forall (entry_in off (off + hl)) es /\ ForallOrdPairs entries_apart es) -> 0 <= hl ->
    exists b', bind b es = Ok b'
      /\ forall total lo, lay total b lo -> 0 <= lo <= off -> off + len <= total -> layout total 4 b').
  { intros es hl Hd Hl He Hh. destruct (bind_step b S es Ho Hd) as (b' & E & _ & Hl'). exists b'. split; [done|].
    intros total lo Hlay Hlo Hlen. destruct He as [? ?]; [lia|].
    apply (Hl' total off (off + hl)); try done; try lia. eapply lay_weaken; [exact Hlay|lia]. }
  unfold parse_l4, sizeof_tcp_hdr, sizeof_udp_hdr, sizeof_icmp_hdr.
  repeat case_match; try (exists b; split; [done|]; by intros ? ? [? _]);
    (match goal with E : (_ <=? _) = true |- _ => apply Z.leb_le in E end); apply (Hgo _ 4); try done; try lia;
    intros; split; solve_entries.
Qed.

(** EtherType and offset of the third layer, as [parse_l2] finds them. *)
Definition l3_start (d : list Z) : Z * Z :=
  let len := Z.of_nat (length d) in
  if sizeof_ethernet_hdr <=? len then
    if read_be d 12 2 =? 0x8100 then
      if sizeof_dot1q_hdr <=? len then (read_be d 16 2, sizeof_dot1q_hdr) else (0, 0)
    else (read_be d 12 2, sizeof_ethernet_hdr)
  else (0, 0).

Definition ipv6_truncated (d : list Z) : bool :=
  let '(et, off) := l3_start d in (et =? 0x86dd) && (Z.of_nat (length d) - off <? sizeof_ipv6_hdr).

(** The IPv4 header, where there is one, is not shorter than its fixed part. *)
Definition ihl_ok (d : list Z) : Prop :=
  let '(et, off) := l3_start d in
  et = 0x0800 -> sizeof_ipv4_hdr <= Z.of_nat (length d) - off -> sizeof_ipv4_hdr <= ipv4_header_length d off.

Lemma parse_l3_ok data et off len b S :
  only b S -> S = l2_fields \/ S = l2_vlan_fields ->
  if (et =? 0x86dd) && (len <? sizeof_ipv6_hdr) then parse_l3 data et off len b = Throw E_nullptr_dereference
  else exists b', parse_l3 data et off len b = Ok b'
    /\ forall total, lay total b off -> 0 <= off -> off + len <= total ->
         (et = 0x0800 -> sizeof_ipv4_hdr <= len -> sizeof_ipv4_hdr <= ipv4_header_length data off) ->
         layout total 4 b'.
Proof.
  intros Ho HS. unfold parse_l3.
  assert (Hkeep : exists b', Ok b = Ok (E := error) b' /\ forall total, lay total b off -> 0 <= off -> off + len <= total ->
    (et = 0x0800 -> sizeof_ipv4_hdr <= len -> sizeof_ipv4_hdr <= ipv4_header_length data off) -> layout total 4 b').
  { exists b. split; [done|]. by intros total [? _]. }
  assert (Hd : forall es, (forall T, T = l2_fields \/ T = l2_vlan_fields -> bool_decide (NoDup (es ++ T)) = true) ->
    bool_decide (NoDup (es ++ S)) = true) by auto.
  assert (Hf : forall es, (forall T, T = l2_fields \/ T = l2_vlan_fields -> l4_free (es ++ T) = true) ->
    l4_free (es ++ S) = true) by auto.
  destruct (Z.eqb_spec et 0x0800) as [->|N4]; cbn [andb Z.eqb Pos.eqb].
  { unfold parse_ipv4. destruct (Z.leb_spec sizeof_ipv4_hdr len) as [Hl|Hl]; [|done].
    edestruct (bind_step b S) as (b1 & -> & Ho1 & Hl1); [done| |].
    { apply Hd. by intros T [->| ->]. }
    rewrite res_bind_Ok. destruct (Z.ltb_spec (ipv4_header_length data off) len) as [Hh|Hh].
    - edestruct parse_l4_ok as (b2 & -> & Hl2); [exact Ho1| |].
      { apply Hf. by intros T [->| ->]. }
      exists b2. split; [done|]. intros total Hlay H0 Ht Hihl. unfold sizeof_ipv4_hdr in *.
      specialize (Hihl eq_refl Hl).
      apply (Hl2 total (off + 20)); [|lia|lia]. apply (Hl1 total off); try done; try lia; solve_entries.
    - exists b1. split; [done|]. intros total Hlay H0 Ht Hihl. unfold sizeof_ipv4_hdr in *.
      apply (Hl1 total off (off + 20)); try done; try lia; solve_entries. }
  destruct (Z.eqb_spec et 0x0806) as [->|NA]; cbn [andb Z.eqb Pos.eqb].
  { unfold parse_arp. destruct (Z.leb_spec sizeof_arp_hdr len) as [Hl|Hl]; [|done].
    destruct (_ || _ || _ || _); [done|].
    edestruct (bind_step b S) as (b1 & -> & Ho1 & Hl1); [done| |].
    { apply Hd. by intros T [->| ->]. }
    exists b1. split; [done|]. intros total Hlay H0 Ht _. unfold sizeof_arp_hdr in *.
    apply (Hl1 total off (off + 28)); try done; try lia; solve_entries. }
  destruct (Z.eqb_spec et 0x86dd) as [->|N6]; cbn [andb]; [|done].
  unfold parse_ipv6. rewrite Z.ltb_antisym. destruct (Z.leb_spec sizeof_ipv6_hdr len) as [Hl|Hl]; [|done]. cbn [negb].
  edestruct (bind_step b S) as (b1 & -> & Ho1 & Hl1); [done| |].
  { apply Hd. by intros T [->| ->]. }
  rewrite res_bind_Ok. unfold sizeof_ipv6_hdr in *. destruct (Z.ltb_spec 40 len) as [Hh|Hh].
  - edestruct parse_l4_ok as (b2 & -> & Hl2); [exact Ho1| |].
    { apply Hf. by intros T [->| ->]. }
    exists b2. split; [done|]. intros total Hlay H0 Ht _.
    apply (Hl2 total (off + 40)); [|lia|lia]. apply (Hl1 total off); try done; try lia; solve_entries.
  - exists b1. split; [done|]. intros total Hlay H0 Ht _.
    apply (Hl1 total off (off + 40)); try done; try lia; solve_entries.
Qed.

Lemma parse_l2_ok d b :
  only b [IN_PORT] ->
  if ipv6_truncated d then parse_l2 d (Z.of_nat (length d)) b = Throw E_nullptr_dereference
  else exists b', parse_l2 d (Z.of_nat (length d)) b = Ok b'
    /\ (ihl_ok d -> lay (Z.of_nat (length d)) b 0 -> layout (Z.of_nat (length d)) 4 b').
Proof.
  intros Ho. unfold ipv6_truncated, ihl_ok, l3_start, parse_l2. set (len := Z.of_nat (length d)).
  assert (Hkeep : exists b', Ok b = Ok (E := error) b' /\ ((0 = 2048 -> sizeof_ipv4_hdr <= len - 0 ->
    sizeof_ipv4_hdr <= ipv4_header_length d 0) -> lay len b 0 -> layout len 4 b')).
  { exists b. split; [done|]. by intros _ [? _]. }
  destruct (Z.leb_spec sizeof_ethernet_hdr len) as [Hl|Hl]; [|done].
  destruct (Z.eqb_spec (read_be d 12 2) 0x8100) as [Hv|Hv].
  - destruct (Z.leb_spec sizeof_dot1q_hdr len) as [Hl'|Hl']; [|done].
    destruct (bind_step b [IN_PORT] [(ETH_TYPE, data_ptr 16); (ETH_SRC, data_ptr 6); (ETH_DST, data_ptr 0);
      (VLAN_VID, data_ptr 14)]) as (b1 & -> & Ho1 & Hl1); [done..|]. rewrite res_bind_Ok.
    pose proof (parse_l3_ok d (read_be d 16 2) sizeof_dot1q_hdr (len - sizeof_dot1q_hdr) b1 _ Ho1 (or_intror eq_refl)) as H3.
    destruct (_ && _); [done|]. destruct H3 as (b2 & -> & H3). exists b2. split; [done|]. intros Hihl Hlay.
    unfold sizeof_dot1q_hdr in *.
    apply H3; try done; [apply (Hl1 len 0); try done; try lia; solve_entries|lia].
  - destruct (bind_step b [IN_PORT] [(ETH_TYPE, data_ptr 12); (ETH_SRC, data_ptr 6); (ETH_DST, data_ptr 0)])
      as (b1 & -> & Ho1 & Hl1); [done..|]. rewrite res_bind_Ok.
    pose proof (parse_l3_ok d (read_be d 12 2) sizeof_ethernet_hdr (len - sizeof_ethernet_hdr) b1 _ Ho1 (or_introl eq_refl)) as H3.
    destruct (_ && _); [done|]. destruct H3 as (b2 & -> & H3). exists b2. split; [done|]. intros Hihl Hlay.
    unfold sizeof_ethernet_hdr in *.
    apply H3; try done; [apply (Hl1 len 0); try done; try lia; solve_entries|lia].
Qed.

(** The bindings of the constructor before the payload is parsed. *)
Lemma port_bound :
  bind (replicate 40 None) [(IN_PORT, in_port_ptr)] = Ok (<[0%nat := Some in_port_ptr]> (replicate 40 None)).
Proof. reflexivity. Qed.

Lemma port_only : only (<[0%nat := Some in_port_ptr]> (replicate 40 None)) [IN_PORT].
Proof. split; [done|]. intros f Hf. destruct f; try done. destruct Hf. by left. Qed.

Lemma port_lay len : 0 <= len -> lay len (<[0%nat := Some in_port_ptr]> (replicate 40 None)) 0.
Proof.
  intros Hl.
  assert (Hb : forall t q, known t -> bound (<[0%nat := Some in_port_ptr]> (replicate 40 None)) t = Some q ->
            t = in_port /\ q = in_port_ptr).
  { intros t q Ht. destruct (known_basic t Ht) as (Hns & Hid & _). unfold bound.
    destruct (decide (t_id t = 0)) as [E|E].
    - rewrite E. cbn. intros [= <-]. split; [|done].
      apply openflow_basic_coherent; [done|apply list_elem_of_In; cbn; auto|].
      unfold type_key. by rewrite Hns, E.
    - rewrite list_lookup_insert_ne by lia. rewrite lookup_replicate_2 by lia. done. }
  split; [split|].
  - done.
  - intros t q Ht [-> ->]%Hb; [|done]. cbn. unfold blocks; cbn. done.
  - intros s t p q Hs Ht Hne [-> _]%Hb [-> _]%Hb; done.
  - intros t off Ht [_ [=]]%Hb; done.
Qed.

(** The parser as a function of the payload, for the cases that construct. *)
Lemma packet_parser_total d port bd bp :
  if ipv6_truncated d then packet_parser (Some d) port bd bp = Throw E_nullptr_dereference
  else exists p, packet_parser (Some d) port bd bp = Ok p /\ pp_data p = d
    /\ pp_in_port p = be_bytes 4 port /\ (ihl_ok d -> parser_wf p).
Proof.
  unfold packet_parser. rewrite port_bound, res_bind_Ok. pose proof (parse_l2_ok d _ port_only) as H2.
  destruct (ipv6_truncated d); [by rewrite H2|]. destruct H2 as (b' & -> & Hl). rewrite res_bind_Ok.
  eexists; split_and!; [done..|]. intros Hihl. apply Hl; [done|]. apply port_lay. lia.
Qed.

(** C32: the constructor never meets an already bound field.  It fails, with
    nullptr_dereference, exactly on a payload whose EtherType says IPv6 and
    which is too short for the IPv6 header; otherwise the parser holds the
    payload unchanged and, when the IPv4 header length covers the fixed header,
    all bound fields lie inside the payload without overlapping. *)
Theorem packet_parser_ok d port bd bp :
  match packet_parser (Some d) port bd bp with
  | Throw e => e = E_nullptr_dereference /\ ipv6_truncated d = true
  | Ok p => ipv6_truncated d = false /\ pp_data p = d /\ pp_in_port p = be_bytes 4 port
      /\ (ihl_ok d -> parser_wf p)
  end.
Proof.
  pose proof (packet_parser_total d port bd bp) as Hp. destruct (ipv6_truncated d); [by rewrite Hp|].
  by destruct Hp as (p & -> & <- & Hport & Hwf).
Qed.

(** A 42-byte ARP request over Ethernet. *)
Definition sample_arp : list Z :=
  [255;255;255;255;255;255; 2;0;0;0;0;7; 8;6;
   0;1; 8;0; 6; 4; 0;1; 2;0;0;0;0;7; 10;0;0;1; 0;0;0;0;0;0; 10;0;0;2].

(** The ARP fields of a well-formed request are found at their offsets. *)
Example sample_arp_fields :
  (packet_parser (Some sample_arp) 3 0 0 ≫= fun p =>
   Ok (map (parser_val p) [in_port; eth_type; eth_src; arp_op; arp_sha; arp_spa; arp_tpa; ipv4_src]))
  = Ok [Some 3; Some 0x0806; Some 0x020000000007; Some 1; Some 0x020000000007; Some 0x0a000001;
        Some 0x0a000002; None].
Proof. vm_compute. reflexivity. Qed.

(** Which bytes a write touches, and what it leaves in them. *)
Lemma parser_modify_bytes p patch p' :
  parser_wf p -> field_wf patch -> modify p patch = Ok p' ->
  let t := f_type patch in
  exists ptr, access p t = Ok ptr /\ pp_bindings p' = pp_bindings p
    /\ (ptr <> in_port_ptr -> pp_in_port p' = pp_in_port p)
    /\ (forall i, (forall off, ptr = data_ptr off -> ~ (off <= Z.of_nat i < off + blocks t)) -> pp_data p' !! i = pp_data p !! i)
    /\ forall i, 0 <= i -> Z.testbit (be_val (field_bytes p' t ptr)) i
         = if i <? t_nbits t then default (Z.testbit (be_val (field_bytes p t ptr)) i) (fbit patch i) else false.
Proof.
  intros Hw Hf Hmod. cbv zeta. pose proof (proj1 Hf) as Hk. destruct (known_basic _ Hk) as (_ & _ & Hnb & Hbl).
  cbn in Hmod. destruct (parser_val p (f_type patch)) as [v|] eqn:Ev.
  2:{ pose proof (modify_absent p patch Hw Hf Ev) as Hm. cbn in Hm. congruence. }
  destruct (parser_modify_store p patch v Hw Hf Ev) as (ptr & h & Eb & Em & Hat & Hbits). rewrite Hmod in Em. injection Em as ->.
  pose proof (to_buffer_blocks _ _ Hat Hk) as Hlen. pose proof (lay_fits _ _ _ Hw (f_type patch) ptr Hk Eb) as Hfit.
  exists ptr. split_and!; [by rewrite access_known, Eb|apply bound_store|by destruct ptr| |].
  - intros i Hi. destruct ptr as [|off]; [done|]. cbn in Hfit |- *. apply splice_outside; [lia..|].
    rewrite Hlen. by apply Hi.
  - intros i Hi. rewrite (store_same p (f_type patch)) by done. unfold bits_to_buffer. rewrite be_val_bytes.
    destruct Hat as [[Hh0 Hh] Hsz]. rewrite Hsz in *. unfold blocks in *. rewrite pow256, Z2Nat.id by lia.
    pose proof (num_blocks_bound (t_nbits (f_type patch))).
    rewrite Z.mod_small by (split; [apply Hh|]; apply Z.lt_le_trans with (2 ^ t_nbits (f_type patch)); [apply Hh|apply Z.pow_le_mono_r; lia]).
    rewrite Hbits by done. unfold parser_val in Ev. rewrite Eb in Ev. injection Ev as <-.
    unfold wrap. destruct (Z.ltb_spec i (t_nbits (f_type patch))).
    + by rewrite Z.mod_pow2_bits_low.
    + rewrite (fbit_high patch) by done. cbn. apply Z.mod_pow2_bits_high. lia.
Qed.

(** All fields but VLAN_VID are whole bytes. *)
Lemma whole_bytes t : known t -> t <> vlan_vid -> t_nbits t = 8 * blocks t.
Proof.
  assert (H : Forall (fun t => t <> vlan_vid -> t_nbits t = 8 * blocks t) openflow_basic).
  { unfold openflow_basic. repeat (apply Forall_cons; split; [by intros ?|]). by apply Forall_nil. }
  rewrite Forall_forall in H. apply H.
Qed.

(** C34: [modify] writes in place.  The payload keeps its length and only the
    bytes that hold the patched field change.  Their bits become those of the
    patch where it has some and stay as they were elsewhere, except that the
    bits above the field are cleared: for every field but VLAN_VID there are
    none, and for VLAN_VID they are the priority and the drop bit of the tag.
    The patched field reads back as the old value rewritten by the patch, and
    every other field reads as before. *)
Theorem parser_modify_load p patch p' :
  parser_wf p -> field_wf patch -> modify p patch = Ok p' ->
  let t := f_type patch in
  parser_wf p' /\ total_bytes p' = total_bytes p
  /\ (exists ptr, access p t = Ok ptr /\ pp_bindings p' = pp_bindings p
       /\ (ptr <> in_port_ptr -> pp_in_port p' = pp_in_port p)
       /\ (forall i, (forall off, ptr = data_ptr off -> ~ (off <= Z.of_nat i < off + blocks t)) -> pp_data p' !! i = pp_data p !! i)
       /\ forall i, 0 <= i < 8 * blocks t -> Z.testbit (be_val (field_bytes p' t ptr)) i
            = match fbit patch i with
              | Some b => b
              | None => if decide (t = vlan_vid /\ 12 <= i) then false else Z.testbit (be_val (field_bytes p t ptr)) i
              end)
  /\ (forall m f, mask_wf m -> load p m = Ok f -> m_type m <> t -> load p' m = Ok f)
  /\ (forall m, mask_wf m -> m_type m = t ->
        exists f g, load p m = Ok f /\ load p' m = Ok g
          /\ forall i, 0 <= i -> fbit g i =
               if mbit m i then match fbit patch i with Some b => Some b | None => fbit f i end else None).
Proof.
  intros Hw Hf Hmod t. pose proof Hmod as Hmod'. pose proof (proj1 Hf) as Hk. cbn in Hmod. destruct (parser_val p t) as [v|] eqn:Ev.
  2:{ pose proof (modify_absent p patch Hw Hf Ev) as Hm. cbn in Hm. congruence. }
  destruct (parser_modify_ok p patch v Hw Hf Ev) as (x & v' & Ex & Wx & Hv' & Hbits & Hrest & Hlen).
  rewrite Hmod in Ex. injection Ex as <-. split_and!; [done..| | |].
  - destruct (parser_modify_bytes p patch p' Hw Hf Hmod') as (ptr & Ha & Hb & Hport & Hout & Hin). exists ptr.
    split_and!; [done..|]. intros i Hi. rewrite Hin by lia. fold t. destruct (Z.ltb_spec i (t_nbits t)) as [Hlt|Hge].
    + destruct (fbit patch i); [done|]. cbn. rewrite decide_False; [done|]. intros [E ?]. rewrite E in Hlt. cbn in Hlt. lia.
    + rewrite (fbit_high patch) by done. destruct (decide (t = vlan_vid)) as [E|Hne].
      * rewrite decide_True; [done|]. split; [done|]. rewrite E in Hge. cbn in Hge. lia.
      * rewrite (whole_bytes t) in Hge by done. lia.
  - intros m f Wm Hl Hne. cbn in Hl |- *. destruct (parser_val p (m_type m)) as [w|] eqn:Ew.
    2:{ pose proof (load_absent p m Hw Wm Ew) as E. cbn in E. congruence. }
    destruct (parser_load_ok p m w Hw Wm Ew) as (f1 & E1 & W1 & T1 & _ & B1).
    rewrite <- (Hrest (m_type m)) in Ew by (done || apply Wm).
    destruct (parser_load_ok p' m w Wx Wm Ew) as (f2 & E2 & W2 & T2 & _ & B2).
    rewrite E2, <- Hl, E1. f_equal. apply field_ext; [done..|congruence|]. intros i Hi. by rewrite B1, B2.
  - intros m Wm Ht. cbn. unfold t in *. rewrite <- Ht in Ev, Hv'.
    destruct (parser_load_ok p m v Hw Wm Ev) as (f1 & E1 & W1 & T1 & _ & B1).
    destruct (parser_load_ok p' m v' Wx Wm Hv') as (f2 & E2 & W2 & T2 & _ & B2).
    exists f1, f2. split_and!; [done..|]. intros i Hi. rewrite B2, Hbits, B1 by done.
    destruct (mbit m i); [|done]. by destruct (fbit patch i).
Qed.

Lemma packet_parser_wf d port bd bp p :
  packet_parser (Some d) port bd bp = Ok p -> ihl_ok d -> parser_wf p.
Proof.
  intros E Hihl. pose proof (packet_parser_total d port bd bp) as Hp. destruct (ipv6_truncated d); [congruence|].
  destruct Hp as (q & E' & _ & _ & Hw). rewrite E in E'. injection E' as <-. auto.
Qed.

(** A concrete parser, for the witnesses: the ARP request, received on port 3. *)
Definition sample_parser : parser :=
  match packet_parser (Some sample_arp) 3 0 0 with Ok p => p | Throw _ => Parser [] [] 0 0 [] end.

Lemma sample_parser_wf : parser_wf sample_parser.
Proof.
  apply (packet_parser_wf sample_arp 3 0 0); [vm_compute; reflexivity|]. unfold ihl_ok.
  change (l3_start sample_arp) with (0x0806, 14). discriminate.
Qed.

Definition sample_patch : field := Field eth_src (Bits 48 0x020000000009) (bits_set (bits_zero 48)).

Lemma known_by_check t : bool_decide (t ∈ openflow_basic) = true -> known t.
Proof. by intros H%bool_decide_eq_true. Qed.

Lemma sample_patch_wf : field_wf sample_patch.
Proof.
  split_and!; [by apply known_by_check| | |reflexivity].
  - split; [split; vm_compute; [discriminate|split; [discriminate|reflexivity]]|reflexivity].
  - apply mask_ok_set. done.
Qed.

Lemma parser_modify_load_witness :
  exists p', modify sample_parser sample_patch = Ok p' /\ total_bytes p' = total_bytes sample_parser
    /\ take 13 (pp_data p') = [255;255;255;255;255;255; 2;0;0;0;0;9; 8].
Proof.
  eexists. split; [vm_compute; reflexivity|]. split; [|reflexivity].
  refine (proj1 (proj2 (parser_modify_load sample_parser sample_patch _ sample_parser_wf sample_patch_wf _))).
  vm_compute; reflexivity.
Defined.

(** A tagged frame of priority 5 with the drop bit, in VLAN 7. *)
Definition tagged_frame : list Z := [0;0;0;0;0;1; 0;0;0;0;0;2; 0x81;0; 0xb0;7; 0x12;0x34].
Definition set_vlan (vid : Z) : field := Field vlan_vid (Bits 12 vid) (bits_set (bits_zero 12)).

(** Moving a frame to another VLAN takes its priority away. *)
Theorem vlan_write_clears_priority :
  (packet_parser (Some tagged_frame) 1 0 0 ≫= fun p => modify p (set_vlan 9) ≫= fun p' => Ok (pp_data p'))
  = Ok [0;0;0;0;0;1; 0;0;0;0;0;2; 0x81;0; 0;9; 0x12;0x34].
Proof. vm_compute. reflexivity. Qed.
