(* ===== verification/TraceTree.v ===== *)
(** * The trace tree and its compiler (src/maple/TraceTree.cc)

    A trace tree records which packet fields the policy looked at.  [lookup]
    walks it with a packet; [compile] (the class [Compiler] run by
    [TraceTree::commit]) turns it into prioritised flow rules.  The theorem of
    this file is that the two agree: a switch that applies the rule of highest
    priority decides every packet as the tree does. *)

From Stdlib Require Import Sorted.
From S2P Require Import Prelude Bits OxmField Packet.
Local Open Scope Z_scope.

(** A flow is referred to by its cookie; the tree holds weak references, so
    whether one can still be locked is a predicate [alive]. *)
Abbreviation flow_ref := Z.

(** ** Nodes: boost::variant of unexplored, flow_node, test_node, load_node *)

Inductive node :=
| unexplored
| flow_node (flow : flow_ref)
| test_node (need : field) (positive negative : node)
| load_node (m : mask) (cases : list (bits * node)).

(** Induction that reaches the nodes stored in the cases of a load. *)
Section node_ind.
Variable P : node -> Prop.
Hypothesis Hunexplored : P unexplored.
Hypothesis Hflow : forall f, P (flow_node f).
Hypothesis Htest : forall need pos neg, P pos -> P neg -> P (test_node need pos neg).
Hypothesis Hload : forall m cases, Forall (fun c => P c.2) cases -> P (load_node m cases).

Fixpoint node_ind' (n : node) : P n :=
  match n with
  | unexplored => Hunexplored
  | flow_node f => Hflow f
  | test_node need pos neg => Htest need pos neg (node_ind' pos) (node_ind' neg)
  | load_node m cases =>
      Hload m cases
        ((fix go (cs : list (bits * node)) : Forall (fun c => P c.2) cs :=
            match cs with
            | [] => Forall_nil_2 _
            | c :: cs' => Forall_cons_2 _ _ _ (node_ind' c.2) (go cs')
            end) cases)
  end.
End node_ind.

Fixpoint find_case {A} (cs : list (bits * A)) (v : bits) : option A :=
  match cs with
  | [] => None
  | (w, a) :: cs' => if decide (w = v) then Some a else find_case cs' v
  end.

(** ** class Lookup *)

Section lookup.
Context {P : Type} `{Packet P}.
Variable alive : flow_ref -> bool.

Definition lock (f : flow_ref) : option flow_ref := if alive f then Some f else None.

Fixpoint lookup_node (n : node) (p : P) : res error (option flow_ref) :=
  match n with
  | unexplored => Ok None
  | flow_node f => Ok (lock f)
  | test_node need positive negative =>
      test p need ≫= fun b : bool => if b then lookup_node positive p else lookup_node negative p
  | load_node m cases =>
      load p m ≫= fun f =>
      (fix find (cs : list (bits * node)) : res error (option flow_ref) :=
         match cs with
         | [] => Ok None
         | (w, n') :: cs' => if decide (w = f_value f) then lookup_node n' p else find cs'
         end) cases
  end.
End lookup.

(** ** class Compiler *)

(** [Backend::install(priority, match, flow)]; [None] is the barrier flow. *)
Record rule := Rule { r_priority : Z; r_match : field_set; r_flow : option flow_ref }.

Record compiler := Compiler { c_match : field_set; c_priority : Z; c_installed : list rule }.

Definition compiler_init : compiler := Compiler fs_empty 1 [].

(** [backend.install(priority++, match, flow)] with [uint16_t priority]. *)
Definition install (c : compiler) (target : option flow_ref) : compiler :=
  Compiler (c_match c) (u16 (c_priority c + 1))
    (c_installed c ++ [Rule (c_priority c) (c_match c) target]).

Definition set_match (c : compiler) (fs : field_set) : compiler :=
  Compiler fs (c_priority c) (c_installed c).

Definition match_modify (c : compiler) (f : field) : res oxm_error compiler :=
  fs_modify (c_match c) f ≫= fun fs => Ok (set_match c fs).

Definition match_erase (c : compiler) (m : mask) : res oxm_error compiler :=
  fs_erase (c_match c) m ≫= fun fs => Ok (set_match c fs).

(** [(type == record.first) & load.mask] *)
Definition case_field (m : mask) (v : bits) : res oxm_error field :=
  type_is (m_type m) v ≫= fun val => value_and_mask val m.

Fixpoint compile (alive : flow_ref -> bool) (n : node) (c : compiler) : res oxm_error compiler :=
  match n with
  | unexplored => Ok c
  | test_node need positive negative =>
      compile alive negative c ≫= fun c1 =>
      match_modify c1 need ≫= fun c2 =>
      compile alive positive (install c2 None) ≫= fun c3 =>
      mask_of_field need ≫= fun m => match_erase c3 m
  | load_node m cases =>
      (fix go (cs : list (bits * node)) (c : compiler) : res oxm_error compiler :=
         match cs with
         | [] => Ok c
         | (v, n') :: cs' =>
             case_field m v ≫= fun f =>
             match_modify c f ≫= fun c1 =>
             compile alive n' c1 ≫= fun c2 =>
             match_erase c2 m ≫= fun c3 => go cs' c3
         end) cases c
  | flow_node f => Ok (if alive f then install c (Some f) else c)
  end.

(** [TraceTree::commit]: everything is removed, then the compiled rules are
    installed between two barriers. *)
Inductive backend_call := bc_remove_all | bc_barrier | bc_install (r : rule).

Definition commit (alive : flow_ref -> bool) (root : node) : res oxm_error (list backend_call) :=
  compile alive root compiler_init ≫= fun c =>
  Ok ([bc_remove_all; bc_barrier] ++ map bc_install (c_installed c) ++ [bc_barrier]).

(** Number of rules a tree compiles to. *)
Fixpoint count_rules (alive : flow_ref -> bool) (n : node) : Z :=
  match n with
  | unexplored => 0
  | flow_node f => if alive f then 1 else 0
  | test_node _ positive negative => count_rules alive negative + 1 + count_rules alive positive
  | load_node _ cases =>
      (fix go (cs : list (bits * node)) : Z :=
         match cs with [] => 0 | (_, n') :: cs' => count_rules alive n' + go cs' end) cases
  end.

(** ** The switch: the matching rule of highest priority *)

Section switch.
Context {P : Type} `{Packet P}.

Definition rule_matches (r : rule) (p : P) : bool :=
  match fs_match (r_match r) p with Ok b => b | Throw _ => false end.

Definition table_step (p : P) (acc : option rule) (r : rule) : option rule :=
  if rule_matches r p then
    match acc with
    | Some a => if r_priority a <=? r_priority r then Some r else acc
    | None => Some r
    end
  else acc.

Definition table_lookup (rules : list rule) (p : P) : option rule :=
  fold_left (table_step p) rules None.

(** What the switch's answer means for the controller: no rule (table miss) or the
    barrier rule send the packet up. *)
Definition table_decision (rules : list rule) (p : P) : option flow_ref :=
  table_lookup rules p ≫= r_flow.
End switch.

(** ** Well-formed trees

    [K] are the bits already fixed on the path: a test or a load only concerns
    bits that are not. *)

Section wf.
Context {R : TypeRegistry}.

Definition bitset := type -> Z -> Prop.

Definition add_field (K : bitset) (f : field) : bitset :=
  fun t i => K t i \/ (t = f_type f /\ fbit f i <> None).

Definition add_mask (K : bitset) (m : mask) : bitset :=
  fun t i => K t i \/ (t = m_type m /\ mbit m i = true).

Definition case_ok (m : mask) (v : bits) : Prop :=
  bits_at (m_type m) v /\ bits_and v (m_bits m) = v.

Inductive tree_wf : bitset -> node -> Prop :=
| wf_unexplored K : tree_wf K unexplored
| wf_flow K f : tree_wf K (flow_node f)
| wf_test K need pos neg :
    field_wf need -> wildcard (f_mask need) = false ->
    (forall i, 0 <= i -> fbit need i <> None -> ~ K (f_type need) i) ->
    tree_wf (add_field K need) pos -> tree_wf K neg -> tree_wf K (test_node need pos neg)
| wf_load K m cases :
    mask_wf m -> wildcard (m_bits m) = false ->
    (forall i, 0 <= i -> mbit m i = true -> ~ K (m_type m) i) ->
    NoDup (map fst cases) -> Forall (fun c => case_ok m c.1) cases ->
    Forall (fun c => tree_wf (add_mask K m) c.2) cases -> tree_wf K (load_node m cases).
End wf.

(** ** When a match holds on a packet *)

Section sat.
Context {P : Type} `{PacketLaws P}.

Definition field_sat (f : field) (p : P) : Prop :=
  exists v, pval p (f_type f) = Some v
    /\ forall i x, 0 <= i -> fbit f i = Some x -> Z.testbit v i = x.

Definition fs_sat (fs : field_set) (p : P) : Prop :=
  forall t i b, known t -> 0 <= i -> fs_bit fs t i = Some b ->
    exists v, pval p t = Some v /\ Z.testbit v i = b.

Lemma test_present p need v :
  pkt_wf p -> field_wf need -> pval p (f_type need) = Some v ->
  exists b, test p need = Ok b /\ (b = true <-> field_sat need p).
Proof.
  intros Hp Hn Hv. unfold test. rewrite mask_of_field_ok, lift_Ok, res_bind_Ok by done.
  destruct (load_present p _ v Hp (mask_of_field_wf need Hn) Hv) as (f & -> & Wf & Tf & Bf).
  rewrite res_bind_Ok. destruct (field_match_ok f need Wf Hn Tf) as (b & -> & Hb).
  exists b. split; [done|]. rewrite Hb. unfold mbit in Bf; cbn in *. split.
  - intros Hc. exists v. split; [done|]. intros i x Hi Hx. apply (Hc i); [done| |done].
    rewrite Bf by done. unfold fbit in Hx. by destruct (Z.testbit _ i).
  - intros (v' & Hv' & Hs) i x y Hi Hx Hy. assert (v' = v) as -> by congruence.
    rewrite Bf in Hx by done. rewrite <- (Hs i y Hi Hy).
    destruct (Z.testbit (bval (f_mask need)) i); congruence.
Qed.

Lemma test_inv p need b :
  pkt_wf p -> field_wf need -> test p need = Ok b ->
  (exists v, pval p (f_type need) = Some v) /\ (b = true <-> field_sat need p).
Proof.
  intros Hp Hn Ht. destruct (pval p (f_type need)) as [v|] eqn:Hv.
  - destruct (test_present p need v Hp Hn Hv) as (b' & E & Hb). rewrite Ht in E.
    injection E as <-. eauto.
  - unfold test in Ht. rewrite mask_of_field_ok, lift_Ok, res_bind_Ok in Ht by done.
    rewrite load_absent in Ht by (done || by apply mask_of_field_wf). done.
Qed.

Lemma test_true_iff p need :
  pkt_wf p -> field_wf need -> test p need = Ok true <-> field_sat need p.
Proof.
  intros Hp Hn. split.
  - intros Ht. by apply (test_inv p need true) in Ht as [_ <-].
  - intros Hs. pose proof Hs as (v & Hv & _).
    destruct (test_present p need v Hp Hn Hv) as (b & -> & Hb). f_equal. by apply Hb.
Qed.

Lemma all_of_true {A} (f : A -> res error bool) l :
  all_of f l = Ok true <-> Forall (fun x => f x = Ok true) l.
Proof.
  induction l as [|x l IH]; cbn; [split; done|]. rewrite Forall_cons, <- IH.
  destruct (f x) as [[]|]; cbn; intuition congruence.
Qed.

Lemma fs_match_true fs p :
  pkt_wf p -> fs_wf fs -> fs_match fs p = Ok true <-> fs_sat fs p.
Proof.
  intros Hp Hwf. unfold fs_match. rewrite all_of_true, Forall_forall.
  setoid_rewrite list_elem_of_fmap. split.
  - intros Ha t i b Ht Hi Hb. unfold fs_bit in Hb.
    destruct (fs_find fs t) as [f|] eqn:E; [cbn in Hb|done].
    destruct (fs_find_wf fs t f Hwf Ht E) as [Tf Wf].
    assert (Hs : test p f = Ok true).
    { apply Ha. exists (type_key t, f). split; [done|]. by apply elem_of_map_to_list. }
    apply test_true_iff in Hs as (v & Hv & Hs); [|done..]. exists v. rewrite <- Tf. eauto.
  - intros Hs f ([k f'] & -> & Hin%elem_of_map_to_list). cbn.
    destruct (Hwf _ _ Hin) as (Hk & Wf & Nf). apply test_true_iff; [done..|].
    assert (Hb : forall i b, 0 <= i -> fbit f' i = Some b ->
      exists v, pval p (f_type f') = Some v /\ Z.testbit v i = b).
    { intros i b Hi Hb. apply Hs; [apply Wf|done|]. unfold fs_bit, fs_find.
      by rewrite Hk, Hin. }
    destruct (not_wildcard_fbit f' Wf Nf) as (i0 & b0 & Hi0 & Hb0).
    destruct (Hb _ _ Hi0 Hb0) as (v & Hv & _). exists v. split; [done|].
    intros i x Hi Hx. destruct (Hb _ _ Hi Hx) as (v' & Hv' & Hx'). congruence.
Qed.

Lemma rule_matches_iff r p :
  pkt_wf p -> fs_wf (r_match r) -> rule_matches r p = true <-> fs_sat (r_match r) p.
Proof.
  intros Hp Hwf. rewrite <- (fs_match_true _ p) by done. unfold rule_matches.
  destruct (fs_match (r_match r) p) as [[]|]; split; congruence.
Qed.

(** Adding a field on fresh bits conjoins the two conditions. *)
Lemma fs_sat_modify fs f fs' p :
  fs_wf fs -> field_wf f -> wildcard (f_mask f) = false ->
  (forall i, 0 <= i -> fbit f i <> None -> fs_bit fs (f_type f) i = None) ->
  fs_modify fs f = Ok fs' -> fs_sat fs' p <-> fs_sat fs p /\ field_sat f p.
Proof.
  intros Hwf Wf Nf Hd Hm. destruct (fs_modify_ok fs f Hwf Wf Nf) as (g & E & _ & B).
  rewrite Hm in E. injection E as <-. split.
  - intros Hs. split.
    + intros t i b Ht Hi Hb. apply Hs; [done..|]. rewrite B by done. case_decide; [|done]. subst t.
      destruct (fbit f i) eqn:Ef; [|done]. rewrite Hd in Hb; [done|done|congruence].
    + destruct (not_wildcard_fbit f Wf Nf) as (i0 & b0 & Hi0 & Hb0).
      assert (Hb : forall i b, 0 <= i -> fbit f i = Some b ->
        exists v, pval p (f_type f) = Some v /\ Z.testbit v i = b).
      { intros i b Hi Hb. apply Hs; [apply Wf|done|]. rewrite B by (done || apply Wf).
        by rewrite decide_True, Hb by done. }
      destruct (Hb _ _ Hi0 Hb0) as (v & Hv & _). exists v. split; [done|].
      intros i x Hi Hx. destruct (Hb _ _ Hi Hx) as (v' & Hv' & Hx'). congruence.
  - intros [Hs (v & Hv & Hf)] t i b Ht Hi. rewrite B by done. case_decide as E; [|by apply Hs].
    subst t. destruct (fbit f i) eqn:Ef; [intros [= <-]; eauto|by apply Hs].
Qed.

(** ** The last matching rule *)

Definition last_step (p : P) (acc : option (option flow_ref)) (r : rule) :=
  if rule_matches r p then Some (r_flow r) else acc.

Definition last_target (rs : list rule) (p : P) : option (option flow_ref) :=
  fold_left (last_step p) rs None.

Lemma last_target_acc rs p acc :
  fold_left (last_step p) rs acc = match last_target rs p with Some t => Some t | None => acc end.
Proof.
  unfold last_target. revert acc. induction rs as [|r rs IH]; intros acc; cbn; [done|].
  rewrite IH, (IH (last_step p None r)).
  destruct (fold_left (last_step p) rs None); [done|].
  unfold last_step. by destruct (rule_matches r p).
Qed.

Lemma last_target_app rs1 rs2 p :
  last_target (rs1 ++ rs2) p
  = match last_target rs2 p with Some t => Some t | None => last_target rs1 p end.
Proof. unfold last_target at 1. rewrite fold_left_app. apply last_target_acc. Qed.

Lemma last_target_none rs p :
  Forall (fun r => rule_matches r p = false) rs -> last_target rs p = None.
Proof.
  unfold last_target. induction 1 as [|r rs Hr _ IH]; cbn; [done|].
  assert (last_step p None r = None) as -> by (unfold last_step; by rewrite Hr). done.
Qed.

Lemma last_target_one r p :
  last_target [r] p = if rule_matches r p then Some (r_flow r) else None.
Proof. done. Qed.

(** Rules installed with increasing priorities: the best match is the last one. *)
Definition consecutive (k : Z) (rs : list rule) : Prop :=
  forall j r, rs !! j = Some r -> r_priority r = k + Z.of_nat j.

Lemma consecutive_nil k : consecutive k [].
Proof. intros j r. by rewrite lookup_nil. Qed.

Lemma consecutive_app k rs1 rs2 :
  consecutive k rs1 -> consecutive (k + Z.of_nat (length rs1)) rs2 -> consecutive k (rs1 ++ rs2).
Proof.
  intros Ha Hb j r [Hj|[Hge Hj]]%lookup_app_Some; [by apply Ha|].
  apply Hb in Hj. lia.
Qed.

Lemma consecutive_one r : consecutive (r_priority r) [r].
Proof. intros [|j] r'; cbn; [intros [= <-]; lia|done]. Qed.

Definition increasing : list rule -> Prop := StronglySorted (fun a b => r_priority a < r_priority b).

Lemma consecutive_increasing k rs : consecutive k rs -> increasing rs.
Proof.
  revert k. induction rs as [|r rs IH]; intros k Hc; constructor.
  - apply (IH (k + 1)). intros j r' Hj. rewrite (Hc (S j) r'); [lia|done].
  - apply Forall_forall. intros r' [j Hj]%list_elem_of_lookup. rewrite (Hc 0%nat r), (Hc (S j) r'); [lia|done..].
Qed.

Lemma increasing_filter (keeps : rule -> bool) rs : increasing rs -> increasing (filter keeps rs).
Proof.
  induction 1 as [|r rs Hrs IH Hr]; [constructor|]. rewrite filter_cons. case_decide; [|done]. constructor; [done|].
  rewrite Forall_forall in *. intros r' [_ Hin]%list_elem_of_filter. auto.
Qed.

Lemma table_fold rs p acc :
  increasing rs -> (forall a, acc = Some a -> Forall (fun r => r_priority a < r_priority r) rs) ->
  r_flow <$> fold_left (table_step p) rs acc = fold_left (last_step p) rs (r_flow <$> acc).
Proof.
  intros Hi. revert acc. induction Hi as [|r rs Hrs IH Hr]; intros acc Ha; cbn; [done|]. rewrite IH.
  - f_equal. unfold table_step, last_step. destruct (rule_matches r p); [|done].
    destruct acc as [a|]; [|done]. specialize (Ha a eq_refl). apply Forall_cons in Ha as [Ha _].
    by rewrite (proj2 (Z.leb_le _ _)) by lia.
  - intros a. unfold table_step. destruct (rule_matches r p).
    + destruct acc as [a'|]; [|by intros [= <-]]. specialize (Ha a' eq_refl). apply Forall_cons in Ha as [Ha _].
      rewrite (proj2 (Z.leb_le _ _)) by lia. by intros [= <-].
    + intros ->. specialize (Ha a eq_refl). by apply Forall_cons in Ha as [_ Ha].
Qed.

Lemma table_decision_last rs p : increasing rs -> table_decision rs p = mjoin (last_target rs p).
Proof.
  intros Hi. unfold table_decision, table_lookup, last_target.
  pose proof (table_fold rs p None Hi) as Hf. cbn in Hf. rewrite <- Hf by done.
  by destruct (fold_left (table_step p) rs None).
Qed.

(** A switch that leaves out rules still reaches the flows whose rules it has. *)
Lemma last_target_filter (keeps : rule -> bool) rs p f :
  (forall r, r_flow r = Some f -> keeps r = true) ->
  mjoin (last_target rs p) = Some f -> mjoin (last_target (filter keeps rs) p) = Some f.
Proof.
  intros Hk. induction rs as [|r rs IH] using rev_ind; [done|]. rewrite filter_app, !last_target_app, last_target_one.
  rewrite filter_cons, filter_nil. destruct (rule_matches r p) eqn:E.
  - cbn. intros Hf. rewrite decide_True by (by rewrite (Hk r Hf)). by rewrite last_target_one, E.
  - intros Hf. case_decide; [by rewrite last_target_one, E; apply IH|]. by apply IH.
Qed.

Lemma table_decision_in rs p f :
  increasing rs -> table_decision rs p = Some f -> exists r, r ∈ rs /\ rule_matches r p = true /\ r_flow r = Some f.
Proof.
  intros Hi. rewrite table_decision_last by done. clear Hi. induction rs as [|r rs IH] using rev_ind; [done|].
  rewrite last_target_app, last_target_one. setoid_rewrite elem_of_app. destruct (rule_matches r p) eqn:E.
  - cbn. intros Hf. exists r. split_and!; [right; by apply list_elem_of_singleton|done|done].
  - intros Hf. destruct (IH Hf) as (r' & ? & ? & ?). exists r'. auto.
Qed.

End sat.

(** ** The compiler is correct *)

(** The loops over the cases of a load, by name. *)
Definition lookup_cases {P} `{Packet P} (alive : flow_ref -> bool) (v : bits) (p : P) :=
  fix find (cs : list (bits * node)) : res error (option flow_ref) :=
    match cs with
    | [] => Ok None
    | (w, n') :: cs' => if decide (w = v) then lookup_node alive n' p else find cs'
    end.

Definition compile_cases (alive : flow_ref -> bool) (m : mask) :=
  fix go (cs : list (bits * node)) (c : compiler) : res oxm_error compiler :=
    match cs with
    | [] => Ok c
    | (v, n') :: cs' =>
        case_field m v ≫= fun f => match_modify c f ≫= fun c1 =>
        compile alive n' c1 ≫= fun c2 => match_erase c2 m ≫= fun c3 => go cs' c3
    end.

Definition count_cases (alive : flow_ref -> bool) :=
  fix go (cs : list (bits * node)) : Z :=
    match cs with [] => 0 | (_, n') :: cs' => count_rules alive n' + go cs' end.

Lemma count_rules_nonneg alive n : 0 <= count_rules alive n.
Proof.
  induction n as [|f|need pos neg IHp IHn|m cases IH] using node_ind'; cbn; [lia| |lia|].
  - destruct (alive f); lia.
  - induction IH as [|[v n] cs Hn _ IH]; cbn in *; lia.
Qed.

Lemma count_cases_nonneg alive cs : 0 <= count_cases alive cs.
Proof.
  induction cs as [|[v n] cs IH]; cbn; [lia|]. pose proof (count_rules_nonneg alive n). lia.
Qed.

Section compile_correct.
Context {P : Type} `{PacketLaws P}.
Variable alive : flow_ref -> bool.

(** [c] compiled further by the rules [rs], which decide as [look] does on every
    packet that satisfies the current match. *)
Record extends (c c' : compiler) (rs : list rule) (look : P -> res error (option flow_ref)) : Prop := {
  ext_eq : c' = Compiler (c_match c) (c_priority c + Z.of_nat (length rs)) (c_installed c ++ rs);
  ext_wf : Forall (fun r => fs_wf (r_match r)) rs;
  ext_prio : consecutive (c_priority c) rs;
  ext_imp : forall p, Forall (fun r => fs_sat (r_match r) p -> fs_sat (c_match c) p) rs;
  ext_look : forall p t, pkt_wf p -> fs_sat (c_match c) p -> look p = Ok t ->
    mjoin (last_target rs p) = t;
}.

Lemma not_sat_no_match c c' rs look p :
  extends c c' rs look -> pkt_wf p -> ~ fs_sat (c_match c) p -> last_target rs p = None.
Proof.
  intros [] Hp Hs. apply last_target_none. specialize (ext_imp0 p).
  rewrite Forall_forall in *. intros r Hr. destruct (rule_matches r p) eqn:E; [|done].
  exfalso. apply Hs, (ext_imp0 r Hr). apply rule_matches_iff; auto.
Qed.

Lemma extends_nil c look :
  (forall p t, look p = Ok t -> t = None) -> extends c c [] look.
Proof.
  intros Hl. destruct c. split; cbn; auto using consecutive_nil.
  - by rewrite Z.add_0_r, app_nil_r.
  - intros p t _ _ Ht. by rewrite (Hl p t).
Qed.

Lemma extends_install c target :
  fs_wf (c_match c) -> 0 <= c_priority c -> c_priority c + 1 < 2 ^ 16 ->
  extends c (install c target) [Rule (c_priority c) (c_match c) target] (fun _ => Ok target).
Proof.
  intros Hwf H0' Hb. unfold install. split.
  - rewrite wrap_small by (split; lia). done.
  - by constructor.
  - apply (consecutive_one (Rule (c_priority c) (c_match c) target)).
  - intros p. by constructor.
  - intros p t Hp Hs [= <-]. rewrite last_target_one.
    assert (rule_matches (Rule (c_priority c) (c_match c) target) p = true) as ->; [|done].
    by apply rule_matches_iff.
Qed.

(** What stays fixed while a subtree is compiled. *)
Definition compile_pre (K : bitset) (c : compiler) (n : Z) : Prop :=
  fs_wf (c_match c) /\ (forall t i, known t -> 0 <= i -> fs_bit (c_match c) t i <> None -> K t i)
  /\ 0 <= c_priority c /\ c_priority c + n < 2 ^ 16.

(** The match with one more field, and back. *)
Lemma match_modify_ok K c n f :
  compile_pre K c n -> field_wf f -> wildcard (f_mask f) = false ->
  (forall i, 0 <= i -> fbit f i <> None -> ~ K (f_type f) i) ->
  exists c1, match_modify c f = Ok c1
    /\ c_priority c1 = c_priority c /\ c_installed c1 = c_installed c
    /\ compile_pre (add_field K f) c1 n
    /\ (forall p, fs_sat (c_match c1) p <-> fs_sat (c_match c) p /\ field_sat f p)
    /\ forall m prio rs, mask_of_field f = Ok m ->
         match_erase (Compiler (c_match c1) prio rs) m = Ok (Compiler (c_match c) prio rs).
Proof.
  intros (Hwf & HK & Hp0 & Hpn) Wf Nf Hd.
  assert (Hd' : forall i, 0 <= i -> fbit f i <> None -> fs_bit (c_match c) (f_type f) i = None).
  { intros i Hi Hf. destruct (fs_bit (c_match c) (f_type f) i) eqn:E; [|done].
    destruct (Hd i Hi Hf). apply HK; [apply Wf|done|congruence]. }
  unfold match_modify. destruct (fs_modify_ok _ f Hwf Wf Nf) as (fs' & E & Wfs' & B).
  rewrite E, res_bind_Ok. eexists; split; [reflexivity|]. split_and!; [done|done| | |].
  - split_and!; cbn [c_match set_match c_priority]; [done| |done|done]. intros t i Ht Hi. rewrite B by done. unfold add_field.
    case_decide as Et; [|auto]. destruct (fbit f i) eqn:Ef; [|auto]. right. split; congruence.
  - intros p. by apply (fs_sat_modify (c_match c)).
  - intros m prio rs Hm. unfold match_erase; cbn.
    by rewrite (fs_erase_modify (c_match c) f fs' m).
Qed.

Lemma extends_test K c need c1 r1 c2 c3 r2 pos neg :
  compile_pre K c 0 -> field_wf need ->
  extends c c1 r1 (lookup_node alive neg) ->
  match_modify c1 need = Ok c2 -> c_priority c2 = c_priority c1 -> c_installed c2 = c_installed c1 ->
  fs_wf (c_match c2) -> c_priority c2 + 1 < 2 ^ 16 ->
  (forall p, fs_sat (c_match c2) p <-> fs_sat (c_match c1) p /\ field_sat need p) ->
  extends (install c2 None) c3 r2 (lookup_node alive pos) ->
  extends c (Compiler (c_match c) (c_priority c3) (c_installed c3))
    (r1 ++ [Rule (c_priority c2) (c_match c2) None] ++ r2) (lookup_node alive (test_node need pos neg)).
Proof.
  intros Hpre Wn E1 Hmod Hpr Hin Hwf2 Hb Hsat E2.
  pose proof (ext_eq _ _ _ _ E1) as ->. cbn [c_match c_priority c_installed] in *.
  pose proof Hpre as (Hwf & HK & Hp0 & _).
  assert (Eb : extends c2 (install c2 None) [Rule (c_priority c2) (c_match c2) None] (fun _ => Ok None)).
  { apply extends_install; [done|lia|done]. }
  pose proof (ext_eq _ _ _ _ Eb) as Ei. pose proof (ext_eq _ _ _ _ E2) as Em.
  rewrite Ei in Em; cbn in Em. split.
  - subst c3; cbn. rewrite Hpr, Hin. f_equal; [rewrite !length_app; cbn; lia|].
    by rewrite <- !app_assoc.
  - rewrite !Forall_app. split_and!; [apply E1|by constructor|apply E2].
  - apply consecutive_app; [apply E1|]. rewrite <- Hpr. apply consecutive_app.
    + apply (consecutive_one (Rule (c_priority c2) (c_match c2) None)).
    + pose proof (ext_prio _ _ _ _ E2) as Hc. rewrite Ei in Hc. done.
  - intros p. rewrite !Forall_app. split_and!; [apply E1| |].
    + constructor; [|constructor]. cbn. intros Hs. by apply Hsat in Hs as [? _].
    + eapply Forall_impl; [apply (ext_imp _ _ _ _ E2)|]. cbn. intros r Hr Hs.
      apply Hr, Hsat in Hs as [? _]. done.
  - intros p t Hp Hs Hl. cbn in Hl. apply res_bind_inv in Hl as (b & Ht & Hl).
    apply test_inv in Ht as [_ Hb']; [|done..]. rewrite !last_target_app, last_target_one.
    destruct b.
    + assert (Hs2 : fs_sat (c_match c2) p) by (apply Hsat; split; [done|by apply Hb']).
      assert (rule_matches (Rule (c_priority c2) (c_match c2) None) p = true) as ->
        by (by apply rule_matches_iff).
      pose proof (ext_look _ _ _ _ E2 p t Hp Hs2 Hl) as Hlk.
      destruct (last_target r2 p) as [o|]; [done|]. cbn in *. done.
    + assert (Hs2 : ~ fs_sat (c_match c2) p).
      { intros Hs2. apply Hsat in Hs2 as [_ Hf]. apply Hb' in Hf. done. }
      rewrite (not_sat_no_match _ _ _ _ p E2 Hp Hs2).
      pose proof (not_sat_no_match _ _ _ _ p Eb Hp Hs2) as Hnb. rewrite last_target_one in Hnb.
      rewrite Hnb. by apply (ext_look _ _ _ _ E1).
Qed.

(** *** Loads *)

Lemma case_field_ok m v :
  mask_wf m -> case_ok m v ->
  case_field m v = Ok (Field (m_type m) v (m_bits m)) /\ field_wf (Field (m_type m) v (m_bits m)).
Proof.
  intros [Hk Hm] [Hv E]. unfold case_field, type_is. rewrite make_value_ok, res_bind_Ok by done.
  unfold value_and_mask; cbn. rewrite binop_type_same, res_bind_Ok, make_field_ok by done.
  pose proof (make_field_wf _ _ _ Hk Hv Hm) as Hwf. rewrite E in *. done.
Qed.

Lemma case_field_sat m v p g :
  pkt_wf p -> mask_wf m -> case_ok m v -> load p m = Ok g ->
  field_sat (Field (m_type m) v (m_bits m)) p <-> f_value g = v.
Proof.
  intros Hp Hm Hc Hl. destruct (pval p (m_type m)) as [pv|] eqn:Hv.
  2:{ rewrite load_absent in Hl; done. }
  destruct (load_present p m pv Hp Hm Hv) as (g' & E & Wg & Tg & Bg).
  rewrite Hl in E. injection E as <-. destruct (case_field_ok m v Hm Hc) as [_ Wf]. split.
  - intros (v' & Hv' & Hs). cbn in Hv'. assert (v' = pv) as -> by congruence.
    assert (g = Field (m_type m) v (m_bits m)) as ->; [|done].
    apply field_ext; [done..|]. intros i Hi. rewrite Bg by done. unfold fbit, mbit; cbn.
    specialize (Hs i). unfold fbit in Hs; cbn in Hs.
    destruct (Z.testbit (bval (m_bits m)) i); [|done]. f_equal. by apply Hs.
  - intros Ev. exists pv. split; [done|]. intros i x Hi. specialize (Bg i Hi).
    unfold fbit, mbit in *; cbn in *. rewrite Ev in Bg.
    destruct (Z.testbit (bval (m_bits m)) i); [|done]. intros [= <-].
    destruct (Z.testbit (bval (f_mask g)) i); congruence.
Qed.

Definition node_compiles (n : node) : Prop :=
  forall K c, tree_wf K n -> compile_pre K c (count_rules alive n) ->
    exists c' rs, compile alive n c = Ok c' /\ Z.of_nat (length rs) = count_rules alive n
      /\ extends c c' rs (lookup_node alive n).

Lemma compile_pre_weaken K K' c n k :
  compile_pre K c n -> k <= n -> (forall t i, K t i -> K' t i) -> compile_pre K' c k.
Proof. intros (? & ? & ? & ?) ? HK. split_and!; auto. lia. Qed.

(** One more case of a load: the rules of the case followed by those of the rest. *)
Lemma extends_case c c1 c2 c3 m v n cs rn rs :
  mask_wf m -> Forall (fun w => case_ok m w) (v :: map fst cs) -> ~ v ∈ map fst cs ->
  (forall p, fs_sat (c_match c1) p
     <-> fs_sat (c_match c) p /\ field_sat (Field (m_type m) v (m_bits m)) p) ->
  c_priority c1 = c_priority c -> c_installed c1 = c_installed c ->
  extends c1 c2 rn (lookup_node alive n) ->
  extends (Compiler (c_match c) (c_priority c2) (c_installed c2)) c3 rs
    (fun p => load p m ≫= fun g => lookup_cases alive (f_value g) p cs) ->
  (forall p g, pkt_wf p -> load p m = Ok g -> ~ f_value g ∈ map fst cs -> last_target rs p = None) ->
  extends c c3 (rn ++ rs) (fun p => load p m ≫= fun g => lookup_cases alive (f_value g) p ((v, n) :: cs))
  /\ (forall p g, pkt_wf p -> load p m = Ok g -> ~ f_value g ∈ v :: map fst cs ->
        last_target (rn ++ rs) p = None).
Proof.
  intros Hm Hok Hnin Hsat Hpr Hin En Es Hnone. apply Forall_cons in Hok as [Hv Hok].
  assert (Hmiss : forall p g, pkt_wf p -> load p m = Ok g -> f_value g <> v -> last_target rn p = None).
  { intros p g Hp Hl Hne. apply (not_sat_no_match _ _ _ _ p En Hp). rewrite Hsat.
    intros [_ Hs]. apply (case_field_sat m v p g) in Hs; done. }
  pose proof (ext_eq _ _ _ _ En) as E2. pose proof (ext_eq _ _ _ _ Es) as E3.
  split; [split|].
  - subst c2 c3; cbn. rewrite Hpr, Hin. f_equal; [rewrite length_app; lia|by rewrite app_assoc].
  - apply Forall_app; split; [apply En|apply Es].
  - apply consecutive_app; [rewrite <- Hpr; apply En|].
    pose proof (ext_prio _ _ _ _ Es) as Hc. subst c2; cbn in Hc. by rewrite <- Hpr.
  - intros p. apply Forall_app; split; [|apply Es].
    eapply Forall_impl; [apply (ext_imp _ _ _ _ En)|]. cbn. intros r Hr Hs.
    apply Hr, Hsat in Hs as [? _]. done.
  - intros p t Hp Hs Hl. pose proof Hl as Hl'. apply res_bind_inv in Hl as (g & Hg & Hl).
    rewrite last_target_app. cbn in Hl. case_decide as Ev.
    + rewrite (Hnone p g) by (done || congruence). apply (ext_look _ _ _ _ En p t Hp); [|done].
      apply Hsat. split; [done|]. by apply (case_field_sat m v p g).
    + rewrite (Hmiss p g) by (done || congruence).
      assert (Hgoal : mjoin (last_target rs p) = t).
      { apply (ext_look _ _ _ _ Es p t Hp Hs). by rewrite Hg, res_bind_Ok. }
      by destruct (last_target rs p).
  - intros p g Hp Hg Hni. rewrite not_elem_of_cons in Hni. destruct Hni as [Hne Hni].
    rewrite last_target_app, (Hnone p g), (Hmiss p g); done.
Qed.

Lemma compile_cases_ok K m cs c :
  mask_wf m -> wildcard (m_bits m) = false ->
  (forall i, 0 <= i -> mbit m i = true -> ~ K (m_type m) i) ->
  NoDup (map fst cs) -> Forall (fun w => case_ok m w) (map fst cs) ->
  Forall (fun cn => tree_wf (add_mask K m) cn.2) cs -> Forall (fun cn => node_compiles cn.2) cs ->
  compile_pre K c (count_cases alive cs) ->
  exists c' rs, compile_cases alive m cs c = Ok c' /\ Z.of_nat (length rs) = count_cases alive cs
    /\ extends c c' rs (fun p => load p m ≫= fun g => lookup_cases alive (f_value g) p cs)
    /\ (forall p g, pkt_wf p -> load p m = Ok g -> ~ f_value g ∈ map fst cs -> last_target rs p = None).
Proof.
  intros Hm Nm Hd. revert c. induction cs as [|[v n] cs IH]; intros c Hnd Hok Hwf Hcomp Hpre.
  - exists c, []. cbn. split_and!; [done..| |done]. apply extends_nil.
    intros p t Hl. apply res_bind_inv in Hl as (g & _ & [= <-]). done.
  - cbn [map fst] in Hnd, Hok. apply NoDup_cons in Hnd as [Hnin Hnd].
    pose proof Hok as Hok'. apply Forall_cons in Hok' as [Hv Hokc].
    apply Forall_cons in Hwf as [Hn Hwf]. apply Forall_cons in Hcomp as [Cn Hcomp].
    cbn [snd] in Hn, Cn. change (compile_pre K c (count_rules alive n + count_cases alive cs)) in Hpre.
    pose proof (count_rules_nonneg alive n). pose proof (count_cases_nonneg alive cs).
    destruct (case_field_ok m v Hm Hv) as [Ef Wf].
    destruct (match_modify_ok K c _ (Field (m_type m) v (m_bits m)) Hpre Wf Nm)
      as (c1 & E1 & Hpr & Hin & Hpre1 & Hsat & Hback).
    { intros i Hi. cbn. unfold fbit; cbn. intros Hf. apply Hd; [done|]. unfold mbit.
      by destruct (Z.testbit (bval (m_bits m)) i). }
    destruct (Cn (add_mask K m) c1 Hn) as (c2 & rn & E2 & Hlen & En).
    { eapply compile_pre_weaken; [apply Hpre1|lia|]. intros t i [?|[-> Hf]]; [by left|right].
      split; [done|]. unfold fbit, mbit in *; cbn in *. by destruct (Z.testbit _ i). }
    pose proof (ext_eq _ _ _ _ En) as Hc2.
    destruct (IH (Compiler (c_match c) (c_priority c2) (c_installed c2))) as (c3 & rs & E3 & Hlen3 & Es & Hnone);
      [done..| |].
    { destruct Hpre as (? & ? & ? & ?). rewrite Hc2; cbn. split_and!; cbn; [done|done|lia|lia]. }
    destruct (extends_case c c1 c2 c3 m v n cs rn rs) as [Eall Hnone'];
      [done|done|done|done|done|done|done|done|done|].
    exists c3, (rn ++ rs). split_and!; [| |done|done].
    2:{ change (Z.of_nat (length (rn ++ rs)) = count_rules alive n + count_cases alive cs).
        rewrite length_app. lia. }
    cbn [compile_cases]. rewrite Ef, res_bind_Ok, E1, res_bind_Ok, E2, res_bind_Ok.
    rewrite Hc2 at 1; cbn [c_match c_priority c_installed]. rewrite (Hback m).
    + rewrite res_bind_Ok. rewrite <- E3. by rewrite Hc2.
    + rewrite mask_of_field_ok by done. by destruct m.
Qed.

Lemma compile_node_ok n : node_compiles n.
Proof.
  induction n as [|f|need pos neg IHp IHn|m cases IH] using node_ind'; intros K c Hwf Hpre; cbn in Hpre.
  - exists c, []. split_and!; [done..|]. apply extends_nil. by intros p t [= <-].
  - cbn. unfold lock. destruct (alive f) eqn:Ea.
    + eexists _, _. split; [reflexivity|]. split; [|destruct Hpre as (?&?&?&?); by apply extends_install].
      done.
    + exists c, []. split_and!; [done..|]. apply extends_nil. by intros p t [= <-].
  - inversion Hwf as [| |? ? ? ? Wn Nn Hd Hpos Hneg|]; subst.
    pose proof (count_rules_nonneg alive pos). pose proof (count_rules_nonneg alive neg).
    destruct (IHn K c Hneg) as (c1 & r1 & E1 & L1 & X1);
      [eapply compile_pre_weaken; [apply Hpre|lia|auto]|].
    pose proof (ext_eq _ _ _ _ X1) as Hc1.
    destruct (match_modify_ok K c1 (count_rules alive pos + 1) need) as (c2 & E2 & Hpr & Hin & Hpre2 & Hsat & Hback);
      [|done|done|done|].
    { destruct Hpre as (?&?&?&?). subst c1. split_and!; cbn; [done|done|lia|lia]. }
    destruct (IHp (add_field K need) (install c2 None) Hpos) as (c3 & r2 & E3 & L2 & X3).
    { destruct Hpre2 as (?&?&?&?). split_and!; cbn; [done|done| |];
        rewrite wrap_small by (split; lia); lia. }
    pose proof (ext_eq _ _ _ _ X3) as Hc3.
    eexists _, _. split; [|split; [|eapply (extends_test K c need c1 r1 c2 c3 r2 pos neg)]];
      try done; try apply Hpre2.
    + cbn. rewrite E1, res_bind_Ok, E2, res_bind_Ok, E3, res_bind_Ok, mask_of_field_ok, res_bind_Ok by done.
      rewrite Hc3 at 1. cbn [c_match install]. rewrite Hback by (by apply mask_of_field_ok).
      subst c1 c3; done.
    + rewrite !length_app. cbn. lia.
    + destruct Hpre as (?&?&?&?). by split_and!; [..|lia].
    + destruct Hpre2 as (?&?&?&?). lia.
  - inversion Hwf as [| | |? ? ? Hm Nm Hd Hnd Hok Hcases]; subst.
    destruct (compile_cases_ok K m cases c) as (c' & rs & E & L & X & _); try done.
    { by apply Forall_map. }
    exists c', rs. split_and!; [done..|]. destruct X. by split.
Qed.

End compile_correct.

(** ** What a switch makes of the backend calls

    A backend need not pass on every rule it is asked to install: [keeps] tells
    which ones it does.  [MapleBackend] leaves out the barrier rules and those of
    flows that are not active. *)

Definition switch_apply (keeps : rule -> bool) (table : list rule) (c : backend_call) : list rule :=
  match c with
  | bc_remove_all => []
  | bc_barrier => table
  | bc_install r => if keeps r then table ++ [r] else table
  end.

Abbreviation installs_all := (fun _ : rule => true).

Lemma switch_apply_installs keeps table rs :
  fold_left (switch_apply keeps) (map bc_install rs) table = table ++ filter keeps rs.
Proof.
  revert table. induction rs as [|r rs IH]; intros table; [by rewrite app_nil_r|].
  cbn [map fold_left switch_apply]. rewrite IH, filter_cons.
  destruct (keeps r); case_decide; [by rewrite <- app_assoc|naive_solver..].
Qed.

Lemma map_inj {A B} (g : A -> B) l l' : (forall x y, g x = g y -> x = y) -> map g l = map g l' -> l = l'.
Proof. intros Hg. revert l'. induction l as [|x l IH]; intros [|y l']; cbn; try done. intros [= Hx Hl]. f_equal; auto. Qed.

(** The calls of a commit that installs the rules [rs]. *)
Definition commit_calls (rs : list rule) : list backend_call := [bc_remove_all; bc_barrier] ++ map bc_install rs ++ [bc_barrier].

Lemma commit_calls_inj rs rs' : commit_calls rs = commit_calls rs' -> rs = rs'.
Proof. unfold commit_calls. intros [= E]. apply app_inj_2 in E as [E _]; [|done]. apply (map_inj bc_install) in E; [done|]. by intros r r' [= ->]. Qed.

Lemma switch_table keeps rs table : fold_left (switch_apply keeps) (commit_calls rs) table = filter keeps rs.
Proof. unfold commit_calls. cbn. by rewrite fold_left_app, switch_apply_installs. Qed.

Lemma filter_all {A} (l : list A) : filter (fun _ => true) l = l.
Proof. induction l as [|x l IH]; [done|]. rewrite filter_cons, decide_True by done. by rewrite IH. Qed.

Section commit_correct.
Context {P : Type} `{PacketLaws P}.

(** A tree of fewer than 2^16 - 1 rules compiles to rules with consecutive
    priorities from 1; whatever the table held before is gone, and a switch that
    installs all of them decides every packet as the tree does. *)
Lemma commit_ok alive root :
  tree_wf (fun _ _ => False) root -> count_rules alive root < 2 ^ 16 - 1 ->
  exists rs, commit alive root = Ok (commit_calls rs)
    /\ Z.of_nat (length rs) = count_rules alive root /\ consecutive 1 rs
    /\ forall p t, pkt_wf p -> lookup_node alive root p = Ok t -> mjoin (last_target rs p) = t.
Proof.
  intros Hwf Hc. destruct (compile_node_ok alive root (fun _ _ => False) compiler_init Hwf)
    as (c & rs & E & Hlen & X).
  { split_and!; cbn; [apply fs_empty_wf| |lia|lia]. intros t i _ _. cbn.
    unfold fs_bit, fs_find; cbn. by rewrite lookup_empty. }
  exists rs. unfold commit. rewrite E, res_bind_Ok. pose proof (ext_eq _ _ _ _ X) as ->. split_and!; [done|done|apply X|].
  intros p t Hp Hl. apply (ext_look _ _ _ _ X); [done| |done].
  intros t' i b _ _. unfold fs_bit, fs_find; cbn. by rewrite lookup_empty.
Qed.

Lemma consecutive_priorities k rs : consecutive k rs -> map r_priority rs = seqZ k (Z.of_nat (length rs)).
Proof.
  intros Hc. apply list_eq. intros j. rewrite list_lookup_fmap. destruct (rs !! j) as [r|] eqn:E; cbn.
  - rewrite (Hc j r E). symmetry. apply lookup_seqZ. apply lookup_lt_Some in E. lia.
  - symmetry. apply lookup_seqZ_ge. apply lookup_ge_None in E. lia.
Qed.
End commit_correct.
