(* ===== verification/OxmTheorems.v ===== *)
(** * Bits, OXM fields and field sets: the properties their clients rely on

    The theorems of src/types/bits.hh, src/oxm/field.hh and
    src/oxm/field_set.hh, over the concrete registry of OpenFlow basic fields
    in the witnesses. *)

From S2P Require Import Prelude Bits OxmField OpenflowBasic Packet PacketParser TraceTree.
Local Open Scope Z_scope.

(** the two encodings of a bit string are inverse.  Reading a string back
    from its buffer gives it again, whatever byte precedes the buffer and whatever
    follows, and the buffer has ceil(n / 8) bytes; so does reading back its text. *)
Theorem bits_codec before b rest :
  bits_wf b ->
  bits_from_buffer before (bsize b) (bits_to_buffer b ++ rest) = b
  /\ Z.of_nat (length (bits_to_buffer b)) = (bsize b + 7) / 8
  /\ bits_of_string (bits_to_string b) = b.
Proof.
  intros Hb. split_and!; [by apply bits_buffer_roundtrip| |by apply bits_string_id].
  rewrite bits_to_buffer_length. pose proof (num_blocks_bound (bsize b) (proj1 Hb)) as [H1 H2].
  rewrite Z2Nat.id by lia. apply (Z.div_unique _ 8 _ (bsize b + 7 - 8 * num_blocks (bsize b))); lia.
Qed.

Lemma bits_codec_witness :
  bits_to_buffer (Bits 12 0x123) = [0x01; 0x23] /\ bits_from_buffer 0xff 12 ([0x01; 0x23] ++ [7]) = Bits 12 0x123.
Proof.
  split; [reflexivity|]. apply (bits_codec 0xff (Bits 12 0x123) [7]).
  split; vm_compute; [discriminate|split; [discriminate|reflexivity]].
Defined.

Section fields.
Context {R : TypeRegistry}.

(** the operators on fields of one type never throw and work bit by bit:
    rewrite takes the right field's bit where it has one, widening keeps the bits
    of the mask, and two fields match exactly when no bit known to both differs. *)
Theorem field_operators f g m :
  field_wf f -> field_wf g -> mask_wf m -> f_type f = f_type g -> f_type f = m_type m ->
  (exists h, field_rewrite f g = Ok h /\ field_wf h /\ f_type h = f_type f
     /\ forall i, 0 <= i -> fbit h i = match fbit g i with Some b => Some b | None => fbit f i end)
  /\ (exists h, field_and_mask f m = Ok h /\ field_wf h /\ f_type h = f_type f
     /\ forall i, fbit h i = if mbit m i then fbit f i else None)
  /\ (exists b, field_match f g = Ok b
     /\ (b = true <-> forall i x y, 0 <= i -> fbit f i = Some x -> fbit g i = Some y -> x = y)).
Proof.
  intros Hf Hg Hm Hfg Hfm. split_and!; [by apply field_rewrite_ok|by apply field_and_mask_ok|by apply field_match_ok].
Qed.

Lemma type_eqb_ne s t : known s -> known t -> s <> t -> type_eqb s t = false.
Proof. intros Hs Ht Hne. destruct (type_eqb s t) eqn:E; [|done]. destruct Hne. by apply type_eqb_known. Qed.

(** the operators on fields of different types always throw bad_operands. *)
Theorem field_operators_mixed f g m :
  field_wf f -> field_wf g -> mask_wf m -> f_type f <> f_type g -> f_type f <> m_type m ->
  field_rewrite f g = Throw bad_operands
  /\ field_match f g = Throw bad_operands
  /\ field_and_mask f m = Throw bad_operands
  /\ mask_and (Mask (f_type f) (f_mask f)) m = Throw bad_operands
  /\ mask_or (Mask (f_type f) (f_mask f)) m = Throw bad_operands.
Proof.
  intros Hf Hg Hm Hfg Hfm. pose proof (type_eqb_ne _ _ (proj1 Hf) (proj1 Hg) Hfg) as E1.
  pose proof (type_eqb_ne _ _ (proj1 Hf) (proj1 Hm) Hfm) as E2.
  destruct (value_of_field_ok f Hf) as [Ev _]. split_and!.
  - unfold field_rewrite. rewrite Ev, res_bind_Ok. unfold value_rewrite, binop_type; cbn. by rewrite E1.
  - unfold field_match. rewrite !mask_of_field_ok, !res_bind_Ok by done. unfold mask_and, binop_type; cbn. by rewrite E1.
  - unfold field_and_mask, binop_type. by rewrite E2.
  - unfold mask_and, binop_type; cbn. by rewrite E2.
  - unfold mask_or, binop_type; cbn. by rewrite E2.
Qed.

(** A set matches a packet that has its fields when the packet has its bits. *)
Lemma fs_match_bits {P} `{Packet P} `{!PacketLaws P} fs (p : P) :
  fs_wf fs -> pkt_wf p -> (forall t i, known t -> fs_bit fs t i <> None -> pval p t <> None) ->
  exists b, fs_match fs p = Ok b
    /\ (b = true <-> forall t i x v, known t -> 0 <= i -> fs_bit fs t i = Some x -> pval p t = Some v -> Z.testbit v i = x).
Proof.
  intros Hw Hp Hpres.
  assert (Hall : forall l, (forall f, f ∈ l -> exists b, test p f = Ok b) -> exists b, all_of (test p) l = Ok b).
  { induction l as [|f l IH]; intros Hl; [by exists true|]. cbn. destruct (Hl f ltac:(left)) as [[] ->]; cbn; [|by exists false].
    apply IH. intros g Hg. apply Hl. by right. }
  destruct (Hall ((map_to_list (entries fs)).*2)) as [b Hb].
  { intros f ([k f'] & -> & Hin%elem_of_map_to_list)%list_elem_of_fmap. cbn. destruct (Hw _ _ Hin) as (Hk & Wf & Nf).
    destruct (not_wildcard_fbit f' Wf Nf) as (i0 & b0 & _ & Hb0).
    destruct (pval p (f_type f')) as [v|] eqn:Hv.
    - destruct (test_present p f' v Hp Wf Hv) as (b & ? & _). by exists b.
    - exfalso. apply (Hpres (f_type f') i0); [apply Wf| |done]. unfold fs_bit, fs_find. rewrite Hk, Hin. cbn. congruence. }
  exists b. split; [exact Hb|]. transitivity (fs_match fs p = Ok true).
  { unfold fs_match. rewrite Hb. split; congruence. }
  rewrite fs_match_true by done. split.
  - intros Hs t i x v Ht Hi Hx Hv. destruct (Hs t i x Ht Hi Hx) as (v' & Hv' & <-). congruence.
  - intros Hs t i x Ht Hi Hx. destruct (pval p t) as [v|] eqn:Hv; [exists v; eauto|].
    exfalso. apply (Hpres t i Ht); congruence.
Qed.

(** C36: a field set is a partial map from the bits of all known types.  On a
    well-formed set, load returns the known bits of the mask, modify overwrites
    the bits of the patch, and erase forgets those of the mask; none of them
    throws, and but for a modify with a patch of no bits, which leaves an entry
    that fixes nothing, the set stays well-formed.  Two well-formed sets with the same
    bits are equal.  A packet that has all fields of the set matches it exactly
    when it has the known bits. *)
Theorem field_set_map fs :
  fs_wf fs ->
  (forall m, mask_wf m -> exists f, fs_load fs m = Ok f /\ field_wf f /\ f_type f = m_type m
     /\ forall i, fbit f i = if mbit m i then fs_bit fs (m_type m) i else None)
  /\ (forall p, field_wf p ->
      exists fs', fs_modify fs p = Ok fs' /\ (wildcard (f_mask p) = false -> fs_wf fs') /\ forall t i, known t -> 0 <= i ->
        fs_bit fs' t i = if decide (t = f_type p)
                         then match fbit p i with Some b => Some b | None => fs_bit fs t i end else fs_bit fs t i)
  /\ (forall m, mask_wf m -> exists fs', fs_erase fs m = Ok fs' /\ fs_wf fs' /\ forall t i, known t -> 0 <= i ->
        fs_bit fs' t i = if decide (t = m_type m) then if mbit m i then None else fs_bit fs t i else fs_bit fs t i)
  /\ (forall gs, fs_wf gs -> (forall t i, known t -> 0 <= i -> fs_bit fs t i = fs_bit gs t i) -> fs = gs)
  /\ (forall (P : Type) `{Packet P} `{!PacketLaws P} (p : P), pkt_wf p -> (forall t i, known t -> fs_bit fs t i <> None -> pval p t <> None) ->
      exists b, fs_match fs p = Ok b
        /\ (b = true <-> forall t i x v, known t -> 0 <= i -> fs_bit fs t i = Some x -> pval p t = Some v -> Z.testbit v i = x)).
Proof.
  intros Hw. split_and!.
  - intros m Hm. by apply fs_load_ok.
  - intros p Hp. by apply fs_modify_bits.
  - intros m Hm. by apply fs_erase_ok.
  - intros gs Hg Hb. by apply fs_ext.
  - intros P HP HL p Hp. by apply fs_match_bits.
Qed.

End fields.

Definition sample_oui : field := Field eth_src (Bits 48 0x020000000000) (Bits 48 0xffffff000000).
Definition sample_port : field := Field in_port (Bits 32 3) (bits_set (bits_zero 32)).

Lemma sample_oui_wf : field_wf sample_oui.
Proof.
  assert (Hb : forall v, 0 <= v < 2 ^ 48 -> bits_at eth_src (Bits 48 v)) by (intros v Hv; by split; [split|]).
  split_and!; [by apply known_by_check|by apply Hb|split; [by apply Hb|by left]|reflexivity].
Qed.

Lemma sample_port_wf : field_wf sample_port.
Proof.
  split_and!; [by apply known_by_check| |by apply (mask_ok_set in_port)|reflexivity].
  by split; [split|].
Qed.

Lemma field_operators_witness :
  exists h, field_rewrite sample_patch sample_oui = Ok h /\ f_value h = Bits 48 0x020000000009.
Proof.
  destruct (field_operators sample_patch sample_oui (Mask eth_src (f_mask sample_oui))) as [(h & E & _) _].
  - apply sample_patch_wf.
  - apply sample_oui_wf.
  - apply (mask_of_field_wf sample_oui sample_oui_wf).
  - reflexivity.
  - reflexivity.
  - exists h. split; [exact E|]. vm_compute in E. injection E as <-. reflexivity.
Defined.

Lemma field_operators_mixed_witness : field_rewrite sample_oui sample_port = Throw bad_operands.
Proof.
  apply (field_operators_mixed sample_oui sample_port (Mask in_port (f_mask sample_port)));
    [apply sample_oui_wf|apply sample_port_wf|apply (mask_of_field_wf sample_port sample_port_wf)
    |discriminate|discriminate].
Defined.

Lemma field_set_map_witness :
  (exists fs, fs_modify fs_empty sample_port = Ok fs /\ fs_wf fs /\ fs_bit fs in_port 1 = Some true)
  /\ exists b, fs_match fs_empty sample_parser = Ok b.
Proof.
  destruct (field_set_map fs_empty fs_empty_wf) as (_ & Hm & _ & _ & Hp). split.
  - destruct (Hm sample_port sample_port_wf) as (fs & E & Hw & Hb). exists fs. split; [exact E|]. split; [by apply Hw|].
    rewrite Hb; [reflexivity|by apply known_by_check|done].
  - destruct (Hp parser parser_packet parser_laws sample_parser sample_parser_wf) as (b & Hb & _); [|by exists b].
    intros t i _. unfold fs_bit, fs_find. cbn. by rewrite lookup_empty.
Defined.
