(* ===== verification/OxmAdapter.v ===== *)
(** * OXM fields inside libfluid messages (src/FluidOXMAdapter.cc, FluidOXMAdapter.hh)

    A field is handed to libfluid as an [OXMTLV]: its header, then the bytes of the
    value, then those of the mask unless the match is exact.  The header itself is
    written and read by libfluid, which is an interface here. *)

From S2P Require Import Prelude Bits OxmField Packet PacketParser.
Local Open Scope Z_scope.

(** [OXMTLV::pack] and [unpack]: the class, the field, whether there is a mask, and the
    length of the body, in four bytes. *)
Class OxmHeader := {
  header_bytes : Z -> Z -> bool -> Z -> list Z;
  header_read : list Z -> Z * Z * bool * Z;
  header_length cls fld mask len : length (header_bytes cls fld mask len) = 4%nat;
  header_back cls fld mask len rest : in_width 16 cls -> in_width 7 fld -> in_width 8 len ->
    header_read (header_bytes cls fld mask len ++ rest) = (cls, fld, mask, len);
}.

Definition OFP_OXM_HEADER_LEN : Z := 4.

(** [FluidOXMAdapter]: the header of [OXMTLV] and the field. *)
Record oxm_adapter := Adapter { ad_class : Z; ad_field : Z; ad_has_mask : bool; ad_length : Z; ad_oxm : field }.

(** The constructor; [static_cast]s to 16 and 8 bits. *)
Definition FluidOXMAdapter (f : field) : oxm_adapter :=
  Adapter (u16 (t_ns (f_type f))) (u8 (t_id (f_type f))) (negb (exact (f_mask f)))
    (u8 (nbytes (f_type f) * (if exact (f_mask f) then 1 else 2))) f.

(** An [OXMTLV] of libfluid, which may be one of these. *)
Inductive oxm_tlv := tlv_adapter (a : oxm_adapter) | tlv_other.

(** [operator=] casts to a reference and throws if it is another class; [equals] casts to a pointer. *)
Definition adapter_assign (other : oxm_tlv) : res oxm_error oxm_adapter :=
  match other with tlv_adapter a => Ok a | tlv_other => Throw bad_cast end.
Definition adapter_equals (a : oxm_adapter) (other : oxm_tlv) : bool :=
  match other with tlv_adapter b => field_eqb (ad_oxm a) (ad_oxm b) | tlv_other => false end.

(** A write into the buffer; [None] if it does not fit. *)
Definition write_at (buffer : list Z) (off : Z) (bs : list Z) : option (list Z) :=
  if (Z.to_nat off + length bs <=? length buffer)%nat then Some (splice buffer off bs) else None.

(** A bitset read from the buffer; the constructor touches the byte before, too. *)
Definition read_at (buffer : list Z) (off nb : Z) : option bits :=
  if (Z.to_nat off + Z.to_nat (num_blocks nb) <=? length buffer)%nat
  then Some (bits_from_buffer (nth (Z.to_nat off - 1) buffer 0) nb (drop (Z.to_nat off) buffer))
  else None.

Section adapter.
Context `{OxmHeader}.

Definition adapter_pack (a : oxm_adapter) (buffer : list Z) : option (list Z) :=
  let f := ad_oxm a in
  buffer ← write_at buffer 0 (header_bytes (ad_class a) (ad_field a) (ad_has_mask a) (ad_length a));
  buffer ← write_at buffer OFP_OXM_HEADER_LEN (bits_to_buffer (f_value f));
  if exact (f_mask f) then Some buffer
  else write_at buffer (OFP_OXM_HEADER_LEN + nbytes (f_type f)) (bits_to_buffer (f_mask f)).

(** The type of the field decides how much is read; [None] is a read outside the buffer. *)
Definition adapter_unpack (a : oxm_adapter) (buffer : list Z) : option (res oxm_error oxm_adapter) :=
  let t := f_type (ad_oxm a) in
  let '(cls, fld, has_mask, len) := header_read buffer in
  value_bits ← read_at buffer OFP_OXM_HEADER_LEN (t_nbits t);
  field ← (if has_mask : bool
           then mask_bits ← read_at buffer (OFP_OXM_HEADER_LEN + nbytes t) (t_nbits t); Some (make_field t value_bits mask_bits)
           else Some (field_exact t value_bits));
  Some (field ≫= fun f => Ok (Adapter cls fld has_mask len f)).

(** [make_of_match], in the order in which the field set is walked through. *)
Definition make_of_match (match_ : field_set) : list oxm_adapter := map (fun e => FluidOXMAdapter e.2) (map_to_list (entries match_)).

(** * What is packed is unpacked *)

Lemma write_at_ok buffer off bs : 0 <= off -> (Z.to_nat off + length bs <= length buffer)%nat ->
  write_at buffer off bs = Some (take (Z.to_nat off) buffer ++ bs ++ drop (Z.to_nat off + length bs) buffer).
Proof. intros _ Hl. unfold write_at. by rewrite (proj2 (Nat.leb_le _ _) Hl). Qed.

Lemma write_after pre bs old rest : length old = length bs ->
  write_at (pre ++ old ++ rest) (Z.of_nat (length pre)) bs = Some (pre ++ bs ++ rest).
Proof.
  intros Hl. rewrite write_at_ok; rewrite ?Nat2Z.id, ?length_app; [|lia|lia]. f_equal. rewrite take_app_length. f_equal. f_equal.
  rewrite <- Hl, <- length_app, app_assoc. by rewrite drop_app_length.
Qed.

Lemma write_first bs old rest : length old = length bs -> write_at (old ++ rest) 0 bs = Some (bs ++ rest).
Proof. apply (write_after []). Qed.

Lemma read_after pre b nb rest : bits_wf b -> bsize b = nb -> read_at (pre ++ bits_to_buffer b ++ rest) (Z.of_nat (length pre)) nb = Some b.
Proof.
  intros Hb <-. unfold read_at. rewrite Nat2Z.id, !length_app, bits_to_buffer_length, (proj2 (Nat.leb_le _ _)) by lia.
  rewrite drop_app_length. by rewrite bits_buffer_roundtrip.
Qed.

Lemma exact_mask t m : bits_at t m -> exact m = true -> m = bits_set (bits_zero (t_nbits t)).
Proof.
  intros [Hw Hs] He. unfold exact, bits_all in He. apply Z.eqb_eq in He. destruct m as [n v]. cbn in *. subst. done.
Qed.

Lemma field_eta f : Field (f_type f) (f_value f) (f_mask f) = f.
Proof. by destruct f. Qed.

(** A buffer that is long enough, in the parts that are written. *)
Lemma split_buffer (buffer : list Z) n k : (4 + (n + k) <= length buffer)%nat -> exists h v m rest, buffer = h ++ v ++ m ++ rest /\
  length h = 4%nat /\ length v = n /\ length m = k.
Proof.
  intros Hl. exists (take 4 buffer), (take n (drop 4 buffer)), (take k (drop n (drop 4 buffer))), (drop k (drop n (drop 4 buffer))).
  rewrite !take_drop. split; [done|]. rewrite !length_take, !length_drop. lia.
Qed.

Lemma drop_parts (h v m rest : list Z) n k : length h = 4%nat -> length v = n -> length m = k -> drop (4 + (n + k)) (h ++ v ++ m ++ rest) = rest.
Proof. intros <- <- <-. by rewrite <- length_app, <- length_app, !app_assoc, <- (app_assoc h v m), drop_app_length. Qed.

(** A field survives the message: packed into a buffer that is large enough, it changes
    nothing behind the bytes that its header announces, and an adapter of the same type
    reads it back. *)
Lemma adapter_roundtrip {R : TypeRegistry} f g buffer (Hf : field_wf f) (Hg : f_type g = f_type f) (Hns : in_width 16 (t_ns (f_type f)))
  (Hid : in_width 7 (t_id (f_type f))) (Hsize : nbytes (f_type f) * 2 < 256) (Hbuf : (4 + Z.to_nat (ad_length (FluidOXMAdapter f)) <= length buffer)%nat) :
  exists buffer', adapter_pack (FluidOXMAdapter f) buffer = Some buffer' /\ length buffer' = length buffer /\
    drop (4 + Z.to_nat (ad_length (FluidOXMAdapter f))) buffer' = drop (4 + Z.to_nat (ad_length (FluidOXMAdapter f))) buffer /\
    adapter_unpack (FluidOXMAdapter g) buffer' = Some (Ok (FluidOXMAdapter f)).
Proof.
  destruct Hf as (Hk & Hv & Hm & Hvm). set (t := f_type f) in *. pose proof (known_nbits t Hk) as Hpos.
  assert (Hnb : nbytes t = num_blocks (t_nbits t)) by done. pose proof (num_blocks_bound (t_nbits t)) as Hb.
  set (n := Z.to_nat (num_blocks (t_nbits t))).
  assert (Hlv : length (bits_to_buffer (f_value f)) = n) by (rewrite bits_to_buffer_length; by destruct Hv as [_ ->]).
  assert (Hlm : length (bits_to_buffer (f_mask f)) = n) by (rewrite bits_to_buffer_length; by destruct Hm as [[_ ->] _]).
  assert (Hlen : ad_length (FluidOXMAdapter f) = Z.of_nat n * (if exact (f_mask f) then 1 else 2)).
  { cbn [ad_length FluidOXMAdapter]. fold t. rewrite Hnb. unfold n. rewrite Z2Nat.id by lia. apply wrap_small. unfold in_width. destruct (exact (f_mask f)); lia. }
  rewrite Hlen in *. set (k := if exact (f_mask f) then 0%nat else n).
  assert (Hk2 : Z.to_nat (Z.of_nat n * (if exact (f_mask f) then 1 else 2)) = (n + k)%nat) by (unfold k; destruct (exact (f_mask f)); lia).
  rewrite Hk2 in *. set (hd := header_bytes (u16 (t_ns t)) (u8 (t_id t)) (negb (exact (f_mask f))) (Z.of_nat n * (if exact (f_mask f) then 1 else 2))).
  assert (Hhd : length hd = 4%nat) by apply header_length.
  destruct (split_buffer buffer n k Hbuf) as (h0 & v0 & m0 & rest & -> & Hh0 & Hv0 & Hm0). rewrite drop_parts by lia.
  set (body := bits_to_buffer (f_value f) ++ if exact (f_mask f) then [] else bits_to_buffer (f_mask f)).
  exists (hd ++ body ++ rest). assert (Hbody : length body = (n + k)%nat).
  { unfold body, k. rewrite length_app, Hlv. destruct (exact (f_mask f)); cbn; [lia|by rewrite Hlm]. }
  split; [|split; [|split]].
  - unfold adapter_pack. cbn [ad_oxm ad_class ad_field ad_has_mask ad_length FluidOXMAdapter]. cbn [ad_length FluidOXMAdapter] in Hlen. rewrite Hlen. fold t hd.
    rewrite write_first by lia. cbn [mbind option_bind].
    replace OFP_OXM_HEADER_LEN with (Z.of_nat (length hd)) by (by rewrite Hhd). rewrite (write_after hd _ v0) by lia. cbn [mbind option_bind].
    unfold body, k in *. destruct (exact (f_mask f)); [destruct m0; [by rewrite app_nil_r|done]|].
    rewrite Hnb. replace (Z.of_nat (length hd) + num_blocks (t_nbits t)) with (Z.of_nat (length (hd ++ bits_to_buffer (f_value f)))) by (rewrite length_app, Hlv; unfold n; lia).
    rewrite (app_assoc hd), (write_after _ _ m0) by lia. by rewrite <- !app_assoc.
  - rewrite !length_app, Hbody. lia.
  - rewrite <- drop_drop, <- Hhd, drop_app_length, <- Hbody, drop_app_length. done.
  - unfold adapter_unpack. cbn [ad_oxm FluidOXMAdapter]. rewrite Hg. fold t. unfold hd at 1.
    rewrite !wrap_small by (unfold in_width in *; lia). rewrite header_back; [|done|done|unfold in_width, n in *; rewrite Z2Nat.id by lia; destruct (exact (f_mask f)); lia].
    replace OFP_OXM_HEADER_LEN with (Z.of_nat (length hd)) by (by rewrite Hhd). unfold body. rewrite <- app_assoc.
    rewrite read_after by apply Hv. cbn [mbind option_bind].
    assert (Hf : make_field t (f_value f) (f_mask f) = Ok f) by (rewrite make_field_ok, Hvm by done; apply f_equal, field_eta).
    assert (Hend : Adapter (t_ns t) (t_id t) (negb (exact (f_mask f))) (Z.of_nat n * (if exact (f_mask f) then 1 else 2)) f = FluidOXMAdapter f).
    { unfold FluidOXMAdapter at 1. fold t. rewrite !wrap_small by (unfold in_width in *; lia). f_equal. rewrite <- Hlen. done. }
    rewrite <- Hend. unfold body, k in *. destruct (exact (f_mask f)) eqn:Ee; cbn [negb].
    + unfold field_exact. rewrite <- (exact_mask t (f_mask f)) by (done || apply Hm). by rewrite Hf.
    + rewrite Hnb. replace (Z.of_nat (length hd) + num_blocks (t_nbits t)) with (Z.of_nat (length (hd ++ bits_to_buffer (f_value f)))) by (rewrite length_app, Hlv; unfold n; lia).
      rewrite (app_assoc hd), read_after by apply Hm. cbn [mbind option_bind]. by rewrite Hf.
Qed.
End adapter.

(** ** The header as OpenFlow has it

    It shows that the interface can be implemented, and is used in the example. *)
#[local] Instance of_header : OxmHeader.
Proof.
  refine {| header_bytes cls fld mask len := [cls / 256; cls mod 256; 2 * fld + Z.b2z mask; len];
            header_read bs := match bs with b0 :: b1 :: b2 :: b3 :: _ => (b0 * 256 + b1, b2 / 2, Z.odd b2, b3) | _ => (0, 0, false, 0) end |}.
  - done.
  - intros cls fld mask len rest Hc Hf Hl. cbn [app].
    assert (Hmod : cls / 256 * 256 + cls mod 256 = cls) by (pose proof (Z.div_mod cls 256); lia).
    assert (Hdiv : (2 * fld + Z.b2z mask) / 2 = fld) by (rewrite Z.mul_comm, Z.div_add_l by lia; destruct mask; cbn [Z.b2z]; [change (1 / 2) with 0|change (0 / 2) with 0]; lia).
    assert (Hodd : Z.odd (2 * fld + Z.b2z mask) = mask) by (rewrite Z.add_comm, Z.odd_add_mul_2; by destruct mask).
    by rewrite Hmod, Hdiv, Hodd.
Defined.

(** An Ethernet type, and an address with a mask, as they are sent. *)
Lemma adapter_example :
  adapter_pack (FluidOXMAdapter (Field (Type_ 0x8000 5 false 16) (Bits 16 0x0800) (Bits 16 0xffff))) (replicate 6 0) = Some [0x80; 0; 10; 2; 8; 0] /\
  adapter_pack (FluidOXMAdapter (Field (Type_ 0x8000 11 true 32) (Bits 32 0x0a000000) (Bits 32 0xff000000))) (replicate 13 7)
    = Some [0x80; 0; 23; 8; 10; 0; 0; 0; 255; 0; 0; 0; 7].
Proof. split; vm_compute; reflexivity. Qed.
