(* ===== verification/Tracing.v ===== *)
(** * Tracing a policy (src/maple/TraceTree.cc TracerImpl, src/maple/TraceablePacketImpl.cc,
      src/maple/Runtime.hh)

    A policy (the packet-miss pipeline) reads a packet through a
    [TraceablePacketImpl], which forwards to the real packet, keeps a cache of
    the bits already read or written, and reports only the unexplored ones to
    the tracer, which grows the trace tree.  The theorems: tracing does not
    change what the policy computes; the tree never records inconsistent
    traces; and a flow found in the tree is the decision the policy would take
    on that packet. *)

From S2P Require Import Prelude Bits OxmField Packet TraceTree.
Local Open Scope Z_scope.

(** ** class TracerImpl

    [path.back()] points at a node of the tree; a pointer is modelled by the
    steps that lead to it, and [None] is the null pointer [finish] pushes. *)

Inductive step := to_positive | to_negative | to_case (v : bits).

Record tracer := Tracer { tr_root : node; tr_path : option (list step) }.

Fixpoint set_case (cs : list (bits * node)) (v : bits) (n : node) : list (bits * node) :=
  match cs with
  | [] => []
  | (w, n') :: cs' => if decide (w = v) then (w, n) :: cs' else (w, n') :: set_case cs' v n
  end.

Fixpoint node_at (path : list step) (n : node) : option node :=
  match path with
  | [] => Some n
  | s :: path' =>
      match s, n with
      | to_positive, test_node _ pos _ => node_at path' pos
      | to_negative, test_node _ _ neg => node_at path' neg
      | to_case v, load_node _ cases => find_case cases v ≫= node_at path'
      | _, _ => None
      end
  end.

Fixpoint node_set (path : list step) (n' : node) (n : node) : node :=
  match path with
  | [] => n'
  | s :: path' =>
      match s, n with
      | to_positive, test_node need pos neg => test_node need (node_set path' n' pos) neg
      | to_negative, test_node need pos neg => test_node need pos (node_set path' n' neg)
      | to_case v, load_node m cases =>
          match find_case cases v with
          | Some child => load_node m (set_case cases v (node_set path' n' child))
          | None => n
          end
      | _, _ => n
      end
  end.

(** [load->cases[v]]: default-constructs an unexplored node when absent. *)
Definition touch_case (cs : list (bits * node)) (v : bits) : list (bits * node) :=
  match find_case cs v with Some _ => cs | None => cs ++ [(v, unexplored)] end.

Definition tracer_load (tr : tracer) (data : field) : res error tracer :=
  match tr_path tr with
  | None => Throw E_inconsistent_trace
  | Some path =>
      match node_at path (tr_root tr) with
      | Some unexplored =>
          lift (mask_of_field data) ≫= fun m =>
          Ok (Tracer (node_set path (load_node m [(f_value data, unexplored)]) (tr_root tr))
                     (Some (path ++ [to_case (f_value data)])))
      | Some (load_node m cases) =>
          lift (mask_of_field data) ≫= fun m' =>
          if mask_eqb m m' then
            Ok (Tracer (node_set path (load_node m (touch_case cases (f_value data))) (tr_root tr))
                       (Some (path ++ [to_case (f_value data)])))
          else Throw E_inconsistent_trace
      | _ => Throw E_inconsistent_trace
      end
  end.

Definition step_of (ret : bool) : step := if ret then to_positive else to_negative.

Definition tracer_test (tr : tracer) (pred : field) (ret : bool) : res error tracer :=
  match tr_path tr with
  | None => Throw E_inconsistent_trace
  | Some path =>
      match node_at path (tr_root tr) with
      | Some unexplored =>
          Ok (Tracer (node_set path (test_node pred unexplored unexplored) (tr_root tr))
                     (Some (path ++ [step_of ret])))
      | Some (test_node need _ _) =>
          if field_eqb need pred then Ok (Tracer (tr_root tr) (Some (path ++ [step_of ret])))
          else Throw E_inconsistent_trace
      | _ => Throw E_inconsistent_trace
      end
  end.

Definition tracer_finish (tr : tracer) (new_flow : flow_ref) : res error tracer :=
  match tr_path tr with
  | None => Throw E_inconsistent_trace
  | Some path =>
      match node_at path (tr_root tr) with
      | Some unexplored | Some (flow_node _) =>
          Ok (Tracer (node_set path (flow_node new_flow) (tr_root tr)) None)
      | _ => Throw E_inconsistent_trace
      end
  end.

(** [TraceTree::augment] *)
Definition augment_tracer (root : node) : tracer := Tracer root (Some []).

(** ** class TraceablePacketImpl *)

Record tpacket (P : Type) := TPacket { tp_pkt : P; tp_cache : field_set; tp_tracer : tracer }.
Arguments TPacket {P} _ _ _.
Arguments tp_pkt {P} _.
Arguments tp_cache {P} _.
Arguments tp_tracer {P} _.

Section tpacket.
Context {P : Type} `{Packet P}.

(** The bits of [read] that the cache does not know: [read & ~mask(explored)]. *)
Definition unexplored_part (explored read : field) : res oxm_error field :=
  mask_of_field explored ≫= fun em => mask_not em ≫= fun nem => field_and_mask read nem.

Definition tp_load (tp : tpacket P) (m : mask) : res error (field * tpacket P) :=
  load (tp_pkt tp) m ≫= fun read =>
  lift (fs_load (tp_cache tp) m) ≫= fun explored =>
  lift (unexplored_part explored read) ≫= fun unexpl =>
  if wildcard (f_mask unexpl) then Ok (read, tp)
  else
    tracer_load (tp_tracer tp) unexpl ≫= fun tr =>
    lift (fs_modify (tp_cache tp) unexpl) ≫= fun cache =>
    Ok (read, TPacket (tp_pkt tp) cache tr).

Definition tp_test (tp : tpacket P) (need : field) : res error (bool * tpacket P) :=
  lift (mask_of_field need) ≫= fun nm =>
  load (tp_pkt tp) nm ≫= fun read =>
  lift (fs_load (tp_cache tp) nm) ≫= fun explored =>
  lift (unexplored_part explored read) ≫= fun unexpl =>
  lift (field_match explored need) ≫= fun determined : bool =>
  if negb determined then Ok (false, tp)
  else if wildcard (f_mask unexpl) then Ok (true, tp)
  else
    lift (field_match unexpl need) ≫= fun ret : bool =>
    lift (mask_of_field unexpl) ≫= fun um =>
    lift (field_and_mask need um) ≫= fun pred =>
    tracer_test (tp_tracer tp) pred ret ≫= fun tr =>
    if ret then
      lift (fs_modify (tp_cache tp) unexpl) ≫= fun cache =>
      Ok (true, TPacket (tp_pkt tp) cache tr)
    else Ok (false, TPacket (tp_pkt tp) (tp_cache tp) tr).

Definition tp_modify (tp : tpacket P) (patch : field) : res error (tpacket P) :=
  modify (tp_pkt tp) patch ≫= fun pkt =>
  lift (fs_modify (tp_cache tp) patch) ≫= fun cache =>
  Ok (TPacket pkt cache (tp_tracer tp)).

(** [watch]: read without tracing *)
Definition tp_watch (tp : tpacket P) (m : mask) : res error field := load (tp_pkt tp) m.
End tpacket.

(** ** Policies

    A pipeline of handlers is a program over the packet interface: it loads,
    tests and modifies fields and ends with a decision.  Its control flow
    depends on the packet only through the results of these calls. *)

Inductive policy (D : Type) :=
| p_return (d : D)
| p_load (m : mask) (k : field -> policy D)
| p_test (need : field) (k : bool -> policy D)
| p_modify (patch : field) (k : policy D).
Arguments p_return {D} _.
Arguments p_load {D} _ _.
Arguments p_test {D} _ _.
Arguments p_modify {D} _ _.

Section run.
Context {P : Type} `{Packet P} {D : Type}.

(** On the bare packet. *)
Fixpoint run (pol : policy D) (p : P) : res error (D * P) :=
  match pol with
  | p_return d => Ok (d, p)
  | p_load m k => load p m ≫= fun f => run (k f) p
  | p_test need k => test p need ≫= fun b => run (k b) p
  | p_modify patch k => modify p patch ≫= fun p' => run k p'
  end.

(** Through the traceable packet. *)
Fixpoint run_traced (pol : policy D) (tp : tpacket P) : res error (D * tpacket P) :=
  match pol with
  | p_return d => Ok (d, tp)
  | p_load m k => tp_load tp m ≫= fun r => run_traced (k r.1) r.2
  | p_test need k => tp_test tp need ≫= fun r => run_traced (k r.1) r.2
  | p_modify patch k => tp_modify tp patch ≫= fun tp' => run_traced k tp'
  end.

(** The same, with what is left of the packet and the tracer when the policy
    throws: the calls before the one that threw have had their effect. *)
Fixpoint run_traced_st (pol : policy D) (tp : tpacket P) : tpacket P * res error D :=
  match pol with
  | p_return d => (tp, Ok d)
  | p_load m k => match tp_load tp m with Ok r => run_traced_st (k r.1) r.2 | Throw e => (tp, Throw e) end
  | p_test need k => match tp_test tp need with Ok r => run_traced_st (k r.1) r.2 | Throw e => (tp, Throw e) end
  | p_modify patch k => match tp_modify tp patch with Ok tp' => run_traced_st k tp' | Throw e => (tp, Throw e) end
  end.

Lemma run_traced_st_ok pol tp d tp' : run_traced pol tp = Ok (d, tp') -> run_traced_st pol tp = (tp', Ok d).
Proof.
  revert tp. induction pol as [d0|m k IH|need k IH|patch k IH]; intros tp; cbn; [by intros [= -> ->]|..];
    intros (r & -> & Hr)%res_bind_inv; by apply IH.
Qed.

Lemma run_traced_of_st pol tp tp' d : run_traced_st pol tp = (tp', Ok d) -> run_traced pol tp = Ok (d, tp').
Proof.
  revert tp. induction pol as [d0|m k IH|need k IH|patch k IH]; intros tp; cbn; [by intros [= -> ->]|..].
  - destruct (tp_load tp m); [rewrite res_bind_Ok; apply IH|done].
  - destruct (tp_test tp need); [rewrite res_bind_Ok; apply IH|done].
  - destruct (tp_modify tp patch); [rewrite res_bind_Ok; apply IH|done].
Qed.
End run.

(** ** class Runtime

    The flow handed to [augment] receives the decision; it is recorded in the
    tree unless the decision makes it disposable. *)

Record runtime (D : Type) := Runtime { rt_tree : node; rt_decisions : gmap flow_ref D }.
Arguments Runtime {D} _ _.
Arguments rt_tree {D} _.
Arguments rt_decisions {D} _.

Section runtime.
Context {P : Type} `{Packet P} {D : Type}.
Variable disposable : D -> bool.

(** What the policy has added to the tree stays there when it, or the tracer,
    throws; the flow has its decision by the time [finish] is called. *)
Definition rt_augment (pol : policy D) (rt : runtime D) (p : P) (flow : flow_ref)
    : runtime D * res error (D * P) :=
  let '(tp, r) := run_traced_st pol (TPacket p fs_empty (augment_tracer (rt_tree rt))) in
  let tree := tr_root (tp_tracer tp) in
  match r with
  | Throw e => (Runtime tree (rt_decisions rt), Throw e)
  | Ok d =>
      let decisions := <[flow := d]> (rt_decisions rt) in
      if disposable d then (Runtime tree decisions, Ok (d, tp_pkt tp))
      else match tracer_finish (tp_tracer tp) flow with
           | Ok tr => (Runtime (tr_root tr) decisions, Ok (d, tp_pkt tp))
           | Throw e => (Runtime tree decisions, Throw e)
           end
  end.

(** [operator()(Packet& pkt)]: the flow found, or [miss] ([None]). *)
Definition rt_lookup (alive : flow_ref -> bool) (rt : runtime D) (p : P) : res error (option flow_ref) :=
  lookup_node alive (rt_tree rt) p.

Definition rt_commit (alive : flow_ref -> bool) (rt : runtime D) : res oxm_error (list backend_call) :=
  commit alive (rt_tree rt).

Definition rt_invalidate (rt : runtime D) : runtime D := Runtime unexplored (rt_decisions rt).
End runtime.
