(* ===== verification/TracingProofs.v ===== *)
(** * The trace tree is a sound cache of the policy

    [observe] runs a policy on the cache alone, up to the next access whose
    outcome the cache does not determine.  [consistent] says that a tree records
    exactly such accesses.  The runtime keeps its tree consistent, and a
    consistent tree (hence the compiled flow table) only ever answers with the
    decision the policy takes. *)

From S2P Require Import Prelude Bits OxmField Packet TraceTree Tracing.
Local Open Scope Z_scope.

#[local] Arguments fs_bit : simpl never.
#[local] Arguments fbit : simpl never.
#[local] Arguments mbit : simpl never.

(** ** Silent execution on the cache *)

Inductive obs (D : Type) :=
| o_return (d : D)
| o_load (m : mask) (next : field -> res oxm_error (policy D * field_set))
| o_test (f : field) (next : bool -> res oxm_error (policy D * field_set)).
Arguments o_return {D} _.
Arguments o_load {D} _ _.
Arguments o_test {D} _ _.

(** [m & ~mask(explored)] *)
Definition unexplored_mask (explored : field) (m : mask) : res oxm_error mask :=
  mask_of_field explored ≫= fun em => mask_not em ≫= fun nem => mask_and m nem.

Fixpoint observe {D} (pol : policy D) (c : field_set) : res oxm_error (obs D) :=
  match pol with
  | p_return d => Ok (o_return d)
  | p_load m k =>
      fs_load c m ≫= fun explored =>
      unexplored_mask explored m ≫= fun um =>
      if wildcard (m_bits um) then observe (k explored) c
      else Ok (o_load um (fun u =>
             field_rewrite explored u ≫= fun read =>
             fs_modify c u ≫= fun c' => Ok (k read, c')))
  | p_test need k =>
      mask_of_field need ≫= fun nm =>
      fs_load c nm ≫= fun explored =>
      field_match explored need ≫= fun determined : bool =>
      if negb determined then observe (k false) c
      else unexplored_part explored need ≫= fun pred =>
        if wildcard (f_mask pred) then observe (k true) c
        else Ok (o_test pred (fun b : bool =>
               if b then fs_modify c pred ≫= fun c' => Ok (k true, c') else Ok (k false, c)))
  | p_modify patch k => fs_modify c patch ≫= fun c' => observe k c'
  end.

(** ** Well-formed policies and the order that [observe] descends *)

Section policies.
Context {R : TypeRegistry} {D : Type}.

Inductive policy_wf : policy D -> Prop :=
| pwf_return d : policy_wf (p_return d)
| pwf_load m k :
    mask_wf m -> wildcard (m_bits m) = false ->
    (forall f, field_wf f -> f_type f = m_type m -> policy_wf (k f)) -> policy_wf (p_load m k)
| pwf_test need k :
    field_wf need -> wildcard (f_mask need) = false ->
    (forall b, policy_wf (k b)) -> policy_wf (p_test need k)
| pwf_modify patch k :
    field_wf patch -> wildcard (f_mask patch) = false -> policy_wf k -> policy_wf (p_modify patch k).

Inductive sub : policy D -> policy D -> Prop :=
| sub_load m k f q : sub_eq q (k f) -> sub q (p_load m k)
| sub_test need k b q : sub_eq q (k b) -> sub q (p_test need k)
| sub_modify patch k q : sub_eq q k -> sub q (p_modify patch k)
with sub_eq : policy D -> policy D -> Prop :=
| sub_refl p : sub_eq p p
| sub_step p q : sub p q -> sub_eq p q.

Lemma sub_wf : well_founded sub.
Proof.
  assert (He : forall p q, Acc sub p -> sub_eq q p -> Acc sub q).
  { intros p q Hp Hq. destruct Hq; [done|]. by apply Hp. }
  intros p. induction p as [d|m k IH|need k IH|patch k IH]; constructor; intros q Hq;
    inversion Hq; subst; eauto.
Qed.

Definition grows (c c' : field_set) : Prop :=
  forall t i, known t -> 0 <= i -> fs_bit c t i <> None -> fs_bit c' t i <> None.

Lemma grows_refl c : grows c c.
Proof. by intros t i. Qed.

Lemma grows_trans a b c : grows a b -> grows b c -> grows a c.
Proof. intros Ha Hb t i Ht Hi Hn. auto. Qed.

Lemma fs_modify_grows c f c' :
  fs_wf c -> field_wf f -> wildcard (f_mask f) = false -> fs_modify c f = Ok c' ->
  fs_wf c' /\ grows c c'
  /\ (forall i, 0 <= i -> fbit f i <> None -> fs_bit c' (f_type f) i <> None).
Proof.
  intros Hc Hf Nf E. destruct (fs_modify_ok c f Hc Hf Nf) as (x & E' & W & B).
  rewrite E in E'. injection E' as <-. split_and!; [done| |].
  - intros t i Ht Hi Hn. rewrite B by done. case_decide; [|done]. by destruct (fbit f i).
  - intros i Hi Hn. rewrite B, decide_True by (done || apply Hf). by destruct (fbit f i).
Qed.

(** The unexplored parts, bit by bit. *)
Lemma unexplored_part_ok e f :
  field_wf e -> field_wf f -> f_type f = f_type e ->
  exists u, unexplored_part e f = Ok u /\ field_wf u /\ f_type u = f_type f
    /\ forall i, 0 <= i -> fbit u i = match fbit e i with Some _ => None | None => fbit f i end.
Proof.
  intros He Hf Ht. unfold unexplored_part. rewrite mask_of_field_ok, res_bind_Ok by done.
  destruct (mask_not_ok _ (mask_of_field_wf e He)) as [-> Wn]. rewrite res_bind_Ok.
  destruct (field_and_mask_ok f _ Hf Wn Ht) as (u & -> & Wu & Tu & Bu).
  exists u. split_and!; [done..|]. intros i Hi. rewrite Bu.
  destruct (Z.lt_ge_cases i (t_nbits (f_type e))).
  - rewrite mbit_not by (apply mask_of_field_wf, He || (cbn; lia)).
    unfold mbit, fbit at 2; cbn. by destruct (Z.testbit (bval (f_mask e)) i).
  - rewrite (fbit_high f) by (rewrite ?Ht; done). by destruct (mbit _ i), (fbit e i).
Qed.

Lemma unexplored_mask_ok e m :
  field_wf e -> mask_wf m -> f_type e = m_type m ->
  exists um, unexplored_mask e m = Ok um /\ mask_wf um /\ m_type um = m_type m
    /\ forall i, 0 <= i -> mbit um i = mbit m i && match fbit e i with Some _ => false | None => true end.
Proof.
  intros He Hm Ht. unfold unexplored_mask. rewrite mask_of_field_ok, res_bind_Ok by done.
  destruct (mask_not_ok _ (mask_of_field_wf e He)) as [-> [_ Wn]]. rewrite res_bind_Ok.
  unfold mask_and; cbn [m_type m_bits]. cbn in Wn. rewrite Ht in Wn |- *.
  rewrite binop_type_same, res_bind_Ok. destruct Hm as [Hk Hm].
  pose proof (mask_ok_and _ _ _ Hm Wn) as Hok. rewrite make_mask_ok by done.
  eexists; split; [reflexivity|]. split_and!; [done..|]. intros i Hi. unfold mbit at 1; cbn.
  rewrite Z.land_spec, Z.ldiff_spec. destruct He as (_ & _ & [[Ew Es] _] & _).
  pose proof (known_nbits _ Hk). rewrite Es, Ht, testbit_ones by lia. unfold mbit, fbit.
  destruct Hm as [[Mw Ms] _]. destruct (Z.ltb_spec i (t_nbits (m_type m))).
  - by destruct (Z.testbit (bval (f_mask e)) i).
  - by rewrite (bits_wf_testbit_high (m_bits m)) by (done || lia).
Qed.

(** ** [observe] never throws on a well-formed policy *)

Definition obs_ok (pol : policy D) (c : field_set) (o : obs D) : Prop :=
  match o with
  | o_return _ => True
  | o_load m next =>
      mask_wf m /\ wildcard (m_bits m) = false
      /\ (forall i, 0 <= i -> mbit m i = true -> fs_bit c (m_type m) i = None)
      /\ forall u, field_wf u -> f_type u = m_type m -> f_mask u = m_bits m ->
           exists pol' c', next u = Ok (pol', c') /\ policy_wf pol' /\ fs_wf c' /\ sub pol' pol
             /\ grows c c'
             /\ (forall i, 0 <= i -> mbit m i = true -> fs_bit c' (m_type m) i <> None)
  | o_test f next =>
      field_wf f /\ wildcard (f_mask f) = false
      /\ (forall i, 0 <= i -> fbit f i <> None -> fs_bit c (f_type f) i = None)
      /\ forall b, exists pol' c', next b = Ok (pol', c') /\ policy_wf pol' /\ fs_wf c' /\ sub pol' pol
           /\ grows c c'
           /\ (b = true -> forall i, 0 <= i -> fbit f i <> None -> fs_bit c' (f_type f) i <> None)
  end.

Lemma obs_ok_weaken pol pol' c c' o :
  (forall q, sub q pol' -> sub q pol) -> grows c c' -> obs_ok pol' c' o -> obs_ok pol c o.
Proof.
  intros Hs Hg. assert (Hnone : forall t i, known t -> 0 <= i -> fs_bit c' t i = None -> fs_bit c t i = None).
  { intros t i Ht Hi Hn. destruct (fs_bit c t i) eqn:E; [|done]. destruct (Hg t i); congruence. }
  destruct o as [d|m next|f next]; cbn [obs_ok]; [done| |].
  - intros (Wm & Nm & Hd & Hn). split_and!; [done..| |].
    + intros i Hi Hb. apply Hnone; [apply Wm|done|by apply Hd].
    + intros u Hu Ht Hm. destruct (Hn u Hu Ht Hm) as (q & x & ? & ? & ? & ? & Hgx & ?).
      exists q, x. split_and!; auto. by eapply grows_trans.
  - intros (Wf & Nf & Hd & Hn). split_and!; [done..| |].
    + intros i Hi Hb. apply Hnone; [apply Wf|done|by apply Hd].
    + intros b. destruct (Hn b) as (q & x & ? & ? & ? & ? & Hgx & ?).
      exists q, x. split_and!; auto. by eapply grows_trans.
Qed.

Lemma mask_not_wildcard m :
  mask_wf m -> wildcard (m_bits m) = true <-> forall i, 0 <= i -> mbit m i = false.
Proof.
  intros Hm. unfold wildcard, bits_none, mbit. rewrite Z.eqb_eq. split.
  - intros -> i _. apply Z.bits_0.
  - intros Hb. apply Z.bits_inj'. intros i Hi. by rewrite Z.bits_0, Hb.
Qed.

Lemma mbit_fbit u m i : f_mask u = m_bits m -> mbit m i = true <-> fbit u i <> None.
Proof. intros E. unfold mbit, fbit. rewrite E. destruct (Z.testbit (bval (m_bits m)) i); split; congruence. Qed.

Lemma observe_ok pol c :
  policy_wf pol -> fs_wf c -> exists o, observe pol c = Ok o /\ obs_ok pol c o.
Proof.
  intros Hp. revert c. induction Hp as [d|m k Wm Nm Hk IH|need k Wn Nn Hk IH|patch k Wp Np Hk IH];
    intros c Hc; cbn [observe].
  - by eexists.
  - destruct (fs_load_ok c m Hc Wm) as (e & -> & We & Te & Be). rewrite res_bind_Ok.
    destruct (unexplored_mask_ok e m We Wm Te) as (um & -> & Wu & Tu & Bu). rewrite res_bind_Ok.
    destruct (wildcard (m_bits um)) eqn:Wild.
    + destruct (IH e We Te c Hc) as (o & -> & Ho). exists o. split; [done|].
      eapply obs_ok_weaken; [|apply grows_refl|done]. intros q Hq. by eapply sub_load, sub_step.
    + eexists; split; [reflexivity|]. cbn [obs_ok]. split_and!; [done..| |].
      * intros i Hi Hb. rewrite Tu. rewrite Bu, Be in Hb by done. destruct (mbit m i); [|done].
        cbn in Hb. by destruct (fs_bit c (m_type m) i).
      * intros u Hu Ht Hm.
        destruct (field_rewrite_ok e u We Hu) as (rd & -> & Wr & Tr & _); [congruence|].
        rewrite res_bind_Ok.
        destruct (fs_modify_ok c u Hc Hu) as (c' & E & _); [by rewrite Hm|]. rewrite E, res_bind_Ok.
        destruct (fs_modify_grows c u c' Hc Hu) as (Wc' & Hg & Hadd); [by rewrite Hm|done|].
        eexists _, c'. split; [reflexivity|]. split_and!; [|done| |done|].
        -- apply Hk; [done|congruence].
        -- eapply sub_load, sub_refl.
        -- intros i Hi Hb. rewrite <- Ht. apply Hadd; [done|]. by apply (mbit_fbit u um).
  - rewrite mask_of_field_ok, res_bind_Ok by done.
    destruct (fs_load_ok c _ Hc (mask_of_field_wf need Wn)) as (e & -> & We & Te & Be).
    rewrite res_bind_Ok. cbn [m_type] in *.
    destruct (field_match_ok e need We Wn Te) as (det & -> & Hdet). rewrite res_bind_Ok.
    destruct det; cbn [negb].
    2:{ destruct (IH false c Hc) as (o & -> & Ho). exists o. split; [done|].
        eapply obs_ok_weaken; [|apply grows_refl|done]. intros q Hq. by eapply sub_test, sub_step. }
    destruct (unexplored_part_ok e need We Wn) as (pr & -> & Wpr & Tpr & Bpr); [congruence|].
    rewrite res_bind_Ok. destruct (wildcard (f_mask pr)) eqn:Wild.
    + destruct (IH true c Hc) as (o & -> & Ho). exists o. split; [done|].
      eapply obs_ok_weaken; [|apply grows_refl|done]. intros q Hq. by eapply sub_test, sub_step.
    + eexists; split; [reflexivity|]. cbn [obs_ok]. split_and!; [done..| |].
      * intros i Hi Hb. rewrite Tpr. rewrite Bpr, Be in Hb by done.
        destruct (mbit _ i) eqn:Em; [by destruct (fs_bit c (f_type need) i)|].
        exfalso. apply Hb. apply not_true_iff_false in Em. unfold fbit. unfold mbit in Em; cbn in Em.
        by destruct (Z.testbit _ i).
      * intros [].
        -- destruct (fs_modify_ok c pr Hc Wpr Wild) as (c' & E & _). rewrite E, res_bind_Ok.
           destruct (fs_modify_grows c pr c' Hc Wpr Wild E) as (Wc' & Hg & Hadd).
           eexists _, c'. split; [reflexivity|]. split_and!; auto. eapply sub_test, sub_refl.
        -- eexists _, c. split; [reflexivity|]. split_and!; auto using grows_refl; try done.
           eapply sub_test, sub_refl.
  - destruct (fs_modify_ok c patch Hc Wp Np) as (c' & E & _). rewrite E, res_bind_Ok.
    destruct (fs_modify_grows c patch c' Hc Wp Np E) as (Wc' & Hg & _).
    destruct (IH c' Wc') as (o & -> & Ho). exists o. split; [done|].
    eapply obs_ok_weaken; [|apply Hg|done]. intros q Hq. by apply sub_modify, sub_step.
Qed.

End policies.

(** ** One step of a traced run *)

Section advance.
Context {P : Type} `{PacketLaws P} {D : Type}.

(** The packet [orig] that arrived, its current state [cur] after the policy's
    modifications, and the cache [c]. *)
Record tracks (orig cur : P) (c : field_set) : Prop := {
  tr_orig : pkt_wf orig;
  tr_cur : pkt_wf cur;
  tr_cache : fs_wf c;
  tr_sat : fs_sat c cur;
  tr_none : forall t, known t -> pval cur t = None <-> pval orig t = None;
  tr_rest : forall t v v0 i, known t -> 0 <= i -> pval cur t = Some v -> pval orig t = Some v0 ->
    fs_bit c t i = None -> Z.testbit v i = Z.testbit v0 i;
}.

Lemma tracks_init p : pkt_wf p -> tracks p p fs_empty.
Proof.
  intros Hp. split; auto using fs_empty_wf; [|congruence].
  intros t i b _ _. unfold fs_bit, fs_find; cbn. by rewrite lookup_empty.
Qed.

Lemma load_inv p m f :
  pkt_wf p -> mask_wf m -> load p m = Ok f ->
  exists v, pval p (m_type m) = Some v /\ field_wf f /\ f_type f = m_type m /\ f_mask f = m_bits m
    /\ forall i, 0 <= i -> fbit f i = if mbit m i then Some (Z.testbit v i) else None.
Proof.
  intros Hp Hm Hl. destruct (pval p (m_type m)) as [v|] eqn:Hv.
  2:{ rewrite load_absent in Hl; done. }
  destruct (load_present p m v Hp Hm Hv) as (f' & E & Wf & Tf & Bf). rewrite Hl in E.
  injection E as <-. exists v. split_and!; try done; [apply Wf..|].
  assert (Hb : bval (f_mask f) = bval (m_bits m)).
  { apply Z.bits_inj'. intros i Hi. specialize (Bf i Hi). unfold fbit, mbit in Bf.
    by destruct (Z.testbit (bval (f_mask f)) i), (Z.testbit (bval (m_bits m)) i). }
  destruct Wf as (_ & _ & [[_ Es] _] & _), Hm as [_ [[_ Ms] _]]. rewrite Tf in Es.
  destruct (f_mask f), (m_bits m); cbn in *. congruence.
Qed.

(** Modifying the packet and recording the patch. *)
Lemma tracks_modify orig cur c patch cur' c' :
  tracks orig cur c -> field_wf patch -> wildcard (f_mask patch) = false ->
  modify cur patch = Ok cur' -> fs_modify c patch = Ok c' -> tracks orig cur' c'.
Proof.
  intros [Ho Hc Wc Hs Hn Hr] Wp Np Hm Hf. pose proof Wp as (Kp & _).
  destruct (pval cur (f_type patch)) as [v|] eqn:Hv.
  2:{ rewrite modify_absent in Hm; done. }
  destruct (modify_present cur patch v Hc Wp Hv) as (x & v' & E & Wx & Hv' & Bv & Hoth).
  rewrite Hm in E. injection E as <-.
  destruct (fs_modify_ok c patch Wc Wp Np) as (y & E & Wc' & B). rewrite Hf in E. injection E as <-.
  split; [done..| | |].
  - intros t i b Kt Hi Hb. rewrite B in Hb by done. case_decide as Et.
    + subst t. exists v'. split; [done|]. rewrite Bv by done. destruct (fbit patch i); cbn; [congruence|].
      destruct (Hs _ _ _ Kt Hi Hb) as (w & Hw & <-). congruence.
    + destruct (Hs _ _ _ Kt Hi Hb) as (w & Hw & <-). exists w. split; [|done]. by rewrite Hoth.
  - intros t Kt. destruct (decide (t = f_type patch)) as [->|Et].
    + rewrite <- Hn, Hv, Hv' by done. done.
    + rewrite Hoth by done. by apply Hn.
  - intros t w w0 i Kt Hi Hw Hw0 Hb. rewrite B in Hb by done. case_decide as Et.
    + subst t. assert (w = v') as -> by congruence. rewrite Bv by done.
      destruct (fbit patch i); [done|]. cbn. by apply (Hr (f_type patch)).
    + rewrite Hoth in Hw by done. by apply (Hr t).
Qed.

(** Recording bits that were read. *)
Lemma tracks_record orig cur c u c' :
  tracks orig cur c -> field_wf u -> wildcard (f_mask u) = false -> field_sat u cur ->
  fs_modify c u = Ok c' -> tracks orig cur c'.
Proof.
  intros [Ho Hc Wc Hs Hn Hr] Wu Nu (v & Hv & Hsu) Hf.
  destruct (fs_modify_ok c u Wc Wu Nu) as (y & E & Wc' & B). rewrite Hf in E. injection E as <-.
  split; [done..| |done|].
  - intros t i b Kt Hi Hb. rewrite B in Hb by done. case_decide as Et; [|by apply Hs].
    subst t. destruct (fbit u i) eqn:Eu; [|by apply Hs]. injection Hb as <-. eauto.
  - intros t w w0 i Kt Hi Hw Hw0 Hb. rewrite B in Hb by done. case_decide; [|by apply (Hr t)].
    subst t. destruct (fbit u i); [done|]. by apply (Hr (f_type u)).
Qed.

(** Bits unknown to the cache are those of the packet that arrived. *)
Lemma tracks_load_orig orig cur c um u :
  tracks orig cur c -> mask_wf um ->
  (forall i, 0 <= i -> mbit um i = true -> fs_bit c (m_type um) i = None) ->
  load cur um = Ok u -> load orig um = Ok u.
Proof.
  intros [Ho Hc Wc Hs Hn Hr] Wm Hd Hl. pose proof Wm as [Km _].
  destruct (load_inv cur um u Hc Wm Hl) as (v & Hv & Wu & Tu & _ & Bu).
  destruct (pval orig (m_type um)) as [v0|] eqn:Hv0.
  2:{ apply Hn in Hv0; [congruence|done]. }
  destruct (load_present orig um v0 Ho Wm Hv0) as (u' & -> & Wu' & Tu' & Bu'). f_equal.
  apply field_ext; [done..|congruence|]. intros i Hi. rewrite Bu, Bu' by done.
  destruct (mbit um i) eqn:Em; [|done]. f_equal. symmetry. by apply (Hr (m_type um)); auto.
Qed.

Lemma tracks_test_orig orig cur c f b :
  tracks orig cur c -> field_wf f ->
  (forall i, 0 <= i -> fbit f i <> None -> fs_bit c (f_type f) i = None) ->
  test cur f = Ok b -> test orig f = Ok b.
Proof.
  intros [Ho Hc Wc Hs Hn Hr] Wf Hd Ht. pose proof Wf as (Kf & _).
  destruct (test_inv cur f b Hc Wf Ht) as [(v & Hv) Hb].
  destruct (pval orig (f_type f)) as [v0|] eqn:Hv0.
  2:{ apply Hn in Hv0; [congruence|done]. }
  destruct (test_present orig f v0 Ho Wf Hv0) as (b' & -> & Hb'). f_equal.
  assert (Heq : field_sat f cur <-> field_sat f orig).
  { assert (Hbits : forall i x, 0 <= i -> fbit f i = Some x -> Z.testbit v i = Z.testbit v0 i).
    { intros i x Hi Hx. apply (Hr (f_type f)); [done..|]. apply Hd; [done|congruence]. }
    split; intros (w & Hw & Hsat); [exists v0|exists v]; split; try done; intros i x Hi Hx.
    - rewrite <- (Hbits i x) by done. assert (w = v) as -> by congruence. auto.
    - rewrite (Hbits i x) by done. assert (w = v0) as -> by congruence. auto. }
  destruct b, b'; try done; intuition congruence.
Qed.

(** *** The explored and unexplored parts of an access *)

Lemma explored_agrees orig cur c m read e :
  tracks orig cur c -> mask_wf m -> load cur m = Ok read -> fs_load c m = Ok e ->
  field_wf read /\ field_wf e /\ f_type read = m_type m /\ f_type e = m_type m
  /\ f_mask read = m_bits m
  /\ (forall i, 0 <= i -> fbit read i = None <-> mbit m i = false)
  /\ forall i x, 0 <= i -> fbit e i = Some x -> fbit read i = Some x.
Proof.
  intros T Wm Hl He. destruct (load_inv cur m read) as (v & Hv & Wr & Tr & Mr & Br); [apply T|done..|].
  destruct (fs_load_ok c m (tr_cache _ _ _ T) Wm) as (e' & E & We & Te & Be).
  rewrite He in E. injection E as <-. split_and!; try done.
  - intros i Hi. rewrite Br by done. destruct (mbit m i); split; congruence.
  - intros i x Hi Hx. rewrite Be in Hx. rewrite Br by done. destruct (mbit m i); [|done].
    destruct (tr_sat _ _ _ T _ _ _ (proj1 Wm) Hi Hx) as (w & Hw & <-). congruence.
Qed.

Lemma unexplored_part_mask e f u :
  field_wf e -> unexplored_part e f = Ok u -> f_mask u = bits_and (f_mask f) (bits_not (f_mask e)).
Proof.
  unfold unexplored_part. intros We Hu. rewrite mask_of_field_ok in Hu by done.
  destruct (mask_not_ok _ (mask_of_field_wf e We)) as [En _].
  rewrite res_bind_Ok, En, res_bind_Ok in Hu.
  unfold field_and_mask, make_field in Hu. cbn [m_type m_bits] in *. by inv_ok.
Qed.

Lemma unexplored_masks e read m um u :
  field_wf e -> field_wf read -> mask_wf m -> f_type read = m_type m -> f_type e = m_type m ->
  f_mask read = m_bits m ->
  unexplored_mask e m = Ok um -> unexplored_part e read = Ok u -> f_mask u = m_bits um.
Proof.
  unfold unexplored_mask. intros We Wr Wm Tr Te Mr Hum Hu.
  rewrite (unexplored_part_mask e read u) by done. rewrite mask_of_field_ok in Hum by done.
  destruct (mask_not_ok _ (mask_of_field_wf e We)) as [En Wn].
  rewrite res_bind_Ok, En, res_bind_Ok in Hum.
  unfold mask_and, make_mask in Hum. cbn [m_type m_bits] in *. inv_ok. cbn. by rewrite Mr.
Qed.

(** The unexplored part is what a load of the unexplored mask returns. *)
Lemma unexplored_is_load orig cur c m read e um u :
  tracks orig cur c -> mask_wf m -> load cur m = Ok read -> fs_load c m = Ok e ->
  unexplored_mask e m = Ok um -> unexplored_part e read = Ok u ->
  load cur um = Ok u /\ f_mask u = m_bits um /\ field_wf u /\ f_type u = m_type m.
Proof.
  intros T Wm Hl He Hum Hu.
  destruct (explored_agrees _ _ _ _ _ _ T Wm Hl He) as (Wr & We & Tr & Te & Mr & Nr & Ae).
  destruct (unexplored_part_ok e read We Wr) as (u' & E & Wu & Tu & Bu); [congruence|].
  rewrite Hu in E. injection E as <-.
  destruct (unexplored_mask_ok e m We Wm Te) as (um' & E & Wum & Tum & Bum).
  rewrite Hum in E. injection E as <-.
  destruct (load_inv cur m read) as (v & Hv & _ & _ & _ & Br); [apply T|done..|]. rewrite <- Tum in Hv.
  destruct (load_present cur um v (tr_cur _ _ _ T) Wum Hv) as (u' & -> & Wu' & Tu' & Bu').
  split_and!; [|by apply (unexplored_masks e read m)|done|congruence].
  f_equal. apply field_ext; [done..|congruence|]. intros i Hi. rewrite Bu', Bu, Bum, Br by done.
  destruct (fbit e i), (mbit m i); done.
Qed.

(** A load: silent when the cache knows every bit, one tracer call otherwise. *)
Lemma advance_load orig cur c m read e um u :
  tracks orig cur c -> mask_wf m -> load cur m = Ok read -> fs_load c m = Ok e ->
  unexplored_mask e m = Ok um -> unexplored_part e read = Ok u ->
  if wildcard (m_bits um) then e = read
  else field_rewrite e u = Ok read /\ exists c', fs_modify c u = Ok c' /\ tracks orig cur c'.
Proof.
  intros T Wm Hl He Hum Hu.
  destruct (explored_agrees _ _ _ _ _ _ T Wm Hl He) as (Wr & We & Tr & Te & Mr & Nr & Ae).
  destruct (unexplored_is_load _ _ _ _ _ _ _ _ T Wm Hl He Hum Hu) as (Hlu & Mu & Wu & Tu).
  destruct (unexplored_mask_ok e m We Wm Te) as (um' & E & Wum & Tum & Bum).
  rewrite Hum in E. injection E as <-.
  destruct (unexplored_part_ok e read We Wr) as (u' & E & _ & _ & Bu); [congruence|].
  rewrite Hu in E. injection E as <-.
  destruct (wildcard (m_bits um)) eqn:Wild.
  - rewrite mask_not_wildcard in Wild by done. apply field_ext; [done..|congruence|].
    intros i Hi. specialize (Wild i Hi). rewrite Bum in Wild by done. specialize (Nr i Hi).
    destruct (fbit e i) eqn:Ee; [by rewrite (Ae i b)|]. symmetry. apply Nr.
    by destruct (mbit m i).
  - destruct (field_rewrite_ok e u We Wu) as (r & -> & Wr' & Tr' & Br'); [congruence|]. split.
    + f_equal. apply field_ext; [done..|congruence|]. intros i Hi. rewrite Br', Bu by done.
      destruct (fbit e i) eqn:Ee; [by rewrite (Ae i b)|]. by destruct (fbit read i).
    + destruct (fs_modify_ok c u (tr_cache _ _ _ T) Wu) as (c' & E & _); [by rewrite Mu|].
      exists c'. split; [done|]. apply (tracks_record orig cur c u c'); [done|done|by rewrite Mu| |done].
      destruct (load_inv cur um u) as (v & Hv & _ & _ & _ & Bv); [apply T|done..|].
      exists v. rewrite Tu, <- Tum. split; [done|]. intros i x Hi. rewrite Bv by done.
      destruct (mbit um i); [by intros [= <-]|done].
Qed.

(** A test, given what the cache says about it. *)
Lemma test_by_bits cur need read bb :
  pkt_wf cur -> field_wf need -> load cur (Mask (f_type need) (f_mask need)) = Ok read ->
  test cur need = Ok bb ->
  bb = true <-> forall i x, 0 <= i -> fbit need i = Some x -> fbit read i = Some x.
Proof.
  intros Hc Wn Hl Ht. destruct (test_inv cur need bb Hc Wn Ht) as [_ ->].
  destruct (load_inv cur _ read Hc (mask_of_field_wf need Wn) Hl) as (v & Hv & _ & _ & _ & Br).
  cbn [m_type] in Hv. assert (Em : forall i x, fbit need i = Some x -> mbit (Mask (f_type need) (f_mask need)) i = true).
  { intros i x. unfold fbit, mbit; cbn. by destruct (Z.testbit (bval (f_mask need)) i). }
  split.
  - intros (w & Hw & Hs) i x Hi Hx. assert (w = v) as -> by congruence.
    rewrite Br, (Em _ _ Hx), (Hs i x Hi Hx) by done. done.
  - intros Hb. exists v. split; [done|]. intros i x Hi Hx. specialize (Hb i x Hi Hx).
    rewrite Br, (Em _ _ Hx) in Hb by done. congruence.
Qed.

(** The predicate reported is [need] restricted to the unexplored bits. *)
Lemma reported_pred e read need u pred :
  field_wf e -> field_wf read -> field_wf need -> f_type read = f_type need -> f_type e = f_type need ->
  f_mask read = f_mask need -> unexplored_part e read = Ok u -> unexplored_part e need = Ok pred ->
  f_mask u = f_mask pred
  /\ exists um, mask_of_field u = Ok um /\ field_and_mask need um = Ok pred.
Proof.
  intros We Wr Wn Tr Te Mr Hu Hp.
  assert (Em : f_mask u = f_mask pred).
  { rewrite (unexplored_part_mask e read u), (unexplored_part_mask e need pred), Mr by done. done. }
  split; [done|].
  destruct (unexplored_part_ok e read We Wr) as (u' & E & Wu & Tu & Bu); [congruence|].
  rewrite Hu in E. injection E as <-.
  destruct (unexplored_part_ok e need We Wn) as (p' & E & Wp & Tp & Bp); [congruence|].
  rewrite Hp in E. injection E as <-.
  eexists; split; [by apply mask_of_field_ok|].
  destruct (field_and_mask_ok need (Mask (f_type u) (f_mask u)) Wn (mask_of_field_wf u Wu))
    as (g & -> & Wg & Tg & Bg); [cbn; congruence|]. f_equal.
  apply field_ext; [done..|congruence|]. intros i Hi. rewrite Bg, Bp by done.
  specialize (Bp i Hi). unfold mbit; cbn. rewrite Em.
  assert (Hpi : fbit pred i <> None <-> Z.testbit (bval (f_mask pred)) i = true)
    by (unfold fbit; destruct (Z.testbit (bval (f_mask pred)) i); split; congruence).
  destruct (Z.testbit (bval (f_mask pred)) i).
  - destruct (fbit e i); [|done]. rewrite Bp in Hpi. by destruct (proj2 Hpi eq_refl).
  - destruct (fbit e i); [done|]. destruct (fbit need i) eqn:En; [|done].
    rewrite Bp in Hpi. assert (false = true) by (apply Hpi; congruence). done.
Qed.

Lemma test_pred orig cur c need read e pred bb :
  tracks orig cur c -> field_wf need -> field_wf pred -> f_type pred = f_type need ->
  load cur (Mask (f_type need) (f_mask need)) = Ok read ->
  (forall i, 0 <= i -> fbit pred i = match fbit e i with Some _ => None | None => fbit need i end) ->
  (bb = true <-> forall i x, 0 <= i -> fbit pred i = Some x -> fbit read i = Some x) ->
  test cur pred = Ok bb.
Proof.
  intros T Wn Wp Tp Hl Bp Hpred. pose proof (tr_cur _ _ _ T) as Hc.
  destruct (load_inv cur _ read Hc (mask_of_field_wf need Wn) Hl) as (v & Hv & _ & _ & _ & Br).
  cbn [m_type] in Hv. rewrite <- Tp in Hv.
  destruct (test_present cur pred v Hc Wp Hv) as (b & -> & Hb). f_equal.
  assert (Hi : b = true <-> bb = true); [|destruct b, bb; intuition congruence].
  assert (Em : forall i x, 0 <= i -> fbit pred i = Some x -> fbit read i = Some (Z.testbit v i)).
  { intros i x Hi Hx. rewrite Br by done. rewrite Bp in Hx by done.
    assert (mbit (Mask (f_type need) (f_mask need)) i = true) as ->; [|done].
    apply (mbit_fbit need); [done|]. destruct (fbit e i); congruence. }
  rewrite Hb, Hpred. split.
  - intros (w & Hw & Hs) i x Hi Hx. assert (w = v) as -> by congruence.
    by rewrite (Em i x), (Hs i x).
  - intros Hs. exists v. split; [done|]. intros i x Hi Hx. specialize (Hs i x Hi Hx).
    rewrite (Em i x) in Hs by done. congruence.
Qed.

Lemma advance_test orig cur c need read e u pred (det bb : bool) :
  tracks orig cur c -> field_wf need ->
  load cur (Mask (f_type need) (f_mask need)) = Ok read ->
  fs_load c (Mask (f_type need) (f_mask need)) = Ok e ->
  unexplored_part e read = Ok u -> unexplored_part e need = Ok pred ->
  field_match e need = Ok det -> test cur need = Ok bb ->
  if det then
    (wildcard (f_mask pred) = true -> bb = true) /\ field_match u need = Ok bb
    /\ (bb = true -> u = pred) /\ test cur pred = Ok bb
  else bb = false.
Proof.
  intros T Wn Hl He Hu Hp Hdet Ht.
  destruct (explored_agrees _ _ _ _ _ _ T (mask_of_field_wf need Wn) Hl He)
    as (Wr & We & Tr & Te & Mr & Nr & Ae). cbn [m_type m_bits] in *.
  pose proof (test_by_bits cur need read bb (tr_cur _ _ _ T) Wn Hl Ht) as Hbb.
  destruct (field_match_ok e need We Wn Te) as (det' & E & Hd). rewrite Hdet in E. injection E as <-.
  destruct det.
  2:{ apply not_true_iff_false. rewrite Hbb. intros Hb. assert (Hf : false = true); [|done].
      apply Hd. intros i x y Hi Hx Hy. apply Ae in Hx; [|done]. apply Hb in Hy; [|done]. congruence. }
  assert (Hd' := proj1 Hd eq_refl). clear Hd.
  destruct (unexplored_part_ok e read We Wr) as (u' & E & Wu & Tu & Bu); [congruence|].
  rewrite Hu in E. injection E as <-.
  destruct (unexplored_part_ok e need We Wn) as (p' & E & Wp & Tp & Bp); [congruence|].
  rewrite Hp in E. injection E as <-.
  assert (Hpred : bb = true <-> forall i x, 0 <= i -> fbit pred i = Some x -> fbit read i = Some x).
  { rewrite Hbb. split; intros Hb i x Hi Hx; [rewrite Bp in Hx by done; destruct (fbit e i); auto; done|].
    destruct (fbit e i) as [y|] eqn:Ee.
    - rewrite (Ae i y Hi Ee). f_equal. by apply (Hd' i).
    - apply Hb; [done|]. by rewrite Bp, Ee. }
  split_and!.
  - intros Wild. rewrite wildcard_fbit in Wild by done. apply Hpred. intros i x Hi. by rewrite Wild.
  - destruct (field_match_ok u need Wu Wn) as (b' & -> & Hb'); [congruence|]. f_equal.
    assert (Hi : b' = true <-> bb = true); [|destruct b', bb; intuition congruence].
    rewrite Hb', Hpred. split; intros Hb i.
    + intros x Hi Hx. rewrite Bp in Hx by done. destruct (fbit e i) eqn:Ee; [done|].
      destruct (fbit read i) as [y|] eqn:Er.
      * f_equal. apply (Hb i); [done| |done]. by rewrite Bu, Ee.
      * exfalso. apply Nr in Er; [|done].
        assert (mbit (Mask (f_type need) (f_mask need)) i = true); [|congruence].
        apply (mbit_fbit need); [done|congruence].
    + intros x y Hi Hx Hy. rewrite Bu in Hx by done. destruct (fbit e i) eqn:Ee; [done|].
      rewrite (Hb i y) in Hx by (rewrite ?Bp, ?Ee; done). congruence.
  - intros Hb. apply field_ext; [done..|congruence|]. intros i Hi. rewrite Bu by done.
    specialize (Bp i Hi). destruct (fbit e i); [done|]. rewrite Bp.
    destruct (fbit need i) as [x|] eqn:En; [apply (proj1 Hpred Hb i x Hi); congruence|].
    apply Nr; [done|]. apply not_true_iff_false.
    rewrite (mbit_fbit need); [intros Hne; by apply Hne|done].
  - by apply (test_pred orig cur c need read e pred).
Qed.

(** ** A traced run, event by event *)

(** The policy throws before the tracer hears of anything more. *)
Definition stops (cur : P) (pol : policy D) (c : field_set) (out : res error (D * P)) : Prop :=
  exists e, out = Throw e
    /\ forall tr, exists tp, run_traced_st pol (TPacket cur c tr) = (tp, Throw e) /\ tp_tracer tp = tr.

(** A report to the tracer, then the rest of the policy. *)
Definition reports (tp : tpacket P) (reported : res error tracer) (rest : tracer -> tpacket P * res error D)
    : tpacket P * res error D :=
  match reported with Ok tr' => rest tr' | Throw e => (tp, Throw e) end.

Definition event_ok (orig cur : P) (pol : policy D) (c : field_set) (o : obs D) (out : res error (D * P)) : Prop :=
  match o with
  | o_return d =>
      exists fin, out = Ok (d, fin)
        /\ forall tr, exists c', run_traced_st pol (TPacket cur c tr) = (TPacket fin c' tr, Ok d)
  | o_load m next =>
      exists u pol' c' cur', load orig m = Ok u /\ f_mask u = m_bits m /\ next u = Ok (pol', c')
        /\ tracks orig cur' c' /\ run pol' cur' = out
        /\ forall tr, exists tp, run_traced_st pol (TPacket cur c tr)
             = reports tp (tracer_load tr u) (fun tr' => run_traced_st pol' (TPacket cur' c' tr'))
  | o_test f next =>
      exists b pol' c' cur', test orig f = Ok b /\ next b = Ok (pol', c')
        /\ tracks orig cur' c' /\ run pol' cur' = out
        /\ forall tr, exists tp, run_traced_st pol (TPacket cur c tr)
             = reports tp (tracer_test tr f b) (fun tr' => run_traced_st pol' (TPacket cur' c' tr'))
  end.

Definition next_event (orig cur : P) (pol : policy D) (c : field_set) (out : res error (D * P)) : Prop :=
  stops cur pol c out \/ exists o, observe pol c = Ok o /\ event_ok orig cur pol c o out.

(** A step that leaves the tracer alone does not change the next event. *)
Lemma next_event_silent orig cur cur' pol pol' c c' out :
  (forall tr, run_traced_st pol (TPacket cur c tr) = run_traced_st pol' (TPacket cur' c' tr)) ->
  observe pol c = observe pol' c' ->
  next_event orig cur' pol' c' out -> next_event orig cur pol c out.
Proof.
  intros Hr Ho [(e & -> & Hs)|(o & Hob & Hev)].
  - left. exists e. split; [done|]. intros tr. rewrite Hr. apply Hs.
  - right. exists o. rewrite Ho. split; [done|]. destruct o; cbn [event_ok] in *.
    + destruct Hev as (fin & -> & Hev). exists fin. split; [done|]. intros tr. rewrite Hr. apply Hev.
    + destruct Hev as (u & q & x & y & ? & ? & ? & ? & ? & Hev). exists u, q, x, y. split_and!; try done.
      intros tr. rewrite Hr. apply Hev.
    + destruct Hev as (b & q & x & y & ? & ? & ? & ? & Hev). exists b, q, x, y. split_and!; try done.
      intros tr. rewrite Hr. apply Hev.
Qed.

(** A call on the packet that throws. *)
Lemma next_event_throw orig cur pol c e :
  (forall tr, run_traced_st pol (TPacket cur c tr) = (TPacket cur c tr, Throw e)) ->
  next_event orig cur pol c (Throw e).
Proof. intros Hr. left. exists e. split; [done|]. intros tr. by exists (TPacket cur c tr). Qed.

Lemma advance_p_load orig cur c m k out :
  policy_wf (p_load m k) -> tracks orig cur c -> run (p_load m k) cur = out ->
  (forall f, field_wf f -> f_type f = m_type m -> run (k f) cur = out -> next_event orig cur (k f) c out) ->
  next_event orig cur (p_load m k) c out.
Proof.
  intros Hp T Hrun IH. inversion Hp as [|? ? Wm Nm Hk| |]; subst m0 k0. cbn in Hrun.
  destruct (load cur m) as [read|e0] eqn:Hl; cbn in Hrun.
  2:{ subst out. apply next_event_throw. intros tr. cbn. unfold tp_load. cbn [tp_pkt]. by rewrite Hl. }
  destruct (fs_load_ok c m (tr_cache _ _ _ T) Wm) as (e & He & We & Te & _).
  destruct (unexplored_mask_ok e m We Wm Te) as (um & Hum & Wum & Tum & Bum).
  destruct (explored_agrees _ _ _ _ _ _ T Wm Hl He) as (Wr & _ & Tr & _ & Mr & _ & _).
  destruct (unexplored_part_ok e read We Wr) as (u & Hu & _ & _ & _); [congruence|].
  destruct (unexplored_is_load _ _ _ _ _ _ _ _ T Wm Hl He Hum Hu) as (Hlu & Mu & Wu & Tu).
  pose proof (advance_load _ _ _ _ _ _ _ _ T Wm Hl He Hum Hu) as Hadv.
  assert (Htp : forall tr, tp_load (TPacket cur c tr) m =
    if wildcard (m_bits um) then Ok (read, TPacket cur c tr)
    else tracer_load tr u ≫= fun tr' => lift (fs_modify c u) ≫= fun c' =>
         Ok (read, TPacket cur c' tr')).
  { intros tr. unfold tp_load. cbn [tp_pkt tp_cache tp_tracer].
    by rewrite Hl, res_bind_Ok, He, lift_Ok, res_bind_Ok, Hu, lift_Ok, res_bind_Ok, Mu. }
  destruct (wildcard (m_bits um)) eqn:Wild.
  - subst e. apply (next_event_silent orig cur cur _ (k read) c c); [| |by apply IH].
    + intros tr. cbn. by rewrite Htp.
    + cbn [observe]. by rewrite He, res_bind_Ok, Hum, res_bind_Ok, Wild.
  - right. destruct Hadv as (Hrw & c' & Hc' & T'). cbn [observe]. rewrite He, res_bind_Ok, Hum, res_bind_Ok, Wild.
    eexists; split; [reflexivity|]. cbn [event_ok].
    exists u, (k read), c', cur. rewrite Hrw, res_bind_Ok, Hc', res_bind_Ok. split_and!; try done.
    + eapply tracks_load_orig; [exact T|done| |done]. intros i Hi Hb. rewrite Bum in Hb by done.
      destruct (fs_load_ok c m (tr_cache _ _ _ T) Wm) as (e' & E & _ & _ & Be).
      rewrite He in E. injection E as <-. rewrite Be in Hb. rewrite Tum.
      destruct (mbit m i); [|done]. rewrite andb_true_l in Hb. by destruct (fs_bit c (m_type m) i).
    + intros tr. exists (TPacket cur c tr). cbn. rewrite Htp, Hc'. by destruct (tracer_load tr u).
Qed.

(** What [tp_test] does, by the three outcomes of the cache. *)
Lemma tp_test_steps orig cur c tr need read e u pred (det bb : bool) :
  tracks orig cur c -> field_wf need ->
  load cur (Mask (f_type need) (f_mask need)) = Ok read ->
  fs_load c (Mask (f_type need) (f_mask need)) = Ok e ->
  unexplored_part e read = Ok u -> unexplored_part e need = Ok pred ->
  field_match e need = Ok det -> test cur need = Ok bb ->
  tp_test (TPacket cur c tr) need =
    if negb det then Ok (false, TPacket cur c tr)
    else if wildcard (f_mask pred) then Ok (true, TPacket cur c tr)
    else tracer_test tr pred bb ≫= fun tr' =>
         if bb then lift (fs_modify c pred) ≫= fun c' => Ok (true, TPacket cur c' tr')
         else Ok (false, TPacket cur c tr').
Proof.
  intros T Wn Hl He Hu Hp Hdet Ht.
  pose proof (advance_test _ _ _ _ _ _ _ _ _ _ T Wn Hl He Hu Hp Hdet Ht) as Hadv.
  destruct (explored_agrees _ _ _ _ _ _ T (mask_of_field_wf need Wn) Hl He)
    as (Wr & We & Tr & Te & Mr & _ & _).
  destruct (reported_pred e read need u pred We Wr Wn Tr Te Mr Hu Hp) as (Em & um & Hum & Hfp).
  unfold tp_test. rewrite mask_of_field_ok, lift_Ok, res_bind_Ok by done. cbn [tp_pkt tp_cache tp_tracer].
  rewrite Hl, res_bind_Ok, He, lift_Ok, res_bind_Ok, Hu, lift_Ok, res_bind_Ok, Hdet, lift_Ok, res_bind_Ok.
  destruct det; cbn [negb]; [|done]. rewrite Em. destruct (wildcard (f_mask pred)) eqn:Wild; [done|].
  destruct Hadv as (_ & Hret & Heq & _).
  rewrite Hret, lift_Ok, res_bind_Ok, Hum, lift_Ok, res_bind_Ok, Hfp, lift_Ok, res_bind_Ok.
  destruct bb; [|done]. by rewrite Heq.
Qed.

Lemma advance_p_test orig cur c need k out :
  policy_wf (p_test need k) -> tracks orig cur c -> run (p_test need k) cur = out ->
  (forall b, run (k b) cur = out -> next_event orig cur (k b) c out) ->
  next_event orig cur (p_test need k) c out.
Proof.
  intros Hp T Hrun IH. inversion Hp as [| |? ? Wn Nn Hk|]; subst need0 k0. cbn in Hrun.
  pose proof (mask_of_field_wf need Wn) as Wm.
  destruct (load cur (Mask (f_type need) (f_mask need))) as [read|e0] eqn:Hl.
  2:{ unfold test in Hrun. rewrite mask_of_field_ok, lift_Ok, res_bind_Ok, Hl in Hrun by done. cbn in Hrun. subst out.
      apply next_event_throw. intros tr. cbn. unfold tp_test. cbn [tp_pkt].
      by rewrite mask_of_field_ok, lift_Ok, res_bind_Ok, Hl by done. }
  destruct (load_inv cur _ read (tr_cur _ _ _ T) Wm Hl) as (v & Hv & _).
  destruct (test_present cur need v (tr_cur _ _ _ T) Wn Hv) as (bb & Ht & _). rewrite Ht, res_bind_Ok in Hrun.
  destruct (fs_load_ok c _ (tr_cache _ _ _ T) Wm) as (e & He & We & Te & Be). cbn [m_type] in *.
  destruct (explored_agrees _ _ _ _ _ _ T Wm Hl He) as (Wr & _ & Tr & _). cbn [m_type] in *.
  destruct (unexplored_part_ok e read We Wr) as (u & Hu & _ & _ & _); [congruence|].
  destruct (unexplored_part_ok e need We Wn) as (pred & Hpr & Wp & Tp & Bp); [congruence|].
  destruct (field_match_ok e need We Wn Te) as (det & Hdet & _).
  pose proof (advance_test _ _ _ _ _ _ _ _ _ _ T Wn Hl He Hu Hpr Hdet Ht) as Hadv.
  pose proof (fun tr => tp_test_steps _ _ _ tr _ _ _ _ _ _ _ T Wn Hl He Hu Hpr Hdet Ht) as Htp.
  assert (Hob : observe (p_test need k) c = if negb det then observe (k false) c
    else if wildcard (f_mask pred) then observe (k true) c
    else Ok (o_test pred (fun b : bool =>
           if b then fs_modify c pred ≫= fun c' => Ok (k true, c') else Ok (k false, c)))).
  { cbn [observe]. rewrite mask_of_field_ok, res_bind_Ok, He, res_bind_Ok, Hdet, res_bind_Ok by done.
    by rewrite Hpr, res_bind_Ok. }
  destruct det; cbn [negb] in *.
  2:{ subst bb. apply (next_event_silent orig cur cur _ (k false) c c); [|done|by apply IH]. intros tr. cbn. by rewrite Htp. }
  destruct Hadv as (Hwb & _ & Heq & Htc).
  destruct (wildcard (f_mask pred)) eqn:Wild.
  { rewrite (Hwb eq_refl) in *. apply (next_event_silent orig cur cur _ (k true) c c); [|done|by apply IH].
    intros tr. cbn. by rewrite Htp. }
  right. rewrite Hob. eexists; split; [reflexivity|]. cbn [event_ok].
  assert (Hto : test orig pred = Ok bb).
  { apply (tracks_test_orig orig cur c); try done. intros i Hi Hb. rewrite Bp, Be in Hb by done. rewrite Tp.
    destruct (mbit _ i) eqn:Em; [by destruct (fs_bit c (f_type need) i)|].
    exfalso. apply not_true_iff_false in Em. apply Em. by apply (mbit_fbit need). }
  destruct bb.
  - destruct (fs_modify_ok c pred (tr_cache _ _ _ T) Wp Wild) as (c' & Hc' & _).
    exists true, (k true), c', cur. rewrite Hc'. split_and!; try done.
    + apply (tracks_record orig cur c pred c'); try done. by apply test_true_iff; [apply T|..].
    + intros tr. exists (TPacket cur c tr). cbn. rewrite Htp, Hc'. by destruct (tracer_test tr pred true).
  - exists false, (k false), c, cur. split_and!; try done. intros tr. exists (TPacket cur c tr). cbn. rewrite Htp.
    by destruct (tracer_test tr pred false).
Qed.

(** Whatever the policy does next, the cache foresees what the tracer is told. *)
Lemma advance_any orig cur c pol out :
  policy_wf pol -> tracks orig cur c -> run pol cur = out -> next_event orig cur pol c out.
Proof.
  intros Hp. revert cur c. induction Hp as [d'|m k Wm Nm Hk IH|need k Wn Nn Hk IH|patch k Wp Np Hk IH];
    intros cur c T Hrun.
  - cbn in Hrun. subst out. right. eexists; split; [reflexivity|]. cbn. eauto.
  - apply advance_p_load; try done; [by constructor|]. intros f Wf Tf Hr. by apply IH.
  - apply advance_p_test; try done; [by constructor|]. intros b Hr. by apply IH.
  - cbn in Hrun. destruct (modify cur patch) as [cur'|e] eqn:Hm; cbn in Hrun.
    2:{ subst out. apply next_event_throw. intros tr. cbn. unfold tp_modify. cbn. by rewrite Hm. }
    destruct (fs_modify_ok c patch (tr_cache _ _ _ T) Wp Np) as (c' & Hc' & _).
    apply (next_event_silent orig cur cur' _ k c c').
    + intros tr. cbn. unfold tp_modify; cbn. by rewrite Hm, res_bind_Ok, Hc'.
    + cbn [observe]. by rewrite Hc', res_bind_Ok.
    + apply IH; [by eapply tracks_modify|done].
Qed.

Lemma advance orig cur c pol d fin :
  policy_wf pol -> tracks orig cur c -> run pol cur = Ok (d, fin) ->
  exists o, observe pol c = Ok o /\ event_ok orig cur pol c o (Ok (d, fin)).
Proof. intros Hp T Hrun. by destruct (advance_any orig cur c pol _ Hp T Hrun) as [(e & [=] & _)|?]. Qed.

(** *** A traced run that returns is a run that returns *)

Lemma traced_load orig cur c tr m read tp :
  tracks orig cur c -> mask_wf m -> tp_load (TPacket cur c tr) m = Ok (read, tp) ->
  load cur m = Ok read /\ field_wf read /\ f_type read = m_type m
  /\ exists c' tr', tp = TPacket cur c' tr' /\ tracks orig cur c'.
Proof.
  intros T Wm Htp. unfold tp_load in Htp. cbn [tp_pkt tp_cache tp_tracer] in Htp.
  apply res_bind_inv in Htp as (rd & Hl & Htp).
  destruct (fs_load_ok c m (tr_cache _ _ _ T) Wm) as (e & He & We & Te & _).
  destruct (unexplored_mask_ok e m We Wm Te) as (um & Hum & _).
  destruct (explored_agrees _ _ _ _ _ _ T Wm Hl He) as (Wr & _ & Tr & _).
  destruct (unexplored_part_ok e rd We Wr) as (u & Hu & _); [congruence|].
  destruct (unexplored_is_load _ _ _ _ _ _ _ _ T Wm Hl He Hum Hu) as (_ & Mu & _).
  pose proof (advance_load _ _ _ _ _ _ _ _ T Wm Hl He Hum Hu) as Hadv.
  rewrite He, lift_Ok, res_bind_Ok, Hu, lift_Ok, res_bind_Ok, Mu in Htp.
  destruct (wildcard (m_bits um)).
  - injection Htp as -> <-. split_and!; try done. by exists c, tr.
  - destruct Hadv as (_ & c' & Hc' & T'). apply res_bind_inv in Htp as (tr' & _ & Htp).
    rewrite Hc', lift_Ok, res_bind_Ok in Htp. injection Htp as -> <-. split_and!; try done. by exists c', tr'.
Qed.

Lemma traced_test orig cur c tr need bb tp :
  tracks orig cur c -> field_wf need -> tp_test (TPacket cur c tr) need = Ok (bb, tp) ->
  test cur need = Ok bb /\ exists c' tr', tp = TPacket cur c' tr' /\ tracks orig cur c'.
Proof.
  intros T Wn Htp. pose proof (mask_of_field_wf need Wn) as Wm.
  assert (Hl : exists read, load cur (Mask (f_type need) (f_mask need)) = Ok read).
  { unfold tp_test in Htp. rewrite mask_of_field_ok, lift_Ok, res_bind_Ok in Htp by done.
    apply res_bind_inv in Htp as (read & Hl & _). by exists read. }
  destruct Hl as [read Hl].
  destruct (fs_load_ok c _ (tr_cache _ _ _ T) Wm) as (e & He & We & Te & Be). cbn [m_type] in *.
  destruct (explored_agrees _ _ _ _ _ _ T Wm Hl He) as (Wr & _ & Tr & _). cbn [m_type] in *.
  destruct (unexplored_part_ok e read We Wr) as (u & Hu & _ & _ & _); [congruence|].
  destruct (unexplored_part_ok e need We Wn) as (pred & Hpr & Wp & Tp & Bp); [congruence|].
  destruct (field_match_ok e need We Wn Te) as (det & Hdet & _).
  destruct (load_inv cur _ read (tr_cur _ _ _ T) Wm Hl) as (v & Hv & _).
  destruct (test_present cur need v (tr_cur _ _ _ T) Wn Hv) as (bb' & Ht & _).
  rewrite (tp_test_steps _ _ _ tr _ _ _ _ _ _ _ T Wn Hl He Hu Hpr Hdet Ht) in Htp.
  pose proof (advance_test _ _ _ _ _ _ _ _ _ _ T Wn Hl He Hu Hpr Hdet Ht) as Hadv.
  destruct det; cbn [negb] in Htp.
  2:{ injection Htp as <- <-. subst bb'. split; [done|]. by exists c, tr. }
  destruct Hadv as (Hw & _ & _ & Htc). destruct (wildcard (f_mask pred)) eqn:Wild.
  { injection Htp as <- <-. rewrite (Hw eq_refl) in Ht. split; [done|]. by exists c, tr. }
  apply res_bind_inv in Htp as (tr' & _ & Htp). destruct bb'.
  - destruct (fs_modify_ok c pred (tr_cache _ _ _ T) Wp Wild) as (c' & Hc' & _).
    rewrite Hc', lift_Ok, res_bind_Ok in Htp. injection Htp as <- <-. split; [done|]. exists c', tr'.
    split; [done|]. apply (tracks_record orig cur c pred c'); try done. by apply test_true_iff; [apply T|..].
  - injection Htp as <- <-. split; [done|]. by exists c, tr'.
Qed.

Lemma traced_run orig (pol : policy D) : policy_wf pol -> forall cur c tr d tp,
  tracks orig cur c -> run_traced pol (TPacket cur c tr) = Ok (d, tp) -> run pol cur = Ok (d, tp_pkt tp).
Proof.
  intros Hp. induction Hp as [d'|m k Wm Nm Hk IH|need k Wn Nn Hk IH|patch k Wp Np Hk IH];
    intros cur c tr d tp T Hrun; cbn in Hrun |- *.
  - by injection Hrun as <- <-.
  - apply res_bind_inv in Hrun as ([read tp'] & Hl & Hrun).
    destruct (traced_load _ _ _ _ _ _ _ T Wm Hl) as (-> & Wr & Tr & c' & tr' & -> & T').
    rewrite res_bind_Ok. by eapply IH.
  - apply res_bind_inv in Hrun as ([b tp'] & Ht & Hrun).
    destruct (traced_test _ _ _ _ _ _ _ T Wn Ht) as (-> & c' & tr' & -> & T').
    rewrite res_bind_Ok. by eapply IH.
  - apply res_bind_inv in Hrun as (tp' & Hm & Hrun). unfold tp_modify in Hm. cbn in Hm.
    apply res_bind_inv in Hm as (cur' & Hm & Hc). rewrite Hm, res_bind_Ok.
    destruct (fs_modify_ok c patch (tr_cache _ _ _ T) Wp Np) as (c' & Hc' & _).
    rewrite Hc', lift_Ok, res_bind_Ok in Hc. injection Hc as <-. cbn in Hrun.
    eapply IH; [|exact Hrun]. by eapply tracks_modify.
Qed.

End advance.

(** ** Trees that record the policy *)

Section consistent.
Context {P : Type} `{PacketLaws P} {D : Type}.

Definition case_of (m : mask) (v : bits) : field := Field (m_type m) v (m_bits m).

(** [dec] is the decision each flow was given. *)
Inductive consistent (dec : flow_ref -> option D) : node -> policy D -> field_set -> Prop :=
| cons_unexplored pol c : consistent dec unexplored pol c
| cons_flow f pol c d :
    observe pol c = Ok (o_return d) -> dec f = Some d -> consistent dec (flow_node f) pol c
| cons_test f pos neg pol c next polp cp poln cn :
    observe pol c = Ok (o_test f next) ->
    next true = Ok (polp, cp) -> consistent dec pos polp cp ->
    next false = Ok (poln, cn) -> consistent dec neg poln cn ->
    consistent dec (test_node f pos neg) pol c
| cons_load m cases pol c next :
    observe pol c = Ok (o_load m next) ->
    NoDup (map fst cases) -> Forall (fun c => case_ok m c.1) cases ->
    (forall v n, (v, n) ∈ cases ->
       exists pol' c', next (case_of m v) = Ok (pol', c') /\ consistent dec n pol' c') ->
    consistent dec (load_node m cases) pol c.

Lemma consistent_mono dec dec' n pol c :
  (forall f d, dec f = Some d -> dec' f = Some d) -> consistent dec n pol c -> consistent dec' n pol c.
Proof.
  intros Hd. revert pol c. induction n as [|f|f pos neg IHp IHn|m cases IH] using node_ind'; intros pol c Hc.
  - constructor.
  - inversion Hc; subst. econstructor; eauto.
  - inversion Hc; subst. econstructor; eauto.
  - inversion Hc as [| | |? ? ? ? next Ho Hnd Hok Hcs]; subst. econstructor; eauto.
    intros v n Hin. rewrite Forall_forall in IH.
    destruct (Hcs v n Hin) as (pol' & c' & ? & ?). exists pol', c'. split; [done|]. by apply (IH (v, n)).
Qed.

(** *** A consistent tree is well formed *)

Lemma consistent_tree_wf dec n pol c K :
  consistent dec n pol c -> policy_wf pol -> fs_wf c ->
  (forall t i, known t -> 0 <= i -> K t i -> fs_bit c t i <> None) -> tree_wf K n.
Proof.
  revert pol c K. induction n as [|f|f pos neg IHp IHn|m cases IH] using node_ind';
    intros pol c K Hc Hp Wc HK; [constructor|constructor| |].
  - inversion Hc as [| |? ? ? ? ? next polp cp poln cn Ho Hnp Hpos Hnn Hneg|]; subst.
    destruct (observe_ok pol c Hp Wc) as (o & E & Hobs). rewrite Ho in E. injection E as <-.
    destruct Hobs as (Wf & Nf & Hd & Hb). pose proof Wf as (Kf & _). constructor; try done.
    + intros i Hi Hn HKi. apply (HK _ i Kf Hi) in HKi. by rewrite Hd in HKi.
    + destruct (Hb true) as (q & x & E & Wq & Wx & _ & Hg & Hadd). rewrite Hnp in E. injection E as <- <-.
      apply (IHp polp cp); try done. intros t i Kt Hi [Hk|[-> Hk]]; [apply Hg; auto|by apply Hadd].
    + destruct (Hb false) as (q & x & E & Wq & Wx & _ & Hg & _). rewrite Hnn in E. injection E as <- <-.
      apply (IHn poln cn); try done. intros t i Kt Hi Hk. apply Hg; auto.
  - inversion Hc as [| | |? ? ? ? next Ho Hnd Hok Hcs]; subst.
    destruct (observe_ok pol c Hp Wc) as (o & E & Hobs). rewrite Ho in E. injection E as <-.
    destruct Hobs as (Wm & Nm & Hd & Hb). constructor; try done.
    + intros i Hi Hn HKi. apply (HK _ i (proj1 Wm) Hi) in HKi. by rewrite Hd in HKi.
    + apply Forall_forall. intros [v n] Hin. cbn. rewrite Forall_forall in IH.
      rewrite Forall_forall in Hok. pose proof (Hok (v, n) Hin : case_ok m v) as Hv.
      destruct (Hcs v n Hin) as (q & x & Hq & Hcons). destruct (case_field_ok m v Wm Hv) as [_ Wcase].
      destruct (Hb (case_of m v)) as (q' & x' & E & Wq & Wx & _ & Hg & Hadd); [done..|].
      rewrite Hq in E. injection E as <- <-. apply (IH (v, n) Hin q x); try done.
      intros t i Kt Hi [Hk|[-> Hk]]; [apply Hg; auto|by apply Hadd].
Qed.

(** *** Looking a packet up in a consistent tree *)

Lemma find_case_elem {A} (cs : list (bits * A)) v a : find_case cs v = Some a -> (v, a) ∈ cs.
Proof.
  induction cs as [|[w b] cs IH]; cbn; [done|]. case_decide.
  - intros [= <-]. subst. constructor.
  - intros Hf. constructor. auto.
Qed.

Lemma lookup_load_node alive m cases (p : P) :
  lookup_node alive (load_node m cases) p
  = load p m ≫= fun f => match find_case cases (f_value f) with
                        | Some n => lookup_node alive n p
                        | None => Ok None
                        end.
Proof.
  cbn. destruct (load p m) as [f|e]; cbn; [|done].
  induction cases as [|[w n] cs IH]; cbn; [done|]. by case_decide.
Qed.

Lemma load_case orig cur c m u :
  tracks orig cur c -> mask_wf m -> load orig m = Ok u -> u = case_of m (f_value u) /\ case_ok m (f_value u)
    /\ field_wf u /\ f_type u = m_type m.
Proof.
  intros T Wm Hl. destruct (load_inv orig m u) as (v & _ & Wu & Tu & Mu & _); [apply T|done..|].
  split; [|split; [|done]].
  - destruct u; cbn in *. unfold case_of. by rewrite Tu, Mu.
  - destruct Wu as (_ & Hv & _ & E). rewrite Tu in Hv. rewrite Mu in E. done.
Qed.

(** The answer of the tree exists and is the decision of the policy. *)
Lemma consistent_lookup alive dec n pol c orig cur d fin :
  consistent dec n pol c -> policy_wf pol -> tracks orig cur c -> run pol cur = Ok (d, fin) ->
  exists t, lookup_node alive n orig = Ok t /\ forall f, t = Some f -> dec f = Some d.
Proof.
  revert pol c cur. induction n as [|f|f pos neg IHp IHn|m cases IH] using node_ind';
    intros pol c cur Hc Hp T Hrun; (destruct (advance orig cur c pol d fin Hp T Hrun) as (o & Ho & Hev)).
  - by exists None.
  - inversion Hc as [|? ? ? d' Ho' Hdec| |]; subst. rewrite Ho' in Ho. injection Ho as <-.
    destruct Hev as (? & [= -> _] & _). exists (lock alive f). split; [done|]. unfold lock. intros g.
    destruct (alive f); [by intros [= <-]|done].
  - inversion Hc as [| |? ? ? ? ? next polp cp poln cn Ho' Hnp Hpos Hnn Hneg|]; subst.
    rewrite Ho' in Ho. injection Ho as <-.
    destruct Hev as (b & q & x & cur' & Ht & Hn & T' & Hr & _).
    destruct (observe_ok pol c Hp (tr_cache _ _ _ T)) as (o & E & Hobs). rewrite Ho' in E. injection E as <-.
    destruct Hobs as (_ & _ & _ & Hb). destruct (Hb b) as (q' & x' & E & Wq & _).
    rewrite Hn in E. injection E as <- <-. cbn [lookup_node]. rewrite Ht, res_bind_Ok. destruct b.
    + rewrite Hnp in Hn. injection Hn as -> ->. by apply (IHp q x cur').
    + rewrite Hnn in Hn. injection Hn as -> ->. by apply (IHn q x cur').
  - inversion Hc as [| | |? ? ? ? next Ho' Hnd Hok Hcs]; subst.
    rewrite Ho' in Ho. injection Ho as <-.
    destruct Hev as (u & q & x & cur' & Hl & Mu & Hn & T' & Hr & _).
    destruct (observe_ok pol c Hp (tr_cache _ _ _ T)) as (o & E & Hobs). rewrite Ho' in E. injection E as <-.
    destruct Hobs as (Wm & _ & _ & Hb). destruct (load_case orig cur c m u T Wm Hl) as (Hu & _ & Wu & Tu).
    rewrite lookup_load_node, Hl, res_bind_Ok. destruct (find_case cases (f_value u)) as [n|] eqn:Ef; [|by exists None].
    apply find_case_elem in Ef. destruct (Hcs _ _ Ef) as (q' & x' & E & Hcons). rewrite <- Hu, Hn in E.
    injection E as <- <-. destruct (Hb u Wu Tu Mu) as (q' & x' & E & Wq & _). rewrite Hn in E. injection E as <- <-.
    rewrite Forall_forall in IH. by apply (IH (f_value u, n) Ef q x cur').
Qed.

End consistent.

(** ** The tracer's position in the tree

    Lemmas on paths, then [focus]: what the tracer knows of the node
    [path.back()] points at. *)

Section paths.

Lemma find_case_touch cs v : exists n, find_case (touch_case cs v) v = Some n.
Proof.
  unfold touch_case. destruct (find_case cs v) as [n|] eqn:E; [by exists n|]. exists unexplored.
  revert E. induction cs as [|[w n] cs IH]; cbn; [by rewrite decide_True|]. by case_decide; auto.
Qed.

Lemma find_set_case cs v n n' : find_case cs v = Some n -> find_case (set_case cs v n') v = Some n'.
Proof.
  induction cs as [|[w m] cs IH]; cbn; [done|]. case_decide as E; cbn; intros Hf.
  - by rewrite decide_True.
  - rewrite decide_False by done. auto.
Qed.

Lemma set_set_case cs v a b : set_case (set_case cs v a) v b = set_case cs v b.
Proof.
  induction cs as [|[w m] cs IH]; cbn; [done|].
  case_decide; cbn; [by rewrite decide_True|by rewrite decide_False, IH].
Qed.

Lemma set_case_keys cs v n : map fst (set_case cs v n) = map fst cs.
Proof. induction cs as [|[w m] cs IH]; cbn; [done|]. case_decide; cbn; congruence. Qed.

Lemma set_case_elem cs v n w m :
  NoDup (map fst cs) -> (w, m) ∈ set_case cs v n -> (w = v /\ m = n) \/ (w <> v /\ (w, m) ∈ cs).
Proof.
  induction cs as [|[w' m'] cs IH]; cbn; [by intros _ ?%elem_of_nil|]. intros [Hn Hd]%NoDup_cons.
  case_decide as E.
  - subst w'. intros [[= -> ->]|Hin]%elem_of_cons; [auto|]. right. split; [|by right].
    intros ->. apply Hn, list_elem_of_fmap. by exists (v, m).
  - intros [[= -> ->]|Hin]%elem_of_cons; [right; split; [done|left]|].
    destruct (IH Hd Hin) as [?|[? ?]]; [auto|]. right. split; [done|by right].
Qed.

Lemma touch_case_keys cs v : NoDup (map fst cs) -> NoDup (map fst (touch_case cs v)).
Proof.
  unfold touch_case. destruct (find_case cs v) eqn:E; [done|]. intros Hd. rewrite map_app.
  apply NoDup_app. split_and!; [done| |apply NoDup_singleton].
  intros w Hw Hv. apply list_elem_of_singleton in Hv as ->. cbn in Hw.
  clear Hd. induction cs as [|[w m] cs IH]; [by apply elem_of_nil in Hw|]. cbn in E, Hw.
  case_decide; [done|]. apply elem_of_cons in Hw as [->|Hw]; [done|auto].
Qed.

Lemma touch_case_elem cs v w n :
  (w, n) ∈ touch_case cs v -> (w, n) ∈ cs \/ (w = v /\ n = unexplored).
Proof.
  unfold touch_case. destruct (find_case cs v); [auto|].
  intros [Hin|Hin]%elem_of_app; [auto|]. apply list_elem_of_singleton in Hin as [= -> ->]. auto.
Qed.

Lemma node_at_app p q root : node_at (p ++ q) root = node_at p root ≫= node_at q.
Proof.
  revert root. induction p as [|s p IH]; intros root; [done|].
  destruct s, root; cbn; try done. destruct (find_case cases v); cbn; auto.
Qed.

Lemma node_at_set path root n n' : node_at path root = Some n -> node_at path (node_set path n' root) = Some n'.
Proof.
  revert root. induction path as [|s path IH]; intros root; cbn; [done|].
  destruct s, root; cbn; try done; auto.
  destruct (find_case cases v) as [ch|] eqn:E; cbn; [|done].
  intros Hn. rewrite (find_set_case _ _ _ _ E). cbn. auto.
Qed.

Lemma node_set_set path root n a b :
  node_at path root = Some n -> node_set path a (node_set path b root) = node_set path a root.
Proof.
  revert root. induction path as [|s path IH]; intros root; cbn; [done|].
  destruct s, root; cbn; try done; intros Hn; [by rewrite IH..|].
  destruct (find_case cases v) as [ch|] eqn:E; cbn in *; [|done].
  by rewrite (find_set_case _ _ _ _ E), set_set_case, IH.
Qed.

Lemma node_set_app p q root n n' :
  node_at p root = Some n -> node_set (p ++ q) n' root = node_set p (node_set q n' n) root.
Proof.
  revert root. induction p as [|s p IH]; intros root; cbn; [by intros [= ->]|].
  destruct s, root; cbn; try done; intros Hn; [by rewrite IH..|].
  destruct (find_case cases v) as [ch|] eqn:E; cbn in *; [|done]. by rewrite IH.
Qed.

(** Growing the node under the pointer, then moving the pointer into it. *)
Lemma node_descend path root n0 n s k n' :
  node_at path root = Some n0 -> node_at [s] n = Some k ->
  node_at (path ++ [s]) (node_set path n root) = Some k
  /\ node_set (path ++ [s]) n' (node_set path n root) = node_set path (node_set [s] n' n) root.
Proof.
  intros Hp Hs. pose proof (node_at_set path root n0 n Hp) as Hat. split.
  - by rewrite node_at_app, Hat.
  - by rewrite (node_set_app _ _ _ n), (node_set_set _ _ n0).
Qed.

Lemma node_set_same path root n : node_at path root = Some n -> node_set path n root = root.
Proof.
  revert root. induction path as [|s path IH]; intros root; cbn; [by intros [= ->]|].
  destruct s, root; cbn; try done; intros Hn; [by rewrite IH..|].
  destruct (find_case cases v) as [ch|] eqn:E; cbn in *; [|done]. rewrite IH by done. f_equal.
  clear Hn IH. induction cases as [|[w x] cs IH]; cbn in *; [done|].
  case_decide; [congruence|]. by rewrite IH.
Qed.

End paths.

Section focus.
Context {P : Type} `{PacketLaws P} {D : Type}.

Definition extends (dec dec' : flow_ref -> option D) : Prop := forall f d, dec f = Some d -> dec' f = Some d.

Lemma extends_refl dec : extends dec dec.
Proof. by intros f d. Qed.

(** [path] leads from [root], which records [pol0], to a node that records
    [pol] with cache [c]; a lookup of [orig] passes through it. *)
Record focus (dec : flow_ref -> option D) (pol0 : policy D) (c0 : field_set) (orig : P)
    (root : node) (path : list step) (pol : policy D) (c : field_set) : Prop := {
  fo_at : exists n, node_at path root = Some n /\ consistent dec n pol c;
  fo_put : forall dec' n, extends dec dec' -> consistent dec' n pol c ->
    consistent dec' (node_set path n root) pol0 c0;
  fo_look : forall alive n, lookup_node alive (node_set path n root) orig = lookup_node alive n orig;
}.

Lemma focus_init dec pol orig root :
  consistent dec root pol fs_empty -> focus dec pol fs_empty orig root [] pol fs_empty.
Proof. intros Hc. split; [by exists root|done..]. Qed.

Lemma focus_consistent dec pol0 c0 orig root path pol c :
  focus dec pol0 c0 orig root path pol c -> consistent dec root pol0 c0.
Proof.
  intros [(n & Hn & Hc) Hput _]. rewrite <- (node_set_same path root n Hn). by apply Hput; [apply extends_refl|].
Qed.

(** The step from a node to a child, whatever the tracer does to the node. *)
Lemma focus_step dec pol0 c0 orig root path pol c n s k pol' c' :
  focus dec pol0 c0 orig root path pol c ->
  node_at [s] n = Some k -> consistent dec k pol' c' ->
  (forall dec' k', extends dec dec' -> consistent dec' k' pol' c' ->
     consistent dec' (node_set [s] k' n) pol c) ->
  (forall alive k', lookup_node alive (node_set [s] k' n) orig = lookup_node alive k' orig) ->
  focus dec pol0 c0 orig (node_set path n root) (path ++ [s]) pol' c'.
Proof.
  intros [(n0 & Hn0 & _) Hput Hlook] Hs Hk Hcons Hl.
  assert (Hd : forall k', _) by exact (fun k' => node_descend path root n0 n s k k' Hn0 Hs).
  split.
  - exists k. split; [apply (Hd unexplored)|done].
  - intros dec' k' He Hk'. rewrite (proj2 (Hd k')). auto.
  - intros alive k'. rewrite (proj2 (Hd k')), Hlook. apply Hl.
Qed.

Lemma mask_eqb_refl m : mask_eqb m m = true.
Proof. unfold mask_eqb. by rewrite type_eqb_refl, (proj2 (bits_eqb_eq _ _) eq_refl). Qed.

Lemma field_eqb_refl f : field_eqb f f = true.
Proof.
  unfold field_eqb. by rewrite type_eqb_refl, !(proj2 (bits_eqb_eq _ _) eq_refl).
Qed.

Lemma focus_load dec pol0 c0 orig root path pol c m next u pol' c' cur' :
  focus dec pol0 c0 orig root path pol c -> policy_wf pol -> fs_wf c -> tracks orig cur' c' ->
  observe pol c = Ok (o_load m next) -> load orig m = Ok u -> f_mask u = m_bits m ->
  next u = Ok (pol', c') ->
  exists root' path', tracer_load (Tracer root (Some path)) u = Ok (Tracer root' (Some path'))
    /\ focus dec pol0 c0 orig root' path' pol' c'.
Proof.
  intros F Hp Wc T Ho Hl Mu Hn. pose proof F as [(n & Hat & Hcons) _ _].
  destruct (observe_ok pol c Hp Wc) as (o & E & Hobs). rewrite Ho in E. injection E as <-.
  destruct Hobs as (Wm & _). destruct (load_case orig cur' c' m u T Wm Hl) as (Hu & Hcase & Wu & Tu).
  unfold tracer_load; cbn [tr_path tr_root]. rewrite Hat, mask_of_field_ok, lift_Ok by done.
  assert (Hm : Mask (f_type u) (f_mask u) = m) by (destruct m; cbn in *; congruence). rewrite Hm.
  assert (Hlk : forall cs alive k, find_case cs (f_value u) = Some k ->
            lookup_node alive (load_node m cs) orig = lookup_node alive k orig).
  { intros cs alive k Hk. by rewrite lookup_load_node, Hl, res_bind_Ok, Hk. }
  inversion Hcons as [|? ? ? ? Ho'|? ? ? ? ? ? ? ? ? ? Ho'|? cases ? ? next' Ho' Hnd Hok Hcs]; subst n; subst;
    try congruence; rewrite res_bind_Ok.
  - eexists _, _; split; [reflexivity|]. eapply (focus_step _ _ _ _ _ _ _ _ _ _ unexplored); [exact F| |constructor|..].
    + cbn. by rewrite decide_True.
    + intros dec' k' He Hk'. cbn. repeat (rewrite decide_True by done; cbn). econstructor; [exact Ho| | |].
      * cbn. apply NoDup_singleton.
      * by apply Forall_singleton.
      * intros v nn Hin. apply list_elem_of_singleton in Hin as [= -> ->]. rewrite <- Hu. eauto.
    + intros alive k'. cbn [node_set find_case]. rewrite decide_True by done. cbn [set_case].
      rewrite decide_True by done. apply Hlk. cbn [find_case]. by rewrite decide_True.
  - rewrite Ho in Ho'. injection Ho' as <- <-. rewrite mask_eqb_refl.
    eexists _, _; split; [reflexivity|].
    destruct (find_case_touch cases (f_value u)) as [k Hk].
    assert (Hkc : consistent dec k pol' c').
    { apply find_case_elem in Hk. destruct (touch_case_elem _ _ _ _ Hk) as [Hin|[_ ->]]; [|constructor].
      destruct (Hcs _ _ Hin) as (q & x & Hq & Hc). rewrite <- Hu, Hn in Hq. by injection Hq as <- <-. }
    eapply (focus_step _ _ _ _ _ _ _ _ _ _ k); [exact F| |done|..].
    + cbn. by rewrite Hk.
    + intros dec' k' He Hk'. cbn. rewrite Hk. econstructor; [exact Ho| | |].
      * rewrite set_case_keys. by apply touch_case_keys.
      * apply Forall_forall. intros [w nn] Hin. cbn.
        destruct (set_case_elem _ _ _ _ _ (touch_case_keys _ _ Hnd) Hin) as [[-> _]|[Hne Hin']]; [done|].
        destruct (touch_case_elem _ _ _ _ Hin') as [Hin''|[-> _]]; [|done].
        rewrite Forall_forall in Hok. exact (Hok _ Hin'').
      * intros w nn Hin.
        destruct (set_case_elem _ _ _ _ _ (touch_case_keys _ _ Hnd) Hin) as [[-> ->]|[Hne Hin']].
        { rewrite <- Hu. eauto. }
        destruct (touch_case_elem _ _ _ _ Hin') as [Hin''|[-> _]]; [|done].
        destruct (Hcs _ _ Hin'') as (q & x & Hq & Hc). exists q, x. split; [done|]. by eapply consistent_mono.
    + intros alive k'. cbn [node_set]. rewrite Hk. apply Hlk. by eapply find_set_case.
Qed.

Lemma focus_test dec pol0 c0 orig root path pol c f next b pol' c' :
  focus dec pol0 c0 orig root path pol c -> policy_wf pol -> fs_wf c ->
  observe pol c = Ok (o_test f next) -> test orig f = Ok b -> next b = Ok (pol', c') ->
  exists root' path', tracer_test (Tracer root (Some path)) f b = Ok (Tracer root' (Some path'))
    /\ focus dec pol0 c0 orig root' path' pol' c'.
Proof.
  intros F Hp Wc Ho Ht Hn. pose proof F as [(n & Hat & Hcons) _ _].
  destruct (observe_ok pol c Hp Wc) as (o & E & Hobs). rewrite Ho in E. injection E as <-.
  destruct Hobs as (_ & _ & _ & Hb).
  destruct (Hb true) as (qp & xp & Hnp & _). destruct (Hb false) as (qn & xn & Hnn & _).
  unfold tracer_test; cbn [tr_path tr_root]. rewrite Hat.
  inversion Hcons as [|? ? ? ? Ho'|? pos neg ? ? next' polp cp poln cn Ho' Hnp' Hpos Hnn' Hneg|? ? ? ? ? Ho'];
    subst n; subst; try congruence.
  - eexists _, _; split; [reflexivity|].
    eapply (focus_step _ _ _ _ _ _ _ _ _ _ unexplored); [exact F|by destruct b|constructor|..].
    + intros dec' k' He Hk'. destruct b; cbn.
      * econstructor; [exact Ho|exact Hn|exact Hk'|exact Hnn|constructor].
      * econstructor; [exact Ho|exact Hnp|constructor|exact Hn|exact Hk'].
    + intros alive k'. by destruct b; cbn; rewrite Ht, res_bind_Ok.
  - rewrite Ho in Ho'. injection Ho' as <- <-. rewrite field_eqb_refl.
    eexists _, _; split; [reflexivity|]. rewrite <- (node_set_same path root _ Hat) at 1.
    eapply (focus_step _ _ _ _ _ _ _ _ _ _ (if b then pos else neg)); [exact F|by destruct b|..].
    + destruct b; congruence.
    + intros dec' k' He Hk'.
      destruct b; cbn; econstructor; try done; try (by eapply consistent_mono); congruence.
    + intros alive k'. by destruct b; cbn; rewrite Ht, res_bind_Ok.
Qed.

Lemma focus_finish dec pol0 c0 orig root path pol c d :
  focus dec pol0 c0 orig root path pol c -> observe pol c = Ok (o_return d) ->
  forall flow, exists root', tracer_finish (Tracer root (Some path)) flow = Ok (Tracer root' None)
    /\ (forall dec', extends dec dec' -> dec' flow = Some d -> consistent dec' root' pol0 c0)
    /\ forall alive, lookup_node alive root' orig = Ok (lock alive flow).
Proof.
  intros [(n & Hat & Hcons) Hput Hlook] Ho flow. unfold tracer_finish; cbn [tr_path tr_root]. rewrite Hat.
  assert (Hgo : exists root', Ok (Tracer (node_set path (flow_node flow) root) None)
      = Ok (E := error) (Tracer root' None)
    /\ (forall dec', extends dec dec' -> dec' flow = Some d -> consistent dec' root' pol0 c0)
    /\ forall alive, lookup_node alive root' orig = Ok (lock alive flow)).
  { eexists; split; [reflexivity|]. split; [|intros alive; by rewrite Hlook].
    intros dec' He Hd. apply Hput; [done|]. by econstructor. }
  inversion Hcons; subst n; subst; try congruence; exact Hgo.
Qed.

(** A traced run does what the policy does, exceptions included, and leaves a
    tree that records it; when it returns, the tracer can finish the path. *)
Lemma traced_any dec pol0 c0 orig pol : policy_wf pol -> forall root path c cur out,
  focus dec pol0 c0 orig root path pol c -> tracks orig cur c -> run pol cur = out ->
  exists tp root' path', tp_tracer tp = Tracer root' (Some path') /\ consistent dec root' pol0 c0
    /\ match out with
       | Throw e => run_traced_st pol (TPacket cur c (Tracer root (Some path))) = (tp, Throw e)
       | Ok (d, fin) =>
           run_traced_st pol (TPacket cur c (Tracer root (Some path))) = (tp, Ok d) /\ tp_pkt tp = fin
           /\ forall flow, exists root'', tracer_finish (Tracer root' (Some path')) flow = Ok (Tracer root'' None)
             /\ (forall dec', extends dec dec' -> dec' flow = Some d -> consistent dec' root'' pol0 c0)
             /\ forall alive, lookup_node alive root'' orig = Ok (lock alive flow)
       end.
Proof.
  induction (sub_wf pol) as [pol _ IH]. intros Hp root path c cur out F T Hrun.
  destruct (advance_any orig cur c pol out Hp T Hrun) as [(e & -> & Hst)|(o & Ho & Hev)].
  { destruct (Hst (Tracer root (Some path))) as (tp & E & Etr). exists tp, root, path.
    split_and!; [done|by eapply focus_consistent|done]. }
  destruct (observe_ok pol c Hp (tr_cache _ _ _ T)) as (o' & E & Hobs). rewrite Ho in E. injection E as <-.
  destruct o as [d'|m next|f next]; cbn in Hev, Hobs.
  - destruct Hev as (fin & -> & Htr). destruct (Htr (Tracer root (Some path))) as [c' ->].
    exists (TPacket fin c' (Tracer root (Some path))), root, path. split_and!; [done|by eapply focus_consistent|done|done|].
    by eapply focus_finish.
  - destruct Hev as (u & q & x & cur' & Hl & Mu & Hn & T' & Hr & Heq).
    destruct (focus_load _ _ _ _ _ _ _ _ _ _ _ _ _ _ F Hp (tr_cache _ _ _ T) T' Ho Hl Mu Hn)
      as (root' & path' & Etr & F'). destruct (Heq (Tracer root (Some path))) as (tp & ->). rewrite Etr. cbn [reports].
    destruct Hobs as (Wm & _ & _ & Hb). destruct (load_case orig cur c m u T Wm Hl) as (_ & _ & Wu & Tu).
    destruct (Hb u Wu Tu Mu) as (q' & x' & E & Wq & _ & Hs & _). rewrite Hn in E. injection E as <- <-.
    by apply (IH q Hs Wq root' path' x cur' out).
  - destruct Hev as (b & q & x & cur' & Ht & Hn & T' & Hr & Heq).
    destruct (focus_test _ _ _ _ _ _ _ _ _ _ _ _ _ F Hp (tr_cache _ _ _ T) Ho Ht Hn)
      as (root' & path' & Etr & F'). destruct (Heq (Tracer root (Some path))) as (tp & ->). rewrite Etr. cbn [reports].
    destruct Hobs as (_ & _ & _ & Hb).
    destruct (Hb b) as (q' & x' & E & Wq & _ & Hs & _). rewrite Hn in E. injection E as <- <-.
    by apply (IH q Hs Wq root' path' x cur' out).
Qed.

Lemma traced_ok dec pol0 c0 orig pol : policy_wf pol -> forall root path c cur d fin,
  focus dec pol0 c0 orig root path pol c -> tracks orig cur c -> run pol cur = Ok (d, fin) ->
  exists cache root' path', run_traced pol (TPacket cur c (Tracer root (Some path)))
      = Ok (d, TPacket fin cache (Tracer root' (Some path')))
    /\ consistent dec root' pol0 c0
    /\ forall flow, exists root'', tracer_finish (Tracer root' (Some path')) flow = Ok (Tracer root'' None)
      /\ (forall dec', extends dec dec' -> dec' flow = Some d -> consistent dec' root'' pol0 c0)
      /\ forall alive, lookup_node alive root'' orig = Ok (lock alive flow).
Proof.
  intros Hp root path c cur d fin F T Hrun. destruct (traced_any dec pol0 c0 orig pol Hp root path c cur _ F T Hrun)
    as ([pkt cache tr] & root' & path' & Etr & Hc & Hst & Hpkt & Hfin). cbn in Etr, Hpkt. subst tr pkt.
  exists cache, root', path'. split_and!; [by apply run_traced_of_st|done|done].
Qed.

End focus.
