(* ===== verification/LoadTrees.v ===== *)
(** * Policies that only load, and their trees

    Without tests the paths of a trace tree exclude each other, so each rule
    that it compiles to is for the packets that look up its flow: what the other
    rules are, and whether the switch has them, does not matter. *)

From S2P Require Import Prelude Bits OxmField Packet TraceTree Tracing TracingProofs.
Local Open Scope Z_scope.

Inductive loads_only {D} : policy D -> Prop :=
| lo_return d : loads_only (p_return d)
| lo_load m k : (forall f, loads_only (k f)) -> loads_only (p_load m k)
| lo_modify patch k : loads_only k -> loads_only (p_modify patch k).

Inductive loads_tree : node -> Prop :=
| lt_unexplored : loads_tree unexplored
| lt_flow f : loads_tree (flow_node f)
| lt_load m cases : Forall (fun c => loads_tree c.2) cases -> loads_tree (load_node m cases).

(** The flows a tree refers to. *)
Inductive in_tree (f : flow_ref) : node -> Prop :=
| it_flow : in_tree f (flow_node f)
| it_positive need pos neg : in_tree f pos -> in_tree f (test_node need pos neg)
| it_negative need pos neg : in_tree f neg -> in_tree f (test_node need pos neg)
| it_case m cases v n : (v, n) ∈ cases -> in_tree f n -> in_tree f (load_node m cases).

Lemma observe_loads {D} (pol : policy D) c o :
  loads_only pol -> observe pol c = Ok o ->
  match o with
  | o_return _ => True
  | o_load _ next => forall u q x, next u = Ok (q, x) -> loads_only q
  | o_test _ _ => False
  end.
Proof.
  intros Hp. revert c. induction Hp as [d|m k Hk IH|patch k Hk IH]; intros c; cbn.
  - by intros [= <-].
  - intros (e & _ & H)%res_bind_inv. apply res_bind_inv in H as (um & _ & H).
    destruct (wildcard _); [by eapply IH|]. injection H as <-. intros u q x Hn.
    apply res_bind_inv in Hn as (r & _ & Hn). apply res_bind_inv in Hn as (c' & _ & [= <- _]). done.
  - intros (c' & _ & H)%res_bind_inv. by eapply IH.
Qed.

Section loads.
Context {P : Type} `{PacketLaws P}.

Lemma consistent_loads {D} dec n (pol : policy D) c : consistent dec n pol c -> loads_only pol -> loads_tree n.
Proof.
  revert pol c. induction n as [|f|f pos neg _ _|m cases IH] using node_ind'; intros pol c Hc Hp; [constructor|constructor|exfalso|constructor].
  - inversion Hc as [| |? ? ? ? ? next polp cp poln cn Ho|]; subst. by apply observe_loads in Ho.
  - inversion Hc as [| | |? ? ? ? next Ho _ _ Hcs]; subst. apply observe_loads in Ho; [|done].
    rewrite Forall_forall in *. intros [v n] Hin. destruct (Hcs v n Hin) as (q & x & Hq & Hcons).
    apply (IH _ Hin q x Hcons). by eapply Ho.
Qed.

Lemma consistent_in_tree {D} dec n (pol : policy D) c f :
  in_tree f n -> consistent dec n pol c -> exists d, dec f = Some d.
Proof.
  intros Hin. revert pol c. induction Hin as [|need pos neg _ IH|need pos neg _ IH|m cases v n Hvn _ IH]; intros pol c Hc.
  - inversion Hc; subst. by eexists.
  - inversion Hc; subst. by eapply IH.
  - inversion Hc; subst. by eapply IH.
  - inversion Hc as [| | |? ? ? ? next _ _ _ Hcs]; subst. destruct (Hcs v n Hvn) as (q & x & _ & Hcons). by eapply IH.
Qed.

Variable alive : flow_ref -> bool.

(** A rule for a flow of the tree: the packets that match it look up that flow. *)
Definition rule_for (n : node) (fs : field_set) (r : rule) : Prop :=
  exists f, r_flow r = Some f /\ alive f = true /\ in_tree f n /\ fs_wf (r_match r)
    /\ forall p, pkt_wf p -> fs_sat (r_match r) p -> fs_sat fs p /\ lookup_node alive n p = Ok (Some f).

(** All rules are for flows of the tree, and each packet that the tree knows is
    matched by a rule for its flow. *)
Definition rules_for (n : node) (fs : field_set) (rs : list rule) : Prop :=
  Forall (rule_for n fs) rs
  /\ forall p f, pkt_wf p -> fs_sat fs p -> lookup_node alive n p = Ok (Some f) ->
       exists r, r ∈ rs /\ r_flow r = Some f /\ fs_sat (r_match r) p.

Definition compiles_for (n : node) : Prop := forall K c, tree_wf K n -> compile_pre K c 0 ->
  exists prio rs, compile alive n c = Ok (Compiler (c_match c) prio (c_installed c ++ rs))
    /\ 0 <= prio < 2 ^ 16 /\ rules_for n (c_match c) rs.

Lemma load_inv_sat m v p :
  pkt_wf p -> mask_wf m -> case_ok m v -> field_sat (Field (m_type m) v (m_bits m)) p ->
  exists g, load p m = Ok g /\ f_value g = v.
Proof.
  intros Hp Hm Hv Hs. pose proof Hs as (pv & Hpv & _).
  destruct (load_present p m pv Hp Hm Hpv) as (g & Hg & _). exists g. split; [done|]. by apply (case_field_sat m v p g).
Qed.

Lemma compile_pre_at K c n prio rs : compile_pre K c n -> 0 <= prio -> prio < 2 ^ 16 ->
  compile_pre K (Compiler (c_match c) prio rs) 0.
Proof. intros (? & ? & _) ? ?. split_and!; cbn; [done|done|done|lia]. Qed.

(** The rules of one more case of a load. *)
Lemma rules_for_case m v n cs (c c1 : field_set) rn rs :
  mask_wf m -> case_ok m v -> ~ v ∈ map fst cs ->
  (forall p, fs_sat c1 p <-> fs_sat c p /\ field_sat (Field (m_type m) v (m_bits m)) p) ->
  rules_for n c1 rn -> rules_for (load_node m cs) c rs -> rules_for (load_node m ((v, n) :: cs)) c (rn ++ rs).
Proof.
  intros Hm Hv Hnin Hsat [Hrn Fn] [Hrs Fs]. split; [apply Forall_app; split|].
  - eapply Forall_impl; [exact Hrn|]. intros r (f & Er & Ha & Hin' & Wr & Hr). exists f. split_and!; [done|done| |done|].
    { eapply it_case; [apply list_elem_of_here|exact Hin']. }
    intros p Hp Hs. destruct (Hr p Hp Hs) as [[Hc Hf]%Hsat Hl]. split; [done|].
    destruct (load_inv_sat m v p) as (g & Hg & Eg); [done..|]. rewrite lookup_load_node, Hg, res_bind_Ok, Eg.
    cbn [find_case]. by rewrite decide_True by done.
  - eapply Forall_impl; [exact Hrs|]. intros r (f & Er & Ha & Hin' & Wr & Hr). exists f. split_and!; [done|done| |done|].
    { inversion Hin' as [| | |? ? v' n' Hvn Hn']; subst. eapply it_case; [by apply list_elem_of_further|exact Hn']. }
    intros p Hp Hs. destruct (Hr p Hp Hs) as [Hc Hl]. split; [done|].
    rewrite lookup_load_node in Hl |- *. apply res_bind_inv in Hl as (g & Hg & Hl). rewrite Hg, res_bind_Ok.
    cbn [find_case]. case_decide as E; [|done]. destruct (find_case cs (f_value g)) as [k|] eqn:Ek; [|done].
    exfalso. apply Hnin. rewrite E. apply find_case_elem in Ek. by apply (list_elem_of_fmap_2 fst) in Ek.
  - intros p f Hp Hs Hl. rewrite lookup_load_node in Hl. apply res_bind_inv in Hl as (g & Hg & Hl). cbn [find_case] in Hl.
    setoid_rewrite elem_of_app. case_decide as E.
    + destruct (Fn p f) as (r & ? & ? & ?); [done| |done|exists r; auto]. apply Hsat. split; [done|].
      by apply (case_field_sat m v p g).
    + destruct (Fs p f) as (r & ? & ? & ?); [done|done| |exists r; auto]. by rewrite lookup_load_node, Hg, res_bind_Ok.
Qed.

Lemma compile_cases_for K m cs c :
  mask_wf m -> wildcard (m_bits m) = false ->
  (forall i, 0 <= i -> mbit m i = true -> ~ K (m_type m) i) ->
  NoDup (map fst cs) -> Forall (fun w => case_ok m w) (map fst cs) ->
  Forall (fun cn => tree_wf (add_mask K m) cn.2) cs -> Forall (fun cn => compiles_for cn.2) cs ->
  compile_pre K c 0 ->
  exists prio rs, compile_cases alive m cs c = Ok (Compiler (c_match c) prio (c_installed c ++ rs))
    /\ 0 <= prio < 2 ^ 16 /\ rules_for (load_node m cs) (c_match c) rs.
Proof.
  intros Hm Nm Hd. revert c. induction cs as [|[v n] cs IH]; intros c Hnd Hok Hwf Hcomp Hpre.
  { exists (c_priority c), []. destruct Hpre as (_ & _ & ? & ?), c. cbn in *. rewrite app_nil_r. split_and!; [done|done|lia|].
    split; [done|]. intros p f _ _ Hl. rewrite lookup_load_node in Hl. by apply res_bind_inv in Hl as (? & _ & ?). }
  cbn [map fst] in Hnd, Hok. apply NoDup_cons in Hnd as [Hnin Hnd].
  apply Forall_cons in Hok as [Hv Hok], Hwf as [Hn Hwf], Hcomp as [Cn Hcomp]. cbn [snd] in Hn, Cn.
  destruct (case_field_ok m v Hm Hv) as [Ef Wf].
  destruct (match_modify_ok K c _ (Field (m_type m) v (m_bits m)) Hpre Wf Nm) as (c1 & E1 & Hpr & Hin & Hpre1 & Hsat & Hback).
  { intros i Hi. cbn. unfold fbit; cbn. intros Hf. apply Hd; [done|]. unfold mbit. by destruct (Z.testbit (bval (m_bits m)) i). }
  destruct (Cn (add_mask K m) c1 Hn) as (p2 & rn & E2 & Hp2 & Hrn).
  { eapply compile_pre_weaken; [apply Hpre1|lia|]. intros t i [?|[-> Hf]]; [by left|right].
    split; [done|]. unfold fbit, mbit in *; cbn in *. by destruct (Z.testbit _ i). }
  destruct (IH (Compiler (c_match c) p2 (c_installed c ++ rn))) as (p3 & rs & E3 & Hp3 & Hrs);
    [done|done|done|done|eapply compile_pre_at; [exact Hpre|lia|lia]|].
  exists p3, (rn ++ rs). split_and!; [|lia|lia|by apply rules_for_case with (c_match c1)].
  cbn [compile_cases]. rewrite Ef, res_bind_Ok, E1, res_bind_Ok, E2, res_bind_Ok, (Hback m).
  - rewrite res_bind_Ok, Hin, app_assoc. exact E3.
  - rewrite mask_of_field_ok by done. by destruct m.
Qed.

Lemma compile_for n : loads_tree n -> compiles_for n.
Proof.
  induction n as [|f|f pos neg _ _|m cases IH] using node_ind'; intros Hl K c Hwf Hpre; [| |by inversion Hl|].
  - exists (c_priority c), []. destruct Hpre as (_ & _ & ? & ?), c. cbn in *. rewrite app_nil_r. by split_and!; [done|lia|lia|].
  - pose proof Hpre as (_ & _ & ? & ?). unfold rules_for, rule_for. cbn. unfold lock. destruct (alive f) eqn:Ea.
    + exists (u16 (c_priority c + 1)), [Rule (c_priority c) (c_match c) (Some f)]. split_and!; [done|by apply wrap_in_width..| |].
      * apply Forall_cons. split; [|done]. exists f. split_and!; [done|done|constructor|apply Hpre|]. by intros p Hp Hs.
      * intros p g Hp Hs [= <-]. eexists. split; [apply list_elem_of_here|]. done.
    + exists (c_priority c), []. destruct c. cbn in *. rewrite app_nil_r. by split_and!; [done|lia|lia|..].
  - inversion Hl as [| |? ? Hcs]; subst. inversion Hwf as [| | |? ? ? Hm Nm Hd Hnd Hok Hcases]; subst.
    apply compile_cases_for with K; try done; [by apply Forall_map|].
    rewrite Forall_forall in *. intros x Hx. apply (IH x Hx). by apply Hcs.
Qed.

(** What [commit] of such a tree asks the backend to do. *)
Lemma commit_for root :
  loads_tree root -> tree_wf (fun _ _ => False) root ->
  exists rs, commit alive root = Ok (commit_calls rs)
    /\ rules_for root fs_empty rs.
Proof.
  intros Hl Hwf. destruct (compile_for root Hl (fun _ _ => False) compiler_init Hwf) as (prio & rs & E & _ & Hrs).
  { split_and!; cbn; [apply fs_empty_wf| |lia|lia]. intros t i _ _. unfold fs_bit, fs_find; cbn. by rewrite lookup_empty. }
  exists rs. unfold commit. rewrite E. done.
Qed.
End loads.
