(* ===== verification/MapleRuntime.v ===== *)
(** * The Maple runtime as a whole (src/maple/Runtime.hh over TraceTree, TraceablePacketImpl)

    The reachable states of a runtime, and what its clients get: packets are
    answered from the tree, from the compiled flow table and by the policy with
    the same decision. *)

From S2P Require Import Prelude Bits OxmField OpenflowBasic Packet PacketParser TraceTree Tracing TracingProofs LoadTrees.
Local Open Scope Z_scope.

Section runtime.
Context {P : Type} `{PacketLaws P} {D : Type}.
Variable disposable : D -> bool.
Variable pol : policy D.

(** A controller starts with an empty tree; every packet-in miss augments it
    with a freshly allocated flow, whether or not the policy returns; a
    configuration change invalidates it. *)
Inductive reachable : runtime D -> Prop :=
| reach_init : reachable (Runtime unexplored ∅)
| reach_augment rt p flow :
    reachable rt -> pkt_wf p -> rt_decisions rt !! flow = None ->
    reachable (rt_augment disposable pol rt p flow).1
| reach_invalidate rt : reachable rt -> reachable (rt_invalidate rt).

(** The refinement relation between the tree and the policy. *)
Definition rt_ok (rt : runtime D) : Prop :=
  consistent (fun f => rt_decisions rt !! f) (rt_tree rt) pol fs_empty.

Lemma decisions_extend (m : gmap flow_ref D) flow d :
  m !! flow = None -> extends (fun f => m !! f) (fun f => <[flow := d]> m !! f).
Proof. intros Hn f x Hf. rewrite lookup_insert_ne; [done|]. intros ->. congruence. Qed.

(** What [augment] returns and leaves behind. *)
Definition augmented (rt : runtime D) (p : P) (flow : flow_ref) (out : runtime D * res error (D * P)) : Prop :=
  out.2 = run pol p /\ rt_ok out.1
  /\ match out.2 with
     | Throw _ => rt_decisions out.1 = rt_decisions rt
     | Ok (d, _) => rt_decisions out.1 = <[flow := d]> (rt_decisions rt)
         /\ (disposable d = false -> forall alive, rt_lookup alive out.1 p = Ok (lock alive flow))
     end.

Lemma augment_ok rt p flow :
  rt_ok rt -> policy_wf pol -> pkt_wf p -> rt_decisions rt !! flow = None ->
  augmented rt p flow (rt_augment disposable pol rt p flow).
Proof.
  intros Hok Hp Hw Hf. pose proof (tracks_init p Hw) as T.
  destruct (traced_any _ _ _ p pol Hp (rt_tree rt) [] fs_empty p _ (focus_init _ pol p (rt_tree rt) Hok) T eq_refl)
    as (tp & root' & path' & Etr & Hc & Hout).
  unfold augmented, rt_augment, augment_tracer. destruct (run pol p) as [[d p']|e] eqn:Hrun.
  - destruct Hout as (-> & Hpkt & Hfin). rewrite Etr, Hpkt.
    pose proof (decisions_extend (rt_decisions rt) flow d Hf) as Hext. destruct (disposable d) eqn:Ed.
    + cbn. split; [done|]. split; [|by rewrite Ed]. eapply consistent_mono; [|exact Hc]. exact Hext.
    + destruct (Hfin flow) as (root'' & -> & Hcons & Hlook). cbn. split; [done|]. split; [|split; [done|by intros _ alive]].
      apply Hcons; [exact Hext|]. apply lookup_insert_eq.
  - rewrite Hout, Etr. by split_and!.
Qed.

Lemma reachable_ok rt : policy_wf pol -> reachable rt -> rt_ok rt.
Proof.
  intros Hp Hr. induction Hr as [|rt p flow Hr IH Hw Hf|rt Hr IH]; [constructor| |constructor].
  by apply (augment_ok rt p flow IH Hp Hw Hf).
Qed.

(** C6: tracing is transparent.  In any reachable state, augmenting the tree
    with a packet gives exactly what the policy gives on the bare packet: the
    same decision and modified packet, or the same exception, and never an
    inconsistent trace.  The runtime that is left, also after an exception, is
    reachable and its tree records the policy.  When the policy returns, the flow
    has the decision, and unless this is disposable the packet is from then on
    answered by the flow; when it throws, the decisions are as before. *)
Theorem augment_transparent rt p flow :
  policy_wf pol -> reachable rt -> pkt_wf p -> rt_decisions rt !! flow = None ->
  let '(rt', r) := rt_augment disposable pol rt p flow in
  r = run pol p /\ reachable rt' /\ rt_ok rt'
  /\ match r with
     | Throw _ => rt_decisions rt' = rt_decisions rt
     | Ok (d, _) => rt_decisions rt' = <[flow := d]> (rt_decisions rt)
         /\ (disposable d = false -> forall alive, rt_lookup alive rt' p = Ok (lock alive flow))
     end.
Proof.
  intros Hp Hr Hw Hf. destruct (augment_ok rt p flow (reachable_ok rt Hp Hr) Hp Hw Hf) as (Hrun & Hok & Hout).
  pose proof (reach_augment rt p flow Hr Hw Hf) as Hr'.
  by destruct (rt_augment disposable pol rt p flow) as [rt' r].
Qed.

Lemma lookup_ok alive rt p d p' :
  policy_wf pol -> rt_ok rt -> pkt_wf p -> run pol p = Ok (d, p') ->
  exists t, rt_lookup alive rt p = Ok t /\ forall f, t = Some f -> rt_decisions rt !! f = Some d.
Proof.
  intros Hp Hok Hw Hrun. unfold rt_lookup.
  exact (consistent_lookup alive _ (rt_tree rt) pol fs_empty p p d p' Hok Hp (tracks_init p Hw) Hrun).
Qed.

(** C8: the trace tree is a sound cache of the policy.  In any reachable state,
    also after policies that threw, looking up a packet that the policy handles
    never throws, and a flow it finds was given the decision the policy takes on
    this packet. *)
Theorem lookup_sound alive rt p d p' :
  policy_wf pol -> reachable rt -> pkt_wf p -> run pol p = Ok (d, p') ->
  exists t, rt_lookup alive rt p = Ok t /\ forall f, t = Some f -> rt_decisions rt !! f = Some d.
Proof. intros Hp Hr. apply lookup_ok; [done|by apply reachable_ok]. Qed.

Lemma rt_tree_wf rt : policy_wf pol -> rt_ok rt -> tree_wf (fun _ _ => False) (rt_tree rt).
Proof. intros Hp Hok. apply (consistent_tree_wf _ _ pol fs_empty _ Hok Hp fs_empty_wf). by intros t i _ _ []. Qed.

(** A policy without tests: whichever of the rules a switch has, a packet that
    matches one is looked up as its flow. *)
Lemma kept_rules_sound (keeps : rule -> bool) alive rt (p : P) f rs :
  policy_wf pol -> rt_ok rt -> loads_only pol -> rt_commit alive rt = Ok (commit_calls rs) -> increasing rs -> pkt_wf p ->
  table_decision (filter keeps rs) p = Some f -> rt_lookup alive rt p = Ok (Some f).
Proof.
  intros Hp Hok Hl Hc Hinc Hw Hf.
  destruct (commit_for alive (rt_tree rt)) as (rs' & E & Hrs & _); [by eapply consistent_loads|by apply rt_tree_wf|].
  unfold rt_commit in Hc. rewrite E in Hc. assert (commit_calls rs' = commit_calls rs) as ->%commit_calls_inj by congruence.
  apply table_decision_in in Hf as (r & [_ Hin]%list_elem_of_filter & Hm & Hr); [|by apply increasing_filter].
  rewrite Forall_forall in Hrs. destruct (Hrs r Hin) as (g & Hg & _ & _ & Wr & Hlook).
  assert (g = f) as -> by congruence. apply Hlook; [done|]. by apply rule_matches_iff.
Qed.

(** C3: what a commit makes of the flow table.  In any reachable state whose
    tree compiles to fewer than 2^16 - 1 rules, [commit] succeeds, and whatever
    the table held before, for each packet that the policy handles: (1) a switch
    that installs every rule, barriers included, answers as the tree does;
    (2) a flow of the tree has the decision that the policy takes on the packet;
    (3) a switch that leaves out rules, as [MapleBackend] leaves out barriers and
    inactive flows, still answers a packet the tree knows with the same flow if
    it has the flow's rules; (4) if the policy makes no tests, such a switch
    never answers with a flow of another decision (with tests it does). *)
Theorem flow_table_sound alive keeps rt :
  policy_wf pol -> reachable rt -> count_rules alive (rt_tree rt) < 2 ^ 16 - 1 ->
  exists calls, rt_commit alive rt = Ok calls
    /\ forall table p d p', pkt_wf p -> run pol p = Ok (d, p') ->
         let full := table_decision (fold_left (switch_apply installs_all) calls table) p in
         let kept := table_decision (fold_left (switch_apply keeps) calls table) p in
         rt_lookup alive rt p = Ok full
         /\ (forall f, full = Some f -> rt_decisions rt !! f = Some d)
         /\ (forall f, full = Some f -> (forall r, r_flow r = Some f -> keeps r = true) -> kept = Some f)
         /\ (loads_only pol -> forall f, kept = Some f -> rt_decisions rt !! f = Some d).
Proof.
  intros Hp Hr Hc. pose proof (reachable_ok rt Hp Hr) as Hok.
  destruct (commit_ok (P := P) alive (rt_tree rt) (rt_tree_wf rt Hp Hok) Hc) as (rs & E & _ & Hcons & Htab).
  apply consecutive_increasing in Hcons. exists (commit_calls rs). split; [done|]. intros table p d p' Hw Hrun full kept.
  destruct (lookup_ok alive rt p d p' Hp Hok Hw Hrun) as (t & Hl & Hd). pose proof (Htab p t Hw Hl) as Et.
  unfold full, kept. rewrite !switch_table, filter_all, !table_decision_last, Et by auto using increasing_filter.
  split_and!; [done|done| |].
  - intros f -> Hk. by apply last_target_filter.
  - intros Hlo f Hf. apply Hd. rewrite <- table_decision_last in Hf by auto using increasing_filter.
    pose proof (kept_rules_sound keeps alive rt p f rs Hp Hok Hlo E Hcons Hw Hf). congruence.
Qed.

End runtime.

(** C7: compiling a well-formed trace tree preserves its meaning.  When it has
    fewer than 2^16 - 1 rules the compiler does not run out of priorities: a
    commit removes everything and installs, between two barriers, that many
    rules, with the consecutive priorities from 1; and a switch that installs
    all of them answers every packet as the tree does. *)
Theorem commit_decides_as_tree {P} `{PacketLaws P} alive root :
  tree_wf (fun _ _ => False) root -> count_rules alive root < 2 ^ 16 - 1 ->
  exists rs, commit alive root = Ok ([bc_remove_all; bc_barrier] ++ map bc_install rs ++ [bc_barrier])
    /\ map r_priority rs = seqZ 1 (count_rules alive root)
    /\ forall table (p : P) t, pkt_wf p -> lookup_node alive root p = Ok t ->
         table_decision (fold_left (switch_apply installs_all)
           ([bc_remove_all; bc_barrier] ++ map bc_install rs ++ [bc_barrier]) table) p = t.
Proof.
  intros Hwf Hc. destruct (commit_ok (P := P) alive root Hwf Hc) as (rs & E & Hlen & Hcons & Htab).
  exists rs. split_and!; [done|by rewrite <- Hlen; apply consecutive_priorities|]. intros table p t Hw Hl.
  pose proof (switch_table installs_all rs table) as Et. unfold commit_calls in Et.
  rewrite Et, filter_all, table_decision_last by by eapply consecutive_increasing. by apply Htab.
Qed.

(** ** A concrete policy and runtime

    ARP traffic is decided by the sender's protocol address, the rest is 0. *)

Definition sample_need : field := Field eth_type (Bits 16 0x0806) (bits_set (bits_zero 16)).
Definition sample_mask : mask := Mask arp_spa (bits_set (bits_zero 32)).

Definition sample_policy : policy Z :=
  p_test sample_need (fun arp : bool =>
    if arp then p_load sample_mask (fun f => p_return (bval (f_value f))) else p_return 0).

Definition sample_rt : runtime Z := (rt_augment (fun _ => false) sample_policy (Runtime unexplored ∅) sample_parser 1).1.

Lemma sample_policy_wf : policy_wf sample_policy.
Proof.
  constructor; [split_and!|done|].
  - by apply known_by_check.
  - split; [split; vm_compute; [discriminate|split; [discriminate|reflexivity]]|reflexivity].
  - by apply (mask_ok_set eth_type).
  - reflexivity.
  - intros [|]; [|constructor]. constructor; [split|done|constructor].
    + by apply known_by_check.
    + by apply (mask_ok_set arp_spa).
Qed.

Lemma sample_reachable : reachable (fun _ => false) sample_policy sample_rt.
Proof. apply (reach_augment _ _ (Runtime unexplored ∅) sample_parser 1); [constructor|apply sample_parser_wf|reflexivity]. Qed.

(** A frame without a network address, for a policy that reads one: it throws,
    and the load before it stays in the tree. *)
Definition failing_policy : policy Z :=
  p_load (Mask eth_type (bits_set (bits_zero 16))) (fun _ => p_load (Mask arp_spa (bits_set (bits_zero 32))) (fun f => p_return (bval (f_value f)))).

Lemma failing_policy_wf : policy_wf failing_policy.
Proof.
  constructor; [split; [by apply known_by_check|by apply (mask_ok_set eth_type)]|done|]. intros _ _ _.
  constructor; [split; [by apply known_by_check|by apply (mask_ok_set arp_spa)]|done|]. intros. constructor.
Qed.

Definition other_frame : list Z := [0; 0; 0; 0; 0; 1; 0; 0; 0; 0; 0; 2; 0x12; 0x34].
Definition other_packet : parser :=
  match packet_parser (Some other_frame) 5 0 0 with Ok p => p | Throw _ => Parser [] [] 0 0 [] end.

Lemma other_packet_wf : parser_wf other_packet.
Proof.
  apply (packet_parser_wf other_frame 5 0 0); [vm_compute; reflexivity|]. unfold ihl_ok.
  change (l3_start other_frame) with (0x1234, 14). discriminate.
Qed.

Lemma augment_transparent_witness :
  (exists rt', rt_augment (fun _ => false) sample_policy sample_rt sample_parser 2 = (rt', Ok (0x0a000001, sample_parser))
     /\ rt_decisions rt' !! 2 = Some 0x0a000001)
  /\ exists rt' e m n, rt_augment (fun _ => false) failing_policy (Runtime unexplored ∅) other_packet 1 = (rt', Throw e)
     /\ rt_tree rt' = load_node m [(Bits 16 0x1234, n)] /\ rt_ok failing_policy rt'.
Proof.
  split.
  - pose proof (augment_transparent (fun _ => false) sample_policy sample_rt sample_parser 2
      sample_policy_wf sample_reachable sample_parser_wf eq_refl) as Ht.
    destruct (rt_augment _ _ _ _ _) as [rt' r]. destruct Ht as (-> & _ & _ & Hd). exists rt'.
    assert (Hrun : run sample_policy sample_parser = Ok (0x0a000001, sample_parser)) by (vm_compute; reflexivity).
    rewrite Hrun in Hd. split; [by rewrite Hrun|]. destruct Hd as [-> _]. apply lookup_insert_eq.
  - pose proof (augment_transparent (fun _ => false) failing_policy (Runtime unexplored ∅) other_packet 1
      failing_policy_wf (reach_init _ _) other_packet_wf eq_refl) as Ht.
    destruct (rt_augment _ failing_policy _ _ _) as [rt' r] eqn:E. destruct Ht as (_ & _ & Hok & _).
    vm_compute in E. injection E as <- <-. eexists _, _, _, _. split; [reflexivity|]. split; [reflexivity|exact Hok].
Defined.

Lemma lookup_sound_witness :
  rt_lookup (fun _ => true) sample_rt sample_parser = Ok (Some 1)
  /\ exists t, rt_lookup (fun _ => true) sample_rt sample_parser = Ok t
      /\ forall f, t = Some f -> rt_decisions sample_rt !! f = Some 0x0a000001.
Proof.
  split; [vm_compute; reflexivity|].
  apply (lookup_sound (fun _ => false) sample_policy (fun _ => true) sample_rt sample_parser 0x0a000001 sample_parser);
    [apply sample_policy_wf|apply sample_reachable|apply sample_parser_wf|vm_compute; reflexivity].
Defined.

(** The rules of flows, without the barriers. *)
Definition for_flow (r : rule) : bool := match r_flow r with Some _ => true | None => false end.

Lemma flow_table_sound_witness :
  exists calls, rt_commit (fun _ => true) sample_rt = Ok calls
    /\ table_decision (fold_left (switch_apply installs_all) calls []) sample_parser = Some 1
    /\ table_decision (fold_left (switch_apply for_flow) calls []) sample_parser = Some 1.
Proof.
  destruct (flow_table_sound (fun _ => false) sample_policy (fun _ => true) for_flow sample_rt) as (calls & E & Ht);
    [apply sample_policy_wf|apply sample_reachable|vm_compute; reflexivity|].
  exists calls. split; [done|].
  destruct (Ht [] sample_parser 0x0a000001 sample_parser sample_parser_wf) as (Hl & _ & Hk & _); [vm_compute; reflexivity|].
  assert (rt_lookup (fun _ => true) sample_rt sample_parser = Ok (Some 1)) by (vm_compute; reflexivity).
  assert (Hf : table_decision (fold_left (switch_apply installs_all) calls []) sample_parser = Some 1) by congruence.
  split; [done|]. apply (Hk 1 Hf). intros r Hr. unfold for_flow. by rewrite Hr.
Defined.

Definition sample_tree : node := test_node sample_need (flow_node 1) unexplored.

Lemma sample_tree_wf : tree_wf (fun _ _ => False) sample_tree.
Proof.
  pose proof sample_policy_wf as Hp. inversion Hp; subst.
  apply wf_test; [done|done|by intros i _ _ []|constructor|constructor].
Qed.

Lemma commit_decides_as_tree_witness :
  exists calls, commit (fun _ => true) sample_tree = Ok calls
    /\ table_decision (fold_left (switch_apply installs_all) calls []) sample_parser = Some 1.
Proof.
  destruct (commit_decides_as_tree (P := parser) (fun _ => true) sample_tree sample_tree_wf) as (rs & E & _ & Ht);
    [vm_compute; reflexivity|].
  eexists. split; [exact E|]. apply Ht; [apply sample_parser_wf|vm_compute; reflexivity].
Defined.
