(* ===== verification/MapleLog.v ===== *)
(** * The log of a traced run (src/maple/LoggableTracer.cc, the error path of
      src/maple/Runtime.hh)

    [LoggableTracer] stands between the packet and the tracer: it writes down each call
    and passes it on.  When the policy throws, the text is attached to the exception. *)

From S2P Require Import Prelude Bits OxmField Packet TraceTree Tracing.
Local Open Scope Z_scope.

(** What is written: [load] and [test], before the tracer gets the call. *)
Inductive log_entry := logged_load (unexplored : field) | logged_test (pred : field) (ret : bool).

(** The text of a type is that of its name in C++. *)
Class TypeNames := type_text : type -> string.

Section text.
Context `{TypeNames}.
Local Open Scope string_scope.

(** [operator<<] of values, masks and fields. *)
Definition value_text (t : type) (v : bits) : string := type_text t +:+ " == " +:+ bits_to_string v.
Definition mask_text (t : type) (m : bits) : string := type_text t +:+ " & " +:+ bits_to_string m.
Definition field_text (f : field) : string :=
  if fuzzy (f_mask f) then "(" +:+ mask_text (f_type f) (f_mask f) +:+ ")" +:+ " == " +:+ bits_to_string (f_value f)
  else value_text (f_type f) (f_value f).

Definition entry_text (e : log_entry) : string :=
  match e with
  | logged_load f => "(L " +:+ field_text f +:+ ") "
  | logged_test f ret => "(T " +:+ field_text f +:+ " -> " +:+ (if ret then "1" else "0") +:+ ") "
  end.
(** [finish] writes a letter. *)
Definition log_text (es : list log_entry) (finished : bool) : string := String.concat EmptyString (map entry_text es) +:+ (if finished then "F" else EmptyString).
End text.

Section log.
Context {P : Type} `{Packet P} {D : Type}.

(** The call of the tracer that a [load] or a [test] makes, if it gets as far. *)
Definition load_entry (tp : tpacket P) (m : mask) : option log_entry :=
  match load (tp_pkt tp) m, fs_load (tp_cache tp) m with
  | Ok read, Ok explored =>
      match unexplored_part explored read with
      | Ok unexpl => if wildcard (f_mask unexpl) then None else Some (logged_load unexpl)
      | Throw _ => None
      end
  | _, _ => None
  end.

Definition test_entry (tp : tpacket P) (need : field) : option log_entry :=
  match (lift (mask_of_field need) ≫= fun nm =>
         load (tp_pkt tp) nm ≫= fun read =>
         lift (fs_load (tp_cache tp) nm) ≫= fun explored =>
         lift (unexplored_part explored read) ≫= fun unexpl =>
         lift (field_match explored need) ≫= fun determined : bool =>
         if negb determined || wildcard (f_mask unexpl) then Ok None
         else lift (field_match unexpl need) ≫= fun ret : bool =>
              lift (mask_of_field unexpl) ≫= fun um =>
              lift (field_and_mask need um) ≫= fun pred => Ok (Some (logged_test pred ret)) : res error (option log_entry)) with
  | Ok e => e
  | Throw _ => None
  end.

Definition note (e : option log_entry) (log : list log_entry) : list log_entry := match e with Some e => log ++ [e] | None => log end.

(** The policy through the packet and the [LoggableTracer], with the log. *)
Fixpoint run_logged (pol : policy D) (tp : tpacket P) (log : list log_entry) : list log_entry * (tpacket P * res error D) :=
  match pol with
  | p_return d => (log, (tp, Ok d))
  | p_load m k =>
      let log := note (load_entry tp m) log in
      match tp_load tp m with Ok r => run_logged (k r.1) r.2 log | Throw e => (log, (tp, Throw e)) end
  | p_test need k =>
      let log := note (test_entry tp need) log in
      match tp_test tp need with Ok r => run_logged (k r.1) r.2 log | Throw e => (log, (tp, Throw e)) end
  | p_modify patch k => match tp_modify tp patch with Ok tp' => run_logged k tp' log | Throw e => (log, (tp, Throw e)) end
  end.

(** [Runtime::augment]: the decision, or the exception with the text. *)
Definition augment_logged `{TypeNames} (pol : policy D) (rt : runtime D) (p : P) : res (error * string) D :=
  match run_logged pol (TPacket p fs_empty (augment_tracer (rt_tree rt))) [] with
  | (_, (_, Ok d)) => Ok d
  | (log, (_, Throw e)) => Throw (e, log_text log false)
  end.

(** * The log tells where the run is *)

(** The log does not change the run. *)
Lemma run_logged_transparent pol : forall tp log, (run_logged pol tp log).2 = run_traced_st pol tp.
Proof.
  induction pol as [d|m k IH|need k IH|patch k IH]; intros tp log; cbn; [done|..].
  - destruct (tp_load tp m); [apply IH|done].
  - destruct (tp_test tp need); [apply IH|done].
  - destruct (tp_modify tp patch); [apply IH|done].
Qed.

Definition entry_step (e : log_entry) : step := match e with logged_load f => to_case (f_value f) | logged_test _ ret => step_of ret end.

Definition steps_from (es : list log_entry) (tr : option (list step)) : option (list step) := (fun p => p ++ map entry_step es) <$> tr.

Lemma steps_none tr : tr = steps_from [] tr.
Proof. destruct tr; cbn; by rewrite ?app_nil_r. Qed.

Lemma steps_app es1 es2 tr : steps_from es2 (steps_from es1 tr) = steps_from (es1 ++ es2) tr.
Proof. destruct tr; cbn; [|done]. by rewrite map_app, app_assoc. Qed.

Lemma tracer_load_path tr f tr' : tracer_load tr f = Ok tr' -> tr_path tr' = steps_from [logged_load f] (tr_path tr).
Proof.
  unfold tracer_load. destruct (tr_path tr) as [path|]; [|done]. destruct (node_at path (tr_root tr)) as [[| | |]|]; try done.
  all: intros E; inv_ok; try case_match; inv_ok; done.
Qed.

Lemma tracer_test_path tr f ret tr' : tracer_test tr f ret = Ok tr' -> tr_path tr' = steps_from [logged_test f ret] (tr_path tr).
Proof.
  unfold tracer_test. destruct (tr_path tr) as [path|]; [|done]. destruct (node_at path (tr_root tr)) as [[| | |]|]; try done.
  all: intros E; try case_match; inv_ok; done.
Qed.

(** A call that succeeds extends the path by what it writes down. *)
Lemma tp_load_path tp m r : tp_load tp m = Ok r -> tr_path (tp_tracer r.2) = steps_from (note (load_entry tp m) []) (tr_path (tp_tracer tp)).
Proof.
  unfold tp_load, load_entry. intros (read & -> & (explored & E1 & (unexpl & E2 & E)%res_bind_inv)%res_bind_inv)%res_bind_inv.
  destruct (fs_load (tp_cache tp) m); cbn in E1; inv_ok. destruct (unexplored_part _ _); cbn in E2; inv_ok.
  destruct (wildcard _); inv_ok; [apply steps_none|]. by apply tracer_load_path.
Qed.

Lemma tp_test_path tp need r : tp_test tp need = Ok r -> tr_path (tp_tracer r.2) = steps_from (note (test_entry tp need) []) (tr_path (tp_tracer tp)).
Proof.
  unfold tp_test, test_entry. intros E. do 5 (apply res_bind_inv in E as (? & Hb & E); rewrite Hb, res_bind_Ok; clear Hb).
  destruct (negb _); cbn [orb]; [inv_ok; apply steps_none|]. destruct (wildcard _); [inv_ok; apply steps_none|].
  do 3 (apply res_bind_inv in E as (? & Hb & E); rewrite Hb, res_bind_Ok; clear Hb).
  apply res_bind_inv in E as (tr & Et & E). apply tracer_test_path in Et. case_match; inv_ok; exact Et.
Qed.

(** What a run from [tp] and a log should end with: the path to where the tracer is goes
    on by the steps of the new entries, except that of a last call which the tracer
    refused. *)
Definition tells (log : list log_entry) (tp : tpacket P) (k : list log_entry * (tpacket P * res error D)) : Prop :=
  exists es refused, k.1 = log ++ es ++ refused /\ tr_path (tp_tracer k.2.1) = steps_from es (tr_path (tp_tracer tp)) /\
    (length refused <= 1)%nat /\ forall d, k.2.2 = Ok d -> refused = [].

Lemma note_app e log : note e log = log ++ note e [].
Proof. destruct e; cbn; by rewrite ?app_nil_r. Qed.

Lemma tells_step e tp (r : tpacket P) log k : tr_path (tp_tracer r) = steps_from (note e []) (tr_path (tp_tracer tp)) -> tells (note e log) r k -> tells log tp k.
Proof.
  intros Hp (es & refused & E1 & E2 & Hl & Hd). exists (note e [] ++ es), refused. rewrite E1, E2, Hp, steps_app, (note_app e log), <- !app_assoc. done.
Qed.

Lemma tells_throw e tp log x : tells log tp (note e log, (tp, Throw x)).
Proof.
  exists [], (note e []). cbn [fst snd app]. rewrite (note_app e log). split; [done|]. split; [apply steps_none|]. split; [destruct e; cbn; lia|done].
Qed.

(** When a run ends, with a decision or an exception, the log is the path from the root
    of the trace tree to where the tracer is, and perhaps a call that was refused. *)
Lemma log_is_path pol : forall tp log, tells log tp (run_logged pol tp log).
Proof.
  induction pol as [d|m k IH|need k IH|patch k IH]; intros tp log; cbn [run_logged].
  - exists [], []. cbn. rewrite app_nil_r. split; [done|]. split; [apply steps_none|]. split; [lia|done].
  - destruct (tp_load tp m) as [r|x] eqn:E; [|apply tells_throw]. eapply tells_step; [by apply tp_load_path|apply IH].
  - destruct (tp_test tp need) as [r|x] eqn:E; [|apply tells_throw]. eapply tells_step; [by apply tp_test_path|apply IH].
  - destruct (tp_modify tp patch) as [r|x] eqn:E; [|apply (tells_throw None)]. apply (tells_step None tp r log _); [|apply IH].
    unfold tp_modify in E. inv_ok. apply steps_none.
Qed.
End log.
