(* ===== verification/RaftTypes.v ===== *)
(** * Raft: data (src/raft/raft_entry.hpp, raft_rpc.hpp, raft_state.hpp, raft_callbacks.hpp)

    Log entries, message headers, the RPC messages and events, the peers and the
    volatile state of a raft node, and the callbacks a node issues. *)

From S2P Require Import Prelude.
Local Open Scope Z_scope.

(** Ends of the process the raft code can run into: [exit(1)], a failed
    [assert], a null dereference, an access outside a vector. *)
Inductive crash := exit_1 | assert_failed | null_dereference | out_of_bounds.

#[export] Instance crash_eq_dec : EqDecision crash.
Proof. solve_decision. Defined.

(** ** raft_entry.hpp *)

Record ip_port_t := IpPort { ip : string; port : Z; client_port : Z }.

Record EntryInfo := Info { index : Z; term : Z }.
Record LogState := LogSt { commit : EntryInfo; uncommit : EntryInfo }.

Record MessageHeader := Header {
  h_peer_id : string;
  h_destination_id : string;
  h_message_id : Z;
  h_term : Z;
  h_log_state : LogState;
}.

Definition entry_info_lt (lhs rhs : EntryInfo) : bool :=
  if term lhs =? term lhs then index lhs <? index rhs else term lhs <? term rhs.
Definition entry_info_eq (lhs rhs : EntryInfo) : bool := (term lhs <? term lhs) && (index lhs =? index rhs).
Definition entry_info_ne (lhs rhs : EntryInfo) : bool := negb (entry_info_eq lhs rhs).
Definition entry_info_le (lhs rhs : EntryInfo) : bool := negb (entry_info_lt rhs lhs).
Definition entry_info_gt (lhs rhs : EntryInfo) : bool := entry_info_lt rhs lhs.
Definition entry_info_ge (lhs rhs : EntryInfo) : bool := negb (entry_info_lt lhs rhs).

(** [Entry<std::string>] *)
Record Entry := Ent { info : EntryInfo; data : string }.

#[export] Instance entry_info_dec : EqDecision EntryInfo.
Proof. solve_decision. Defined.
#[export] Instance log_state_dec : EqDecision LogState.
Proof. solve_decision. Defined.
#[export] Instance header_dec : EqDecision MessageHeader.
Proof. solve_decision. Defined.
#[export] Instance entry_dec : EqDecision Entry.
Proof. solve_decision. Defined.

(** ** raft_rpc.hpp *)

Record AppendEntriesRequest := AppendReq {
  arq_header : MessageHeader;
  previous_entry : EntryInfo;
  entries : list Entry;
}.
Record AppendEntriesResponse := AppendResp { ars_header : MessageHeader; success : bool }.
Record VoteRequest := VoteReq { vrq_header : MessageHeader }.
Record VoteResponse := VoteResp { vrs_header : MessageHeader; vote_granted : bool }.
Record ClientRequest := ClientReq { client_id : string; cr_message_id : string; cr_data : string }.

(** What one node sends another. *)
Inductive message :=
| m_append_request (m : AppendEntriesRequest)
| m_append_response (m : AppendEntriesResponse)
| m_vote_request (m : VoteRequest)
| m_vote_response (m : VoteResponse)
| m_client_request (m : ClientRequest).

(** ** raft_state.hpp *)

Record peer_info_t := Peer {
  p_ip_port : ip_port_t;
  p_id : string;
  next_entry : EntryInfo;
  match_entry : EntryInfo;
  last_message_id : Z;
  voted_for_me : bool;
  waiting_for_response : bool;
}.

Definition new_peer (id ip_ : string) (port_ client_port_ : Z) : peer_info_t :=
  Peer (IpPort ip_ port_ client_port_) id (Info 1 1) (Info 0 0) 0 false false.

(** Assignments to one member. *)
Definition set_voted (b : bool) (p : peer_info_t) : peer_info_t :=
  Peer (p_ip_port p) (p_id p) (next_entry p) (match_entry p) (last_message_id p) b (waiting_for_response p).
Definition set_waiting (b : bool) (p : peer_info_t) : peer_info_t :=
  Peer (p_ip_port p) (p_id p) (next_entry p) (match_entry p) (last_message_id p) (voted_for_me p) b.
Definition set_message_id (n : Z) (p : peer_info_t) : peer_info_t :=
  Peer (p_ip_port p) (p_id p) (next_entry p) (match_entry p) n (voted_for_me p) (waiting_for_response p).
Definition set_next_index (n : Z) (p : peer_info_t) : peer_info_t :=
  Peer (p_ip_port p) (p_id p) (Info n (term (next_entry p))) (match_entry p) (last_message_id p) (voted_for_me p)
       (waiting_for_response p).
Definition set_match (e : EntryInfo) (p : peer_info_t) : peer_info_t :=
  Peer (p_ip_port p) (p_id p) (next_entry p) e (last_message_id p) (voted_for_me p) (waiting_for_response p).
Definition set_match_index (n : Z) (p : peer_info_t) : peer_info_t := set_match (Info n (term (match_entry p))) p.

(** [++peer.last_message_id] *)
Definition next_message_id (p : peer_info_t) : Z := u64 (last_message_id p + 1).

Definition peer_reset (p : peer_info_t) : peer_info_t :=
  set_waiting false (set_message_id (next_message_id p) (set_voted false p)).

Inductive Role := Candidate | Follower | Leader.

#[export] Instance role_dec : EqDecision Role.
Proof. solve_decision. Defined.

Record State := St {
  role : Role;
  id : string;
  leader_id : string;
  known_peers : list peer_info_t;
  cluster_new : list peer_info_t;
  cluster_old : list peer_info_t;
  minimum_timeout_reached : bool;
}.

Definition new_state (id_ : string) (peers : list peer_info_t) : State :=
  St Follower id_ id_ peers [] [] true.

Definition set_role (r : Role) (s : State) : State :=
  St r (id s) (leader_id s) (known_peers s) (cluster_new s) (cluster_old s) (minimum_timeout_reached s).
Definition set_leader_id (l : string) (s : State) : State :=
  St (role s) (id s) l (known_peers s) (cluster_new s) (cluster_old s) (minimum_timeout_reached s).
Definition set_peers (ps : list peer_info_t) (s : State) : State :=
  St (role s) (id s) (leader_id s) ps (cluster_new s) (cluster_old s) (minimum_timeout_reached s).
Definition set_minimum_timeout_reached (b : bool) (s : State) : State :=
  St (role s) (id s) (leader_id s) (known_peers s) (cluster_new s) (cluster_old s) b.

(** [find_peer]: the first peer with the id; the code keeps a pointer to it and
    writes through it, which [update_peer] does. *)
Definition find_peer (pid : string) (s : State) : option peer_info_t :=
  find (fun p => bool_decide (p_id p = pid)) (known_peers s).

Fixpoint update_first (pid : string) (f : peer_info_t -> peer_info_t) (ps : list peer_info_t) : list peer_info_t :=
  match ps with
  | [] => []
  | p :: ps' => if decide (p_id p = pid) then f p :: ps' else p :: update_first pid f ps'
  end.

Definition update_peer (pid : string) (f : peer_info_t -> peer_info_t) (s : State) : State :=
  set_peers (update_first pid f (known_peers s)) s.

(** ** raft_callbacks.hpp *)

Inductive callback :=
| set_heartbeat_timeout
| set_follower_timeout
| set_candidate_timeout
| set_minimum_timeout
| send (peer_id : string) (m : message)
| drop_peer (peer_id : string)
| new_leader_elected (leader : string)
| commit_advanced (commit_index : Z).

(** ** Lemmas *)

(** [operator<] ignores the terms, [operator==] is never true. *)
Lemma entry_info_lt_index lhs rhs : entry_info_lt lhs rhs = (index lhs <? index rhs).
Proof. unfold entry_info_lt. by rewrite Z.eqb_refl. Qed.

Lemma entry_info_ne_true lhs rhs : entry_info_ne lhs rhs = true.
Proof. unfold entry_info_ne, entry_info_eq. by rewrite Z.ltb_irrefl. Qed.

Lemma update_first_ids pid f ps :
  (forall p, p_id (f p) = p_id p) -> map p_id (update_first pid f ps) = map p_id ps.
Proof. intros Hf. induction ps as [|p ps IH]; cbn; [done|]. case_decide; cbn; [by rewrite Hf|by rewrite IH]. Qed.

Lemma update_first_Forall (Q : peer_info_t -> Prop) pid f ps :
  (forall p, Q p -> Q (f p)) -> Forall Q ps -> Forall Q (update_first pid f ps).
Proof. intros Hf. induction 1 as [|p ps Hp Hps IH]; cbn; [done|]. case_decide; constructor; auto. Qed.

Lemma find_peer_Some pid s p :
  find_peer pid s = Some p -> p ∈ known_peers s /\ p_id p = pid.
Proof.
  unfold find_peer. intros [Hin Hid]%find_some. split; [by apply list_elem_of_In|].
  by apply bool_decide_eq_true in Hid.
Qed.

Lemma find_peer_None pid s : find_peer pid s = None <-> pid ∉ map p_id (known_peers s).
Proof.
  unfold find_peer. induction (known_peers s) as [|p ps IH]; cbn; [split; [set_solver|done]|].
  rewrite not_elem_of_cons. case_bool_decide; [split; [done|intros [? _]; congruence]|].
  rewrite IH. split; [|tauto]. intros ?. split; [congruence|done].
Qed.
