(* ===== verification/RaftStorage.v ===== *)
(** * Raft: storage (src/raft/raft_storage.hpp, mem_storage.hpp, mem_storage.cpp)

    The abstract class [Storage] with its contract, the log described in the
    comment of raft_storage.hpp; [MemStorage], the implementation the controller
    uses; and the refinement of the one by the other. *)

From Stdlib Require Import DecimalString DecimalNat DecimalN DecimalFacts.
From S2P Require Import Prelude RaftTypes.
Local Open Scope Z_scope.

(** ** The interface *)

Class Storage (S : Type) := {
  append : S -> list Entry -> res crash (S * EntryInfo);
  set_voted_for : S -> string -> S;
  set_current_term : S -> Z -> S;
  commit_until : S -> Z -> res crash (S * EntryInfo);
  voted_for : S -> string;
  current_term : S -> Z;
  log_state : S -> LogState;
  entries_since : S -> Z -> res crash (list Entry);
  get_entry_info : S -> Z -> res crash EntryInfo;
}.

(** ** The abstract log

    Entry number [i], from 1, sits at position [i - 1]; the first [al_commit]
    entries are committed. *)

Record alog := ALog { al_entries : list Entry; al_commit : Z; al_voted_for : string; al_term : Z }.

Definition al_size (l : alog) : Z := Z.of_nat (length (al_entries l)).

(** The info of entry [i]; [{0,0}] where there is none. *)
Definition info_at (es : list Entry) (i : Z) : EntryInfo :=
  if i <=? 0 then Info 0 0 else match es !! Z.to_nat (i - 1) with Some e => info e | None => Info 0 0 end.

(** [es] are the entries numbered from [k] on. *)
Definition numbered (k : Z) (es : list Entry) : Prop :=
  forall i e, es !! i = Some e -> index (info e) = k + Z.of_nat i.

Definition al_append (l : alog) (es : list Entry) : alog :=
  match es with
  | [] => l
  | e :: _ => ALog (take (Z.to_nat (index (info e) - 1)) (al_entries l) ++ es) (al_commit l) (al_voted_for l) (al_term l)
  end.
Definition al_commit_until (l : alog) (c : Z) : alog :=
  ALog (al_entries l) (Z.min (al_size l) c) (al_voted_for l) (al_term l).
Definition al_set_voted_for (l : alog) (v : string) : alog := ALog (al_entries l) (al_commit l) v (al_term l).
Definition al_set_term (l : alog) (t : Z) : alog := ALog (al_entries l) (al_commit l) (al_voted_for l) t.

Record alog_wf (l : alog) : Prop := {
  alw_numbered : numbered 1 (al_entries l);
  alw_commit : 0 <= al_commit l <= al_size l;
}.

(** Entries may be appended from number [k] when nothing committed is at or
    after [k] and no number is skipped. *)
Definition appendable (l : alog) (es : list Entry) : Prop :=
  exists k, numbered k es /\ al_commit l < k <= al_size l + 1.

(** What a storage promises: its operations are those of the abstract log. *)
Class StorageLaws (S : Type) `{Storage S} := {
  st_wf : S -> Prop;
  st_log : S -> alog;
  st_wf_log s : st_wf s -> alog_wf (st_log s);
  append_law s es : st_wf s -> es = [] \/ appendable (st_log s) es ->
    exists s', append s es = Ok (s', info_at (al_entries (st_log s')) (al_size (st_log s')))
      /\ st_wf s' /\ st_log s' = al_append (st_log s) es;
  set_voted_for_law s v : st_wf s -> st_wf (set_voted_for s v) /\ st_log (set_voted_for s v) = al_set_voted_for (st_log s) v;
  set_current_term_law s t : st_wf s -> st_wf (set_current_term s t) /\ st_log (set_current_term s t) = al_set_term (st_log s) t;
  commit_until_law s c : st_wf s -> 0 <= c ->
    exists s', commit_until s c = Ok (s', info_at (al_entries (st_log s)) (Z.min (al_size (st_log s)) c))
      /\ st_wf s' /\ st_log s' = al_commit_until (st_log s) c;
  voted_for_law s : st_wf s -> voted_for s = al_voted_for (st_log s);
  current_term_law s : st_wf s -> current_term s = al_term (st_log s);
  log_state_law s : st_wf s ->
    log_state s = LogSt (info_at (al_entries (st_log s)) (al_commit (st_log s)))
                        (info_at (al_entries (st_log s)) (al_size (st_log s)));
  entries_since_law s i : st_wf s -> 0 <= i -> entries_since s i = Ok (drop (Z.to_nat i) (al_entries (st_log s)));
  get_entry_info_law s i : st_wf s -> 0 <= i -> get_entry_info s i = Ok (info_at (al_entries (st_log s)) i);
}.

(** ** class MemStorage *)

(** What is written to the journal stream, in order; a write that fails ends the
    process, so every record of a running process has been written. *)
Record MemStorage := Mem {
  entries_ : list Entry;
  log_file_ : string;
  voted_for_ : string;
  uncommit_ : EntryInfo;
  commit_ : EntryInfo;
  current_term_ : Z;
}.

(** [os << n] of an unsigned integer *)
Definition show_uint (n : Z) : string := NilZero.string_of_uint (N.to_uint (Z.to_N n)).

Definition newline : string := String "010"%char EmptyString.

Definition new_mem_storage : MemStorage := Mem [] "" "" (Info 0 0) (Info 0 0) 0.

Definition journal_entries (es : list Entry) : string :=
  String.concat "" (map (fun e => "E " +:+ show_uint (index (info e)) +:+ " " +:+ data e +:+ newline) es).

(** [entries_[i]]: undefined outside the vector. *)
Definition vec_at {A} (l : list A) (i : Z) : res crash A :=
  if i <? 0 then Throw out_of_bounds
  else match l !! Z.to_nat i with Some a => Ok a | None => Throw out_of_bounds end.

(** [entries_.erase(entries_.begin() + i, entries_.end())] *)
Definition vec_erase_from {A} (l : list A) (i : Z) : res crash (list A) :=
  if (i <? 0) || (Z.of_nat (length l) <? i) then Throw out_of_bounds else Ok (take (Z.to_nat i) l).

Definition mem_append (s : MemStorage) (es : list Entry) : res crash (MemStorage * EntryInfo) :=
  match es with
  | [] => Ok (s, uncommit_ s)
  | front :: _ =>
      (if index (uncommit_ s) >=? index (info front) then
         vec_at (entries_ s) (index (uncommit_ s) - 1) ≫= fun e =>
         if negb (index (info e) =? index (uncommit_ s)) then Throw exit_1
         else vec_erase_from (entries_ s) (index (info front) - 1)
       else Ok (entries_ s)) ≫= fun kept =>
      let back := match last es with Some e => info e | None => uncommit_ s end in
      Ok (Mem (kept ++ es) (log_file_ s +:+ journal_entries es) (voted_for_ s) back (commit_ s) (current_term_ s), back)
  end.

Definition mem_set_voted_for (s : MemStorage) (v : string) : MemStorage :=
  if decide (voted_for_ s = v) then s
  else Mem (entries_ s)
           (if decide (v = "") then log_file_ s else log_file_ s +:+ "V " +:+ v +:+ newline)
           v (uncommit_ s) (commit_ s) (current_term_ s).

Definition mem_set_current_term (s : MemStorage) (t : Z) : MemStorage :=
  if current_term_ s =? t then s
  else Mem (entries_ s) (log_file_ s +:+ "T " +:+ show_uint t +:+ newline) (voted_for_ s) (uncommit_ s) (commit_ s) t.

Definition mem_get_entry_info (s : MemStorage) (i : Z) : res crash EntryInfo :=
  if (i =? 0) || (Z.of_nat (length (entries_ s)) <? i) then Ok (Info 0 0)
  else vec_at (entries_ s) (i - 1) ≫= fun e =>
       if negb (index (info e) =? i) then Throw exit_1 else Ok (info e).

Definition mem_commit_until (s : MemStorage) (commit_index : Z) : res crash (MemStorage * EntryInfo) :=
  let commit_index := Z.min (index (uncommit_ s)) commit_index in
  if index (commit_ s) =? commit_index then Ok (s, commit_ s)
  else mem_get_entry_info s commit_index ≫= fun c =>
       Ok (Mem (entries_ s) (log_file_ s +:+ "C " +:+ show_uint commit_index +:+ newline) (voted_for_ s)
               (uncommit_ s) c (current_term_ s), c).

Definition mem_voted_for (s : MemStorage) : string := voted_for_ s.
Definition mem_current_term (s : MemStorage) : Z := current_term_ s.

Definition mem_log_state (s : MemStorage) : LogState := LogSt (commit_ s) (uncommit_ s).

Definition mem_entries_since (s : MemStorage) (i : Z) : res crash (list Entry) :=
  if Z.of_nat (length (entries_ s)) <=? i then Ok []
  else vec_at (entries_ s) i ≫= fun e =>
       if negb (index (info e) =? i + 1) then Throw exit_1 else Ok (drop (Z.to_nat i) (entries_ s)).

#[export] Instance mem_storage : Storage MemStorage := {|
  append := mem_append;
  set_voted_for := mem_set_voted_for;
  set_current_term := mem_set_current_term;
  commit_until := mem_commit_until;
  voted_for := mem_voted_for;
  current_term := mem_current_term;
  log_state := mem_log_state;
  entries_since := mem_entries_since;
  get_entry_info := mem_get_entry_info;
|}.

(** ** Lemmas on numbered entries *)

Lemma numbered_nil k : numbered k [].
Proof. intros i e. by rewrite lookup_nil. Qed.

Lemma numbered_app k es es' :
  numbered k es -> numbered (k + Z.of_nat (length es)) es' -> numbered k (es ++ es').
Proof.
  intros H1 H2 i e [Hi|[Hl Hi]]%lookup_app_Some; [by apply H1|]. rewrite (H2 _ _ Hi). lia.
Qed.

Lemma numbered_take k n es : numbered k es -> numbered k (take n es).
Proof. intros Hn i e [Hi _]%lookup_take_Some. by apply Hn. Qed.

Lemma numbered_drop k n es : numbered k es -> numbered (k + Z.of_nat n) (drop n es).
Proof. intros Hn i e Hi. rewrite lookup_drop in Hi. rewrite (Hn _ _ Hi). lia. Qed.

Lemma numbered_head k e es : numbered k (e :: es) -> index (info e) = k.
Proof. intros Hn. rewrite (Hn 0%nat e) by done. lia. Qed.

Lemma info_at_index es i : numbered 1 es -> 0 <= i <= Z.of_nat (length es) -> index (info_at es i) = i.
Proof.
  intros Hn Hi. unfold info_at. destruct (Z.leb_spec i 0); [cbn; lia|].
  destruct (lookup_lt_is_Some_2 es (Z.to_nat (i - 1))) as [e He]; [lia|]. rewrite He, (Hn _ _ He). lia.
Qed.

Lemma info_at_app es es' i : i <= Z.of_nat (length es) -> info_at (es ++ es') i = info_at es i.
Proof. intros Hi. unfold info_at. destruct (Z.leb_spec i 0); [done|]. by rewrite lookup_app_l by lia. Qed.

Lemma info_at_last es e : last es = Some e -> info_at es (Z.of_nat (length es)) = info e.
Proof.
  intros Hl. unfold info_at. rewrite last_lookup in Hl.
  assert (length es <> 0)%nat by (intros E; by destruct es).
  destruct (Z.leb_spec (Z.of_nat (length es)) 0); [lia|].
  replace (Z.to_nat (Z.of_nat (length es) - 1)) with (pred (length es)) by lia. by rewrite Hl.
Qed.

Lemma al_append_wf l es : alog_wf l -> es = [] \/ appendable l es ->
  alog_wf (al_append l es)
  /\ al_size (al_append l es) = match es with [] => al_size l | e :: _ => index (info e) - 1 + Z.of_nat (length es) end.
Proof.
  intros [Hn Hc] [->|(k & Hk & Hr)]; [done|]. destruct es as [|e es]; [done|].
  pose proof (numbered_head _ _ _ Hk) as He. unfold al_append, al_size in *; cbn [al_entries al_commit] in *. rewrite He.
  assert (Hl : length (take (Z.to_nat (k - 1)) (al_entries l)) = Z.to_nat (k - 1)) by (rewrite length_take; lia).
  split; [split; cbn [al_entries al_commit]|].
  - apply numbered_app; [by apply numbered_take|]. rewrite Hl. by replace (1 + _) with k by lia.
  - unfold al_size; cbn [al_entries]. rewrite length_app, Hl. lia.
  - rewrite length_app, Hl. lia.
Qed.

(** ** MemStorage implements the abstract log *)

Definition mem_log (s : MemStorage) : alog := ALog (entries_ s) (index (commit_ s)) (voted_for_ s) (current_term_ s).

Record mem_wf (s : MemStorage) : Prop := {
  mw_log : alog_wf (mem_log s);
  mw_commit : commit_ s = info_at (entries_ s) (index (commit_ s));
  mw_uncommit : uncommit_ s = info_at (entries_ s) (Z.of_nat (length (entries_ s)));
}.

Lemma mem_uncommit_index s : mem_wf s -> index (uncommit_ s) = Z.of_nat (length (entries_ s)).
Proof. intros [[Hn _] _ ->]. apply info_at_index; [done|lia]. Qed.

Lemma mem_get_entry_info_ok s i : mem_wf s -> 0 <= i -> mem_get_entry_info s i = Ok (info_at (entries_ s) i).
Proof.
  intros [[Hn _] _ _] Hi. unfold mem_get_entry_info, info_at. destruct (Z.eqb_spec i 0) as [->|Hne]; [done|].
  destruct (Z.leb_spec i 0); [lia|]. cbn [orb].
  destruct (Z.ltb_spec (Z.of_nat (length (entries_ s))) i) as [Hl|Hl].
  - rewrite lookup_ge_None_2 by lia. done.
  - unfold vec_at. rewrite (proj2 (Z.ltb_ge _ _)) by lia.
    destruct (lookup_lt_is_Some_2 (entries_ s) (Z.to_nat (i - 1))) as [e He]; [lia|]. rewrite He, res_bind_Ok.
    rewrite (Hn _ _ He). by rewrite (proj2 (Z.eqb_eq _ _)) by lia.
Qed.

Lemma mem_append_ok s es : mem_wf s -> es = [] \/ appendable (mem_log s) es ->
  exists s', mem_append s es = Ok (s', info_at (entries_ s') (Z.of_nat (length (entries_ s'))))
    /\ mem_wf s' /\ mem_log s' = al_append (mem_log s) es.
Proof.
  intros Hw Hes. destruct es as [|e es]; [exists s; cbn; by rewrite <- (mw_uncommit s Hw)|].
  destruct Hes as [[=]|Hap]. pose proof Hap as (k & Hk & Hr). pose proof (numbered_head _ _ _ Hk) as He.
  pose proof (mem_uncommit_index s Hw) as Hu. unfold al_size in Hr; cbn [mem_log al_entries al_commit] in Hr.
  pose proof (alw_numbered _ (mw_log s Hw)) as Hn. cbn in Hn.
  pose proof (alw_commit _ (mw_log s Hw)) as Hc. unfold al_size in Hc; cbn in Hc.
  assert (Hkept : (if index (uncommit_ s) >=? index (info e) then
         vec_at (entries_ s) (index (uncommit_ s) - 1) ≫= fun e' =>
         if negb (index (info e') =? index (uncommit_ s)) then Throw exit_1
         else vec_erase_from (entries_ s) (index (info e) - 1)
       else Ok (entries_ s)) = Ok (take (Z.to_nat (k - 1)) (entries_ s))).
  { rewrite Hu, He. rewrite Z.geb_leb. destruct (Z.leb_spec k (Z.of_nat (length (entries_ s)))).
    - unfold vec_at. rewrite (proj2 (Z.ltb_ge _ _)) by lia.
      destruct (lookup_lt_is_Some_2 (entries_ s) (Z.to_nat (Z.of_nat (length (entries_ s)) - 1))) as [e' He']; [lia|].
      rewrite He', res_bind_Ok. rewrite (Hn _ _ He'). rewrite (proj2 (Z.eqb_eq _ _)) by lia. cbn [negb].
      unfold vec_erase_from. rewrite (proj2 (Z.ltb_ge _ _)), (proj2 (Z.ltb_ge _ _)) by lia. done.
    - f_equal. symmetry. apply firstn_all2. lia. }
  unfold mem_append. rewrite Hkept, res_bind_Ok.
  destruct (last (e :: es)) as [b|] eqn:Eb; [|by apply last_None in Eb].
  assert (Hlast : last (take (Z.to_nat (k - 1)) (entries_ s) ++ e :: es) = Some b) by (by rewrite last_app, Eb).
  pose proof (info_at_last _ _ Hlast) as Hinfo.
  eexists (Mem (take (Z.to_nat (k - 1)) (entries_ s) ++ e :: es) _ _ _ _ _). cbn [entries_]. rewrite Hinfo.
  split; [reflexivity|].
  assert (Hlog : al_append (mem_log s) (e :: es)
    = ALog (take (Z.to_nat (k - 1)) (entries_ s) ++ e :: es) (index (commit_ s)) (voted_for_ s) (current_term_ s)).
  { cbn. by rewrite He. }
  split; [split|by rewrite Hlog].
  - unfold mem_log; cbn [entries_ commit_ voted_for_ current_term_]. rewrite <- Hlog. apply al_append_wf; [apply Hw|by right].
  - cbn. rewrite (mw_commit s Hw) at 1. rewrite info_at_app by (rewrite length_take; lia).
    unfold info_at. destruct (Z.leb_spec (index (commit_ s)) 0); [done|]. by rewrite lookup_take_lt by lia.
  - cbn. by rewrite Hinfo.
Qed.

#[export, refine] Instance mem_storage_laws : StorageLaws MemStorage := {|
  st_wf := mem_wf;
  st_log := mem_log;
|}.
Proof.
  - intros s Hw. apply Hw.
  - intros s es Hw Hes. destruct (mem_append_ok s es Hw Hes) as (s' & E & Hw' & Hl). by exists s'.
  - intros s v Hw. cbn. unfold mem_set_voted_for. case_decide as E; [subst; by destruct s|].
    split; [|done]. destruct Hw as [[]]. by split; [split|..].
  - intros s t Hw. cbn. unfold mem_set_current_term. destruct (Z.eqb_spec (current_term_ s) t) as [<-|E]; [by destruct s|].
    split; [|done]. destruct Hw as [[]]. by split; [split|..].
  - intros s c Hw Hc. cbn. unfold mem_commit_until. rewrite (mem_uncommit_index s Hw).
    unfold al_size; cbn [mem_log al_entries]. pose proof (alw_numbered _ (mw_log s Hw)) as Hn. cbn in Hn.
    set (c' := Z.min _ c). assert (Hidx : index (info_at (entries_ s) c') = c') by (apply info_at_index; [done|lia]).
    destruct (Z.eqb_spec (index (commit_ s)) c') as [E|E].
    + exists s. split; [|split; [done|]]; [|unfold mem_log, al_commit_until, al_size; cbn; by rewrite E].
      by rewrite (mw_commit s Hw), E at 1.
    + rewrite mem_get_entry_info_ok by (done || lia). rewrite res_bind_Ok. eexists; split; [reflexivity|].
      split; [|by unfold mem_log; cbn; rewrite Hidx]. split; cbn [entries_ commit_ uncommit_].
      * split; [done|]. cbn. rewrite Hidx. unfold al_size; cbn. lia.
      * by rewrite Hidx.
      * apply Hw.
  - done.
  - done.
  - intros s Hw. cbn. unfold mem_log_state. pose proof (mw_commit s Hw) as E.
    pose proof (mw_uncommit s Hw) as E'. unfold al_size; cbn. congruence.
  - intros s i Hw Hi. cbn. unfold mem_entries_since.
    destruct (Z.leb_spec (Z.of_nat (length (entries_ s))) i); [by rewrite skipn_all2 by lia|].
    unfold vec_at. rewrite (proj2 (Z.ltb_ge _ _)) by lia.
    destruct (lookup_lt_is_Some_2 (entries_ s) (Z.to_nat i)) as [e He]; [lia|]. rewrite He, res_bind_Ok.
    rewrite (alw_numbered _ (mw_log s Hw) _ _ He). by rewrite (proj2 (Z.eqb_eq _ _)) by lia.
  - intros s i Hw Hi. by apply mem_get_entry_info_ok.
Defined.

Lemma new_mem_storage_wf : mem_wf new_mem_storage.
Proof. by split; [split|..]. Qed.

(** ** Properties *)

(** C9: MemStorage refines the log of raft_storage.hpp.  In a well-formed storage
    every operation within the contract terminates without exiting, leaves a
    well-formed storage and does what the abstract log does: append cuts the
    uncommitted entries from the first new number on and adds the new ones,
    commit_until commits up to the requested or last entry, the setters change
    the vote and the term; and every read operation returns what the log has:
    its entries and infos, the infos of the last committed and of the last entry,
    the vote and the term. *)
Theorem mem_storage_refines s :
  mem_wf s ->
  let es := al_entries (mem_log s) in
  (forall es', es' = [] \/ appendable (mem_log s) es' ->
     exists s', mem_append s es' = Ok (s', info_at (al_entries (mem_log s')) (al_size (mem_log s')))
       /\ mem_wf s' /\ mem_log s' = al_append (mem_log s) es')
  /\ (forall c, 0 <= c -> exists s',
        mem_commit_until s c = Ok (s', info_at es (Z.min (al_size (mem_log s)) c))
        /\ mem_wf s' /\ mem_log s' = al_commit_until (mem_log s) c)
  /\ (forall v, mem_wf (mem_set_voted_for s v) /\ mem_log (mem_set_voted_for s v) = al_set_voted_for (mem_log s) v)
  /\ (forall t, mem_wf (mem_set_current_term s t) /\ mem_log (mem_set_current_term s t) = al_set_term (mem_log s) t)
  /\ (forall i, 0 <= i -> mem_entries_since s i = Ok (drop (Z.to_nat i) es) /\ mem_get_entry_info s i = Ok (info_at es i))
  /\ mem_log_state s = LogSt (info_at es (al_commit (mem_log s))) (info_at es (al_size (mem_log s)))
  /\ mem_voted_for s = al_voted_for (mem_log s)
  /\ mem_current_term s = al_term (mem_log s).
Proof.
  intros Hw es. split_and!.
  - intros es'. apply (@append_law _ _ mem_storage_laws s es' Hw).
  - intros c. apply (@commit_until_law _ _ mem_storage_laws s c Hw).
  - intros v. apply (@set_voted_for_law _ _ mem_storage_laws s v Hw).
  - intros t. apply (@set_current_term_law _ _ mem_storage_laws s t Hw).
  - intros i Hi. split; [by apply (@entries_since_law _ _ mem_storage_laws s i Hw)|by apply (@get_entry_info_law _ _ mem_storage_laws s i Hw)].
  - by apply (@log_state_law _ _ mem_storage_laws s Hw).
  - by apply (@voted_for_law _ _ mem_storage_laws s Hw).
  - by apply (@current_term_law _ _ mem_storage_laws s Hw).
Qed.

(** A storage with two entries, the first of them committed. *)
Definition sample_storage : MemStorage :=
  Mem [Ent (Info 1 1) "a"; Ent (Info 2 1) "b"] "" "" (Info 2 1) (Info 1 1) 1.

Lemma sample_storage_wf : mem_wf sample_storage.
Proof.
  split; [split|..]; cbn; [|done..]. by intros [|[|i]] e [= <-].
Qed.

Lemma mem_storage_refines_witness :
  exists s', mem_append sample_storage [Ent (Info 2 3) "c"] = Ok (s', Info 2 3)
    /\ entries_ s' = [Ent (Info 1 1) "a"; Ent (Info 2 3) "c"].
Proof.
  destruct (proj1 (mem_storage_refines sample_storage sample_storage_wf) [Ent (Info 2 3) "c"]) as (s' & E & _ & Hl).
  - right. exists 2. split; [by intros [|i] e [= <-]|done].
  - exists s'. apply (f_equal al_entries) in Hl. unfold al_size in E. rewrite Hl in E. split; [exact E|exact Hl].
Defined.

(** outside the contract MemStorage does not protect the log.  Appending
    entries whose numbers leave a gap is accepted, and the next look at the first
    missing number ends the process with exit(1). *)
Theorem mem_append_gap s e es :
  mem_wf s -> numbered (index (info e)) (e :: es) -> al_size (mem_log s) + 1 < index (info e) ->
  exists s' r, mem_append s (e :: es) = Ok (s', r)
    /\ mem_get_entry_info s' (al_size (mem_log s) + 1) = Throw exit_1.
Proof.
  intros Hw Hn Hg. unfold al_size in *; cbn [mem_log al_entries] in *. pose proof (mem_uncommit_index s Hw) as Hu.
  unfold mem_append. rewrite Hu, Z.geb_leb, (proj2 (Z.leb_gt _ _)), res_bind_Ok by lia.
  eexists _, _. split; [reflexivity|]. unfold mem_get_entry_info; cbn [entries_]. rewrite length_app; cbn [length].
  rewrite (proj2 (Z.eqb_neq _ _)), (proj2 (Z.ltb_ge _ _)) by lia. cbn [orb]. unfold vec_at.
  rewrite (proj2 (Z.ltb_ge _ _)) by lia. rewrite lookup_app_r by lia.
  replace (Z.to_nat _ - length (entries_ s))%nat with 0%nat by lia. cbn [lookup list_lookup]. rewrite res_bind_Ok.
  by rewrite (proj2 (Z.eqb_neq _ _)) by lia.
Qed.

Lemma mem_append_gap_witness :
  exists s' r, mem_append sample_storage [Ent (Info 4 1) "d"] = Ok (s', r)
    /\ mem_get_entry_info s' 3 = Throw exit_1.
Proof.
  apply (mem_append_gap sample_storage (Ent (Info 4 1) "d") []);
    [apply sample_storage_wf|by intros [|i] e [= <-]|done].
Defined.
