(* ===== verification/RaftServer.v ===== *)
(** * Raft: the server (src/raft/raft_server.hpp, raft_server.ipp)

    One definition per event handler of [raft::Server], over any [Storage].  A
    handler returns the new server and the callbacks it issues, in order, or the
    way the process ends. *)

From stdpp Require Import sorting.
From S2P Require Import Prelude RaftTypes RaftStorage.
Local Open Scope Z_scope.

Record server (S : Type) := Server { state : State; storage : S }.
Arguments Server {S} _ _.
Arguments state {S} _.
Arguments storage {S} _.

Section server.
Context {S : Type} `{Storage S}.

Abbreviation outcome := (res crash (server S * list callback)).

(** A loop over [known_peers] that changes each peer and issues callbacks. *)
Definition for_each_peer (f : peer_info_t -> peer_info_t * list callback) (s : State) : State * list callback :=
  (set_peers (map (fun p => (f p).1) (known_peers s)) s, concat (map (fun p => (f p).2) (known_peers s))).

Definition step_down (new_term : Z) (s : server S) : server S :=
  let st := storage s in
  let st := if current_term st =? new_term then st else set_current_term st new_term in
  let st := if decide (voted_for st = "") then st else set_voted_for st "" in
  match role (state s) with
  | Follower => Server (state s) st
  | _ => Server (set_peers (map peer_reset (known_peers (state s))) (set_role Follower (state s))) st
  end.

Definition on_timeout_request (s : server S) : outcome :=
  let me := id (state s) in
  let st := set_current_term (storage s) (u64 (current_term (storage s) + 1)) in
  let v := set_peers (map (fun p => set_voted (bool_decide (me = p_id p)) p) (known_peers (state s)))
                     (set_role Candidate (state s)) in
  let st := set_voted_for st me in
  let '(v, sent) := for_each_peer (fun p =>
    if decide (p_id p = me) then (p, [])
    else
      let p' := set_waiting true (set_message_id (next_message_id p) p) in
      (p', [send (p_id p) (m_vote_request (VoteReq
              (Header me (p_id p) (last_message_id p') (current_term st) (log_state st))))])) v in
  Ok (Server v st, sent ++ [set_candidate_timeout]).

Definition on_heartbeat_request (s : server S) : outcome :=
  let me := id (state s) in
  let '(v, sent) := for_each_peer (fun p =>
    if decide (p_id p = me) then (p, [])
    else
      (set_waiting true p,
       [send (p_id p) (m_append_request (AppendReq
          (Header me (p_id p) (last_message_id p) (current_term (storage s)) (log_state (storage s)))
          (match_entry p) []))])) (state s) in
  Ok (Server v (storage s), sent ++ [set_heartbeat_timeout]).

Definition on_vote_request (request : VoteRequest) (s : server S) : outcome :=
  let h := vrq_header request in
  let me := id (state s) in
  match find_peer (h_peer_id h) (state s) with
  | None => Ok (s, [drop_peer (h_peer_id h)])
  | Some _ =>
    if negb (bool_decide (h_destination_id h = me)) then Ok (s, [drop_peer (h_peer_id h)])
    else
    let s := match role (state s) with
             | Leader => Server (update_peer (h_peer_id h) (set_waiting false) (state s)) (storage s)
             | _ => s
             end in
    let response granted :=
      VoteResp (Header me (h_peer_id h) (h_message_id h) (Z.max (current_term (storage s)) (h_term h))
                       (log_state (storage s))) granted in
    if negb (minimum_timeout_reached (state s)) then Ok (s, [])
    else if h_term h <=? current_term (storage s) then
      Ok (s, [send (h_peer_id h) (m_vote_response (response false))])
    else
      let r := response in
      let s1 := step_down (h_term h) s in
      let s1 := Server (set_leader_id "" (state s1)) (storage s1) in
      if index (uncommit (h_log_state h)) >=? index (uncommit (log_state (storage s1))) then
        Ok (Server (state s1) (set_voted_for (storage s1) (h_peer_id h)),
            [set_follower_timeout; send (h_peer_id h) (m_vote_response (r true))])
      else Ok (s1, [send (h_peer_id h) (m_vote_response (r false))])
  end.

Definition on_append_entries_request (request : AppendEntriesRequest) (s : server S) : outcome :=
  let h := arq_header request in
  let me := id (state s) in
  let peer_id := h_peer_id h in
  let prev := previous_entry request in
  match find_peer peer_id (state s) with
  | None => Ok (s, [drop_peer peer_id])
  | Some _ =>
    if negb (bool_decide (h_destination_id h = me)) then Ok (s, [drop_peer peer_id])
    else
    let rterm := Z.max (current_term (storage s)) (h_term h) in
    let response ok ls := AppendResp (Header me peer_id (h_message_id h) rterm ls) ok in
    let refuse := response false (log_state (storage s)) in
    (* the branches on the term; [None] when the request is already answered *)
    let '(s1, out1, answered) :=
      if h_term h <? current_term (storage s) then
        (s, [send peer_id (m_append_response refuse)], true)
      else if current_term (storage s) <? h_term h then
        let s1 := step_down (h_term h) s in
        if decide (leader_id (state s1) = peer_id) then (s1, [], false)
        else (Server (set_leader_id peer_id (state s1)) (storage s1), [new_leader_elected peer_id], false)
      else if decide (leader_id (state s) = peer_id) then (s, [], false)
      else if decide (leader_id (state s) = "") then
        (Server (set_leader_id peer_id (state s)) (storage s), [new_leader_elected peer_id], false)
      else (s, [drop_peer peer_id], true) in
    if answered : bool then Ok (s1, out1)
    else
    let ls := log_state (storage s1) in
    if entry_info_ne prev (uncommit ls) && (index prev <? index (commit ls)) then
      Ok (s1, out1 ++ [drop_peer peer_id])
    else if entry_info_ne prev (uncommit ls) && (index (uncommit ls) <? index prev) then
      Ok (s1, out1 ++ [send peer_id (m_append_response refuse)])
    else if index (uncommit ls) <? index prev then
      Ok (s1, out1 ++ [send peer_id (m_append_response refuse)])
    else
    append (storage s1) (entries request) ≫= fun '(st, _) =>
    (if index (commit (log_state st)) <? index (commit (h_log_state h)) then
       guard_or (term (commit (log_state st)) <=? term (commit (h_log_state h))) assert_failed ≫= fun _ =>
       commit_until st (index (commit (h_log_state h))) ≫= fun '(st, _) =>
       Ok (st, [commit_advanced (index (commit (h_log_state h)))])
     else Ok (st, [])) ≫= fun '(st, out2) =>
    Ok (Server (set_minimum_timeout_reached false (state s1)) st,
        out1 ++ out2 ++ [set_minimum_timeout; set_follower_timeout;
                         send peer_id (m_append_response (response true (log_state st)))])
  end.

Definition num_votes (s : State) : nat := length (filter (fun p => voted_for_me p = true) (known_peers s)).

(** What a candidate does when it has the votes of a majority. *)
Definition become_leader (s : server S) : server S * list callback :=
  let v := set_role Leader (state s) in
  let me := id v in
  let '(v, elected) := if decide (leader_id v = me) then (v, [])
                       else (set_leader_id me v, [new_leader_elected me]) in
  let prev := uncommit (log_state (storage s)) in
  let '(v, sent) := for_each_peer (fun p =>
    let p' := set_match_index 0 (set_next_index (u64 (index prev + 1)) (set_waiting true p)) in
    if decide (p_id p = me) then (set_match prev p', [])
    else
      let p' := set_message_id (next_message_id p) p' in
      (p', [send (p_id p) (m_append_request (AppendReq
              (Header me (p_id p) (last_message_id p') (current_term (storage s)) (log_state (storage s)))
              prev []))])) v in
  (Server (set_minimum_timeout_reached false v) (storage s),
   elected ++ sent ++ [set_minimum_timeout; set_heartbeat_timeout]).

Definition on_vote_response (response : VoteResponse) (s : server S) : outcome :=
  let h := vrs_header response in
  match find_peer (h_peer_id h) (state s) with
  | None => Throw null_dereference
  | Some peer =>
    if negb (bool_decide (h_destination_id h = id (state s))) || negb (waiting_for_response peer) then
      Ok (s, if last_message_id peer >=? h_message_id h then [drop_peer (h_peer_id h)] else [])
    else if current_term (storage s) <? h_term h then Ok (step_down (h_term h) s, [])
    else if negb (bool_decide (role (state s) = Candidate)) || negb (vote_granted response) then Ok (s, [])
    else
      let v := update_peer (h_peer_id h) (fun p => set_voted true (set_waiting false p)) (state s) in
      if (1 + length (known_peers v) / 2 <=? num_votes v)%nat then
        Ok (become_leader (Server v (storage s)))
      else Ok (Server v (storage s), [])
  end.

#[local] Instance desc_dec (x y : Z) : Decision (y <= x) := Z_le_dec y x.

(** [std::sort(..., std::greater<uint64_t>())] *)
Definition sort_desc (l : list Z) : list Z := merge_sort (fun x y => y <= x) l.

Definition new_commit_index (s : State) : res crash Z :=
  vec_at (sort_desc (map (fun p => index (match_entry p)) (known_peers s)))
         (Z.of_nat (length (known_peers s) / 2)).

Definition on_append_entries_response (response : AppendEntriesResponse) (s : server S) : outcome :=
  let h := ars_header response in
  let peer_id := h_peer_id h in
  match find_peer peer_id (state s) with
  | None => Ok (s, [drop_peer peer_id])
  | Some peer =>
    if negb (bool_decide (h_destination_id h = id (state s))) then Ok (s, [drop_peer peer_id])
    else if negb (waiting_for_response peer) || negb (last_message_id peer =? h_message_id h)
            || (h_term h <? current_term (storage s)) then Ok (s, [])
    else
    let s := Server (update_peer peer_id (set_waiting false) (state s)) (storage s) in
    if current_term (storage s) <? h_term h then Ok (step_down (h_term h) s, [])
    else if negb (bool_decide (role (state s) = Leader)) then Ok (s, [])
    else if negb (success response) then
      let next := u64 (index (next_entry peer) - 1) in
      let next := if next =? 0 then 1 else next in
      let mid := next_message_id peer in
      get_entry_info (storage s) (u64 (next - 1)) ≫= fun prev =>
      entries_since (storage s) (u64 (next - 1)) ≫= fun es =>
      Ok (Server (update_peer peer_id (fun p => set_waiting true (set_message_id mid (set_next_index next p))) (state s))
                 (storage s),
          [send peer_id (m_append_request (AppendReq
             (Header (id (state s)) peer_id mid (current_term (storage s)) (log_state (storage s))) prev es))])
    else if index (match_entry peer) <? index (uncommit (h_log_state h)) then
      let unc := index (uncommit (h_log_state h)) in
      let v := update_peer peer_id (fun p =>
        set_match_index unc (set_next_index (Z.max (index (next_entry p)) (u64 (unc + 1))) p)) (state s) in
      new_commit_index v ≫= fun new_commit =>
      if index (commit (log_state (storage s))) <? new_commit then
        commit_until (storage s) new_commit ≫= fun '(st, _) =>
        Ok (Server v st, [commit_advanced new_commit])
      else Ok (Server v (storage s), [])
    else Ok (s, [])
  end.

(** The loop of the client request: the request sent is built for the first
    peer that needs it and reused. *)
Fixpoint client_loop (me : string) (st : S) (new_index : Z) (req : AppendEntriesRequest) (ps : list peer_info_t)
    : res crash (list peer_info_t * list callback) :=
  match ps with
  | [] => Ok ([], [])
  | p :: ps' =>
      if decide (p_id p = me) then
        let p' := set_next_index (u64 (new_index + 1)) (set_match_index new_index p) in
        client_loop me st new_index req ps' ≫= fun '(qs, out) => Ok (p' :: qs, out)
      else if negb (index (next_entry p) =? new_index) || waiting_for_response p then
        client_loop me st new_index req ps' ≫= fun '(qs, out) => Ok (p :: qs, out)
      else
        let mid := next_message_id p in
        let h := arq_header req in
        let h' := Header (h_peer_id h) (p_id p) mid (h_term h) (h_log_state h) in
        let want := u64 (index (next_entry p) - 1) in
        (if negb (index (previous_entry req) =? want) then
           get_entry_info st want ≫= fun e =>
           entries_since st want ≫= fun es => Ok (AppendReq h' (Info want (term e)) es)
         else Ok (AppendReq h' (previous_entry req) (entries req))) ≫= fun req' =>
        let p' := set_waiting true (set_message_id mid p) in
        let p' := if index (next_entry p) =? new_index then set_next_index (u64 (index (next_entry p) + 1)) p' else p' in
        client_loop me st new_index req' ps' ≫= fun '(qs, out) =>
        Ok (p' :: qs, send (p_id p) (m_append_request req') :: out)
  end.

Definition max_u64 : Z := 2 ^ 64 - 1.

Definition on_client_request (request : ClientRequest) (s : server S) : outcome :=
  match role (state s) with
  | Follower =>
      match find_peer (leader_id (state s)) (state s) with
      | None => Ok (s, [])
      | Some leader => Ok (s, [send (p_id leader) (m_client_request request)])
      end
  | Candidate => Ok (s, [])
  | Leader =>
      let new_index := u64 (index (uncommit (log_state (storage s))) + 1) in
      append (storage s) [Ent (Info new_index (current_term (storage s))) (cr_data request)] ≫= fun '(st, r) =>
      guard_or (index r =? new_index) exit_1 ≫= fun _ =>
      let req := AppendReq (Header (id (state s)) "" 0 (current_term st) (log_state st)) (Info max_u64 max_u64) [] in
      client_loop (id (state s)) st new_index req (known_peers (state s)) ≫= fun '(ps, out) =>
      Ok (Server (set_peers ps (state s)) st, out ++ [set_heartbeat_timeout])
  end.

Definition on_minimum_timeout (s : server S) : outcome :=
  Ok (Server (set_minimum_timeout_reached true (state s)) (storage s), []).

Definition timeout (s : server S) : outcome :=
  match role (state s) with
  | Leader => on_heartbeat_request s
  | _ => on_timeout_request s
  end.

(** The [on] overload the message selects. *)
Definition on_message (m : message) (s : server S) : outcome :=
  match m with
  | m_append_request r => on_append_entries_request r s
  | m_append_response r => on_append_entries_response r s
  | m_vote_request r => on_vote_request r s
  | m_vote_response r => on_vote_response r s
  | m_client_request r => on_client_request r s
  end.

End server.

Definition new_server {S} (id_ : string) (peers : list peer_info_t) (st : S) : server S :=
  Server (new_state id_ peers) st.
