(* ===== verification/RaftInv.v ===== *)
(** * Raft: what one handler does to one server

    [server_ok] and [message_ok] are the invariants of a server and of a message
    in flight, with a bound [N] on terms and log sizes that keeps every 64-bit
    operation exact.  [handled] relates the server before and after an event;
    one lemma per handler establishes it, over any storage that keeps the
    contract of raft_storage.hpp. *)

From stdpp Require Import sorting.
From S2P Require Import Prelude RaftTypes RaftStorage RaftServer.
Local Open Scope Z_scope.

#[local] Arguments info_at : simpl never.

(** ** Invariants *)

Definition info_ok (N : Z) (e : EntryInfo) : Prop := 0 <= index e <= N.

Definition peer_ok (N : Z) (p : peer_info_t) : Prop :=
  1 <= index (next_entry p) <= N + 1 /\ info_ok N (match_entry p).

Definition header_ok (N : Z) (h : MessageHeader) : Prop :=
  0 <= h_term h <= N /\ info_ok N (commit (h_log_state h)) /\ info_ok N (uncommit (h_log_state h)).

Definition append_request_ok (N : Z) (r : AppendEntriesRequest) : Prop :=
  header_ok N (arq_header r) /\ 0 <= index (previous_entry r)
  /\ numbered (index (previous_entry r) + 1) (entries r)
  /\ index (previous_entry r) + Z.of_nat (length (entries r)) <= N.

Definition message_ok (N : Z) (m : message) : Prop :=
  match m with
  | m_append_request r => append_request_ok N r
  | m_append_response r => header_ok N (ars_header r)
  | m_vote_request r => header_ok N (vrq_header r)
  | m_vote_response r => header_ok N (vrs_header r)
  | m_client_request _ => True
  end.

(** The sender and the receiver a message names. *)
Definition message_ends (m : message) : option (string * string) :=
  match m with
  | m_append_request (AppendReq h _ _) | m_append_response (AppendResp h _)
  | m_vote_request (VoteReq h) | m_vote_response (VoteResp h _) => Some (h_peer_id h, h_destination_id h)
  | m_client_request _ => None
  end.

Definition callback_ok (N : Z) (me : string) (c : callback) : Prop :=
  match c with
  | send q m => message_ok N m /\ (message_ends m = Some (me, q) \/ message_ends m = None)
  | _ => True
  end.

Definition grant (h : MessageHeader) : message := m_vote_response (VoteResp h true).

Section inv.
Context {S : Type} `{StorageLaws S}.

Definition log (s : server S) : alog := st_log (storage s).

Record server_ok (N : Z) (s : server S) : Prop := {
  so_wf : st_wf (storage s);
  so_size : al_size (log s) <= N;
  so_term : 0 <= al_term (log s) <= N;
  so_peers : Forall (peer_ok N) (known_peers (state s));
}.

(** A vote in [s'] was already there in [s]. *)
Definition votes_kept (s s' : server S) : Prop :=
  forall p, p ∈ known_peers (state s') -> voted_for_me p = true ->
    exists p0, p0 ∈ known_peers (state s) /\ p_id p0 = p_id p /\ voted_for_me p0 = true.

Definition has_quorum (s : server S) : Prop :=
  (1 + length (known_peers (state s)) / 2 <= num_votes (state s))%nat.

(** How role and term may change; [m] is the message handled, if any. *)
Inductive role_step (m : option message) (s s' : server S) : Prop :=
| rs_follower : role (state s') = Follower -> role_step m s s'
| rs_same : role (state s') = role (state s) -> al_term (log s') = al_term (log s) -> votes_kept s s' -> role_step m s s'
| rs_candidate :
    role (state s') = Candidate -> al_term (log s') = al_term (log s) + 1 ->
    (forall p, p ∈ known_peers (state s') -> voted_for_me p = true -> p_id p = id (state s)) -> role_step m s s'
| rs_vote h :
    m = Some (grant h) -> h_destination_id h = id (state s) -> h_term h <= al_term (log s) ->
    role (state s) = Candidate -> al_term (log s') = al_term (log s) ->
    (forall p, p ∈ known_peers (state s') -> voted_for_me p = true -> p_id p <> h_peer_id h ->
       exists p0, p0 ∈ known_peers (state s) /\ p_id p0 = p_id p /\ voted_for_me p0 = true) ->
    role (state s') = Candidate \/ (role (state s') = Leader /\ has_quorum s') -> role_step m s s'.

(** The committed entries stay, and the commit index does not go back. *)
Definition log_extends (l l' : alog) : Prop :=
  al_commit l <= al_commit l'
  /\ take (Z.to_nat (al_commit l)) (al_entries l') = take (Z.to_nat (al_commit l)) (al_entries l).

Record handled (N : Z) (m : option message) (s s' : server S) (out : list callback) : Prop := {
  hd_ok : server_ok N s';
  hd_out : Forall (callback_ok N (id (state s))) out;
  hd_id : id (state s') = id (state s);
  hd_peers : map p_id (known_peers (state s')) = map p_id (known_peers (state s));
  hd_term : al_term (log s) <= al_term (log s');
  hd_log : log_extends (log s) (log s');
  hd_grant : forall q h, send q (grant h) ∈ out ->
    out = [set_follower_timeout; send q (grant h)] /\ h_term h = al_term (log s')
    /\ al_term (log s) < al_term (log s') /\ role (state s') = Follower;
  hd_role : role_step m s s';
}.

Definition ok_or (allowed : crash -> Prop) (N : Z) (m : option message) (s : server S)
    (r : res crash (server S * list callback)) : Prop :=
  match r with
  | Ok (s', out) => handled N m s s' out
  | Throw e => allowed e
  end.

(** ** Reading the storage *)

Lemma log_wf N s : server_ok N s -> alog_wf (log s).
Proof. intros Hs. apply st_wf_log, Hs. Qed.

Lemma read_log_state N s : server_ok N s ->
  log_state (storage s)
  = LogSt (info_at (al_entries (log s)) (al_commit (log s))) (info_at (al_entries (log s)) (al_size (log s))).
Proof. intros Hs. apply log_state_law, Hs. Qed.

Lemma read_term N s : server_ok N s -> current_term (storage s) = al_term (log s).
Proof. intros Hs. apply current_term_law, Hs. Qed.

Lemma alog_commit_index l : alog_wf l -> index (info_at (al_entries l) (al_commit l)) = al_commit l.
Proof. intros [Hn Hc]. apply info_at_index; [done|exact Hc]. Qed.

Lemma alog_size_index l : alog_wf l -> index (info_at (al_entries l) (al_size l)) = al_size l.
Proof. intros [Hn Hc]. unfold al_size. apply info_at_index; [done|lia]. Qed.

Lemma log_state_ok N s : server_ok N s ->
  info_ok N (commit (log_state (storage s))) /\ info_ok N (uncommit (log_state (storage s))).
Proof.
  intros Hs. pose proof (log_wf _ _ Hs) as Hw. rewrite (read_log_state _ _ Hs). cbn. unfold info_ok.
  rewrite alog_commit_index, alog_size_index by done. pose proof (alw_commit _ Hw). pose proof (so_size _ _ Hs). lia.
Qed.

Lemma header_of N s q mid : server_ok N s ->
  header_ok N (Header (id (state s)) q mid (current_term (storage s)) (log_state (storage s))).
Proof.
  intros Hs. split; cbn; [|by apply log_state_ok]. rewrite (read_term _ _ Hs). apply Hs.
Qed.

Lemma log_extends_refl l : log_extends l l.
Proof. split; [lia|done]. Qed.

Lemma log_extends_same l l' :
  al_entries l' = al_entries l -> al_commit l' = al_commit l -> log_extends l l'.
Proof. intros E1 E2. split; [lia|by rewrite E1]. Qed.

Lemma votes_kept_refl s : votes_kept s s.
Proof. intros p Hp Hv. by exists p. Qed.

Lemma votes_kept_same s s' : known_peers (state s') = known_peers (state s) -> votes_kept s s'.
Proof. intros E p Hp Hv. rewrite E in Hp. by exists p. Qed.

(** Peers changed one by one, without new votes. *)
Lemma votes_kept_map s s' f :
  known_peers (state s') = map f (known_peers (state s)) ->
  (forall p, p_id (f p) = p_id p /\ (voted_for_me (f p) = true -> voted_for_me p = true)) ->
  votes_kept s s'.
Proof.
  intros E Hf p Hp Hv. rewrite E in Hp. apply list_elem_of_fmap in Hp as (p0 & -> & Hp0).
  destruct (Hf p0) as [Hid Hvote]. exists p0. rewrite Hid. auto.
Qed.

Lemma votes_kept_update s s' pid f :
  known_peers (state s') = update_first pid f (known_peers (state s)) ->
  (forall p, p_id (f p) = p_id p /\ (voted_for_me (f p) = true -> voted_for_me p = true)) ->
  votes_kept s s'.
Proof.
  intros E Hf p Hp Hv. rewrite E in Hp. clear E. induction (known_peers (state s)) as [|p1 ps IH]; cbn in Hp.
  { by apply elem_of_nil in Hp. }
  case_decide; apply elem_of_cons in Hp as [->|Hp].
  - destruct (Hf p1) as [Hid Hvote]. exists p1. split_and!; [left|done|auto].
  - exists p. split_and!; [by right|done..].
  - exists p1. split_and!; [left|done..].
  - destruct (IH Hp) as (p0 & ? & ?). exists p0. split; [by right|done].
Qed.

Lemma map_p_id f ps : (forall p, p_id (f p) = p_id p) -> map p_id (map f ps) = map p_id ps.
Proof. intros Hf. rewrite map_map. by apply map_ext. Qed.

Lemma callbacks_concat N me (f : peer_info_t -> list callback) ps :
  (forall p, p ∈ ps -> Forall (callback_ok N me) (f p)) -> Forall (callback_ok N me) (concat (map f ps)).
Proof.
  intros Hf. apply Forall_concat, Forall_map, Forall_forall. intros p Hp. by apply Hf.
Qed.

(** ** Monotonicity of the bound *)

Lemma peer_ok_mono N N' p : N <= N' -> peer_ok N p -> peer_ok N' p.
Proof. unfold peer_ok, info_ok. lia. Qed.

Lemma server_ok_mono N N' s : N <= N' -> server_ok N s -> server_ok N' s.
Proof.
  intros Hle [Hw Hs Ht Hp]. split; [done|lia..|]. eapply Forall_impl; [exact Hp|]. intros p. by apply peer_ok_mono.
Qed.

Lemma header_ok_mono N N' h : N <= N' -> header_ok N h -> header_ok N' h.
Proof. unfold header_ok, info_ok. lia. Qed.

Lemma message_ok_mono N N' m : N <= N' -> message_ok N m -> message_ok N' m.
Proof.
  intros Hle. destruct m; cbn; try apply header_ok_mono; try done.
  intros (Hh & Hp & Hn & Hl). split_and!; [by eapply header_ok_mono|done..|lia].
Qed.

(** ** Building [handled] *)

Definition is_grant (c : callback) : bool :=
  match c with send _ (m_vote_response (VoteResp _ true)) => true | _ => false end.

Definition no_grants (out : list callback) : Prop := Forall (fun c => is_grant c = false) out.

Lemma no_grants_concat (f : peer_info_t -> list callback) ps :
  (forall p, no_grants (f p)) -> no_grants (concat (map f ps)).
Proof. intros Hf. apply Forall_concat, Forall_map, Forall_forall. intros p _. apply Hf. Qed.

Lemma handled_quiet N m s s' out :
  no_grants out -> server_ok N s' -> Forall (callback_ok N (id (state s))) out ->
  id (state s') = id (state s) -> map p_id (known_peers (state s')) = map p_id (known_peers (state s)) ->
  al_term (log s) <= al_term (log s') -> log_extends (log s) (log s') -> role_step m s s' ->
  handled N m s s' out.
Proof.
  intros Hq ? ? ? ? ? ? ?. split; try done. intros q h Hin. unfold no_grants in Hq.
  rewrite Forall_forall in Hq. specialize (Hq _ Hin). done.
Qed.

(** Split a statement about the callbacks of a list. *)
Ltac each_callback :=
  unfold no_grants; cbn [fst snd];
  repeat match goal with
  | |- Forall _ (_ ++ _) => apply Forall_app; split
  | |- Forall _ (_ :: _) => apply Forall_cons; split
  | |- Forall _ [] => by apply Forall_nil
  end; try done.

(** Nothing but callbacks that carry no message. *)
Definition silent (c : callback) : bool := match c with send _ _ => false | _ => true end.

Lemma silent_ok N me out :
  forallb silent out = true -> no_grants out /\ Forall (callback_ok N me) out.
Proof.
  induction out as [|c out IH]; cbn; [split; constructor|]. intros [Hc Ho]%andb_prop. destruct (IH Ho).
  split; constructor; try done; by destruct c.
Qed.

Lemma handled_same N m s out : server_ok N s -> forallb silent out = true -> handled N m s s out.
Proof.
  intros Hs Ho. destruct (silent_ok N (id (state s)) out Ho). apply handled_quiet; try done.
  apply rs_same; [done..|apply votes_kept_refl].
Qed.

(** ** step_down *)

Lemma reset_ok N p : peer_ok N p -> peer_ok N (peer_reset p).
Proof. done. Qed.

Lemma clear_vote st : st_wf st ->
  let st' := if decide (voted_for st = "") then st else set_voted_for st "" in
  st_wf st' /\ st_log st' = al_set_voted_for (st_log st) "".
Proof.
  intros Hw. cbn zeta. case_decide as E; [|by apply set_voted_for_law].
  split; [done|]. rewrite voted_for_law in E by done. destruct (st_log st); cbn in *. by subst.
Qed.

Lemma step_down_ok N t s : server_ok N s -> 0 <= t <= N ->
  server_ok N (step_down t s)
  /\ log (step_down t s) = al_set_voted_for (al_set_term (log s) t) ""
  /\ role (state (step_down t s)) = Follower
  /\ id (state (step_down t s)) = id (state s)
  /\ map p_id (known_peers (state (step_down t s))) = map p_id (known_peers (state s)).
Proof.
  intros Hs Ht. pose proof Hs as [Hw Hsz Htm Hp].
  assert (Hst : exists st, storage (step_down t s) = st /\ st_wf st
      /\ st_log st = al_set_voted_for (al_set_term (log s) t) "").
  { eexists; split; [reflexivity|]. unfold step_down.
    set (st1 := if current_term (storage s) =? t then storage s else set_current_term (storage s) t).
    assert (H1 : st_wf st1 /\ st_log st1 = al_set_term (log s) t).
    { unfold st1. rewrite (read_term N) by done. destruct (Z.eqb_spec (al_term (log s)) t) as [<-|].
      - split; [done|]. unfold log. by destruct (st_log (storage s)).
      - by apply set_current_term_law. }
    destruct H1 as [Hw1 Hl1].
    destruct (clear_vote st1 Hw1) as [H2 H3]. rewrite Hl1 in H3.
    by destruct (role (state s)). }
  destruct Hst as (st & Est & Hw' & Hl').
  assert (Hpeers : Forall (peer_ok N) (known_peers (state (step_down t s)))
    /\ role (state (step_down t s)) = Follower /\ id (state (step_down t s)) = id (state s)
    /\ map p_id (known_peers (state (step_down t s))) = map p_id (known_peers (state s))).
  { unfold step_down. destruct (role (state s)) eqn:Er; cbn; split_and!; try done;
      try (by apply Forall_map; eapply Forall_impl; [exact Hp|]; intros p; apply reset_ok);
      by apply map_p_id. }
  destruct Hpeers as (? & ? & ? & ?).
  assert (log (step_down t s) = al_set_voted_for (al_set_term (log s) t) "") as Hlog
    by (unfold log at 1; rewrite Est; exact Hl').
  split_and!; try done. split; [by rewrite Est|by rewrite Hlog|by rewrite Hlog|done].
Qed.

Lemma step_down_handled N t s m out : server_ok N s -> al_term (log s) <= t <= N ->
  forallb silent out = true -> handled N m s (step_down t s) out.
Proof.
  intros Hs Ht Ho. destruct (silent_ok N (id (state s)) out Ho). pose proof (so_term _ _ Hs).
  destruct (step_down_ok N t s Hs) as (? & Hl & ? & ? & ?); [lia|].
  apply handled_quiet; try done; [by rewrite Hl; cbn; lia|by rewrite Hl; apply log_extends_same|by apply rs_follower].
Qed.

(** ** Timeouts *)

Lemma on_minimum_timeout_ok N s : server_ok N s ->
  ok_or (fun _ => False) N None s (on_minimum_timeout s).
Proof.
  intros Hs. apply handled_quiet; [constructor|by destruct Hs|constructor|done|done|done|done|].
  apply rs_same; [done..|by apply votes_kept_same].
Qed.

Lemma on_heartbeat_ok N s : server_ok N s ->
  ok_or (fun _ => False) N None s (on_heartbeat_request s).
Proof.
  intros Hs. pose proof Hs as [Hw Hsz Ht Hp]. unfold on_heartbeat_request, for_each_peer. cbn [fst snd ok_or].
  assert (Hids : forall p : peer_info_t, p_id (if decide (p_id p = id (state s)) then (p, [])
    else (set_waiting true p, [send (p_id p) (m_append_request (AppendReq
          (Header (id (state s)) (p_id p) (last_message_id p) (current_term (storage s)) (log_state (storage s)))
          (match_entry p) []))])).1 = p_id p) by (intros p; by case_decide).
  apply handled_quiet; cbn [state storage set_peers known_peers id]; try done.
  - apply Forall_app. split; [|by repeat constructor]. apply no_grants_concat. intros p. case_decide; by repeat constructor.
  - split; cbn; try done. apply Forall_map. eapply Forall_impl; [exact Hp|]. intros p Hpo. by case_decide.
  - apply Forall_app. split; [|by repeat constructor]. apply callbacks_concat. intros p Hin.
    case_decide; constructor; [|constructor]. split; [|by left]. rewrite Forall_forall in Hp.
    destruct (Hp p Hin) as [_ Hm]. split_and!; cbn; [by apply header_of|apply Hm|apply numbered_nil|unfold info_ok in Hm; lia].
  - by apply map_p_id.
  - apply rs_same; [done..|]. eapply votes_kept_map; [reflexivity|]. intros p. split; [apply Hids|]. by case_decide.
Qed.

Lemma u64_small z : 0 <= z < 2 ^ 64 -> u64 z = z.
Proof. intros. by apply wrap_small. Qed.

Lemma on_timeout_request_ok N s : server_ok N s -> N + 1 < 2 ^ 64 ->
  ok_or (fun _ => False) (N + 1) None s (on_timeout_request s).
Proof.
  intros Hs HN. pose proof (so_term _ _ Hs) as Ht.
  unfold on_timeout_request, for_each_peer. cbn [fst snd ok_or known_peers set_peers id set_role state].
  rewrite (read_term _ _ Hs), u64_small by lia.
  destruct (set_current_term_law (storage s) (al_term (log s) + 1)) as [Hw1 Hl1]; [apply Hs|].
  set (st1 := set_current_term (storage s) (al_term (log s) + 1)) in *.
  destruct (set_voted_for_law st1 (id (state s)) Hw1) as [Hw2 Hl2].
  set (st2 := set_voted_for st1 (id (state s))) in *. rewrite Hl1 in Hl2.
  assert (Hlog : forall v, log (Server v st2) = al_set_voted_for (al_set_term (log s) (al_term (log s) + 1)) (id (state s)))
    by (intros v; exact Hl2).
  assert (Hok : forall v, Forall (peer_ok (N + 1)) (known_peers v) -> server_ok (N + 1) (Server v st2)).
  { intros v Hv. split; cbn; [done|rewrite Hlog..|done]; [|cbn; lia].
    pose proof (so_size _ _ Hs). unfold al_size in *; cbn. lia. }
  pose proof (Forall_impl _ (peer_ok (N + 1)) _ (so_peers _ _ Hs) (fun p => peer_ok_mono N (N + 1) p ltac:(lia))) as Hp.
  apply handled_quiet; cbn [state storage set_peers known_peers id role].
  - apply Forall_app. split; [|by repeat constructor]. apply no_grants_concat. intros p. case_decide; by repeat constructor.
  - apply Hok. cbn. rewrite map_map. apply Forall_map. eapply Forall_impl; [exact Hp|]. intros p Hpo. by case_decide.
  - apply Forall_app. split; [|by repeat constructor]. apply callbacks_concat. intros p Hin.
    case_decide; constructor; [|constructor]. split; [|by left]. cbn. by apply (header_of _ (Server (state s) st2)), Hok.
  - done.
  - rewrite !map_map. apply map_ext. intros p. by case_decide.
  - rewrite Hlog; cbn; lia.
  - rewrite Hlog. by apply log_extends_same.
  - apply rs_candidate; [done|by rewrite Hlog|]. cbn. intros p Hin Hv. rewrite map_map in Hin.
    apply list_elem_of_fmap in Hin as (p0 & -> & _). case_decide; cbn in *; [done|].
    apply bool_decide_eq_true in Hv. done.
Qed.

(** ** Composition with changes that keep role, storage and votes *)

Lemma votes_kept_trans s1 s2 s3 : votes_kept s1 s2 -> votes_kept s2 s3 -> votes_kept s1 s3.
Proof.
  intros H12 H23 p Hp Hv. destruct (H23 p Hp Hv) as (p2 & Hp2 & E2 & Hv2).
  destruct (H12 p2 Hp2 Hv2) as (p1 & ? & ? & ?). exists p1. split_and!; [done|congruence|done].
Qed.

Record same_core (s s0 : server S) : Prop := {
  sc_storage : storage s0 = storage s;
  sc_role : role (state s0) = role (state s);
  sc_id : id (state s0) = id (state s);
  sc_peers : map p_id (known_peers (state s0)) = map p_id (known_peers (state s));
  sc_votes : votes_kept s s0;
}.

Lemma same_core_refl s : same_core s s.
Proof. split; try done. apply votes_kept_refl. Qed.

Lemma same_core_log s s0 : same_core s s0 -> log s0 = log s.
Proof. intros Hc. unfold log. by rewrite (sc_storage _ _ Hc). Qed.

Lemma same_core_ok N s s0 :
  same_core s s0 -> server_ok N s -> Forall (peer_ok N) (known_peers (state s0)) -> server_ok N s0.
Proof.
  intros Hc [Hw Hs Ht _] Hp. split; rewrite ?(same_core_log _ _ Hc), ?(sc_storage _ _ Hc); done.
Qed.

Lemma handled_pre N m s s0 s' out : same_core s s0 -> handled N m s0 s' out -> handled N m s s' out.
Proof.
  intros Hc [Hok Hout Hid Hp Ht Hl Hg Hr]. pose proof (same_core_log _ _ Hc) as El. destruct Hc as [_ Er Ei Ep Ev].
  rewrite El in *. rewrite Ei in *. split; try done; [congruence|].
  destruct Hr as [Hr|Hr Htm Hv|Hr Htm Hv|h Hm Hd Hh Hr Htm Hv Hr'].
  - by apply rs_follower.
  - apply rs_same; [congruence|congruence|by eapply votes_kept_trans].
  - apply rs_candidate; [done|congruence|]. rewrite <- Ei. done.
  - eapply rs_vote; try done; [congruence..|]. intros p Hin Hvp Hne.
    destruct (Hv p Hin Hvp Hne) as (p2 & Hp2 & E2 & Hv2). destruct (Ev p2 Hp2 Hv2) as (p1 & ? & ? & ?).
    exists p1. split_and!; [done|congruence|done].
Qed.

Lemma handled_core N m s s0 out :
  same_core s s0 -> server_ok N s0 -> no_grants out -> Forall (callback_ok N (id (state s))) out ->
  handled N m s s0 out.
Proof.
  intros Hc Hs Hg Ho. apply handled_quiet; try done.
  - apply Hc.
  - apply Hc.
  - by rewrite (same_core_log _ _ Hc).
  - by rewrite (same_core_log _ _ Hc).
  - apply rs_same; [apply Hc|by rewrite (same_core_log _ _ Hc)|apply Hc].
Qed.

(** A write through the pointer [find_peer] returned. *)
Lemma update_core N s pid f :
  server_ok N s ->
  (forall p, p_id (f p) = p_id p /\ (voted_for_me (f p) = true -> voted_for_me p = true)) ->
  (forall p, peer_ok N p -> peer_ok N (f p)) ->
  let s0 := Server (update_peer pid f (state s)) (storage s) in same_core s s0 /\ server_ok N s0.
Proof.
  intros Hs Hf Hk s0. assert (Hc : same_core s s0).
  { split; try done; [apply update_first_ids; intros p; apply Hf|by eapply votes_kept_update]. }
  split; [done|]. apply (same_core_ok N s); [done..|]. apply update_first_Forall; [done|apply Hs].
Qed.

(** ** VoteRequest *)

Lemma on_vote_request_ok N s r : server_ok N s -> message_ok N (m_vote_request r) ->
  ok_or (fun _ => False) N (Some (m_vote_request r)) s (on_vote_request r s).
Proof.
  intros Hs (Hht & _ & _). unfold on_vote_request. set (h := vrq_header r) in *. set (m := Some _).
  destruct (find_peer (h_peer_id h) (state s)) as [p|]; [|by apply handled_same].
  destruct (negb _); [by apply handled_same|].
  set (s0 := match role (state s) with Leader => _ | _ => s end).
  assert (Hcs : same_core s s0 /\ server_ok N s0).
  { unfold s0. destruct (role (state s)); try (split; [apply same_core_refl|done]). by apply update_core. }
  destruct Hcs as [Hc Hs0]. assert (Hst : storage s0 = storage s) by apply Hc.
  set (hr := Header (id (state s)) (h_peer_id h) (h_message_id h)
    (Z.max (current_term (storage s0)) (h_term h)) (log_state (storage s0))) in *.
  assert (Hhr : header_ok N hr).
  { pose proof (header_of N s0 (h_peer_id h) (h_message_id h) Hs0) as (Ht & Hcu). cbn in Ht.
    split; [cbn; lia|exact Hcu]. }
  destruct (negb _); [apply handled_core; [done|done|by apply Forall_nil|by apply Forall_nil]|].
  rewrite (read_term _ _ Hs0). destruct (Z.leb_spec (h_term h) (al_term (log s0))) as [Hle|Hgt].
  { apply handled_core; [done..| |]; each_callback. split; [exact Hhr|by left]. }
  destruct (step_down_ok N (h_term h) s0 Hs0 Hht) as (Hs1 & Hl1 & Hr1 & Hi1 & Hp1).
  set (s1 := step_down (h_term h) s0) in *. cbn zeta.
  set (s1' := Server (set_leader_id "" (state s1)) (storage s1)).
  assert (Hs1' : server_ok N s1') by (by destruct Hs1).
  assert (Hmax : h_term hr = h_term h) by (cbn; rewrite (read_term _ _ Hs0); lia).
  rewrite Z.geb_leb. destruct (_ <=? _); cbn [ok_or]; apply (handled_pre _ _ s s0); try exact Hc.
  - destruct (set_voted_for_law (storage s1) (h_peer_id h)) as [Hw2 Hl2]; [apply Hs1|].
    set (s2 := Server (state s1') (set_voted_for (storage s1') (h_peer_id h))).
    assert (Hlog2 : log s2 = al_set_voted_for (log s1) (h_peer_id h)) by exact Hl2.
    split.
    + destruct Hs1. split; try done; by rewrite Hlog2.
    + each_callback. split; [exact Hhr|]. left. cbn. by rewrite (sc_id _ _ Hc).
    + done.
    + done.
    + rewrite Hlog2, Hl1. cbn. lia.
    + rewrite Hlog2, Hl1. by apply log_extends_same.
    + intros q h' Hin. rewrite !elem_of_cons, elem_of_nil in Hin. destruct Hin as [[=]|[[= -> ->]|[]]].
      rewrite Hlog2, Hl1. cbn -[h]. split_and!; [done|exact Hmax|lia|exact Hr1].
    + by apply rs_follower.
  - apply handled_quiet.
    + by repeat constructor.
    + done.
    + each_callback. split; [exact Hhr|]. left. cbn. by rewrite (sc_id _ _ Hc).
    + done.
    + done.
    + change (log s1') with (log s1). rewrite Hl1. cbn. lia.
    + change (log s1') with (log s1). rewrite Hl1. by apply log_extends_same.
    + by apply rs_follower.
Qed.

(** ** AppendEntriesRequest *)

(** The state after the branches on the term, when the request goes on. *)
Record accepted (N : Z) (s s1 : server S) (out1 : list callback) : Prop := {
  ac_ok : server_ok N s1;
  ac_out : forallb silent out1 = true;
  ac_id : id (state s1) = id (state s);
  ac_peers : map p_id (known_peers (state s1)) = map p_id (known_peers (state s));
  ac_term : al_term (log s) <= al_term (log s1);
  ac_entries : al_entries (log s1) = al_entries (log s);
  ac_commit : al_commit (log s1) = al_commit (log s);
  ac_role : role (state s1) = Follower
    \/ (role (state s1) = role (state s) /\ al_term (log s1) = al_term (log s)
        /\ known_peers (state s1) = known_peers (state s));
}.

Lemma accepted_same N s : server_ok N s -> accepted N s s [].
Proof. intros Hs. split; try done. by right. Qed.

Lemma accepted_step_down N s t :
  server_ok N s -> al_term (log s) < t <= N -> accepted N s (step_down t s) [].
Proof.
  intros Hs Ht. pose proof (so_term _ _ Hs). destruct (step_down_ok N t s Hs) as (? & Hl & ? & ? & ?); [lia|].
  split; rewrite ?Hl; cbn; try done; try lia. by left.
Qed.

Lemma accepted_new_leader N s s1 l :
  accepted N s s1 [] -> accepted N s (Server (set_leader_id l (state s1)) (storage s1)) [new_leader_elected l].
Proof. intros [[] ? ? ? ? ? ? ?]. by split. Qed.

(** A handler that continues from an accepted state with storage [st]. *)
Lemma accepted_handled N m s s1 out1 s' out :
  accepted N s s1 out1 -> server_ok N s' -> no_grants out -> Forall (callback_ok N (id (state s))) out ->
  role (state s') = role (state s1) -> id (state s') = id (state s1) ->
  known_peers (state s') = known_peers (state s1) -> al_term (log s') = al_term (log s1) ->
  log_extends (log s1) (log s') -> handled N m s s' (out1 ++ out).
Proof.
  intros [Hs1 Ho1 Hi1 Hp1 Ht1 He1 Hc1 Hr1] Hs' Hg Ho Er Ei Ep Et [Hlc Hle].
  destruct (silent_ok N (id (state s)) out1 Ho1) as [Hg1 Hk1]. apply handled_quiet.
  - by apply Forall_app.
  - done.
  - by apply Forall_app.
  - congruence.
  - congruence.
  - lia.
  - rewrite Hc1, He1 in *. by split.
  - destruct Hr1 as [Hf|(Hr & Htm & Hk)]; [apply rs_follower; congruence|].
    apply rs_same; [congruence|congruence|]. apply votes_kept_same. congruence.
Qed.

(** The end of the handler: append, then commit as far as the leader has. *)
Lemma append_and_commit N s es prev c :
  server_ok N s -> numbered (prev + 1) es -> al_commit (log s) <= prev <= al_size (log s) ->
  prev + Z.of_nat (length es) <= N -> info_ok N c ->
  exists st r, append (storage s) es = Ok (st, r)
    /\ st_wf st /\ st_log st = al_append (log s) es
    /\ al_size (st_log st) <= N /\ log_extends (log s) (st_log st)
    /\ exists st' r', commit_until st (index c) = Ok (st', r')
        /\ st_wf st' /\ st_log st' = al_commit_until (st_log st) (index c).
Proof.
  intros Hs Hn Hp Hl Hc. pose proof (log_wf _ _ Hs) as Hwf.
  assert (Hap : es = [] \/ appendable (log s) es).
  { destruct es; [by left|right]. exists (prev + 1). split; [done|lia]. }
  destruct (append_law (storage s) es (so_wf _ _ Hs) Hap) as (st & E & Hw & Hlog). fold (log s) in Hlog.
  destruct (al_append_wf (log s) es Hwf Hap) as [Hwf' Hsz].
  assert (Hext : log_extends (log s) (al_append (log s) es)).
  { destruct es as [|e es]; [done|]. split; [done|]. cbn.
    rewrite (numbered_head _ _ _ Hn). rewrite take_app_le by (rewrite length_take; unfold al_size in Hp; lia).
    rewrite take_take. f_equal. lia. }
  assert (Hsz' : al_size (al_append (log s) es) <= N).
  { rewrite Hsz. destruct es as [|e es]; [by apply Hs|]. rewrite (numbered_head _ _ _ Hn). lia. }
  destruct (commit_until_law st (index c) Hw) as (st' & E' & Hw' & Hl'); [apply Hc|].
  eexists st, _. split; [exact E|]. rewrite Hlog. split_and!; try done. rewrite <- Hlog. by eexists st', _.
Qed.

Lemma log_extends_trans l1 l2 l3 : log_extends l1 l2 -> log_extends l2 l3 -> 0 <= al_commit l1 -> log_extends l1 l3.
Proof.
  intros [H1 H2] [H3 H4] Hc. split; [lia|]. rewrite <- H2.
  replace (Z.to_nat (al_commit l1)) with (Z.to_nat (al_commit l1) `min` Z.to_nat (al_commit l2))%nat by lia.
  by rewrite <- !take_take, H4.
Qed.

Lemma commit_until_extends l c : alog_wf l -> al_commit l <= c -> log_extends l (al_commit_until l c).
Proof. intros [_ Hc] Hle. split; [cbn; lia|done]. Qed.

Definition only_assert (e : crash) : Prop := e = assert_failed.

Lemma on_append_request_ok N s r : server_ok N s -> message_ok N (m_append_request r) ->
  ok_or only_assert N (Some (m_append_request r)) s (on_append_entries_request r s).
Proof.
  intros Hs (Hh & Hprev & Hnum & Hlen). unfold on_append_entries_request.
  set (h := arq_header r) in *. set (m := Some _). set (q := h_peer_id h). set (prev := previous_entry r) in *.
  destruct (find_peer q (state s)) as [p|]; [|by apply handled_same].
  destruct (negb _); [by apply handled_same|].
  pose (resp (ok : bool) (ls : LogState) := AppendResp (Header (id (state s)) q (h_message_id h)
    (Z.max (al_term (log s)) (h_term h)) ls) ok).
  assert (Hresp : forall ok ls, info_ok N (commit ls) -> info_ok N (uncommit ls) ->
    callback_ok N (id (state s)) (send q (m_append_response (resp ok ls)))).
  { intros ok ls H1 H2. split; [|by left]. cbn. split; cbn; [|done].
    pose proof (so_term _ _ Hs). destruct Hh. lia. }
  cbv zeta. rewrite (read_term _ _ Hs). fold (resp false (log_state (storage s))). set (refuse := resp false (log_state (storage s))).
  assert (Href : callback_ok N (id (state s)) (send q (m_append_response refuse))) by (by apply Hresp; apply log_state_ok).
  destruct (Z.ltb_spec (h_term h) (al_term (log s))) as [Hlt|Hge].
  { apply handled_core; [apply same_core_refl|done| |]; each_callback. }
  set (branch := if _ <? _ then _ else _).
  assert (Hb : (exists s1 out1, branch = (s1, out1, false) /\ accepted N s s1 out1)
                 \/ branch = (s, [drop_peer q], true)).
  { unfold branch. destruct (Z.ltb_spec (al_term (log s)) (h_term h)) as [Hlt|_].
    - pose proof (accepted_step_down N s (h_term h) Hs) as Hac. destruct Hh as [Hht _]. left.
      case_decide; eexists _, _; (split; [reflexivity|]); [apply Hac; lia|].
      apply accepted_new_leader, Hac. lia.
    - case_decide; [|case_decide]; [left; eexists _, _; (split; [reflexivity|])..|by right].
      + by apply accepted_same.
      + by apply accepted_new_leader, accepted_same. }
  destruct Hb as [(s1 & out1 & -> & Hac)| ->]; [|by apply handled_same].
  pose proof (ac_ok _ _ _ _ Hac) as Hs1. pose proof (log_wf _ _ Hs1) as Hwf.
  rewrite (read_log_state _ _ Hs1), entry_info_ne_true. cbn [commit uncommit andb].
  rewrite alog_commit_index, alog_size_index by done.
  destruct (Z.ltb_spec (index prev) (al_commit (log s1))) as [Hlt|Hc].
  { eapply accepted_handled; try done; by apply Forall_cons_2 || each_callback. }
  destruct (Z.ltb_spec (al_size (log s1)) (index prev)) as [Hlt|Hc'].
  { eapply accepted_handled; try done; each_callback. }
  destruct Hh as (Hht & Hhc & Hhu).
  destruct (append_and_commit N s1 (entries r) (index prev) (commit (h_log_state h)) Hs1 Hnum) as
    (st & rr & -> & Hw & Hl & Hsz & Hext & st' & rr' & Ecu & Hw' & Hl'); [lia|done|done|].
  rewrite res_bind_Ok. set (v' := set_minimum_timeout_reached false (state s1)).
  assert (Hterm : al_term (st_log st) = al_term (log s1)) by (rewrite Hl; by destruct (entries r)).
  assert (Hok : server_ok N (Server v' st)).
  { destruct Hs1. split; cbn; unfold log; cbn; try done. by rewrite Hterm. }
  pose proof (log_wf _ _ Hok : alog_wf (st_log st)) as Hwfst.
  assert (Hfin : forall st2 out2, server_ok N (Server v' st2) -> forallb silent out2 = true ->
    al_term (st_log st2) = al_term (log s1) -> log_extends (log s1) (st_log st2) ->
    handled N m s (Server v' st2) (out1 ++ out2 ++ [set_minimum_timeout; set_follower_timeout;
      send q (m_append_response (resp true (log_state st2)))])).
  { intros st2 out2 Hok2 Ho2 Ht2 He2. destruct (silent_ok N (id (state s)) out2 Ho2).
    destruct (log_state_ok N _ Hok2) as [? ?].
    eapply accepted_handled; [exact Hac|done| | |done|done|done|exact Ht2|exact He2]; each_callback. by apply Hresp. }
  destruct (_ <? _) eqn:Ec; cbn [ok_or].
  - destruct (_ <=? _); cbn [guard_or]; [rewrite res_bind_Ok|done]. rewrite Ecu, !res_bind_Ok. cbn [ok_or].
    pose proof (log_state_law st Hw) as Els. rewrite Els in Ec. cbn in Ec. rewrite alog_commit_index in Ec by done.
    apply Z.ltb_lt in Ec. apply Hfin; [|done| |].
    + destruct Hok. split; cbn; unfold log; cbn; try done; rewrite Hl'; done.
    + by rewrite Hl'.
    + rewrite Hl'. eapply log_extends_trans; [exact Hext|apply commit_until_extends; [done|lia]|]. apply Hwf.
  - rewrite res_bind_Ok. by apply Hfin.
Qed.

(** ** VoteResponse *)

Lemma update_first_elem pid f ps p :
  (forall p, p_id (f p) = p_id p) -> p ∈ update_first pid f ps -> p_id p <> pid -> p ∈ ps.
Proof.
  intros Hf. induction ps as [|p1 ps IH]; cbn; [done|]. case_decide as E; intros Hin Hne.
  - apply elem_of_cons in Hin as [->|Hin]; [|by right]. by rewrite Hf, E in Hne.
  - apply elem_of_cons in Hin as [->|Hin]; [by left|]. right. auto.
Qed.

Lemma filter_map_length (f : peer_info_t -> peer_info_t) ps :
  (forall p, voted_for_me (f p) = voted_for_me p) ->
  length (filter (fun p => voted_for_me p = true) (map f ps)) = length (filter (fun p => voted_for_me p = true) ps).
Proof.
  intros Hf. induction ps as [|p ps IH]; cbn [map]; [done|]. rewrite !filter_cons, Hf.
  case_decide; cbn [length]; by rewrite IH.
Qed.

Record elected (N : Z) (s s' : server S) (out : list callback) : Prop := {
  el_ok : server_ok N s';
  el_grants : no_grants out;
  el_out : Forall (callback_ok N (id (state s))) out;
  el_id : id (state s') = id (state s);
  el_peers : map p_id (known_peers (state s')) = map p_id (known_peers (state s));
  el_storage : storage s' = storage s;
  el_role : role (state s') = Leader;
  el_votes : votes_kept s s';
  el_count : num_votes (state s') = num_votes (state s);
}.

Lemma become_leader_ok N s : server_ok N s -> N + 1 < 2 ^ 64 ->
  let '(s', out) := become_leader s in elected N s s' out.
Proof.
  intros Hs HN. pose proof (log_wf _ _ Hs) as Hwf. pose proof (so_size _ _ Hs) as Hsz.
  unfold become_leader. set (v0 := set_role Leader (state s)).
  set (branch := if decide (leader_id v0 = id v0) then _ else _).
  assert (Hb : exists v out1, branch = (v, out1) /\ forallb silent out1 = true /\ role v = Leader
    /\ id v = id (state s) /\ known_peers v = known_peers (state s)).
  { unfold branch. case_decide; by eexists _, _. }
  destruct Hb as (v & out1 & -> & Ho1 & Hr & Hi & Hk). unfold for_each_peer. cbn [fst snd id v0 set_role].
  rewrite Hk. destruct (silent_ok N (id (state s)) out1 Ho1) as [Hg1 Hc1].
  destruct (log_state_ok N s Hs) as [_ Hu].
  assert (Hnext : u64 (index (uncommit (log_state (storage s))) + 1) = al_size (log s) + 1).
  { rewrite (read_log_state _ _ Hs). cbn [uncommit]. rewrite alog_size_index by done. apply u64_small.
    unfold al_size in *. lia. }
  assert (Hnn : 0 <= al_size (log s)) by (unfold al_size; lia).
  rewrite Hnext. split; cbn [state storage set_minimum_timeout_reached set_peers known_peers role id]; try done.
  - split; cbn; try apply Hs. apply Forall_map. eapply Forall_impl; [apply Hs|]. intros p _.
    case_decide; split; cbn; unfold info_ok in *; cbn in *; try lia.
  - each_callback. apply no_grants_concat. intros p. case_decide; each_callback.
  - each_callback. apply callbacks_concat. intros p _. case_decide; each_callback. split; [|by left].
    split_and!; cbn; [by apply (header_of N s)|apply Hu|apply numbered_nil|unfold info_ok in Hu; lia].
  - apply map_p_id. intros p. by case_decide.
  - eapply votes_kept_map; [reflexivity|]. intros p. cbn beta. by case_decide.
  - unfold num_votes; cbn. apply filter_map_length. intros p. by case_decide.
Qed.

Lemma on_vote_response_ok N s r : server_ok N s -> N + 1 < 2 ^ 64 -> message_ok N (m_vote_response r) ->
  find_peer (h_peer_id (vrs_header r)) (state s) <> None ->
  ok_or (fun _ => False) N (Some (m_vote_response r)) s (on_vote_response r s).
Proof.
  intros Hs HN Hm Hknown. unfold on_vote_response. set (h := vrs_header r) in *. set (m := Some _).
  destruct (find_peer (h_peer_id h) (state s)) as [p|]; [|done].
  case_bool_decide as Ed; cbn [negb orb]; [|by apply handled_same; [|by case_match]].
  destruct (negb (waiting_for_response p)); [by apply handled_same; [|by case_match]|].
  rewrite (read_term _ _ Hs). destruct (Z.ltb_spec (al_term (log s)) (h_term h)) as [Hlt|Hle].
  { apply step_down_handled; [done| |done]. destruct Hm as [Hm _]. fold h in Hm. lia. }
  case_bool_decide as Er; cbn [negb orb]; [|by apply handled_same].
  destruct (vote_granted r) eqn:Eg; cbn [negb]; [|by apply handled_same].
  set (v := update_peer _ _ (state s)). set (s1 := Server v (storage s)).
  assert (Hs1 : server_ok N s1).
  { destruct Hs. split; try done. apply update_first_Forall; done. }
  assert (Hids : map p_id (known_peers v) = map p_id (known_peers (state s))) by (by apply update_first_ids).
  assert (Hmsg : m = Some (grant h)) by (unfold m, grant, h; destruct r; cbn in *; by subst).
  assert (Hv : forall p0, p0 ∈ known_peers v -> p_id p0 <> h_peer_id h -> p0 ∈ known_peers (state s)).
  { intros p0 Hin Hne. by eapply update_first_elem in Hin. }
  destruct (_ <=? _)%nat eqn:Eq.
  - pose proof (become_leader_ok N s1 Hs1 HN) as Hl. destruct (become_leader s1) as [s' out] eqn:Eb.
    destruct Hl as [Hok Hg Ho Hi Hp Hst Hr Hvk Hc]. cbn [ok_or]. apply handled_quiet; try done.
    + by rewrite Hp.
    + unfold log. by rewrite Hst.
    + unfold log. rewrite Hst. apply log_extends_refl.
    + apply (rs_vote _ _ _ h); try done; [unfold log; by rewrite Hst| |].
      * intros p0 Hin Hvp Hne. destruct (Hvk p0 Hin Hvp) as (p1 & Hp1 & E1 & Hv1).
        exists p1. split_and!; [|done..]. apply Hv; [done|congruence].
      * right. split; [done|]. unfold has_quorum. rewrite Hc. apply Nat.leb_le in Eq.
        assert (length (known_peers (state s')) = length (known_peers v)) as ->; [|exact Eq].
        by rewrite <- (length_map p_id), Hp, length_map.
  - apply handled_quiet; try done; [by apply Forall_nil..|].
    apply (rs_vote _ _ _ h); try done; [|by left]. intros p0 Hin Hvp Hne. exists p0. split_and!; try done. by apply Hv.
Qed.

(** ** AppendEntriesResponse *)

Lemma sort_desc_perm l : sort_desc l ≡ₚ l.
Proof. apply merge_sort_Permutation. Qed.

Lemma new_commit_index_ok N v : known_peers v <> [] -> Forall (peer_ok N) (known_peers v) ->
  exists c, new_commit_index v = Ok c /\ 0 <= c <= N.
Proof.
  intros Hne Hp. unfold new_commit_index, vec_at. set (l := map _ (known_peers v)).
  assert (Hlen : length (sort_desc l) = length (known_peers v)).
  { rewrite sort_desc_perm. apply length_map. }
  assert (length (known_peers v) / 2 < length (known_peers v))%nat.
  { apply Nat.div_lt; [|lia]. destruct (known_peers v); [done|cbn; lia]. }
  rewrite (proj2 (Z.ltb_ge _ _)) by lia. rewrite Nat2Z.id.
  destruct (lookup_lt_is_Some_2 (sort_desc l) (length (known_peers v) / 2)) as [c Hc]; [lia|].
  rewrite Hc. exists c. split; [done|]. apply list_elem_of_lookup_2 in Hc. rewrite sort_desc_perm in Hc.
  apply list_elem_of_fmap in Hc as (p & -> & Hin). rewrite Forall_forall in Hp. apply (Hp p Hin).
Qed.

Lemma find_peer_elem pid s p : find_peer pid s = Some p -> p ∈ known_peers s /\ p_id p = pid.
Proof. apply find_peer_Some. Qed.

Lemma on_append_response_ok N s r : server_ok N s -> N + 1 < 2 ^ 64 -> message_ok N (m_append_response r) ->
  ok_or (fun _ => False) N (Some (m_append_response r)) s (on_append_entries_response r s).
Proof.
  intros Hs HN (Hht & Hhc & Hhu). unfold on_append_entries_response. set (h := ars_header r) in *. set (m := Some _).
  set (q := h_peer_id h). destruct (find_peer q (state s)) as [p|] eqn:Ep; [|by apply handled_same].
  case_bool_decide as Ed; cbn [negb orb]; [|by apply handled_same].
  destruct (negb (waiting_for_response p) || _ || _); [by apply handled_same|].
  destruct (update_core N s q (set_waiting false) Hs) as [Hc0 Hs0]; [done|done|].
  set (s0 := Server (update_peer q (set_waiting false) (state s)) (storage s)) in *.
  assert (Hid : id (state s0) = id (state s)) by apply Hc0.
  assert (Hp : peer_ok N p) by (apply find_peer_elem in Ep as [Hin _]; pose proof (so_peers _ _ Hs) as Hall;
    rewrite Forall_forall in Hall; auto).
  rewrite (read_term _ _ Hs0). destruct (Z.ltb_spec (al_term (log s0)) (h_term h)) as [Hlt|_].
  { apply (handled_pre _ _ s s0); [done|]. apply step_down_handled; [done|lia|done]. }
  case_bool_decide as Er; cbn [negb]; [|apply handled_core; try done; by apply Forall_nil].
  destruct Hp as [Hpn Hpm]. destruct (negb (success r)).
  - rewrite (u64_small (index (next_entry p) - 1)) by lia.
    set (next := if _ =? 0 then 1 else _). assert (Hn : 1 <= next <= N + 1).
    { unfold next. destruct (Z.eqb_spec (index (next_entry p) - 1) 0); lia. }
    rewrite u64_small by lia. clearbody next.
    rewrite get_entry_info_law, res_bind_Ok by (apply Hs0 || lia).
    rewrite entries_since_law, res_bind_Ok by (apply Hs0 || lia). fold (log s0).
    pose proof (log_wf _ _ Hs0) as Hwf. pose proof (so_size _ _ Hs0) as Hsz.
    destruct (update_core N s0 q (fun p0 => set_waiting true (set_message_id (next_message_id p) (set_next_index next p0))) Hs0)
      as [Hc2 Hs2]; [done| |].
    { intros p0 [_ Hm]. split; cbn; [lia|done]. }
    cbn [ok_or]. apply (handled_pre _ _ s s0); [done|]. apply handled_core; [exact Hc2|exact Hs2| |]; each_callback.
    split; [|by left]. cbn [message_ok]. split; [rewrite <- (read_term _ _ Hs0); by apply header_of|].
    cbn [previous_entry entries].
    unfold info_at. destruct (Z.leb_spec (next - 1) 0) as [Hz|Hz]; cbn [index].
    { replace (next - 1) with 0 by lia. split_and!; [done|apply Hwf|exact Hsz]. }
    destruct (lookup _ _) as [e|] eqn:Ee.
    + pose proof (alw_numbered _ Hwf _ _ Ee) as Hi. pose proof (lookup_lt_Some _ _ _ Ee) as Hlt.
      unfold al_size in Hsz. replace (index (info e)) with (next - 1) by lia. split_and!; [lia| |].
      * pose proof (numbered_drop 1 (Z.to_nat (next - 1)) _ (alw_numbered _ Hwf)) as Hd.
        by replace (next - 1 + 1) with (1 + Z.of_nat (Z.to_nat (next - 1))) by lia.
      * rewrite length_drop. lia.
    + apply lookup_ge_None in Ee. rewrite skipn_all2 by lia. cbn [index length]. split_and!; [done|apply numbered_nil|].
      pose proof (so_term _ _ Hs). lia.
  - destruct (index (match_entry p) <? _); [|by apply handled_core; try done; apply Forall_nil].
    unfold info_ok in Hhu. rewrite (u64_small (index (uncommit (h_log_state h)) + 1)) by lia.
    set (f := fun p0 : peer_info_t => set_match_index _ _).
    destruct (update_core N s0 q f Hs0) as [Hc1 Hs1]; [done| |].
    { intros p0 [Hn Hm]. split; cbn; [lia|exact Hhu]. }
    set (s1 := Server (update_peer q f (state s0)) (storage s0)) in *.
    destruct (new_commit_index_ok N (update_peer q f (state s0))) as (c & -> & Hc); [|apply Hs1|].
    { intros E. apply find_peer_elem in Ep as [Hin _]. apply (f_equal (map p_id)) in E.
      pose proof (sc_peers _ _ Hc1) as E1. cbn [state s1] in E1. rewrite E, (sc_peers _ _ Hc0) in E1.
      destruct (known_peers (state s)); [by apply elem_of_nil in Hin|done]. }
    rewrite res_bind_Ok, (read_log_state _ _ Hs0). cbn [commit]. pose proof (log_wf _ _ Hs0) as Hwf.
    rewrite alog_commit_index by done. destruct (Z.ltb_spec (al_commit (log s0)) c) as [Hlt|Hge].
    + destruct (commit_until_law (storage s0) c (so_wf _ _ Hs0)) as (st & -> & Hw & Hl); [lia|].
      rewrite res_bind_Ok. cbn [ok_or]. apply (handled_pre _ _ s s0); [done|]. fold (log s0) in Hl.
      set (s2 := Server _ st). assert (Hlog : log s2 = al_commit_until (log s0) c) by exact Hl.
      apply handled_quiet; rewrite ?Hlog.
      * each_callback.
      * destruct Hs1 as [? Hsz ? ?]. split; rewrite ?Hlog; done.
      * each_callback.
      * apply Hc1.
      * apply Hc1.
      * done.
      * apply commit_until_extends; [done|lia].
      * apply rs_same; [apply Hc1|by rewrite Hlog|apply Hc1].
    + cbn [ok_or]. apply (handled_pre _ _ s s0); [done|]. apply handled_core; try done; by apply Forall_nil.
Qed.

(** ** ClientRequest *)

(** The request the loop reuses: not yet built, or built for [new_index]. *)
Definition loop_request_ok (N new_index : Z) (me : string) (req : AppendEntriesRequest) : Prop :=
  h_peer_id (arq_header req) = me /\ header_ok N (arq_header req)
  /\ (index (previous_entry req) = max_u64
      \/ (index (previous_entry req) = new_index - 1 /\ append_request_ok N req)).

Record loop_result (N : Z) (me : string) (ps qs : list peer_info_t) (out : list callback) : Prop := {
  lr_ok : Forall (peer_ok N) qs;
  lr_ids : map p_id qs = map p_id ps;
  lr_votes : map voted_for_me qs = map voted_for_me ps;
  lr_out : Forall (callback_ok N me) out;
  lr_grants : no_grants out;
}.

Lemma loop_result_cons N me p p' ps qs c out :
  peer_ok N p' -> p_id p' = p_id p -> voted_for_me p' = voted_for_me p ->
  Forall (fun c => callback_ok N me c /\ is_grant c = false) c ->
  loop_result N me ps qs out -> loop_result N me (p :: ps) (p' :: qs) (c ++ out).
Proof.
  intros Hp Ei Ev Hc [H1 H2 H3 H4 H5]. split.
  - by constructor.
  - cbn. by rewrite Ei, H2.
  - cbn. by rewrite Ev, H3.
  - apply Forall_app. split; [|done]. by eapply Forall_impl; [exact Hc|]; intros ? [].
  - apply Forall_app. split; [|done]. by eapply Forall_impl; [exact Hc|]; intros ? [].
Qed.

Lemma client_loop_ok N me st new_index ps : forall req,
  st_wf st -> al_size (st_log st) = new_index -> 1 <= new_index <= N -> N + 1 < 2 ^ 64 ->
  loop_request_ok N new_index me req -> Forall (peer_ok N) ps ->
  exists qs out, client_loop me st new_index req ps = Ok (qs, out) /\ loop_result N me ps qs out.
Proof.
  induction ps as [|p ps IH]; intros req Hw Hsz Hni HN Hreq Hps.
  { exists [], []. split; [done|]. split; try done; each_callback. }
  apply Forall_cons in Hps as [Hp Hps]. cbn [client_loop]. case_decide as Eid.
  - destruct (IH req) as (qs & out & -> & Hr); [done..|]. rewrite res_bind_Ok. eexists _, _. split; [reflexivity|].
    apply (loop_result_cons N me p _ ps qs []); try done. split; cbn; [rewrite u64_small by lia; lia|unfold info_ok; cbn; lia].
  - destruct (Z.eqb_spec (index (next_entry p)) new_index) as [En|En]; cbn [negb orb].
    2:{ destruct (IH req) as (qs & out & -> & Hr); [done..|]. rewrite res_bind_Ok. eexists _, _. split; [reflexivity|].
        by apply (loop_result_cons N me p p ps qs []). }
    destruct (waiting_for_response p).
    { destruct (IH req) as (qs & out & -> & Hr); [done..|]. rewrite res_bind_Ok. eexists _, _. split; [reflexivity|].
      by apply (loop_result_cons N me p p ps qs []). }
    rewrite En, (u64_small (new_index - 1)) by lia.
    set (h' := Header _ (p_id p) (next_message_id p) _ _).
    destruct Hreq as (Hme & Hh & Hprev). assert (Hh' : header_ok N h') by exact Hh.
    set (build := if negb _ then _ else _).
    assert (Hb : exists req', build = Ok req' /\ arq_header req' = h'
              /\ index (previous_entry req') = new_index - 1 /\ append_request_ok N req').
    { unfold build. destruct (Z.eqb_spec (index (previous_entry req)) (new_index - 1)) as [E|E]; cbn [negb].
      - eexists. split; [reflexivity|]. split_and!; [done|done|].
        destruct Hprev as [Hmax|[_ Hok]]; [unfold max_u64 in *; lia|]. destruct Hok as (_ & ? & ? & ?). by split_and!.
      - rewrite get_entry_info_law, res_bind_Ok, entries_since_law, res_bind_Ok by (done || lia).
        eexists. split; [reflexivity|]. split_and!; [done|done|]. pose proof (st_wf_log st Hw) as Hwf.
        split_and!; cbn; [done|lia| |].
        + pose proof (numbered_drop 1 (Z.to_nat (new_index - 1)) _ (alw_numbered _ Hwf)) as Hd.
          by replace (new_index - 1 + 1) with (1 + Z.of_nat (Z.to_nat (new_index - 1))) by lia.
        + rewrite length_drop. unfold al_size in Hsz. lia. }
    destruct Hb as (req' & -> & Eh & Ep & Hok). rewrite res_bind_Ok.
    destruct (IH req') as (qs & out & -> & Hr); [done..| |done|].
    { split_and!; [by rewrite Eh|by rewrite Eh|by right]. }
    rewrite res_bind_Ok. eexists _, _. split; [reflexivity|].
    apply (loop_result_cons N me p _ ps qs [_]); [|done|done| |done].
    + split; cbn; [rewrite u64_small by lia; lia|apply Hp].
    + constructor; [|by constructor]. split; [|done]. split; [done|]. left. destruct req' as [hh ? ?]; cbn in Eh |- *. subst hh.
      unfold h'; cbn. by rewrite Hme.
Qed.

Lemma votes_kept_by_maps s s' :
  map p_id (known_peers (state s')) = map p_id (known_peers (state s)) ->
  map voted_for_me (known_peers (state s')) = map voted_for_me (known_peers (state s)) -> votes_kept s s'.
Proof.
  intros Ei Ev p Hp Hv. apply list_elem_of_lookup in Hp as [i Hi].
  assert (H1 : map p_id (known_peers (state s')) !! i = Some (p_id p)) by (by rewrite list_lookup_fmap, Hi).
  assert (H2 : map voted_for_me (known_peers (state s')) !! i = Some (voted_for_me p)) by (by rewrite list_lookup_fmap, Hi).
  rewrite Ei in H1. rewrite Ev in H2. rewrite list_lookup_fmap in H1. rewrite list_lookup_fmap in H2.
  destruct (known_peers (state s) !! i) as [p0|] eqn:E0; [|done]. cbn in H1, H2. exists p0.
  split_and!; [by eapply list_elem_of_lookup_2|congruence|congruence].
Qed.

Lemma on_client_request_ok N s r : server_ok N s -> N + 2 < 2 ^ 64 ->
  ok_or (fun _ => False) (N + 1) (Some (m_client_request r)) s (on_client_request r s).
Proof.
  intros Hs HN. pose proof (server_ok_mono N (N + 1) s ltac:(lia) Hs) as Hs'.
  unfold on_client_request. set (m := Some _). destruct (role (state s)) eqn:Er.
  - by apply handled_same.
  - destruct (find_peer (leader_id (state s)) (state s)) as [l|]; [|by apply handled_same].
    apply handled_core; [apply same_core_refl|done| |]; each_callback. split; [done|by right].
  - pose proof (log_wf _ _ Hs) as Hwf. pose proof (so_size _ _ Hs) as Hsz. pose proof (so_term _ _ Hs) as Ht.
    rewrite (read_log_state _ _ Hs). cbn [uncommit]. rewrite alog_size_index by done.
    assert (Hnn : 0 <= al_size (log s)) by (unfold al_size; lia). rewrite u64_small by lia.
    set (e := Ent _ (cr_data r)). assert (Hn : numbered (al_size (log s) + 1) [e]).
    { intros [|i] x [= <-]. cbn. lia. }
    assert (Hap : [e] = [] \/ appendable (log s) [e]).
    { right. exists (al_size (log s) + 1). split; [done|]. pose proof (alw_commit _ Hwf). lia. }
    destruct (append_law (storage s) [e] (so_wf _ _ Hs) Hap) as (st & -> & Hw & Hl). fold (log s) in Hl.
    rewrite res_bind_Ok. pose proof (st_wf_log st Hw) as Hwf'. rewrite alog_size_index by done.
    destruct (al_append_wf (log s) [e] Hwf Hap) as [_ Hsz']. rewrite <- Hl in Hsz'. cbn [e info index length] in Hsz'.
    replace (al_size (log s) + 1 - 1 + Z.of_nat 1) with (al_size (log s) + 1) in Hsz' by lia.
    rewrite Hsz', Z.eqb_refl. cbn [guard_or]. rewrite res_bind_Ok.
    assert (Hterm : al_term (st_log st) = al_term (log s)) by (by rewrite Hl).
    assert (Hok : forall v, Forall (peer_ok (N + 1)) (known_peers v) -> server_ok (N + 1) (Server v st)).
    { intros v Hv. split; unfold log; cbn; [done|lia|lia|done]. }
    destruct (client_loop_ok (N + 1) (id (state s)) st (al_size (log s) + 1) (known_peers (state s))
      (AppendReq (Header (id (state s)) "" 0 (current_term st) (log_state st)) (Info max_u64 max_u64) []))
      as (qs & out & -> & [Hq Hids Hv Hout Hg]); try done; [lia|lia|..].
    { split_and!; [done|by apply (header_of _ (Server (state s) st)), Hok, Hs'|by left]. }
    { apply Hs'. }
    rewrite res_bind_Ok. cbn [ok_or]. apply handled_quiet; cbn [state storage set_peers known_peers id role].
    + apply Forall_app. split; [done|]. each_callback.
    + by apply Hok.
    + apply Forall_app. split; [done|]. each_callback.
    + done.
    + done.
    + unfold log at 2; cbn. lia.
    + unfold log at 2; cbn. rewrite Hl. split; [done|]. cbn. rewrite take_app_le by
        (rewrite length_take; unfold al_size in *; pose proof (alw_commit _ Hwf); unfold al_size in *; lia).
      rewrite take_take. pose proof (alw_commit _ Hwf). f_equal. lia.
    + apply rs_same; [done|by unfold log; cbn|]. by apply votes_kept_by_maps.
Qed.

(** ** Any message *)

Definition sender_known (m : message) (s : server S) : Prop :=
  match m with
  | m_vote_response r => find_peer (h_peer_id (vrs_header r)) (state s) <> None
  | _ => True
  end.

Lemma on_message_ok N s m : server_ok N s -> N + 2 < 2 ^ 64 -> message_ok N m -> sender_known m s ->
  ok_or only_assert (N + 1) (Some m) s (on_message m s).
Proof.
  intros Hs HN Hm Hk. pose proof (server_ok_mono N (N + 1) s ltac:(lia) Hs) as Hs'.
  pose proof (message_ok_mono N (N + 1) m ltac:(lia) Hm) as Hm'.
  assert (Hw : forall r, ok_or (fun _ => False) (N + 1) (Some m) s r -> ok_or only_assert (N + 1) (Some m) s r).
  { intros [[]|]; done. }
  destruct m as [r|r|r|r|r]; cbn [on_message].
  - by apply on_append_request_ok.
  - apply Hw, on_append_response_ok; done || lia.
  - by apply Hw, on_vote_request_ok.
  - apply Hw, on_vote_response_ok; done || lia.
  - apply Hw, on_client_request_ok; done || lia.
Qed.

Lemma timeout_ok N s : server_ok N s -> N + 2 < 2 ^ 64 ->
  ok_or (fun _ => False) (N + 1) None s (timeout s).
Proof.
  intros Hs HN. pose proof (server_ok_mono N (N + 1) s ltac:(lia) Hs) as Hs'. unfold timeout.
  destruct (role (state s)); [apply on_timeout_request_ok; done || lia..|by apply on_heartbeat_ok].
Qed.

End inv.
