(* ===== verification/RaftCluster.v ===== *)
(** * Raft: a cluster of servers and the network between them

    The servers of src/raft/raft_server.ipp connected by a network that may
    delay, reorder, duplicate and lose messages (asio_tcp_server.cpp sends over
    connections that are dropped and reopened).  Every interleaving of timeouts,
    client requests and deliveries is a run.  Over any storage that keeps its
    contract: no server ever exits or dereferences null, committed entries are
    stable, and, as long as stale votes are not delivered, every term has at
    most one leader.  Two concrete runs on MemStorage show what the handlers do
    not ensure. *)

From stdpp Require Import sorting.
From S2P Require Import Prelude RaftTypes RaftStorage RaftServer RaftInv.
Local Open Scope Z_scope.

(** ** The cluster *)

#[export] Instance append_request_dec : EqDecision AppendEntriesRequest.
Proof. solve_decision. Defined.
#[export] Instance append_response_dec : EqDecision AppendEntriesResponse.
Proof. solve_decision. Defined.
#[export] Instance vote_request_dec : EqDecision VoteRequest.
Proof. solve_decision. Defined.
#[export] Instance vote_response_dec : EqDecision VoteResponse.
Proof. solve_decision. Defined.
#[export] Instance client_request_dec : EqDecision ClientRequest.
Proof. solve_decision. Defined.
#[export] Instance message_dec : EqDecision message.
Proof. solve_decision. Defined.

(** [history] records the role and the term of a server after each event it
    handles. *)
Record cluster (S : Type) := Cluster {
  nodes : gmap string (server S);
  net : list (string * message);
  history : list (string * Role * Z);
}.
Arguments Cluster {S} _ _ _.
Arguments nodes {S} _.
Arguments net {S} _.
Arguments history {S} _.

Inductive event :=
| ev_timeout (i : string)
| ev_minimum_timeout (i : string)
| ev_client (i : string) (r : ClientRequest)
| ev_deliver (i : string) (m : message).

Definition event_node (e : event) : string :=
  match e with ev_timeout i | ev_minimum_timeout i | ev_client i _ | ev_deliver i _ => i end.

Definition event_message (e : event) : option message :=
  match e with
  | ev_client _ r => Some (m_client_request r)
  | ev_deliver _ m => Some m
  | _ => None
  end.

Definition sends (out : list callback) : list (string * message) :=
  omap (fun c => match c with send q m => Some (q, m) | _ => None end) out.

Section cluster.
Context {S : Type} `{Storage S}.

(** What the server that the event concerns does. *)
Definition handle (e : event) (s : server S) : res crash (server S * list callback) :=
  match e with
  | ev_timeout _ => timeout s
  | ev_minimum_timeout _ => on_minimum_timeout s
  | ev_client _ r => on_client_request r s
  | ev_deliver _ m => on_message m s
  end.

Definition enabled (e : event) (c : cluster S) : bool :=
  match e with ev_deliver i m => bool_decide ((i, m) ∈ net c) | _ => true end.

(** One event: the server handles it and its messages enter the network; a
    server whose process ends is gone. *)
Definition exec (e : event) (c : cluster S) : option (cluster S) :=
  if enabled e c then
    s ← nodes c !! event_node e;
    match handle e s with
    | Ok (s', out) =>
        Some (Cluster (<[event_node e := s']> (nodes c)) (net c ++ sends out)
                      ((event_node e, role (state s'), current_term (storage s')) :: history c))
    | Throw _ => Some (Cluster (delete (event_node e) (nodes c)) (net c) (history c))
    end
  else None.

Fixpoint exec_all (es : list event) (c : cluster S) : option (cluster S) :=
  match es with
  | [] => Some c
  | e :: es' => exec e c ≫= exec_all es'
  end.

(** The runs of [n] events from an initial cluster, all of them [allowed]. *)
Inductive runs (initial : cluster S -> Prop) (allowed : event -> cluster S -> Prop) : nat -> cluster S -> Prop :=
| runs_init c : initial c -> runs initial allowed 0 c
| runs_step n c e c' : runs initial allowed n c -> allowed e c -> exec e c = Some c' -> runs initial allowed (Datatypes.S n) c'.

End cluster.

(** ** Invariants of the cluster *)

Section invariant.
Context {S : Type} `{StorageLaws S}.
Variable ids : list string.

(** A server before its first event. *)
Definition fresh (i : string) (s : server S) : Prop :=
  id (state s) = i /\ role (state s) = Follower /\ map p_id (known_peers (state s)) = ids
  /\ Forall (fun p => next_entry p = Info 1 1 /\ match_entry p = Info 0 0) (known_peers (state s))
  /\ st_wf (storage s) /\ log s = ALog [] 0 "" 0.

Definition initial (c : cluster S) : Prop :=
  net c = [] /\ history c = [] /\ forall i s, nodes c !! i = Some s -> i ∈ ids /\ fresh i s.

Definition any_event (e : event) (c : cluster S) : Prop := True.

Record node_ok (N : Z) (i : string) (s : server S) : Prop := {
  no_member : i ∈ ids;
  no_ok : server_ok N s;
  no_id : id (state s) = i;
  no_peers : map p_id (known_peers (state s)) = ids;
}.

Definition packet_ok (N : Z) (x : string * message) : Prop :=
  message_ok N x.2 /\ forall i j, message_ends x.2 = Some (i, j) -> i ∈ ids /\ j = x.1.

Record cluster_ok (N : Z) (c : cluster S) : Prop := {
  co_nodes : forall i s, nodes c !! i = Some s -> node_ok N i s;
  co_net : Forall (packet_ok N) (net c);
}.

Lemma initial_ok c : initial c -> cluster_ok 0 c.
Proof.
  intros (Hn & _ & Hs). split; [|rewrite Hn; by apply Forall_nil]. intros i s Hi.
  destruct (Hs i s Hi) as (Hin & Hid & _ & Hp & Hf & Hw & Hl). split; try done. split; rewrite ?Hl; try done.
  eapply Forall_impl; [exact Hf|]. intros p [E1 E2]. unfold peer_ok, info_ok. by rewrite E1, E2.
Qed.

Lemma packet_ok_mono N N' x : N <= N' -> packet_ok N x -> packet_ok N' x.
Proof. intros Hle [H1 H2]. split; [by eapply message_ok_mono|done]. Qed.

Lemma node_ok_mono N N' i s : N <= N' -> node_ok N i s -> node_ok N' i s.
Proof. intros Hle [? Hok ? ?]. split; try done. by eapply server_ok_mono. Qed.

Lemma sends_elem q m out : (q, m) ∈ sends out <-> send q m ∈ out.
Proof.
  unfold sends. rewrite list_elem_of_omap. split.
  - intros (c & Hc & E). destruct c; try done. by injection E as -> ->.
  - intros Hc. by exists (send q m).
Qed.

(** What handling an enabled event does to its server. *)
Lemma handle_ok N c e s : cluster_ok N c -> N + 2 < 2 ^ 64 -> enabled e c = true ->
  nodes c !! event_node e = Some s -> ok_or only_assert (N + 1) (event_message e) s (handle e s).
Proof.
  intros Hc HN He Hs. pose proof (co_nodes _ _ Hc _ _ Hs) as Hno. pose proof (no_ok _ _ _ Hno) as Hok.
  assert (Hw : forall m r, ok_or (fun _ => False) (N + 1) m s r -> ok_or only_assert (N + 1) m s r).
  { intros m [[]|]; done. }
  destruct e as [i|i|i r|i m]; cbn [handle event_message event_node] in *.
  - by apply Hw, timeout_ok.
  - apply Hw, on_minimum_timeout_ok. eapply server_ok_mono; [|exact Hok]. lia.
  - by apply Hw, on_client_request_ok.
  - cbn in He. apply bool_decide_eq_true in He. pose proof (co_net _ _ Hc) as Hnet. rewrite Forall_forall in Hnet.
    destruct (Hnet _ He) as [Hm Hends]. cbn in Hm, Hends. apply on_message_ok; [done..|].
    destruct m as [| | |[h g]|]; cbn; try done. rewrite find_peer_None. intros Hn. apply Hn.
    rewrite (no_peers _ _ _ Hno). by eapply Hends.
Qed.

Lemma exec_inv N c e c' : cluster_ok N c -> N + 2 < 2 ^ 64 -> exec e c = Some c' ->
  enabled e c = true /\ exists s, nodes c !! event_node e = Some s /\
  ((exists s' out, handle e s = Ok (s', out) /\ handled (N + 1) (event_message e) s s' out
      /\ c' = Cluster (<[event_node e := s']> (nodes c)) (net c ++ sends out)
                      ((event_node e, role (state s'), al_term (log s')) :: history c))
   \/ (handle e s = Throw assert_failed
       /\ c' = Cluster (delete (event_node e) (nodes c)) (net c) (history c))).
Proof.
  intros Hc HN Hx. unfold exec in Hx. destruct (enabled e c) eqn:He; [|done]. split; [done|].
  destruct (nodes c !! event_node e) as [s|] eqn:Hs; [|done]. exists s. split; [done|]. cbn in Hx.
  pose proof (handle_ok N c e s Hc HN He Hs) as Hh. destruct (handle e s) as [[s' out]|x]; cbn in Hh.
  - left. exists s', out. split_and!; [done..|]. injection Hx as <-. by rewrite (read_term _ _ (hd_ok _ _ _ _ _ Hh)).
  - right. unfold only_assert in Hh. subst x. split; [done|]. by injection Hx as <-.
Qed.

Lemma exec_ok N c e c' : cluster_ok N c -> N + 2 < 2 ^ 64 -> exec e c = Some c' -> cluster_ok (N + 1) c'.
Proof.
  intros Hc HN Hx. destruct (exec_inv N c e c' Hc HN Hx) as (He & s & Hs & [(s' & out & _ & Hh & ->)|[_ ->]]).
  - pose proof (co_nodes _ _ Hc _ _ Hs) as Hno. split; cbn.
    + intros i x Hi. destruct (decide (i = event_node e)) as [->|Hne].
      * rewrite lookup_insert_eq in Hi. injection Hi as <-. destruct Hh, Hno. split; try done; congruence.
      * rewrite lookup_insert_ne in Hi by done. eapply node_ok_mono; [|by apply (co_nodes _ _ Hc)]. lia.
    + apply Forall_app. split.
      * eapply Forall_impl; [apply Hc|]. intros x. apply packet_ok_mono. lia.
      * apply Forall_forall. intros [q m] Hin. apply sends_elem in Hin. pose proof (hd_out _ _ _ _ _ Hh) as Ho.
        rewrite Forall_forall in Ho. destruct (Ho _ Hin) as [Hm Hends]. split; [done|]. cbn.
        intros i j E. destruct Hends as [E'|E']; [|congruence]. rewrite E in E'. injection E' as -> ->.
        split; [|done]. rewrite (no_id _ _ _ Hno). apply (no_member _ _ _ Hno).
  - split; cbn.
    + intros i x Hi. apply lookup_delete_Some in Hi as [_ Hi]. eapply node_ok_mono; [|by apply (co_nodes _ _ Hc)]. lia.
    + eapply Forall_impl; [apply Hc|]. intros x. apply packet_ok_mono. lia.
Qed.

Lemma runs_ok allowed n c : runs initial allowed n c -> Z.of_nat n + 1 < 2 ^ 64 -> cluster_ok (Z.of_nat n) c.
Proof.
  induction 1 as [c Hi|n c e c' Hr IH Ha Hx]; intros Hn; [by apply initial_ok|].
  replace (Z.of_nat (Datatypes.S n)) with (Z.of_nat n + 1) by lia. eapply exec_ok; [apply IH|..|exact Hx]; lia.
Qed.

End invariant.

(** ** Elections *)

Section elections.
Context {S : Type} `{StorageLaws S}.
Variable ids : list string.
Hypothesis ids_nodup : NoDup ids.

(** A granted vote of an old term is not delivered any more. *)
Definition no_stale_votes (e : event) (c : cluster S) : Prop :=
  match e with
  | ev_deliver i (m_vote_response (VoteResp h true)) =>
      forall s, nodes c !! i = Some s -> al_term (log s) <= h_term h
  | _ => True
  end.

(** [p] granted its vote of term [T] to [i]. *)
Definition granted (c : cluster S) (p i : string) (T : Z) : Prop :=
  exists h q, (q, grant h) ∈ net c /\ h_peer_id h = p /\ h_destination_id h = i /\ h_term h = T.

Definition stood (c : cluster S) (i : string) (T : Z) : Prop :=
  exists r, r <> Follower /\ (i, r, T) ∈ history c.

Definition majority : nat := 1 + length ids / 2.

Record election_ok (c : cluster S) : Prop := {
  eo_net : forall q h, (q, grant h) ∈ net c -> forall s, nodes c !! h_peer_id h = Some s -> h_term h <= al_term (log s);
  eo_unique : forall p i j T, granted c p i T -> granted c p j T -> i = j;
  eo_stood : forall i T, stood c i T ->
    (forall s, nodes c !! i = Some s -> T <= al_term (log s)) /\ forall j, ~ granted c i j T;
  eo_votes : forall i s, nodes c !! i = Some s -> role (state s) <> Follower ->
    (i, role (state s), al_term (log s)) ∈ history c
    /\ forall p, p ∈ known_peers (state s) -> voted_for_me p = true ->
         p_id p = i \/ granted c (p_id p) i (al_term (log s));
  eo_leader : forall i T, (i, Leader, T) ∈ history c ->
    exists Q, NoDup Q /\ Q ⊆ ids /\ (majority <= length Q)%nat /\ forall p, p ∈ Q -> p = i \/ granted c p i T;
}.

Lemma initial_election_ok c : initial ids c -> election_ok c.
Proof.
  destruct c as [nd nt hi]. intros (Hn & Hh & Hs). cbn in Hn, Hh, Hs. subst nt hi. unfold granted, stood. split; cbn.
  - by intros q h ?%elem_of_nil.
  - by intros p i j T (h & q & ?%elem_of_nil & _).
  - by intros i T (r & _ & ?%elem_of_nil).
  - intros i s Hi Hr. destruct (Hs i s Hi) as (_ & _ & Hf & _). done.
  - by intros i T ?%elem_of_nil.
Qed.

Lemma filter_ids (ps : list peer_info_t) :
  NoDup (map p_id ps) -> NoDup (map p_id (filter (fun p => voted_for_me p = true) ps)).
Proof.
  intros Hn. eapply sublist_NoDup; [exact Hn|]. apply fmap_sublist, sublist_filter.
Qed.

(** The voters of a server with a quorum. *)
Lemma quorum_of (s : server S) :
  map p_id (known_peers (state s)) = ids -> has_quorum s ->
  exists Q, NoDup Q /\ Q ⊆ ids /\ (majority <= length Q)%nat
    /\ forall x, x ∈ Q -> exists p, p ∈ known_peers (state s) /\ p_id p = x /\ voted_for_me p = true.
Proof.
  intros Hids Hq. exists (map p_id (filter (fun p => voted_for_me p = true) (known_peers (state s)))).
  split_and!.
  - apply filter_ids. by rewrite Hids.
  - intros x Hx. rewrite <- Hids. apply list_elem_of_fmap in Hx as (p & -> & Hp).
    apply list_elem_of_fmap. exists p. split; [done|]. by apply list_elem_of_filter in Hp as [_ Hp].
  - rewrite length_map. unfold majority. unfold has_quorum, num_votes in Hq.
    by rewrite <- (length_map p_id (known_peers (state s))), Hids in Hq.
  - intros x Hx. apply list_elem_of_fmap in Hx as (p & -> & Hp). apply list_elem_of_filter in Hp as [Hv Hp].
    by exists p.
Qed.

(** Two majorities meet. *)
Lemma majorities_meet (Q1 Q2 : list string) :
  NoDup Q1 -> NoDup Q2 -> Q1 ⊆ ids -> Q2 ⊆ ids -> (majority <= length Q1)%nat -> (majority <= length Q2)%nat ->
  exists q, q ∈ Q1 /\ q ∈ Q2.
Proof.
  intros N1 N2 S1 S2 L1 L2. destruct (decide (Exists (fun q => q ∈ Q2) Q1)) as [He|Hn].
  { apply Exists_exists in He as (q & ? & ?). by exists q. }
  exfalso. assert (Hnd : NoDup (Q1 ++ Q2)).
  { apply NoDup_app. split_and!; [done| |done]. intros q Hq1 Hq2. apply Hn, Exists_exists. by exists q. }
  assert (Hsub : (length (Q1 ++ Q2) <= length ids)%nat).
  { apply submseteq_length, NoDup_submseteq; [done|]. intros q [?|?]%elem_of_app; auto. }
  rewrite length_app in Hsub. unfold majority in *. pose proof (Nat.div_mod_eq (length ids) 2).
  pose proof (Nat.mod_upper_bound (length ids) 2). lia.
Qed.

Lemma at_most_one_leader c i j T :
  election_ok c -> (i, Leader, T) ∈ history c -> (j, Leader, T) ∈ history c -> i = j.
Proof.
  intros He Hi Hj.
  destruct (eo_leader _ He i T Hi) as (Q1 & N1 & S1 & L1 & G1).
  destruct (eo_leader _ He j T Hj) as (Q2 & N2 & S2 & L2 & G2).
  destruct (majorities_meet Q1 Q2) as (q & Hq1 & Hq2); try done.
  assert (Hsi : stood c i T) by (by exists Leader). assert (Hsj : stood c j T) by (by exists Leader).
  pose proof (G1 q Hq1) as D1. pose proof (G2 q Hq2) as D2.
  destruct D1 as [E1|Hg1], D2 as [E2|Hg2]; [congruence|subst q..|].
  - by destruct (proj2 (eo_stood _ He _ _ Hsi) j).
  - by destruct (proj2 (eo_stood _ He _ _ Hsj) i).
  - by eapply (eo_unique _ He).
Qed.

Lemma delivered_grant c e h :
  event_message e = Some (grant h) -> enabled e c = true -> no_stale_votes e c ->
  (event_node e, grant h) ∈ net c /\ forall s, nodes c !! event_node e = Some s -> al_term (log s) <= h_term h.
Proof.
  destruct e as [| |x r|x m]; try done; cbn. intros [= ->] Hen%bool_decide_eq_true. done.
Qed.

(** One event handled by a server, as the elections see it. *)
Section step.
Variables (N : Z) (c : cluster S) (e : event) (s s' : server S) (out : list callback).
Hypothesis Hc : cluster_ok ids N c.
Hypothesis He : election_ok c.
Hypothesis Hen : enabled e c = true.
Hypothesis Hallow : no_stale_votes e c.
Hypothesis Hs : nodes c !! event_node e = Some s.
Hypothesis Hh : handled (N + 1) (event_message e) s s' out.

Let i := event_node e.
Let c' := Cluster (<[i := s']> (nodes c)) (net c ++ sends out) ((i, role (state s'), al_term (log s')) :: history c).

Lemma step_id : id (state s) = i.
Proof. apply (no_id _ _ _ _ (co_nodes _ _ _ Hc _ _ Hs)). Qed.

Lemma granted_mono p j T : granted c p j T -> granted c' p j T.
Proof. intros (h & q & Hin & ?). exists h, q. split; [|done]. cbn. apply elem_of_app. by left. Qed.

(** A vote granted in this event. *)
Lemma new_grant q h : send q (grant h) ∈ out ->
  h_peer_id h = i /\ h_destination_id h = q /\ h_term h = al_term (log s') /\ al_term (log s) < al_term (log s')
  /\ role (state s') = Follower /\ forall q' h', send q' (grant h') ∈ out -> q' = q /\ h' = h.
Proof.
  intros Hin. destruct (hd_grant _ _ _ _ _ Hh q h Hin) as (Eo & Ht & Hlt & Hr).
  pose proof (hd_out _ _ _ _ _ Hh) as Ho. rewrite Forall_forall in Ho. destruct (Ho _ Hin) as [_ [E|E]]; [|done].
  cbn in E. injection E as E1 E2. rewrite step_id in E1. split_and!; try done.
  intros q' h' Hin'. rewrite Eo in Hin'. rewrite !elem_of_cons, elem_of_nil in Hin'.
  by destruct Hin' as [?|[[= -> ->]|[]]].
Qed.

Lemma granted_inv p j T : granted c' p j T ->
  granted c p j T \/ (p = i /\ exists h q, send q (grant h) ∈ out /\ h_destination_id h = j /\ h_term h = T).
Proof.
  intros (h & q & Hin & Ep & Ej & ET). cbn in Hin. apply elem_of_app in Hin as [Hin|Hin].
  - left. by exists h, q.
  - right. apply sends_elem in Hin. destruct (new_grant q h Hin) as (E & _). split; [congruence|]. by exists h, q.
Qed.

(** Everything [i] granted before lies at or below its old term. *)
Lemma old_grant_term j T : granted c i j T -> T <= al_term (log s).
Proof. intros (h & q & Hin & Ep & _ & <-). apply (eo_net _ He q h Hin). by rewrite Ep. Qed.

Lemma old_stood_term T : stood c i T -> T <= al_term (log s).
Proof. intros Hst. exact (proj1 (eo_stood _ He i T Hst) s Hs). Qed.

Lemma step_net q h x : (q, grant h) ∈ net c' -> nodes c' !! h_peer_id h = Some x -> h_term h <= al_term (log x).
Proof.
  cbn. intros [Hin|Hin]%elem_of_app Hx.
  - destruct (decide (h_peer_id h = i)) as [E|E].
    + rewrite E, lookup_insert_eq in Hx. injection Hx as <-. pose proof (hd_term _ _ _ _ _ Hh).
      transitivity (al_term (log s)); [|done]. apply (eo_net _ He q h Hin). by rewrite E.
    + rewrite lookup_insert_ne in Hx by done. by eapply (eo_net _ He).
  - apply sends_elem in Hin. destruct (new_grant q h Hin) as (E & _ & Ht & _).
    rewrite E, lookup_insert_eq in Hx. injection Hx as <-. lia.
Qed.

Lemma step_unique p j k T : granted c' p j T -> granted c' p k T -> j = k.
Proof.
  intros [Hj|(-> & h & q & Hin & Ej & ET)]%granted_inv [Hk|(E & h' & q' & Hin' & Ek & ET')]%granted_inv.
  - by eapply (eo_unique _ He).
  - subst p. destruct (new_grant q' h' Hin') as (_ & _ & Ht & Hlt & _). pose proof (old_grant_term _ _ Hj). lia.
  - destruct (new_grant q h Hin) as (_ & _ & Ht & Hlt & _). pose proof (old_grant_term _ _ Hk). lia.
  - destruct (new_grant q h Hin) as (_ & _ & _ & _ & _ & Hu). destruct (Hu q' h' Hin') as [_ ->]. congruence.
Qed.

(** The role taken in this event: the same candidacy or leadership, a new
    candidacy in the next term, or one more vote of the current term. *)
Lemma step_role : role (state s') <> Follower ->
  (forall j, ~ granted c' i j (al_term (log s')))
  /\ (forall p, p ∈ known_peers (state s') -> voted_for_me p = true ->
        p_id p = i \/ granted c' (p_id p) i (al_term (log s')))
  /\ (role (state s') = Leader -> (i, Leader, al_term (log s')) ∈ history c \/ has_quorum s').
Proof.
  intros Hr.
  assert (Hng : forall j T, granted c' i j T -> granted c i j T).
  { intros j T [?|(_ & h & q & Hin & _)]%granted_inv; [done|].
    destruct (new_grant q h Hin) as (_ & _ & _ & _ & Hf & _). done. }
  assert (Hold : role (state s) <> Follower ->
    forall j, ~ granted c i j (al_term (log s))).
  { intros Hr0 j. apply (eo_stood _ He). exists (role (state s)). split; [done|]. by apply (eo_votes _ He). }
  destruct (hd_role _ _ _ _ _ Hh) as [Hf|Hr0 Htm Hv|Hr0 Htm Hv|h Hm Hd Hle Hr0 Htm Hv Hr'].
  - done.
  - rewrite Hr0 in Hr. rewrite Htm. split_and!.
    + intros j Hg. by eapply Hold, Hng.
    + intros p Hin Hvp. destruct (Hv p Hin Hvp) as (p0 & Hp0 & E0 & Hv0).
      destruct (proj2 (eo_votes _ He i s Hs Hr) p0 Hp0 Hv0) as [?|Hg]; [left; congruence|right].
      rewrite <- E0. by apply granted_mono.
    + intros Hl. left. rewrite <- Hl, Hr0. by apply (eo_votes _ He).
  - rewrite Htm. split_and!.
    + intros j Hg%Hng. pose proof (old_grant_term _ _ Hg). lia.
    + intros p Hin Hvp. left. rewrite <- step_id. by apply Hv.
    + congruence.
  - assert (Hne : role (state s) <> Follower) by congruence. rewrite Htm. split_and!.
    + intros j Hg. by eapply Hold, Hng.
    + intros p Hin Hvp. destruct (decide (p_id p = h_peer_id h)) as [E|E].
      * right. rewrite E. apply granted_mono. destruct (delivered_grant c e h Hm Hen Hallow) as [Hin' Ht'].
        specialize (Ht' s Hs). exists h, i. split_and!; [done|done|by rewrite Hd, step_id|lia].
      * destruct (Hv p Hin Hvp E) as (p0 & Hp0 & E0 & Hv0).
        destruct (proj2 (eo_votes _ He i s Hs Hne) p0 Hp0 Hv0) as [?|Hg]; [left; congruence|right].
        rewrite <- E0. by apply granted_mono.
    + intros Hl. right. by destruct Hr' as [?|[_ ?]]; [congruence|].
Qed.

Lemma stood_inv j T : stood c' j T ->
  stood c j T \/ (j = i /\ T = al_term (log s') /\ role (state s') <> Follower).
Proof.
  intros (r & Hr & Hin). cbn in Hin. apply elem_of_cons in Hin as [[= -> -> ->]|Hin]; [by right|].
  left. by exists r.
Qed.

Lemma step_stood j T : stood c' j T ->
  (forall x, nodes c' !! j = Some x -> T <= al_term (log x)) /\ forall k, ~ granted c' j k T.
Proof.
  intros [Hst|(-> & -> & Hr)]%stood_inv.
  - split.
    + intros x Hx. destruct (decide (j = i)) as [->|Hne].
      * cbn in Hx. rewrite lookup_insert_eq in Hx. injection Hx as <-. pose proof (old_stood_term _ Hst).
        pose proof (hd_term _ _ _ _ _ Hh). lia.
      * cbn in Hx. rewrite lookup_insert_ne in Hx by done. by apply (eo_stood _ He j T Hst).
    + intros k [Hg|(-> & h & q & Hin & _ & ET)]%granted_inv; [by eapply (eo_stood _ He j T Hst)|].
      destruct (new_grant q h Hin) as (_ & _ & Ht & Hlt & _). pose proof (old_stood_term _ Hst). lia.
  - split; [|by apply step_role]. intros x Hx. cbn in Hx. rewrite lookup_insert_eq in Hx. by injection Hx as <-.
Qed.

Lemma step_votes j x : nodes c' !! j = Some x -> role (state x) <> Follower ->
  (j, role (state x), al_term (log x)) ∈ history c'
  /\ forall p, p ∈ known_peers (state x) -> voted_for_me p = true ->
       p_id p = j \/ granted c' (p_id p) j (al_term (log x)).
Proof.
  intros Hx Hr. cbn in Hx. destruct (decide (j = i)) as [->|Hne].
  - rewrite lookup_insert_eq in Hx. injection Hx as <-. split; [by left|]. by apply step_role.
  - rewrite lookup_insert_ne in Hx by done. destruct (eo_votes _ He j x Hx Hr) as [Hin Hv].
    split; [by right|]. intros p Hp Hvp. destruct (Hv p Hp Hvp); [by left|right]. by apply granted_mono.
Qed.

Lemma step_leader j T : (j, Leader, T) ∈ history c' ->
  exists Q, NoDup Q /\ Q ⊆ ids /\ (majority <= length Q)%nat /\ forall p, p ∈ Q -> p = j \/ granted c' p j T.
Proof.
  assert (Hlift : (j, Leader, T) ∈ history c -> exists Q, NoDup Q /\ Q ⊆ ids /\ (majority <= length Q)%nat
    /\ forall p, p ∈ Q -> p = j \/ granted c' p j T).
  { intros Hin. destruct (eo_leader _ He j T Hin) as (Q & ? & ? & ? & HQ). exists Q. split_and!; try done.
    intros p Hp. destruct (HQ p Hp); [by left|right]. by apply granted_mono. }
  intros Hin. cbn in Hin. apply elem_of_cons in Hin as [[= -> Hl ->]|Hin]; [|by apply Hlift].
  destruct step_role as (_ & Hv & Hq); [congruence|]. destruct (Hq (eq_sym Hl)) as [Hin|Hquo]; [by apply Hlift|].
  pose proof (co_nodes _ _ _ Hc _ _ Hs) as Hno.
  destruct (quorum_of s') as (Q & ? & ? & ? & HQ); [by rewrite (hd_peers _ _ _ _ _ Hh), (no_peers _ _ _ _ Hno)|done|].
  exists Q. split_and!; try done. intros x Hx. destruct (HQ x Hx) as (p & Hp & <- & Hvp). by apply Hv.
Qed.

Lemma step_election_ok : election_ok c'.
Proof.
  split.
  - intros q h Hin x Hx. by eapply step_net.
  - apply step_unique.
  - apply step_stood.
  - apply step_votes.
  - apply step_leader.
Qed.

End step.

Lemma crash_election_ok (c : cluster S) i :
  election_ok c -> election_ok (Cluster (delete i (nodes c)) (net c) (history c)).
Proof.
  intros [H1 H2 H3 H4 H5]. split; cbn; try done.
  - intros q h Hin s Hx. apply lookup_delete_Some in Hx as [_ Hx]. by eapply H1.
  - intros j T Hst. destruct (H3 j T Hst) as [Ht Hg]. split; [|done]. intros s Hx.
    apply lookup_delete_Some in Hx as [_ Hx]. by apply Ht.
  - intros j s Hx. apply lookup_delete_Some in Hx as [_ Hx]. by apply H4.
Qed.

Lemma runs_election_ok n c : runs (initial ids) no_stale_votes n c -> Z.of_nat n + 1 < 2 ^ 64 -> election_ok c.
Proof.
  induction 1 as [c Hi|n c e c' Hr IH Ha Hx]; intros Hn; [by apply initial_election_ok|].
  assert (Hok : cluster_ok ids (Z.of_nat n) c) by (eapply runs_ok; [exact Hr|lia]).
  destruct (exec_inv ids _ c e c' Hok ltac:(lia) Hx) as (He & s & Hs & [(s' & out & _ & Hh & ->)|[_ ->]]).
  - eapply step_election_ok; try done. apply IH. lia.
  - apply crash_election_ok, IH. lia.
Qed.

End elections.

(** ** The rule of commitment *)

Definition matching (c : Z) (v : State) : nat :=
  length (filter (fun p => c <= index (match_entry p)) (known_peers v)).

Lemma sort_desc_sorted l : Sorted (fun x y => y <= x) (sort_desc l).
Proof. apply Sorted_merge_sort. intros x y. lia. Qed.

Lemma sorted_filter_ge (l : list Z) k c :
  StronglySorted (fun x y => y <= x) l -> l !! k = Some c ->
  (k + 1 <= length (filter (fun x => (c <= x)%Z) l))%nat
  /\ forall c', (c < c')%Z -> (length (filter (fun x => (c' <= x)%Z) l) <= k)%nat.
Proof.
  revert k. induction l as [|x l IH]; intros k Hs Hk; [done|].
  apply StronglySorted_inv in Hs as [Hs Hx]. rewrite filter_cons. destruct k as [|k]; cbn in Hk.
  - injection Hk as ->. rewrite decide_True by lia. split; [cbn; lia|]. intros c' Hc'.
    rewrite filter_cons, decide_False by lia. rewrite Forall_forall in Hx.
    destruct (filter (fun x => (c' <= x)%Z) l) as [|y l'] eqn:E; [done|].
    assert (Hy : y ∈ filter (fun x => (c' <= x)%Z) l) by (rewrite E; by left).
    apply list_elem_of_filter in Hy as [Hy Hin]. specialize (Hx y Hin). lia.
  - destruct (IH k Hs Hk) as [H1 H2]. assert (Hcx : (c <= x)%Z).
    { rewrite Forall_forall in Hx. apply Hx. by eapply list_elem_of_lookup_2. }
    rewrite decide_True by done. split; [cbn; lia|]. intros c' Hc'. specialize (H2 c' Hc').
    rewrite filter_cons. case_decide; cbn; lia.
Qed.

Lemma matching_sorted c v :
  matching c v = length (filter (fun x => (c <= x)%Z) (sort_desc (map (fun p => index (match_entry p)) (known_peers v)))).
Proof.
  unfold matching. rewrite sort_desc_perm. induction (known_peers v) as [|p ps IH]; [done|].
  cbn [map]. rewrite !filter_cons. case_decide; cbn [length]; congruence.
Qed.

(** The index a leader commits up to is the largest one that a majority of
    the peers, the leader among them, is known to hold. *)
Theorem new_commit_majority v c :
  new_commit_index v = Ok c ->
  (length (known_peers v) / 2 + 1 <= matching c v)%nat
  /\ forall c', (c < c')%Z -> (matching c' v <= length (known_peers v) / 2)%nat.
Proof.
  unfold new_commit_index, vec_at. rewrite (proj2 (Z.ltb_ge _ _)), Nat2Z.id by lia.
  destruct (_ !! _) as [x|] eqn:Ex; [|done]. intros [= ->].
  pose proof (sort_desc_sorted (map (fun p => index (match_entry p)) (known_peers v))) as Hs.
  apply Sorted_StronglySorted in Hs; [|intros x y z; lia].
  destruct (sorted_filter_ge _ _ _ Hs Ex) as [H1 H2]. rewrite matching_sorted. split; [done|].
  intros c' Hc'. rewrite matching_sorted. by apply H2.
Qed.

Definition sample_peers (ids : list string) : list peer_info_t := map (fun i => new_peer i "" 0 0) ids.

Lemma new_commit_majority_witness :
  let v := set_peers [set_match_index 3 (new_peer "a" "" 0 0); set_match_index 1 (new_peer "b" "" 0 0);
                      set_match_index 2 (new_peer "c" "" 0 0)] (new_state "a" []) in
  new_commit_index v = Ok 2 /\ (2 <= matching 2 v)%nat.
Proof.
  intros v. split; [vm_compute; reflexivity|].
  exact (proj1 (new_commit_majority v 2 ltac:(vm_compute; reflexivity))).
Defined.

(** ** What holds of every run *)

(** C2: in every run of a cluster shorter than 2^64 - 3 events, whatever the
    network delays, repeats, reorders or loses, handling the next event never
    exits, never dereferences null and never leaves a vector: the only way a
    server ends is the assertion on the commit terms.  A server that goes on keeps
    its committed entries, its commit index and its term do not go back, and its
    log and counters stay well formed. *)
Theorem raft_servers_safe {S} `{StorageLaws S} ids n c e s :
  runs (initial ids) any_event n c -> Z.of_nat n + 3 < 2 ^ 64 ->
  enabled e c = true -> nodes c !! event_node e = Some s ->
  match handle e s with
  | Ok (s', out) => server_ok (Z.of_nat n + 1) s' /\ log_extends (log s) (log s') /\ al_term (log s) <= al_term (log s')
  | Throw x => x = assert_failed
  end.
Proof.
  intros Hr Hn He Hs. assert (Hok : cluster_ok ids (Z.of_nat n) c) by (eapply runs_ok; [exact Hr|lia]).
  pose proof (handle_ok ids _ c e s Hok ltac:(lia) He Hs) as Hh. destruct (handle e s) as [[s' out]|x]; [|done].
  destruct Hh. by split_and!.
Qed.

(** C1: election safety.  In every run shorter than 2^64 - 1 events in which no
    granted vote of an earlier term is delivered, every term has at most one
    leader. *)
Theorem one_leader_per_term {S} `{StorageLaws S} ids n c i j T :
  NoDup ids -> runs (initial ids) no_stale_votes n c -> Z.of_nat n + 1 < 2 ^ 64 ->
  (i, Leader, T) ∈ history c -> (j, Leader, T) ∈ history c -> i = j.
Proof. intros Hd Hr Hn. eapply at_most_one_leader. by eapply runs_election_ok. Qed.

(** ** Runs of three servers on MemStorage *)

Definition sample_ids : list string := ["a"; "b"; "c"].

Definition sample_cluster : cluster MemStorage :=
  Cluster (list_to_map (map (fun i => (i, new_server i (sample_peers sample_ids) new_mem_storage)) sample_ids)) [] [].

Lemma sample_cluster_initial : initial sample_ids sample_cluster.
Proof.
  split; [done|split; [done|]]. intros i s Hi.
  apply elem_of_list_to_map_2, list_elem_of_fmap in Hi as (j & [= -> ->] & Hj). split; [done|].
  split_and!; try done.
  by repeat constructor.
Qed.

(** The messages of an election and of a heartbeat, as the servers build them. *)
Definition sample_header (from to : string) (mid t : Z) (ls : LogState) : MessageHeader := Header from to mid t ls.
Definition empty_log : LogState := LogSt (Info 0 0) (Info 0 0).
Definition vote_request (from to : string) (mid t : Z) : event :=
  ev_deliver to (m_vote_request (VoteReq (Header from to mid t empty_log))).
Definition vote_granted_to (from to : string) (mid t : Z) : event :=
  ev_deliver to (m_vote_response (VoteResp (Header from to mid t empty_log) true)).

(** [a] stands in term 1 and is granted the vote of [b]; before that vote
    arrives, [a] stands again and [b] stands too and wins term 2. *)
Definition stale_vote_run : list event :=
  [ev_timeout "a"; vote_request "a" "b" 1 1; ev_timeout "a"; ev_timeout "b"; vote_request "b" "c" 1 2;
   vote_granted_to "c" "b" 1 2; vote_granted_to "b" "a" 1 1].

Definition election_run : list event :=
  [ev_timeout "a"; vote_request "a" "b" 1 1; vote_granted_to "b" "a" 1 1].

Fixpoint all_allowed {S} `{Storage S} (ok : event -> cluster S -> bool) (es : list event) (c : cluster S) : bool :=
  match es with
  | [] => true
  | e :: es' => ok e c && match exec e c with Some c' => all_allowed ok es' c' | None => false end
  end.

Lemma exec_all_runs {S} `{Storage S} init (allowed : event -> cluster S -> Prop) (ok : event -> cluster S -> bool) :
  (forall e c, ok e c = true -> allowed e c) ->
  forall es n c c', runs init allowed n c -> all_allowed ok es c = true -> exec_all es c = Some c' ->
  runs init allowed (n + length es) c'.
Proof.
  intros Hok es. induction es as [|e es IH]; intros n c c' Hr Ha Hx; cbn in Ha, Hx.
  - injection Hx as <-. by rewrite Nat.add_0_r.
  - apply andb_prop in Ha as [Ha Has]. destruct (exec e c) as [c1|] eqn:E; [|done]. cbn in Hx.
    replace (n + length (e :: es))%nat with (Datatypes.S n + length es)%nat by (cbn; lia).
    eapply IH; [|exact Has|exact Hx]. eapply runs_step; [exact Hr|by apply Hok|exact E].
Qed.

Definition stale_vote_free (e : event) (c : cluster MemStorage) : bool :=
  match e with
  | ev_deliver i (m_vote_response (VoteResp h true)) =>
      match nodes c !! i with Some s => current_term_ (storage s) <=? h_term h | None => true end
  | _ => true
  end.

Lemma stale_vote_free_ok e c : stale_vote_free e c = true -> no_stale_votes e c.
Proof.
  destruct e as [| | |i [| | |[h []]|]]; try done. cbn. intros Hc s Hs. rewrite Hs in Hc. by apply Z.leb_le in Hc.
Qed.

Lemma sample_run (ok : event -> cluster MemStorage -> bool) allowed es c :
  (forall e c, ok e c = true -> allowed e c) ->
  all_allowed ok es sample_cluster = true -> exec_all es sample_cluster = Some c ->
  runs (initial sample_ids) allowed (length es) c.
Proof.
  intros Hok Ha Hx. apply (exec_all_runs _ _ ok Hok es 0 sample_cluster); try done.
  constructor. apply sample_cluster_initial.
Qed.

Definition after (es : list event) : cluster MemStorage :=
  match exec_all es sample_cluster with Some c => c | None => sample_cluster end.

Lemma one_leader_per_term_witness :
  ("a", Leader, 1) ∈ history (after election_run)
  /\ forall j, (j, Leader, 1) ∈ history (after election_run) -> "a" = j.
Proof.
  split; [vm_compute; left|]. intros j.
  apply (one_leader_per_term sample_ids 3 (after election_run) "a" j 1).
  - by apply (bool_decide_eq_true_1 (NoDup sample_ids)).
  - apply (sample_run stale_vote_free no_stale_votes election_run); [apply stale_vote_free_ok|vm_compute; reflexivity|vm_compute; reflexivity].
  - done.
  - vm_compute. left.
Defined.

Lemma raft_servers_safe_witness :
  exists s, nodes (after election_run) !! "a" = Some s
    /\ match handle (ev_client "a" (ClientReq "x" "1" "flow")) s with
       | Ok (s', _) => server_ok 4 s' /\ log_extends (log s) (log s') /\ al_term (log s) <= al_term (log s')
       | Throw x => x = assert_failed
       end.
Proof.
  eexists. split; [vm_compute; reflexivity|].
  apply (raft_servers_safe sample_ids 3 (after election_run) (ev_client "a" (ClientReq "x" "1" "flow"))).
  - apply (sample_run (fun _ _ => true) any_event election_run); [done|vm_compute; reflexivity|vm_compute; reflexivity].
  - done.
  - done.
  - vm_compute; reflexivity.
Defined.

(** C39: the handlers alone do not ensure election safety.  There is a run of
    seven events after which two servers have been leader of the same term: a candidate counts the vote it was granted in
    an earlier term. *)
Theorem stale_vote_two_leaders :
  exists c, runs (initial sample_ids) any_event 7 c
    /\ ("a", Leader, 2) ∈ history c /\ ("b", Leader, 2) ∈ history c.
Proof.
  exists (after stale_vote_run). split.
  - apply (sample_run (fun _ _ => true) any_event stale_vote_run); [done|vm_compute; reflexivity|vm_compute; reflexivity].
  - vm_compute. split; [left|right; left].
Qed.

(** [a] leads term 1 and takes the entry "x"; [b] wins term 2 with [c] and takes
    "y"; [a] acknowledges a heartbeat without entries, and [b] counts the
    acknowledged index, 1, as its own entry 1. *)
Definition divergence_run : list event :=
  election_run ++
  [ev_client "a" (ClientReq "client" "1" "x");
   ev_timeout "b"; vote_request "b" "c" 1 2; vote_granted_to "c" "b" 1 2;
   ev_client "b" (ClientReq "client" "2" "y");
   ev_deliver "a" (m_append_request (AppendReq (Header "b" "a" 2 2 empty_log) (Info 0 0) []));
   ev_deliver "b" (m_append_response (AppendResp (Header "a" "b" 2 2 (LogSt (Info 0 0) (Info 1 1))) true));
   ev_timeout "b";
   ev_deliver "a" (m_append_request (AppendReq (Header "b" "a" 2 2 (LogSt (Info 1 2) (Info 1 2))) (Info 1 0) []))].

Definition committed {S} `{StorageLaws S} (s : server S) : list Entry :=
  take (Z.to_nat (al_commit (log s))) (al_entries (log s)).

(** C40: the handlers do not ensure state machine safety either.  There is a run
    of three servers without stale votes, in which none of them is lost, after
    which two have committed different entries under the same index: a follower
    acknowledges by the length of its log, whatever the terms of its entries. *)
Theorem committed_entries_diverge :
  exists n c a b, runs (initial ["a"; "b"; "c"]) no_stale_votes n c
    /\ (forall i, i ∈ ["a"; "b"; "c"] -> is_Some (nodes c !! i))
    /\ nodes c !! "a" = Some a /\ nodes c !! "b" = Some b
    /\ committed a = [Ent (Info 1 1) "x"] /\ committed b = [Ent (Info 1 2) "y"].
Proof.
  exists (length divergence_run), (after divergence_run). eexists _, _. split_and!.
  - apply (sample_run stale_vote_free no_stale_votes divergence_run);
      [apply stale_vote_free_ok|vm_compute; reflexivity|vm_compute; reflexivity].
  - apply Forall_forall. repeat (apply Forall_cons; split; [eexists; vm_compute; reflexivity|]). done.
  - vm_compute; reflexivity.
  - vm_compute; reflexivity.
  - vm_compute; reflexivity.
  - vm_compute; reflexivity.
Qed.
