(* ===== verification/Addresses.v ===== *)
(** * Network addresses (src/types/ethaddr.cc, IPv4Addr.cc, IPv6Addr.cc)

    The three address classes are bitsets of 48, 32 and 128 bits.  Parsing is
    std::regex_match with capture groups, by backtracking over the pattern's
    atoms in the priority order of ECMAScript; an exception that leaves a
    [noexcept] function is [std_terminate]. *)

From S2P Require Import Prelude Bits Regex.
Local Open Scope Z_scope.

Inductive addr_error :=
| bad_representation
| std_out_of_range
| std_terminate.

#[export] Instance addr_error_eq_dec : EqDecision addr_error.
Proof. solve_decision. Defined.

(** A function declared [noexcept]. *)
Definition noexcept {A} (r : res addr_error A) : res addr_error A :=
  match r with Ok a => Ok a | Throw _ => Throw std_terminate end.

(** ** Patterns with capture groups *)

(** [atom_one p] is one character of a class, [atom_group p m n] the group
    [(p{m,n})], greedy. *)
Inductive atom :=
| atom_one (p : ascii -> bool)
| atom_group (p : ascii -> bool) (m n : nat).

(** The first of n, n - 1, ..., m for which the continuation matches. *)
Fixpoint try_counts {A} (m n : nat) (f : nat -> option A) : option A :=
  match f n with
  | Some a => Some a
  | None => match n with
            | O => None
            | S k => if bool_decide (m <= k)%nat then try_counts m k f else None
            end
  end.

(** [std::regex_match(s, match, pattern)]: the captured groups. *)
Fixpoint match_atoms (l : list atom) (s : list ascii) : option (list (list ascii)) :=
  match l with
  | [] => match s with [] => Some [] | _ => None end
  | atom_one p :: l' =>
      match s with
      | c :: s' => if p c then match_atoms l' s' else None
      | [] => None
      end
  | atom_group p m n :: l' =>
      try_counts m n (fun k =>
        if bool_decide (k <= length s)%nat && forallb p (take k s)
        then match match_atoms l' (drop k s) with
             | Some gs => Some (take k s :: gs)
             | None => None
             end
        else None)
  end.

Definition is_char (c : ascii) : ascii -> bool := fun x => bool_decide (x = c).

(** A group, then a separator and a group n times. *)
Fixpoint separated (n : nat) (g sep : atom) : list atom :=
  match n with
  | O => [g]
  | S k => g :: sep :: separated k g sep
  end.

(** [res <<= w; res |= (uintw_t) std::stoi(match[oct], 0, base)] *)
Definition push_group (w base res : Z) (g : list ascii) : Z :=
  Z.lor (Z.shiftl res w) (wrap w (stoi base g)).
Definition groups_value (w base : Z) (gs : list (list ascii)) : Z := fold_left (push_group w base) gs 0.

(** ** class ethaddr *)

Definition mac_group : atom := atom_group is_xdigit 2 2.
Definition mac_pattern_colon : list atom := separated 5 mac_group (atom_one (is_char ":"%char)).
Definition mac_pattern_dash : list atom := separated 5 mac_group (atom_one (is_char "-"%char)).
Definition mac_pattern_dots : list atom :=
  [mac_group; mac_group; atom_one is_any; mac_group; mac_group; atom_one is_any; mac_group; mac_group].

(** The 18 groups of the alternation: those of the other alternatives are empty. *)
Definition mac_match (s : list ascii) : option (list (list ascii)) :=
  match match_atoms mac_pattern_colon s with
  | Some gs => Some (gs ++ replicate 12 [])
  | None =>
      match match_atoms mac_pattern_dash s with
      | Some gs => Some (replicate 6 [] ++ gs ++ replicate 6 [])
      | None =>
          match match_atoms mac_pattern_dots s with
          | Some gs => Some (replicate 12 [] ++ gs)
          | None => None
          end
      end
  end.

Definition parse_mac (s : list ascii) : res addr_error Z :=
  match mac_match s with
  | None => Throw bad_representation
  | Some m =>
      let base := if bool_decide (0 < length (m !!! 0%nat))%nat then 0%nat
                  else if bool_decide (0 < length (m !!! 6%nat))%nat then 6%nat else 12%nat in
      Ok (groups_value 8 16 (take 6 (drop base m)))
  end.

Definition ethaddr_of_string (s : list ascii) : res addr_error bits :=
  v ← parse_mac s; Ok (bits_of_ull 48 v).

Definition ethaddr_of_number (num : Z) : res addr_error bits :=
  if negb (Z.land num 0xffff000000000000 =? 0) then Throw bad_representation
  else Ok (bits_of_ull 48 num).

Definition ethaddr_of_octets (o : list Z) : bits :=
  bits_of_ull 48
    (Z.lor (Z.lor (Z.lor (Z.lor (Z.lor
      (Z.shiftl (o !!! 0%nat) 40) (Z.shiftl (o !!! 1%nat) 32)) (Z.shiftl (o !!! 2%nat) 24))
      (Z.shiftl (o !!! 3%nat) 16)) (Z.shiftl (o !!! 4%nat) 8)) (o !!! 5%nat)).

(** [(uint8_t) ((num & mask) >> shift)] *)
Definition octet_at (num mask shift : Z) : Z := u8 (Z.shiftr (Z.land num mask) shift).

Definition ethaddr_to_octets (a : bits) : list Z :=
  let num := to_ullong a in
  [octet_at num 0xff0000000000 40; octet_at num 0xff00000000 32; octet_at num 0xff000000 24;
   octet_at num 0xff0000 16; octet_at num 0xff00 8; octet_at num 0xff 0].

Definition ethaddr_is_broadcast (a : bits) : bool := bits_all a.
Definition ethaddr_is_multicast (a : bits) : bool := bits_test a (48 - 8).
Definition ethaddr_is_unicast (a : bits) : bool := negb (bits_test a (48 - 8)).
Definition ethaddr_is_locally_administered (a : bits) : bool := bits_test a (48 - 7).

(** Groups joined by a separator character. *)
Fixpoint join (sep : ascii) (gs : list (list ascii)) : list ascii :=
  match gs with
  | [] => []
  | [g] => g
  | g :: gs' => g ++ sep :: join sep gs'
  end.

(** [%02x] *)
Definition show_02x (n : Z) : list ascii :=
  let d := show_base 16 n in replicate (2 - length d) "0"%char ++ d.

Definition ethaddr_print (a : bits) : list ascii := join ":"%char (map show_02x (ethaddr_to_octets a)).

(** [operator>>]: white space is skipped and 17 characters are read.  If there are fewer,
    the buffer is read where nothing was written. *)
Inductive extraction := extracted (addr : bits) (rest : list ascii) | extraction_failed (rest : list ascii) | extraction_indeterminate.
Definition mac_str_size : nat := 2 * 6 + (6 - 1) + 1.
Definition ethaddr_extract (s : list ascii) : extraction :=
  match skip_ws s with
  | [] => extraction_failed []
  | s =>
      if (length s <? mac_str_size - 1)%nat then extraction_indeterminate
      else match ethaddr_of_string (take (mac_str_size - 1) s) with
           | Ok addr => extracted addr (drop (mac_str_size - 1) s)
           | Throw _ => extraction_failed (drop (mac_str_size - 1) s)
           end
  end.

(** ** class IPv4Addr *)

Definition ipv4_pattern : list atom := separated 3 (atom_group is_digit 1 3) (atom_one is_any).

Definition parse_ipv4 (s : list ascii) : res addr_error Z :=
  match match_atoms ipv4_pattern s with
  | None => Throw bad_representation
  | Some m => Ok (groups_value 8 10 m)
  end.

Definition ipv4_of_string (s : list ascii) : res addr_error bits :=
  v ← parse_ipv4 s; Ok (bits_of_ull 32 v).
Definition ipv4_of_number (num : Z) : bits := bits_of_ull 32 num.
Definition ipv4_of_octets (o : list Z) : bits :=
  bits_of_ull 32
    (Z.lor (Z.lor (Z.lor (Z.shiftl (o !!! 0%nat) 24) (Z.shiftl (o !!! 1%nat) 16))
      (Z.shiftl (o !!! 2%nat) 8)) (o !!! 3%nat)).

Definition ipv4_to_octets (a : bits) : list Z :=
  let num := to_ullong a in
  [octet_at num 0xff000000 24; octet_at num 0xff0000 16; octet_at num 0xff00 8; u8 (Z.land num 0xff)].

Definition ipv4_print (a : bits) : list ascii := join "."%char (map (show_base 10) (ipv4_to_octets a)).

Definition compare_prefix (pattern : string) (value : bits) (subnet : Z) : res addr_error bool :=
  v ← parse_ipv4 (list_ascii_of_string pattern);
  let bit_pattern := bits_of_ull 32 v in
  let shift := u8 (32 - subnet) in
  Ok (Z.shiftr (bval bit_pattern) shift =? Z.shiftr (bval value) shift).

Definition ipv4_is_private (a : bits) : res addr_error bool :=
  noexcept (
    p ← compare_prefix "10.0.0.0" a 8;
    if (p : bool) then Ok true else
    q ← compare_prefix "172.16.0.0" a 12;
    if (q : bool) then Ok true else
    compare_prefix "192.168.0.0." a 16).

Definition ipv4_is_loopback (a : bits) : res addr_error bool := noexcept (compare_prefix "127.0.0.0" a 8).
Definition ipv4_is_multicast (a : bits) : res addr_error bool := noexcept (compare_prefix "224.0.0.0" a 4).
Definition ipv4_is_broadcast (a : bits) : bool := bits_all a.

(** ** class IPv6Addr *)

Definition r_xdigits : regex := r_repeat (r_class is_xdigit) 1 4.
Definition r_colon : regex := r_char ":"%char.
Definition r_head (m n : nat) : regex := r_repeat (r_seq r_xdigits r_colon) m n.
Definition r_tail (m n : nat) : regex := r_repeat (r_seq r_colon r_xdigits) m n.

Definition ipv6_validation : regex :=
  r_alt (r_seq (r_head 7 7) r_xdigits)
  (r_alt (r_seq (r_head 1 7) r_colon)
  (r_alt (r_seq (r_head 1 6) (r_seq r_colon r_xdigits))
  (r_alt (r_seq (r_head 1 5) (r_tail 1 2))
  (r_alt (r_seq (r_head 1 4) (r_tail 1 3))
  (r_alt (r_seq (r_head 1 3) (r_tail 1 4))
  (r_alt (r_seq (r_head 1 2) (r_tail 1 5))
  (r_alt (r_seq r_xdigits (r_seq r_colon (r_tail 1 6)))
         (r_seq r_colon (r_alt (r_tail 1 7) r_colon))))))))).

Definition ipv6_pattern : list atom := separated 7 (atom_group is_xdigit 0 4) (atom_one (is_char ":"%char)).

(** [str.find("::")] *)
Fixpoint find_colons (s : list ascii) : option nat :=
  match s with
  | [] => None
  | c :: s' =>
      if is_char ":"%char c && match s' with d :: _ => is_char ":"%char d | [] => false end
      then Some 0%nat
      else option_map S (find_colons s')
  end.

Definition count_colons (s : list ascii) : nat := length (filter (fun c => c = ":"%char) s).

(** [str.insert(pos, 7 - n, ':')], which throws when [find] returned npos *)
Definition expand_colons (s : list ascii) : res addr_error (list ascii) :=
  let n := count_colons s in
  if bool_decide (n < 7)%nat then
    match find_colons s with
    | Some pos => Ok (take pos s ++ replicate (7 - n) ":"%char ++ drop pos s)
    | None => Throw std_out_of_range
    end
  else Ok s.

(** [one <<= 16; if (match[oct].length() > 0) one |= (uint16_t) std::stoi(match[oct], 0, 16)] *)
Definition push_hextet (res : Z) (g : list ascii) : Z :=
  let r := u64 (Z.shiftl res 16) in
  if bool_decide (0 < length g)%nat then Z.lor r (u16 (stoi 16 g)) else r.

Definition parse_ipv6 (s : list ascii) : res addr_error (Z * Z) :=
  if regex_match ipv6_validation s then
    str ← expand_colons s;
    match match_atoms ipv6_pattern str with
    | None => Throw bad_representation
    | Some m => Ok (fold_left push_hextet (take 4 m) 0, fold_left push_hextet (drop 4 m) 0)
    end
  else Throw bad_representation.

Definition ipv6_of_pair (num : Z * Z) : bits :=
  Bits 128 (Z.lor (wrap 128 (Z.shiftl (wrap 128 num.1) 64)) (wrap 128 num.2)).

Definition ipv6_of_string (s : list ascii) : res addr_error bits := num ← parse_ipv6 s; Ok (ipv6_of_pair num).

(** [std::bitset<128>::to_ullong], which throws when a bit above 63 is set *)
Definition bitset_to_ullong (v : Z) : res addr_error Z :=
  if Z.shiftr v 64 =? 0 then Ok v else Throw std_out_of_range.

Definition ipv6_to_number (a : bits) : res addr_error (Z * Z) :=
  noexcept (
    one ← bitset_to_ullong (bval a);
    two ← bitset_to_ullong (Z.shiftr (bval a) 64);
    Ok (one, two)).

Definition hextet_at (num mask shift : Z) : Z := u16 (Z.shiftr (Z.land num mask) shift).
Definition hextets_of (num : Z) : list Z :=
  [hextet_at num 0xffff000000000000 48; hextet_at num 0xffff00000000 32;
   hextet_at num 0xffff0000 16; hextet_at num 0xffff 0].

Definition ipv6_to_hextets (a : bits) : res addr_error (list Z) :=
  '(one, two) ← ipv6_to_number a;
  Ok (hextets_of one ++ hextets_of two).

Definition ipv6_octets_of (num : Z) : list Z :=
  [octet_at num 0xff00000000000000 54; octet_at num 0xff000000000000 48;
   octet_at num 0xff0000000000 40; octet_at num 0xff00000000 32;
   octet_at num 0xff000000 24; octet_at num 0xff0000 16; octet_at num 0xff00 8; octet_at num 0xff 0].

Definition ipv6_to_octets (a : bits) : res addr_error (list Z) :=
  '(one, two) ← ipv6_to_number a;
  Ok (ipv6_octets_of one ++ ipv6_octets_of two).

Definition ipv6_print (a : bits) : res addr_error (list ascii) :=
  data ← ipv6_to_hextets a;
  Ok (join ":"%char (map (show_base 16) data)).

Example ipv6_ex : (l ← ipv6_of_string (list_ascii_of_string "::1:2"); ipv6_print l) = Ok (list_ascii_of_string "0:0:1:2:0:0:0:0").
Proof. vm_compute. reflexivity. Qed.
Example mac_ex : parse_mac (list_ascii_of_string "0102.03aA.0506") = Ok 0x010203aa0506.
Proof. vm_compute. reflexivity. Qed.
Example ipv4_ex : parse_ipv4 (list_ascii_of_string "123456789") = Ok (123 * 2^24 + 5 * 2 ^ 16 + 7 * 2^8 + 9).
Proof. vm_compute. reflexivity. Qed.
