(* ===== verification/AddressTheorems.v ===== *)
(** * What the address classes promise

    Matching lemmas for the patterns, then the theorems: octet and number
    conversions, printing and parsing, address kinds. *)

From S2P Require Import Prelude Bits Regex Addresses.
Local Open Scope Z_scope.

(** ** Matching *)

Lemma try_counts_first {A} m n (f : nat -> option A) k a :
  (m <= k <= n)%nat -> f k = Some a -> (forall j, (k < j <= n)%nat -> f j = None) -> try_counts m n f = Some a.
Proof.
  intros Hk Hf Hn. induction n as [|n IH]; cbn.
  - assert (k = 0)%nat as -> by lia. by rewrite Hf.
  - destruct (decide (k = S n)) as [->|]; [by rewrite Hf|]. rewrite Hn by lia.
    rewrite bool_decide_eq_true_2 by lia. apply IH; [lia|]. intros j Hj. apply Hn. lia.
Qed.

Lemma try_counts_inv {A} m n (f : nat -> option A) a :
  (m <= n)%nat -> try_counts m n f = Some a -> exists k, (m <= k <= n)%nat /\ f k = Some a.
Proof.
  intros Hm. induction n as [|n IH]; cbn.
  - destruct (f 0%nat) eqn:E; [|done]. intros [= ->]. exists 0%nat. split; [lia|done].
  - destruct (f (S n)) eqn:E.
    + intros [= ->]. exists (S n). split; [lia|done].
    + destruct (decide (m <= n)%nat) as [Hle|]; [|by rewrite bool_decide_eq_false_2].
      rewrite bool_decide_eq_true_2 by done. intros (k & ? & ?)%IH; [|done]. exists k. split; [lia|done].
Qed.

(** A group stops at its maximal length or at a character outside its class. *)
Definition stops (p : ascii -> bool) (n : nat) (g rest : list ascii) : Prop :=
  length g = n \/ match rest with [] => True | c :: _ => p c = false end.

Lemma match_group p m n l g rest gs :
  forallb p g = true -> (m <= length g <= n)%nat -> stops p n g rest ->
  match_atoms l rest = Some gs -> match_atoms (atom_group p m n :: l) (g ++ rest) = Some (g :: gs).
Proof.
  intros Hp Hl Hs Hm. cbn [match_atoms]. apply try_counts_first with (k := length g); [done| |].
  - rewrite take_app_length, drop_app_length, Hm, Hp, length_app, bool_decide_eq_true_2 by lia. done.
  - intros j Hj. destruct Hs as [Hs|Hs]; [lia|]. destruct rest as [|c rest].
    + rewrite app_nil_r, bool_decide_eq_false_2 by lia. done.
    + replace (take j (g ++ c :: rest)) with (g ++ c :: take (j - length g - 1) rest).
      * rewrite forallb_app. cbn. rewrite Hs, !andb_false_r. done.
      * rewrite take_app_ge by lia. destruct (j - length g)%nat as [|k] eqn:E; [lia|]. cbn.
        by replace (k - 0)%nat with k by lia.
Qed.

Lemma match_last p m n g :
  forallb p g = true -> (m <= length g <= n)%nat -> match_atoms [atom_group p m n] g = Some [g].
Proof. intros. rewrite <- (app_nil_r g) at 1. by apply match_group; [| |right|]. Qed.

Lemma match_one q c l s gs : q c = true -> match_atoms l s = Some gs -> match_atoms (atom_one q :: l) (c :: s) = Some gs.
Proof. intros Hq Hm. cbn [match_atoms]. by rewrite Hq. Qed.

Lemma match_separated p m n q c N gs :
  p c = false -> q c = true -> length gs = S N ->
  Forall (fun g => forallb p g = true /\ (m <= length g <= n)%nat) gs ->
  match_atoms (separated N (atom_group p m n) (atom_one q)) (join c gs) = Some gs.
Proof.
  intros Hp Hq. revert N. induction gs as [|g gs IH]; intros N HN Hg; [done|].
  apply Forall_cons in Hg as [[Hg1 Hg2] Hg]. destruct gs as [|g' gs]; cbn in HN.
  - assert (N = 0)%nat as -> by lia. cbn [separated join]. by apply match_last.
  - destruct N as [|N]; [lia|]. cbn [separated]. change (join c (g :: g' :: gs)) with (g ++ c :: join c (g' :: gs)).
    apply match_group; [done|done|by right|]. cbn [match_atoms]. rewrite Hq. apply IH; [cbn; lia|done].
Qed.

(** Every match is a way to split the string. *)
Lemma match_group_inv p m n l s gs :
  (m <= n)%nat -> match_atoms (atom_group p m n :: l) s = Some gs ->
  exists g rest gs', s = g ++ rest /\ gs = g :: gs' /\ forallb p g = true /\ (m <= length g <= n)%nat
    /\ match_atoms l rest = Some gs'.
Proof.
  intros Hmn. cbn [match_atoms]. intros (k & Hk & E)%try_counts_inv; [|done].
  destruct (bool_decide_reflect (k <= length s)%nat) as [Hl|]; [|done]. cbn in E.
  destruct (forallb p (take k s)) eqn:Hp; [|done]. destruct (match_atoms l (drop k s)) eqn:Hr; [|done].
  injection E as <-. exists (take k s), (drop k s). eexists. rewrite take_drop, length_take. split_and!; eauto; lia.
Qed.

Lemma match_separated_inv p m n c N s gs :
  (m <= n)%nat -> match_atoms (separated N (atom_group p m n) (atom_one (is_char c))) s = Some gs ->
  s = join c gs /\ length gs = S N /\ Forall (fun g => forallb p g = true /\ (m <= length g <= n)%nat) gs.
Proof.
  intros Hmn. revert s gs. induction N as [|N IH]; intros s gs; cbn [separated];
    intros (g & rest & gs' & -> & -> & Hp & Hl & Hr)%match_group_inv; try done.
  - cbn in Hr. destruct rest; [|done]. injection Hr as <-. rewrite app_nil_r. split_and!; try done.
    apply Forall_cons. split; [done|by apply Forall_nil].
  - cbn [match_atoms] in Hr. destruct rest as [|x rest]; [done|].
    destruct (is_char c x) eqn:Hx; [|done]. apply bool_decide_eq_true in Hx as ->.
    apply IH in Hr as (-> & Hlen & Hf). destruct gs' as [|g' gs']; [done|].
    cbn [length] in *. split_and!; [done|lia|]. by apply Forall_cons.
Qed.

(** ** Numbers from groups *)

Lemma lor_shiftl_add a b w : 0 <= w -> 0 <= a -> in_width w b -> Z.lor (Z.shiftl a w) b = a * 2 ^ w + b.
Proof.
  intros Hw Ha Hb. rewrite <- Z.shiftl_mul_pow2 by done. 
  rewrite <- Z.add_lor_land. assert (Z.land (Z.shiftl a w) b = 0) as ->; [|lia].
  apply Z.bits_inj'. intros i Hi. rewrite Z.land_spec, Z.bits_0, Z.shiftl_spec by done.
  destruct (Z.lt_ge_cases i w) as [|Hge].
  - by rewrite (Z.testbit_neg_r a) by lia.
  - by rewrite (Z_testbit_high w b) , andb_false_r.
Qed.

Lemma xdigit_bound c : is_xdigit c = true -> 0 <= xdigit_val c < 16.
Proof.
  unfold is_xdigit, xdigit_val. destruct (is_digit c) eqn:Hd.
  - intros _. apply andb_true_iff in Hd as [?%Z.leb_le ?%Z.leb_le]. lia.
  - cbn. intros [[?%Z.leb_le ?%Z.leb_le]%andb_true_iff|[?%Z.leb_le ?%Z.leb_le]%andb_true_iff]%orb_true_iff.
    + rewrite (proj2 (Z.leb_le 97 _)) by lia. lia.
    + rewrite (proj2 (Z.leb_gt 97 _)) by lia. lia.
Qed.

Lemma stoi_bound g : forallb is_xdigit g = true -> 0 <= stoi 16 g < 16 ^ Z.of_nat (length g).
Proof.
  induction g as [|c g IH] using rev_ind; [cbn; lia|].
  rewrite forallb_app, andb_true_iff, stoi_snoc, length_app. intros [Hg Hc]. apply IH in Hg.
  cbn in Hc. rewrite andb_true_r in Hc. apply xdigit_bound in Hc. cbn [length].
  rewrite Nat2Z.inj_add, Z.pow_add_r by lia. cbn. lia.
Qed.

Lemma groups_value_be base gs : groups_value 8 base gs = be_val (map (fun g => u8 (stoi base g)) gs) /\ 0 <= groups_value 8 base gs.
Proof.
  induction gs as [|g gs [IH IH0]] using rev_ind; [done|].
  assert (groups_value 8 base (gs ++ [g]) = push_group 8 base (groups_value 8 base gs) g) as ->
    by apply fold_left_app.
  rewrite map_app, be_val_app. unfold push_group.
  pose proof (wrap_in_width 8 (stoi base g) ltac:(lia)) as Hw. rewrite lor_shiftl_add by (done || lia).
  cbn [map length]. change (be_val [u8 (stoi base g)]) with (u8 (stoi base g)).
  unfold in_width in Hw. change (256 ^ Z.of_nat 1) with 256. change (2 ^ 8) with 256 in *. rewrite <- IH. split; lia.
Qed.

Lemma be_bytes_val os : Forall (in_width 8) os -> be_bytes (length os) (be_val os) = os /\ in_width (8 * Z.of_nat (length os)) (be_val os).
Proof.
  unfold in_width. induction os as [|o os IH] using rev_ind; [done|].
  intros [Hos Ho]%Forall_app. apply Forall_cons in Ho as [Ho _]. destruct (IH Hos) as [IH1 IH2].
  rewrite length_app, be_val_app. cbn [length]. rewrite Nat.add_1_r. cbn [be_bytes].
  change (be_val [o]) with o. change (256 ^ Z.of_nat 1) with 256. change (2 ^ 8) with 256 in Ho.
  rewrite Z.div_add_l, Z.div_small, Z.add_0_r, IH1 by lia. split.
  - rewrite Z.add_comm, Z.mod_add, Z.mod_small by lia. done.
  - replace (8 * Z.of_nat (S (length os))) with (8 + 8 * Z.of_nat (length os)) by lia.
    rewrite Z.pow_add_r by lia. change (2 ^ 8) with 256. lia.
Qed.

Lemma octet_at_shift num k : 0 <= k -> octet_at num (Z.shiftl 255 k) k = (num / 2 ^ k) mod 256.
Proof.
  intros Hk. unfold octet_at, wrap. change 255 with (Z.ones 8). change 256 with (2 ^ 8).
  rewrite <- Z.shiftr_div_pow2, <- !Z.land_ones by lia. apply Z.bits_inj'. intros i Hi.
  rewrite !Z.land_spec, !Z.shiftr_spec, Z.land_spec, Z.shiftl_spec by lia.
  replace (i + k - k) with i by lia. btauto.
Qed.

Lemma be_bytes_at n v k :
  (k < n)%nat -> be_bytes n v !! (n - 1 - k)%nat = Some ((v / 2 ^ (8 * Z.of_nat k)) mod 256).
Proof.
  revert v k. induction n as [|n IH]; intros v k Hk; [lia|]. cbn [be_bytes]. destruct k as [|k].
  - rewrite lookup_app_r; rewrite be_bytes_length; [|lia]. replace (S n - 1 - 0 - n)%nat with 0%nat by lia.
    cbn. by rewrite Z.div_1_r.
  - rewrite lookup_app_l by (rewrite be_bytes_length; lia). replace (S n - 1 - S k)%nat with (n - 1 - k)%nat by lia.
    rewrite IH by lia. rewrite Z.div_div by lia. do 3 f_equal.
    replace (8 * Z.of_nat (S k)) with (8 + 8 * Z.of_nat k) by lia. by rewrite Z.pow_add_r by lia.
Qed.

(** ** Octets *)

Lemma ethaddr_to_octets_be a : ethaddr_to_octets a = be_bytes 6 (bval a).
Proof.
  unfold ethaddr_to_octets, to_ullong.
  rewrite (octet_at_shift (bval a) 40 ltac:(lia) : octet_at _ 0xff0000000000 40 = _),
    (octet_at_shift (bval a) 32 ltac:(lia) : octet_at _ 0xff00000000 32 = _),
    (octet_at_shift (bval a) 24 ltac:(lia) : octet_at _ 0xff000000 24 = _),
    (octet_at_shift (bval a) 16 ltac:(lia) : octet_at _ 0xff0000 16 = _),
    (octet_at_shift (bval a) 8 ltac:(lia) : octet_at _ 0xff00 8 = _),
    (octet_at_shift (bval a) 0 ltac:(lia) : octet_at _ 0xff 0 = _).
  cbn [be_bytes app]. rewrite !Z.div_div by lia. by rewrite Z.div_1_r.
Qed.

Lemma ipv4_to_octets_be a : ipv4_to_octets a = be_bytes 4 (bval a).
Proof.
  unfold ipv4_to_octets, to_ullong.
  replace (u8 (Z.land (bval a) 0xff)) with (octet_at (bval a) 0xff 0) by (unfold octet_at; by rewrite Z.shiftr_0_r).
  rewrite (octet_at_shift (bval a) 24 ltac:(lia) : octet_at _ 0xff000000 24 = _),
    (octet_at_shift (bval a) 16 ltac:(lia) : octet_at _ 0xff0000 16 = _),
    (octet_at_shift (bval a) 8 ltac:(lia) : octet_at _ 0xff00 8 = _),
    (octet_at_shift (bval a) 0 ltac:(lia) : octet_at _ 0xff 0 = _).
  cbn [be_bytes app]. rewrite !Z.div_div by lia. by rewrite Z.div_1_r.
Qed.

Lemma lor_push a o k m : 0 <= k -> 0 <= a -> in_width 8 o ->
  m = k + 8 -> Z.lor (Z.shiftl a m) (Z.shiftl o k) = Z.shiftl (a * 256 + o) k.
Proof.
  intros Hk Ha Ho ->. change 256 with (2 ^ 8). rewrite <- (lor_shiftl_add a o 8) by (done || lia).
  by rewrite Z.shiftl_lor, Z.shiftl_shiftl, (Z.add_comm 8 k) by lia.
Qed.

Lemma ethaddr_of_octets_be os :
  length os = 6%nat -> Forall (in_width 8) os -> ethaddr_of_octets os = bits_of_ull 48 (be_val os).
Proof.
  destruct os as [|a [|b [|c [|d [|e [|f [|]]]]]]]; intros Hl Ho; try done. clear Hl.
  decompose_Forall_hyps. unfold ethaddr_of_octets, be_val. cbn [lookup_total list_lookup_total fold_left].
  unfold in_width in *. f_equal.
  rewrite (lor_push a b 32), (lor_push _ c 24), (lor_push _ d 16), (lor_push _ e 8) by (unfold in_width; lia).
  rewrite <- (Z.shiftl_0_r f), (lor_push _ f 0), !Z.shiftl_0_r by (unfold in_width; lia). lia.
Qed.

Lemma ipv4_of_octets_be os :
  length os = 4%nat -> Forall (in_width 8) os -> ipv4_of_octets os = bits_of_ull 32 (be_val os).
Proof.
  destruct os as [|a [|b [|c [|d [|]]]]]; intros Hl Ho; try done. clear Hl.
  decompose_Forall_hyps. unfold ipv4_of_octets, be_val. cbn [lookup_total list_lookup_total fold_left].
  unfold in_width in *. f_equal.
  rewrite (lor_push a b 16), (lor_push _ c 8) by (unfold in_width; lia).
  rewrite <- (Z.shiftl_0_r d), (lor_push _ d 0), !Z.shiftl_0_r by (unfold in_width; lia). lia.
Qed.

Lemma be_bytes_width n v : Forall (in_width 8) (be_bytes n v).
Proof.
  revert v. induction n as [|n IH]; intros v; cbn; [by apply Forall_nil|].
  apply Forall_app. split; [done|]. apply Forall_singleton. apply (wrap_in_width 8). lia.
Qed.

Lemma be_val_bytes_small n v : in_width (8 * Z.of_nat n) v -> be_val (be_bytes n v) = v.
Proof. intros Hv. rewrite be_val_bytes, pow256 by lia. by apply wrap_small. Qed.

Lemma bits_of_ull_val a : bits_wf a -> bits_of_ull (bsize a) (bval a) = a.
Proof. destruct a as [n v]. intros [? ?]. cbn in *. unfold bits_of_ull. by rewrite wrap_small. Qed.

(** a MAC address survives the conversions: the octets of an address built
    from six octets are those octets; an address rebuilt from its octets or
    from its 64-bit number is the address; and the number constructor throws
    exactly for the numbers that do not fit 48 bits. *)
Theorem ethaddr_roundtrip :
  (forall os, length os = 6%nat -> Forall (in_width 8) os ->
     bits_wf (ethaddr_of_octets os) /\ ethaddr_to_octets (ethaddr_of_octets os) = os)
  /\ (forall a, bits_wf a -> bsize a = 48 ->
     ethaddr_of_octets (ethaddr_to_octets a) = a /\ ethaddr_of_number (to_ullong a) = Ok a)
  /\ (forall num, in_width 64 num -> ethaddr_of_number num = Throw bad_representation <-> 2 ^ 48 <= num).
Proof.
  assert (Hhigh : forall num, in_width 64 num -> Z.land num 0xffff000000000000 = 0 <-> num < 2 ^ 48).
  { intros num Hn. change 0xffff000000000000 with (Z.shiftl (Z.ones 16) 48).
    rewrite <- Z.bits_inj_iff'. setoid_rewrite Z.bits_0. split.
    - intros Hz. apply (in_width_testbit 48); [lia|apply Hn|]. intros i Hi.
      destruct (Z.lt_ge_cases i 64) as [Hlt|]; [|by apply (Z_testbit_high 64)].
      specialize (Hz i ltac:(lia)). rewrite Z.land_spec, Z.shiftl_spec, testbit_ones in Hz by lia.
      by rewrite (proj2 (Z.ltb_lt _ _)), andb_true_r in Hz by lia.
    - intros Hlt i Hi. rewrite Z.land_spec, Z.shiftl_spec by lia. destruct (Z.lt_ge_cases i 48) as [|Hge].
      + by rewrite (Z.testbit_neg_r _ (i - 48)), andb_false_r by lia.
      + by rewrite (Z_testbit_high 48) by (unfold in_width in *; lia). }
  split_and!.
  - intros os Hl Ho. rewrite ethaddr_of_octets_be by done. split; [by apply bits_of_ull_wf|].
    rewrite ethaddr_to_octets_be. cbn [bits_of_ull bval]. destruct (be_bytes_val os Ho) as [Hb Hw].
    rewrite Hl in *. by rewrite wrap_small.
  - intros a Ha Hs. destruct (Ha) as [_ Hw]. rewrite Hs in Hw. split.
    + rewrite ethaddr_to_octets_be, ethaddr_of_octets_be; [|by rewrite be_bytes_length|apply be_bytes_width].
      rewrite be_val_bytes_small by done. rewrite <- Hs. by apply bits_of_ull_val.
    + unfold ethaddr_of_number, to_ullong. rewrite (proj2 (Hhigh (bval a) ltac:(unfold in_width in *; lia))) by apply Hw.
      cbn. rewrite <- Hs at 1. by rewrite bits_of_ull_val.
  - intros num Hn. unfold ethaddr_of_number. specialize (Hhigh num Hn).
    destruct (Z.eqb_spec (Z.land num 0xffff000000000000) 0); cbn; split; intros; try done.
    + assert (num < 2 ^ 48) by tauto. lia.
    + destruct (Z.lt_ge_cases num (2 ^ 48)); [tauto|done].
Qed.

Lemma ethaddr_roundtrip_witness :
  ethaddr_to_octets (ethaddr_of_octets [2; 0; 255; 1; 128; 7]) = [2; 0; 255; 1; 128; 7]
  /\ ethaddr_of_number (2 ^ 48) = Throw bad_representation.
Proof.
  destruct ethaddr_roundtrip as (H1 & _ & H3). split.
  - apply H1; [done|]. repeat (apply Forall_cons; split; [done|]). by apply Forall_nil.
  - by apply H3.
Defined.

(** the address kinds read the right bits of the first octet: a MAC built
    from octets is multicast exactly when the lowest bit of the first octet is
    set, unicast when it is not, locally administered when the next bit is, and
    broadcast exactly when all six octets are 255. *)
Theorem ethaddr_kinds os :
  length os = 6%nat -> Forall (in_width 8) os ->
  ethaddr_is_multicast (ethaddr_of_octets os) = Z.odd (os !!! 0%nat)
  /\ ethaddr_is_unicast (ethaddr_of_octets os) = negb (Z.odd (os !!! 0%nat))
  /\ ethaddr_is_locally_administered (ethaddr_of_octets os) = Z.testbit (os !!! 0%nat) 1
  /\ (ethaddr_is_broadcast (ethaddr_of_octets os) = true <-> os = replicate 6 255).
Proof.
  intros Hl Ho. unfold ethaddr_is_multicast, ethaddr_is_unicast, ethaddr_is_locally_administered, ethaddr_is_broadcast.
  rewrite ethaddr_of_octets_be by done. destruct (be_bytes_val os Ho) as [Hb Hw]. rewrite Hl in *.
  unfold bits_test, bits_all, bits_of_ull. cbn [bval bsize]. rewrite wrap_small by done.
  assert (Hbit : forall j, 0 <= j < 8 -> Z.testbit (be_val os) (40 + j) = Z.testbit (os !!! 0%nat) j).
  { intros j Hj. pose proof (be_bytes_at 6 (be_val os) 5 ltac:(lia)) as H0. rewrite Hb in H0. cbn [Nat.sub] in H0.
    apply list_lookup_total_correct in H0 as ->. change 256 with (2 ^ 8). rewrite Z.mod_pow2_bits_low by lia.
    rewrite <- Z.shiftr_div_pow2, Z.shiftr_spec by lia. f_equal. lia. }
  split_and!.
  - change (48 - 8) with (40 + 0). rewrite Hbit, Z.bit0_odd by lia. done.
  - change (48 - 8) with (40 + 0). rewrite Hbit, Z.bit0_odd by lia. done.
  - change (48 - 7) with (40 + 1). by rewrite Hbit by lia.
  - rewrite Z.eqb_eq. split.
    + intros E. rewrite <- Hb, E. reflexivity.
    + intros ->. reflexivity.
Qed.

Lemma ethaddr_kinds_witness :
  ethaddr_is_multicast (ethaddr_of_octets [1; 0; 94; 0; 0; 251]) = true
  /\ ethaddr_is_unicast (ethaddr_of_octets [1; 0; 94; 0; 0; 251]) = false.
Proof.
  destruct (ethaddr_kinds [1; 0; 94; 0; 0; 251]) as (-> & -> & _).
  - reflexivity.
  - repeat (apply Forall_cons; split; [done|]). by apply Forall_nil.
  - split; reflexivity.
Defined.

(** ** MAC and IPv4 strings *)

Definition hex_pair (g : list ascii) : Prop := forallb is_xdigit g = true /\ (2 <= length g <= 2)%nat.

(** The three-part notation: two octets, a separator, two octets, ... *)
Definition dotted (x y : ascii) (gs : list (list ascii)) : list ascii :=
  (gs !!! 0%nat) ++ (gs !!! 1%nat) ++ x :: (gs !!! 2%nat) ++ (gs !!! 3%nat) ++ y :: (gs !!! 4%nat) ++ (gs !!! 5%nat).

Lemma join_sep_ne c d (g h g' h' : list ascii) gs gs' :
  c <> d -> length g = length g' -> join c (g :: h :: gs) <> join d (g' :: h' :: gs').
Proof.
  intros Hcd Hl E. change (g ++ c :: join c (h :: gs) = g' ++ d :: join d (h' :: gs')) in E.
  apply app_inj_1 in E as [_ E]; [|done]. by injection E.
Qed.

Lemma join_length_6 c gs : length gs = 6%nat -> Forall hex_pair gs -> length (join c gs) = 17%nat.
Proof.
  destruct gs as [|a [|b [|c' [|d [|e [|f [|]]]]]]]; intros Hl Hf; try done.
  unfold hex_pair in Hf. decompose_Forall_hyps. cbn [join].
  repeat (rewrite ?length_app; cbn [length]). lia.
Qed.

Lemma groups_value_small base gs :
  Forall (fun g => in_width 8 (stoi base g)) gs -> groups_value 8 base gs = be_val (map (stoi base) gs).
Proof.
  intros Hf. destruct (groups_value_be base gs) as [-> _]. f_equal.
  induction Hf as [|g gs Hg _ IH]; [done|]. cbn [map]. by rewrite wrap_small, IH.
Qed.

Lemma hex_pair_width g : hex_pair g -> in_width 8 (stoi 16 g).
Proof. intros [Hx Hl]. apply stoi_bound in Hx. assert (length g = 2%nat) as E by lia. by rewrite E in Hx. Qed.

Lemma colon_match_pairs s gs :
  match_atoms mac_pattern_colon s = Some gs -> s = join ":"%char gs /\ length gs = 6%nat /\ Forall hex_pair gs.
Proof. by intros H%match_separated_inv. Qed.

Lemma dash_match_pairs s gs :
  match_atoms mac_pattern_dash s = Some gs -> s = join "-"%char gs /\ length gs = 6%nat /\ Forall hex_pair gs.
Proof. by intros H%match_separated_inv. Qed.

Lemma parse_mac_colon gs :
  length gs = 6%nat -> Forall hex_pair gs -> parse_mac (join ":"%char gs) = Ok (be_val (map (stoi 16) gs)).
Proof.
  intros Hl Hf. rewrite <- groups_value_small by (eapply Forall_impl; [done|]; apply hex_pair_width).
  unfold parse_mac, mac_match.
  assert (match_atoms mac_pattern_colon (join ":"%char gs) = Some gs) as -> by by apply match_separated.
  destruct gs as [|a [|b [|c' [|d [|e [|f [|]]]]]]]; try done. unfold hex_pair in Hf. decompose_Forall_hyps.
  cbn [app replicate lookup_total list_lookup_total length]. rewrite !bool_decide_eq_true_2 by lia. done.
Qed.

(** the three MAC notations the pattern accepts read the same number: six
    pairs of hexadecimal digits joined by colons, joined by dashes, or in the
    three-part notation (whose separator can be any character, the dots of the
    pattern being unescaped), all parse to the big-endian value of the pairs. *)
Theorem parse_mac_notations gs x y :
  length gs = 6%nat -> Forall hex_pair gs -> is_any x = true -> is_any y = true ->
  parse_mac (join ":"%char gs) = Ok (be_val (map (stoi 16) gs))
  /\ parse_mac (join "-"%char gs) = Ok (be_val (map (stoi 16) gs))
  /\ parse_mac (dotted x y gs) = Ok (be_val (map (stoi 16) gs)).
Proof.
  intros Hl Hf Hx Hy. split; [by apply parse_mac_colon|].
  assert (Hv : groups_value 8 16 gs = be_val (map (stoi 16) gs)).
  { apply groups_value_small. eapply Forall_impl; [done|]. apply hex_pair_width. }
  assert (Hd : match_atoms mac_pattern_dash (join "-"%char gs) = Some gs) by by apply match_separated.
  assert (Hnc : match_atoms mac_pattern_colon (join "-"%char gs) = None).
  { destruct (match_atoms mac_pattern_colon (join "-"%char gs)) as [hs|] eqn:E; [|done].
    apply colon_match_pairs in E as (E & Hl' & Hf'). exfalso.
    destruct gs as [|g [|h gs]], hs as [|g' [|h' hs]]; try done. revert E. apply join_sep_ne; [done|].
    unfold hex_pair in *. decompose_Forall_hyps. lia. }
  assert (Hdl : length (dotted x y gs) = 14%nat).
  { destruct gs as [|a [|b [|c' [|d [|e [|f [|]]]]]]]; try done. unfold hex_pair in Hf. decompose_Forall_hyps.
    unfold dotted. cbn [lookup_total list_lookup_total].
    repeat (rewrite ?length_app; cbn [length]). lia. }
  assert (Hn1 : match_atoms mac_pattern_colon (dotted x y gs) = None).
  { destruct (match_atoms mac_pattern_colon (dotted x y gs)) as [hs|] eqn:E; [|done].
    apply colon_match_pairs in E as (E & Hl' & Hf'). rewrite E, join_length_6 in Hdl by done. done. }
  assert (Hn2 : match_atoms mac_pattern_dash (dotted x y gs) = None).
  { destruct (match_atoms mac_pattern_dash (dotted x y gs)) as [hs|] eqn:E; [|done].
    apply dash_match_pairs in E as (E & Hl' & Hf'). rewrite E, join_length_6 in Hdl by done. done. }
  assert (Ht : match_atoms mac_pattern_dots (dotted x y gs) = Some gs).
  { clear -Hl Hf Hx Hy. destruct gs as [|a [|b [|c' [|d [|e [|f [|]]]]]]]; try done. unfold hex_pair in Hf.
    repeat match goal with H : Forall _ (_ :: _) |- _ => apply Forall_cons in H as [[? ?] H] end.
    change (match_atoms mac_pattern_dots (a ++ b ++ x :: c' ++ d ++ y :: e ++ f) = Some [a; b; c'; d; e; f]).
    unfold mac_pattern_dots, mac_group.
    repeat first [apply match_last; [done|lia] | apply match_group; [done|lia|left; lia|] | apply match_one; [done|]]. }
  unfold parse_mac, mac_match. rewrite Hnc, Hd, Hn1, Hn2, Ht, <- Hv. clear -Hl Hf.
  destruct gs as [|a [|b [|c' [|d [|e [|f [|]]]]]]]; try done. unfold hex_pair in Hf. decompose_Forall_hyps.
  cbn [app replicate lookup_total list_lookup_total length]. rewrite !bool_decide_eq_true_2 by lia. done.
Qed.

Lemma parse_mac_notations_witness :
  let gs := map list_ascii_of_string ["01"; "80"; "c2"; "00"; "0A"; "ff"]%string in
  parse_mac (list_ascii_of_string "0180.c200.0Aff") = Ok 0x0180c2000aff
  /\ parse_mac (join "-"%char gs) = Ok 0x0180c2000aff.
Proof.
  intros gs. destruct (parse_mac_notations gs "."%char "."%char) as (_ & H1 & H2).
  - reflexivity.
  - unfold gs, hex_pair. cbn [map list_ascii_of_string].
    repeat (apply Forall_cons; split; [split; [vm_compute; reflexivity|cbn; lia]|]). by apply Forall_nil.
  - reflexivity.
  - reflexivity.
  - split; [exact H2|exact H1].
Defined.

Lemma forallb_Forall {A} (p : A -> bool) l : Forall (fun c => p c = true) l -> forallb p l = true.
Proof. induction 1 as [|c l Hc _ IH]; [done|]. cbn. by rewrite Hc. Qed.

Lemma stoi_zeros base k d : stoi base (replicate k "0"%char ++ d) = stoi base d.
Proof. unfold stoi. rewrite fold_left_app. f_equal. by induction k. Qed.

Lemma show_02x_ok n : in_width 8 n -> hex_pair (show_02x n) /\ stoi 16 (show_02x n) = n.
Proof.
  intros Hn. destruct (show_base_ok 16 n 2) as (Hv & Hl & Hf); [lia|apply Hn|lia|].
  unfold show_02x, hex_pair. cbv zeta. rewrite stoi_zeros. split; [|done].
  rewrite forallb_app, length_app, length_replicate. split; [|lia].
  apply andb_true_iff. split; [by destruct (2 - length _)%nat as [|[|[|]]] eqn:?; try lia|].
  apply forallb_Forall. eapply Forall_impl; [done|]. by intros c [Hc _].
Qed.

Lemma map_id_Forall {A B} (f : A -> B) (g : B -> A) l : Forall (fun x => g (f x) = x) l -> map g (map f l) = l.
Proof. induction 1 as [|x l Hx _ IH]; [done|]. cbn. by rewrite Hx, IH. Qed.

Lemma ethaddr_print_parse a : bits_wf a -> bsize a = 48 -> ethaddr_of_string (ethaddr_print a) = Ok a.
Proof.
  intros Ha Hsa. destruct (Ha) as [_ Hwa]. rewrite Hsa in Hwa.
  unfold ethaddr_of_string, ethaddr_print. rewrite ethaddr_to_octets_be.
  pose proof (be_bytes_width 6 (bval a)) as Hf.
  rewrite parse_mac_colon; [|done|].
  2: { apply Forall_map. eapply Forall_impl; [done|]. intros n Hn. by apply show_02x_ok. }
  cbn [mbind res_bind]. rewrite map_id_Forall, be_val_bytes_small; [by rewrite <- Hsa, bits_of_ull_val|done|].
  eapply Forall_impl; [done|]. intros n Hn. by apply show_02x_ok.
Qed.

Lemma join_pairs sep gs : Forall (fun g => length g = 2%nat) gs -> length (join sep gs) = (3 * length gs - 1)%nat.
Proof.
  induction 1 as [|g gs Hg Hgs IH]; [done|]. destruct gs as [|g' gs]; [done|]. change (join sep (g :: g' :: gs)) with (g ++ sep :: join sep (g' :: gs)).
  rewrite length_app, Hg. cbn [length] in *. lia.
Qed.

Lemma ethaddr_print_text a : length (ethaddr_print a) = 17%nat /\ exists c l, ethaddr_print a = c :: l /\ is_xdigit c = true.
Proof.
  assert (Hp : forall n, in_width 8 n -> forallb is_xdigit (show_02x n) = true /\ length (show_02x n) = 2%nat) by (intros n Hn; destruct (show_02x_ok n Hn) as [Hx _]; destruct Hx; split; [done|lia]).
  pose proof (be_bytes_width 6 (bval a)) as Hf. unfold ethaddr_print. rewrite ethaddr_to_octets_be. split.
  - rewrite join_pairs; [by rewrite length_map, be_bytes_length|]. apply Forall_map. eapply Forall_impl; [done|]. intros n Hn. by apply Hp.
  - destruct (be_bytes 6 (bval a)) as [|n ns] eqn:En; [by apply (f_equal length) in En; rewrite be_bytes_length in En|].
    apply Forall_cons in Hf as [Hn _]. destruct (Hp n Hn) as [Hx Hl]. destruct (show_02x n) as [|c l] eqn:Eg; [done|]. apply andb_true_iff in Hx as [Hc _].
    exists c. cbn [map join]. rewrite Eg. destruct (map show_02x ns); eexists; done.
Qed.

(** An address that was printed is extracted, whatever white space comes before it and
    whatever follows. *)
Lemma ethaddr_extract_print a ws rest : bits_wf a -> bsize a = 48 -> Forall (fun c => is_space c = true) ws ->
  ethaddr_extract (ws ++ ethaddr_print a ++ rest) = extracted a rest.
Proof.
  intros Ha Hs Hw. pose proof (ethaddr_print_parse a Ha Hs) as Eparse. pose proof (ethaddr_print_text a) as Hl.
  destruct Hl as (Hl & c & l & Ec & Hc). unfold ethaddr_extract.
  assert (Eskip : skip_ws (ws ++ ethaddr_print a ++ rest) = ethaddr_print a ++ rest).
  { induction Hw as [|w ws Hw _ IH]; cbn [app skip_ws]; [|by rewrite Hw]. rewrite Ec. cbn [app skip_ws].
    replace (is_space c) with false; [done|]. unfold is_xdigit, is_digit, is_space in *. symmetry. destruct (Z.eqb_spec (char_code c) 32) as [E|]; [rewrite E in Hc; done|].
    destruct (Z.leb_spec 9 (char_code c)), (Z.leb_spec (char_code c) 13); cbn; try done. lia. }
  rewrite Eskip. destruct (ethaddr_print a ++ rest) as [|x s] eqn:Es; [by rewrite Ec in Es|]. rewrite <- Es.
  change (mac_str_size - 1)%nat with 17%nat. rewrite length_app, Hl. destruct (Nat.ltb_spec (17 + length rest) 17); [lia|].
  rewrite <- Hl, take_app_length, drop_app_length. by rewrite Eparse.
Qed.

Lemma show_octet n : in_width 8 n ->
  (forallb is_digit (show_base 10 n) = true /\ (1 <= length (show_base 10 n) <= 3)%nat) /\ stoi 10 (show_base 10 n) = n.
Proof.
  intros [Hn1 Hn2]. change (2 ^ 8) with 256 in Hn2.
  destruct (show_base_ok 10 n 3) as (Hv & Hl & Hfd); [lia|change (10 ^ Z.of_nat 3) with 1000; lia|lia|].
  split_and!; try done; try lia. apply forallb_Forall. eapply Forall_impl; [done|]. intros c [_ Hc]. by apply Hc.
Qed.

(** Dotted-decimal text is read as its octets. *)
Lemma parse_dotted os : length os = 4%nat -> Forall (in_width 8) os -> parse_ipv4 (join "."%char (map (show_base 10) os)) = Ok (be_val os).
Proof.
  intros Hl Hf. unfold parse_ipv4, ipv4_pattern. rewrite (match_separated is_digit 1 3 is_any "."%char); [|done|done| |].
  2: by rewrite length_map, Hl.
  2:{ apply Forall_map. eapply Forall_impl; [done|]. intros n Hn. by apply show_octet. }
  rewrite groups_value_small.
  2:{ apply Forall_map. eapply Forall_impl; [done|]. intros n Hn. by rewrite (proj2 (show_octet n Hn)). }
  rewrite map_id_Forall; [done|]. eapply Forall_impl; [done|]. intros n Hn. by apply show_octet.
Qed.

Lemma ipv4_print_parse b : bits_wf b -> bsize b = 32 -> ipv4_of_string (ipv4_print b) = Ok b.
Proof.
  intros Hb Hsb. destruct (Hb) as [_ Hwb]. rewrite Hsb in Hwb. unfold ipv4_of_string, ipv4_print.
  rewrite ipv4_to_octets_be, parse_dotted by apply be_bytes_width || done.
  cbn [mbind res_bind]. by rewrite be_val_bytes_small, <- Hsb, bits_of_ull_val by done.
Qed.

(** Printing and parsing agree: the text of any MAC address and the
    dotted-decimal text of any IPv4 address parse back to that address. *)
Theorem address_print_parse a b :
  bits_wf a -> bsize a = 48 -> bits_wf b -> bsize b = 32 ->
  ethaddr_of_string (ethaddr_print a) = Ok a /\ ipv4_of_string (ipv4_print b) = Ok b.
Proof. intros Ha Hsa Hb Hsb. split; [by apply ethaddr_print_parse|by apply ipv4_print_parse]. Qed.

Lemma address_print_parse_witness :
  ethaddr_of_string (list_ascii_of_string "00:1b:21:3c:9d:f8") = Ok (bits_of_ull 48 0x001b213c9df8)
  /\ ipv4_of_string (list_ascii_of_string "192.168.0.17") = Ok (bits_of_ull 32 0xc0a80011).
Proof.
  apply (address_print_parse (bits_of_ull 48 0x001b213c9df8) (bits_of_ull 32 0xc0a80011)); try reflexivity.
  - by apply bits_of_ull_wf.
  - by apply bits_of_ull_wf.
Defined.

(** ** IPv4 networks *)

Lemma compare_prefix_ok pattern v a subnet :
  parse_ipv4 (list_ascii_of_string pattern) = Ok v -> 0 <= subnet <= 32 -> in_width 32 v ->
  compare_prefix pattern a subnet = Ok (v / 2 ^ (32 - subnet) =? bval a / 2 ^ (32 - subnet)).
Proof.
  intros Hp Hs Hv. unfold compare_prefix. rewrite Hp. cbn [mbind res_bind]. cbv zeta. unfold bits_of_ull. cbn [bval].
  rewrite !wrap_small by (done || (unfold in_width; change (2 ^ 8) with 256; lia)).
  by rewrite !Z.shiftr_div_pow2 by lia.
Qed.

(** the IPv4 address kinds, on the octets of the address: loopback is
    127/8, multicast 224/4, broadcast 255.255.255.255; the private test answers
    true on 10/8 and 172.16/12, and on every other address, 192.168/16
    included, the malformed literal of the third prefix makes the noexcept
    function terminate the program. *)
Theorem ipv4_kinds o0 o1 o2 o3 :
  let a := ipv4_of_octets [o0; o1; o2; o3] in
  in_width 8 o0 -> in_width 8 o1 -> in_width 8 o2 -> in_width 8 o3 ->
  ipv4_is_loopback a = Ok (o0 =? 127)
  /\ ipv4_is_multicast a = Ok ((224 <=? o0) && (o0 <=? 239))
  /\ (ipv4_is_broadcast a = true <-> [o0; o1; o2; o3] = [255; 255; 255; 255])
  /\ ipv4_is_private a =
       (if (o0 =? 10) || ((o0 =? 172) && (16 <=? o1) && (o1 <=? 31)) then Ok true else Throw std_terminate).
Proof.
  intros a H0 H1 H2 H3. unfold in_width in *. change (2 ^ 8) with 256 in *.
  assert (Ha : bval a = ((o0 * 256 + o1) * 256 + o2) * 256 + o3).
  { unfold a. rewrite ipv4_of_octets_be; [|done|].
    2:{ repeat (apply Forall_cons; split; [unfold in_width; change (2 ^ 8) with 256; lia|]). by apply Forall_nil. }
    cbn [bits_of_ull bval]. unfold be_val. cbn [fold_left]. rewrite wrap_small; [lia|].
    unfold in_width. change (2 ^ 32) with 4294967296. lia. }
  assert (Hs : bsize a = 32) by done.
  unfold ipv4_is_loopback, ipv4_is_multicast, ipv4_is_broadcast, ipv4_is_private.
  rewrite (compare_prefix_ok "127.0.0.0" (127 * 2 ^ 24)), (compare_prefix_ok "224.0.0.0" (224 * 2 ^ 24)),
    (compare_prefix_ok "10.0.0.0" (10 * 2 ^ 24)), (compare_prefix_ok "172.16.0.0" (172 * 2 ^ 24 + 16 * 2 ^ 16))
    by (vm_compute; done || split; done).
  change (compare_prefix "192.168.0.0." a 16) with (Throw bad_representation : res addr_error bool).
  change (32 - 8) with 24. change (32 - 4) with 28. change (32 - 12) with 20.
  change (2 ^ 24) with 16777216. change (2 ^ 28) with 268435456. change (2 ^ 20) with 1048576. change (2 ^ 16) with 65536.
  rewrite Ha. split_and!.
  - cbn [noexcept]. f_equal. apply eq_bool_prop_intro. rewrite !Is_true_true, !Z.eqb_eq.
    split; intros; Z.div_mod_to_equations; lia.
  - cbn [noexcept]. f_equal. apply eq_bool_prop_intro. rewrite !Is_true_true, andb_true_iff, Z.eqb_eq, !Z.leb_le.
    split; intros; Z.div_mod_to_equations; lia.
  - unfold bits_all. rewrite Hs, Ha, Z.eqb_eq. change (Z.ones 32) with 4294967295. split; [|intros [= -> -> -> ->]; done].
    intros E. repeat f_equal; lia.
  - cbn [mbind res_bind].
    assert ((10 * 16777216 / 16777216 =? (((o0 * 256 + o1) * 256 + o2) * 256 + o3) / 16777216) = (o0 =? 10)) as ->.
    { apply eq_bool_prop_intro. rewrite !Is_true_true, !Z.eqb_eq. split; intros; Z.div_mod_to_equations; lia. }
    assert (((172 * 16777216 + 16 * 65536) / 1048576 =? (((o0 * 256 + o1) * 256 + o2) * 256 + o3) / 1048576)
      = ((o0 =? 172) && (16 <=? o1) && (o1 <=? 31))) as ->.
    { apply eq_bool_prop_intro. rewrite !Is_true_true, !andb_true_iff, !Z.eqb_eq, !Z.leb_le.
      split; intros; Z.div_mod_to_equations; lia. }
    destruct (o0 =? 10); [done|]. cbn [orb]. by destruct (_ && _).
Qed.

Lemma ipv4_kinds_witness :
  ipv4_is_private (ipv4_of_octets [172; 20; 0; 1]) = Ok true
  /\ ipv4_is_private (ipv4_of_octets [192; 168; 0; 1]) = Throw std_terminate.
Proof.
  split; [apply (ipv4_kinds 172 20 0 1)|apply (ipv4_kinds 192 168 0 1)]; done.
Defined.

(** ** IPv6 strings *)

Definition hextet (g : list ascii) : Prop := forallb is_xdigit g = true /\ (1 <= length g <= 4)%nat.

Lemma hextet_denotes g : hextet g -> denotes r_xdigits g.
Proof.
  intros [Hx Hl]. apply denotes_repeat_1; [|done]. clear Hl. induction g as [|c g IH]; [by apply Forall_nil|].
  cbn in Hx. apply andb_true_iff in Hx as [? ?]. apply Forall_cons. auto.
Qed.

Lemma denotes_upto_list r n ss : Forall (denotes r) ss -> (length ss <= n)%nat -> denotes (r_upto r n) (concat ss).
Proof.
  revert ss. induction n as [|n IH]; intros [|s ss] Hs Hl; cbn in *; try lia; [constructor|by apply d_left; constructor|].
  apply Forall_cons in Hs as [? ?]. apply d_right. constructor; [done|]. apply IH; [done|lia].
Qed.

Lemma denotes_repeat_list r m n ss :
  Forall (denotes r) ss -> (m <= length ss <= n)%nat -> denotes (r_repeat r m n) (concat ss).
Proof.
  intros Hs Hl. rewrite <- (take_drop m ss), concat_app. unfold r_repeat. constructor.
  - assert (length (take m ss) = m) as E by (rewrite length_take; lia). rewrite <- E at 1.
    apply (Forall_take _ m) in Hs. clear -Hs. induction Hs; cbn; by constructor.
  - apply denotes_upto_list; [by apply Forall_drop|]. rewrite length_drop. lia.
Qed.

Definition heads (L : list (list ascii)) : list ascii := concat (map (fun g => g ++ [":"%char]) L).
Definition tails (R : list (list ascii)) : list ascii := concat (map (fun g => ":"%char :: g) R).

Lemma heads_join L : L <> [] -> heads L = join ":"%char L ++ [":"%char].
Proof.
  unfold heads. induction L as [|g L IH]; intros Hn; [done|]. destruct L as [|h L]; [by cbn; rewrite app_nil_r|].
  change (join ":"%char (g :: h :: L)) with (g ++ ":"%char :: join ":"%char (h :: L)).
  cbn [map concat] in *. rewrite IH by done. by rewrite <- !app_assoc.
Qed.

Lemma tails_join R : R <> [] -> tails R = ":"%char :: join ":"%char R.
Proof.
  unfold tails. induction R as [|g R IH]; intros Hn; [done|]. destruct R as [|h R]; [by cbn; rewrite app_nil_r|].
  change (join ":"%char (g :: h :: R)) with (g ++ ":"%char :: join ":"%char (h :: R)).
  cbn [map concat] in *. by rewrite IH by done.
Qed.

Lemma denotes_heads m n L : Forall hextet L -> (m <= length L <= n)%nat -> denotes (r_head m n) (heads L).
Proof.
  intros Hf Hl. apply denotes_repeat_list; [|by rewrite length_map]. apply Forall_map.
  eapply Forall_impl; [done|]. intros g Hg. constructor; [by apply hextet_denotes|apply denotes_char].
Qed.

Lemma denotes_tails m n R : Forall hextet R -> (m <= length R <= n)%nat -> denotes (r_tail m n) (tails R).
Proof.
  intros Hf Hl. apply denotes_repeat_list; [|by rewrite length_map]. apply Forall_map.
  eapply Forall_impl; [done|]. intros g Hg. apply (d_seq _ _ [":"%char] g); [apply denotes_char|by apply hextet_denotes].
Qed.

(** The text with the zero run compressed: L groups, [::], R groups. *)
Definition compressed (L R : list (list ascii)) : list ascii :=
  join ":"%char L ++ ":"%char :: ":"%char :: join ":"%char R.

Lemma compressed_heads L R : L <> [] -> R <> [] -> compressed L R = heads L ++ tails R.
Proof. intros HL HR. unfold compressed. rewrite heads_join, tails_join by done. by rewrite <- app_assoc. Qed.

Local Ltac alternatives n :=
  match n with O => idtac | S ?k => apply d_right; alternatives k end.

Lemma validation_full G : Forall hextet G -> length G = 8%nat -> regex_match ipv6_validation (join ":"%char G) = true.
Proof.
  intros Hf Hl. apply regex_match_ok. apply d_left.
  destruct (exists_last (l := G)) as (L & g & ->); [by destruct G|].
  apply Forall_app in Hf as [HL Hg]. rewrite Forall_singleton in Hg. rewrite length_app in Hl. cbn in Hl.
  assert (join ":"%char (L ++ [g]) = heads L ++ g) as ->.
  { clear. unfold heads. induction L as [|h L IH]; [done|]. cbn [map concat app].
    rewrite <- (app_assoc _ (concat _)), <- IH. destruct L; cbn; by rewrite <- app_assoc. }
  constructor; [apply denotes_heads; [done|lia]|by apply hextet_denotes].
Qed.

Lemma validation_both L R :
  Forall hextet L -> Forall hextet R -> (1 <= length L)%nat -> (1 <= length R)%nat ->
  (length L + length R <= 7)%nat -> regex_match ipv6_validation (compressed L R) = true.
Proof.
  intros HL HR Hl Hr Hs. apply regex_match_ok.
  rewrite compressed_heads by (destruct L, R; cbn in *; (done || lia)). unfold ipv6_validation.
  destruct (length R) as [|[|[|[|[|[|[|]]]]]]] eqn:Er; try lia.
  - alternatives 2%nat. apply d_left. constructor; [apply denotes_heads; [done|lia]|].
    destruct R as [|g [|]]; try done. rewrite Forall_singleton in HR. unfold tails. cbn. rewrite app_nil_r.
    apply (d_seq _ _ [":"%char] g); [apply denotes_char|by apply hextet_denotes].
  - alternatives 3%nat. apply d_left. constructor; [apply denotes_heads|apply denotes_tails]; (done || lia).
  - alternatives 4%nat. apply d_left. constructor; [apply denotes_heads|apply denotes_tails]; (done || lia).
  - alternatives 5%nat. apply d_left. constructor; [apply denotes_heads|apply denotes_tails]; (done || lia).
  - alternatives 6%nat. apply d_left. constructor; [apply denotes_heads|apply denotes_tails]; (done || lia).
  - alternatives 7%nat. apply d_left. destruct L as [|g [|]]; cbn in *; try lia.
    rewrite Forall_singleton in HL. unfold heads. cbn. rewrite app_nil_r, <- app_assoc.
    constructor; [by apply hextet_denotes|]. constructor; [apply denotes_char|].
    apply denotes_tails; [done|lia].
Qed.

Lemma validation_left L :
  Forall hextet L -> (length L <= 7)%nat -> regex_match ipv6_validation (compressed L []) = true.
Proof.
  intros HL Hl. destruct (decide (L = [])) as [->|Hn]; [by vm_compute|]. apply regex_match_ok.
  unfold ipv6_validation. apply d_right, d_left.
  assert (compressed L [] = heads L ++ [":"%char]) as ->.
  { unfold compressed. cbn [join]. by rewrite heads_join, <- app_assoc by done. }
  constructor; [|apply denotes_char]. apply denotes_heads; [done|]. destruct L; [done|cbn in *; lia].
Qed.

Lemma validation_right R :
  Forall hextet R -> (length R <= 7)%nat -> regex_match ipv6_validation (compressed [] R) = true.
Proof.
  intros HR Hl. destruct (decide (R = [])) as [->|Hn]; [by vm_compute|]. apply regex_match_ok.
  unfold ipv6_validation. alternatives 8%nat.
  assert (compressed [] R = [":"%char] ++ tails R) as -> by (unfold compressed; by rewrite tails_join by done).
  constructor; [apply denotes_char|]. apply d_left. apply denotes_tails; [done|]. destruct R; [done|cbn in *; lia].
Qed.

(** Colons *)

Lemma count_colons_app s t : count_colons (s ++ t) = (count_colons s + count_colons t)%nat.
Proof. unfold count_colons. by rewrite filter_app, length_app. Qed.

Lemma hextet_chars g : forallb is_xdigit g = true -> Forall (fun c => c <> ":"%char) g.
Proof.
  induction g as [|c g IH]; [by constructor|]. cbn. intros [Hc Hg]%andb_true_iff. constructor; [|auto].
  intros ->. by vm_compute in Hc.
Qed.

Lemma count_colons_group g : forallb is_xdigit g = true -> count_colons g = 0%nat.
Proof.
  intros Hg%hextet_chars. unfold count_colons. induction Hg as [|c g Hc _ IH]; [done|].
  by rewrite filter_cons_False.
Qed.

Lemma count_colons_cons s : count_colons (":"%char :: s) = S (count_colons s).
Proof. unfold count_colons. by rewrite filter_cons_True. Qed.

Lemma count_colons_join gs :
  Forall (fun g => forallb is_xdigit g = true) gs -> count_colons (join ":"%char gs) = (length gs - 1)%nat.
Proof.
  induction gs as [|g gs IH]; [done|]. intros [Hg Hgs]%Forall_cons. destruct gs as [|h gs]; [by apply count_colons_group|].
  change (join ":"%char (g :: h :: gs)) with (g ++ ":"%char :: join ":"%char (h :: gs)).
  rewrite count_colons_app, count_colons_cons, count_colons_group, IH by done. cbn. lia.
Qed.

Lemma count_colons_compressed L R :
  Forall hextet L -> Forall hextet R ->
  count_colons (compressed L R) = (length L - 1 + (length R - 1) + 2)%nat.
Proof.
  intros HL HR. unfold compressed. rewrite count_colons_app, !count_colons_cons, !count_colons_join; [lia| |];
    (eapply Forall_impl; [done|]); by intros g [? _].
Qed.

Lemma find_colons_cons c s : c <> ":"%char -> find_colons (c :: s) = option_map S (find_colons s).
Proof. intros Hc. cbn [find_colons]. assert (is_char ":"%char c = false) as -> by (by apply bool_decide_eq_false). done. Qed.

Lemma find_colons_single c s : c <> ":"%char -> find_colons (":"%char :: c :: s) = option_map S (find_colons (c :: s)).
Proof.
  intros Hc. change (find_colons (":"%char :: c :: s)) with
    (if is_char ":"%char c then Some 0%nat else option_map S (find_colons (c :: s))).
  assert (is_char ":"%char c = false) as -> by (by apply bool_decide_eq_false). done.
Qed.

Lemma find_colons_skip g s :
  Forall (fun c => c <> ":"%char) g -> find_colons (g ++ s) = option_map (Nat.add (length g)) (find_colons s).
Proof.
  induction 1 as [|x g Hx _ IH]; [by destruct (find_colons _)|].
  cbn [app]. rewrite find_colons_cons, IH by done. by destruct (find_colons s).
Qed.

Lemma find_colons_compressed L s :
  Forall hextet L ->
  find_colons (join ":"%char L ++ ":"%char :: ":"%char :: s) = Some (length (join ":"%char L)).
Proof.
  induction L as [|g L IH]; [done|]. intros [[Hx Hl] HL]%Forall_cons. apply hextet_chars in Hx.
  destruct L as [|h L].
  { cbn [join]. rewrite find_colons_skip by done.
    change (find_colons (":"%char :: ":"%char :: s)) with (Some 0%nat). cbn. f_equal. lia. }
  change (join ":"%char (g :: h :: L)) with (g ++ ":"%char :: join ":"%char (h :: L)).
  rewrite <- app_assoc. cbn [app]. rewrite find_colons_skip, length_app by done.
  specialize (IH HL). remember (join ":"%char (h :: L) ++ ":"%char :: ":"%char :: s) as rest eqn:Er.
  assert (exists c r, rest = c :: r /\ c <> ":"%char) as (c & r & -> & Hc).
  { apply Forall_cons in HL as [[Hxh Hlh] _]. apply hextet_chars in Hxh. destruct h as [|c h]; [cbn in Hlh; lia|].
    apply Forall_cons in Hxh as [Hc _]. exists c. destruct L; cbn in Er; eexists; split; eauto. }
  by rewrite find_colons_single, IH by done.
Qed.

Lemma join_app c (a b : list (list ascii)) : a <> [] -> b <> [] -> join c (a ++ b) = join c a ++ c :: join c b.
Proof.
  intros Ha Hb. induction a as [|g a IH]; [done|]. destruct a as [|h a].
  - destruct b; [done|]. done.
  - change (join c ((g :: h :: a) ++ b)) with (g ++ c :: join c ((h :: a) ++ b)). rewrite IH by done.
    change (join c (g :: h :: a)) with (g ++ c :: join c (h :: a)). by rewrite <- app_assoc.
Qed.

Lemma join_empties c k : join c (replicate (S k) []) = replicate k c.
Proof. induction k as [|k IH]; [done|]. change (replicate (S (S k)) (@nil ascii)) with (@nil ascii :: replicate (S k) []).
  change (join c ([] :: replicate (S k) [])) with (c :: join c (replicate (S k) [])). by rewrite IH. Qed.

Lemma replicate_comm_cons {A} k (c : A) s : replicate k c ++ c :: s = c :: replicate k c ++ s.
Proof. induction k as [|k IH]; [done|]. cbn. by rewrite IH. Qed.

(** The eight groups of a compressed text. *)
Definition eight_groups (L R : list (list ascii)) : list (list ascii) :=
  L ++ replicate (8 - length L - length R) [] ++ R.

Lemma expand_compressed L R :
  Forall hextet L -> Forall hextet R ->
  (length L + length R <= 7)%nat -> (L = [] \/ R = [] -> (length L + length R <= 6)%nat) ->
  expand_colons (compressed L R) = Ok (join ":"%char (eight_groups L R)).
Proof.
  intros HL HR Hs He. unfold expand_colons. rewrite count_colons_compressed by done. cbv zeta.
  set (n := (length L - 1 + (length R - 1) + 2)%nat).
  assert (Hj : join ":"%char (eight_groups L R)
    = join ":"%char L ++ replicate (7 - n) ":"%char ++ ":"%char :: ":"%char :: join ":"%char R).
  { unfold eight_groups. rewrite !replicate_comm_cons.
    destruct (8 - length L - length R)%nat as [|k] eqn:Ek; [lia|].
    destruct (decide (L = [])) as [->|HnL], (decide (R = [])) as [->|HnR]; cbn [join app length] in *.
    - cbn [length] in *. assert (k = 7)%nat as -> by lia. rewrite app_nil_r, join_empties. done.
    - assert (0 < length R)%nat by (destruct R; [done|cbn; lia]). specialize (He (or_introl eq_refl)).
      rewrite join_app, join_empties by done. rewrite replicate_comm_cons. subst n. cbn [length] in *.
      destruct k as [|k]; [lia|]. cbn [replicate app]. do 2 f_equal. f_equal. f_equal. lia.
    - assert (0 < length L)%nat by (destruct L; [done|cbn; lia]). specialize (He (or_intror eq_refl)). rewrite !app_nil_r.
      rewrite join_app, join_empties by done. f_equal. subst n. cbn [length] in *.
      destruct k as [|k]; [lia|]. cbn [replicate]. do 2 f_equal. f_equal. lia.
    - assert (0 < length L)%nat by (destruct L; [done|cbn; lia]).
      assert (0 < length R)%nat by (destruct R; [done|cbn; lia]).
      rewrite !join_app, join_empties by done. f_equal. f_equal. rewrite replicate_comm_cons. f_equal. f_equal.
      f_equal. subst n. lia. }
  rewrite Hj. destruct (bool_decide_reflect (n < 7)%nat) as [Hlt|Hge].
  - unfold compressed. rewrite find_colons_compressed by done.
    by rewrite take_app_length, drop_app_length.
  - rewrite (ltac:(lia) : (7 - n)%nat = 0%nat). done.
Qed.

(** The two 64-bit halves of eight hextets. *)
Definition hextets_value (hs : list Z) : Z := fold_left (fun acc h => acc * 65536 + h) hs 0.
Definition ipv6_halves (hs : list Z) : Z * Z := (hextets_value (take 4 hs), hextets_value (drop 4 hs)).

Lemma push_hextets gs :
  Forall (fun g => forallb is_xdigit g = true /\ (0 <= length g <= 4)%nat) gs -> (length gs <= 4)%nat ->
  fold_left push_hextet gs 0 = hextets_value (map (stoi 16) gs)
  /\ 0 <= hextets_value (map (stoi 16) gs) < 65536 ^ Z.of_nat (length gs).
Proof.
  induction gs as [|g gs IH] using rev_ind; [done|]. intros [Hgs Hg]%Forall_app Hl.
  apply Forall_cons in Hg as [[Hx Hlen] _]. rewrite length_app in *. cbn [length] in *.
  destruct (IH Hgs ltac:(lia)) as [E Hb]. unfold hextets_value in *.
  rewrite map_app, !fold_left_app. cbn [map fold_left]. rewrite E.
  set (v := fold_left _ (map (stoi 16) gs) 0) in *.
  assert (Hh : 0 <= stoi 16 g < 65536).
  { pose proof (stoi_bound g Hx). assert (16 ^ Z.of_nat (length g) <= 16 ^ 4) by (apply Z.pow_le_mono_r; lia).
    change (16 ^ 4) with 65536 in *. lia. }
  assert (Hv : v < 65536 ^ 3).
  { apply Z.lt_le_trans with (65536 ^ Z.of_nat (length gs)); [lia|]. apply Z.pow_le_mono_r; lia. }
  change (65536 ^ 3) with 281474976710656 in Hv.
  split.
  - unfold push_hextet. rewrite Z.shiftl_mul_pow2, (wrap_small 64) by
      (lia || (unfold in_width; change (2 ^ 16) with 65536; change (2 ^ 64) with 18446744073709551616; lia)).
    destruct (bool_decide_reflect (0 < length g)%nat) as [Hp|Hp].
    + rewrite <- Z.shiftl_mul_pow2 by lia. rewrite lor_shiftl_add by (lia || apply wrap_in_width; lia).
      rewrite wrap_small by (unfold in_width; change (2 ^ 16) with 65536; lia). done.
    + destruct g; [|cbn in Hp; lia]. change (stoi 16 []) with 0. change (2 ^ 16) with 65536. lia.
  - rewrite Nat2Z.inj_add, Z.pow_add_r by lia. change (65536 ^ Z.of_nat 1) with 65536. nia.
Qed.

Lemma ipv6_match_groups gs :
  length gs = 8%nat -> Forall (fun g => forallb is_xdigit g = true /\ (0 <= length g <= 4)%nat) gs ->
  match_atoms ipv6_pattern (join ":"%char gs) = Some gs
  /\ (fold_left push_hextet (take 4 gs) 0, fold_left push_hextet (drop 4 gs) 0) = ipv6_halves (map (stoi 16) gs).
Proof.
  intros Hl Hf. split; [by apply match_separated|]. unfold ipv6_halves. rewrite <- fmap_take, <- fmap_drop.
  destruct (push_hextets (take 4 gs)) as [-> _]; [by apply Forall_take|rewrite length_take; lia|].
  destruct (push_hextets (drop 4 gs)) as [-> _]; [by apply Forall_drop|rewrite length_drop; lia|]. done.
Qed.

Lemma hextets_loose gs : Forall hextet gs -> Forall (fun g => forallb is_xdigit g = true /\ (0 <= length g <= 4)%nat) gs.
Proof. intros H. eapply Forall_impl; [done|]. intros g [? ?]. split; [done|lia]. Qed.

Lemma parse_valid s gs :
  regex_match ipv6_validation s = true -> expand_colons s = Ok (join ":"%char gs) ->
  length gs = 8%nat -> Forall (fun g => forallb is_xdigit g = true /\ (0 <= length g <= 4)%nat) gs ->
  parse_ipv6 s = Ok (ipv6_halves (map (stoi 16) gs)).
Proof.
  intros Hv He Hl Hf. unfold parse_ipv6. rewrite Hv, He. cbn [mbind res_bind].
  destruct (ipv6_match_groups gs Hl Hf) as [-> E]. by rewrite <- E.
Qed.

(** IPv6 parsing computes the address that the text denotes: eight groups
    of one to four hexadecimal digits give their two 64-bit halves, and a text
    with one [::] gives the halves of the groups with zeros in the gap, for at
    most seven groups around the gap (six when one side is empty). *)
Theorem parse_ipv6_value L R :
  Forall hextet L -> Forall hextet R ->
  (length L = 8%nat -> parse_ipv6 (join ":"%char L) = Ok (ipv6_halves (map (stoi 16) L)))
  /\ ((length L + length R <= 7)%nat -> (L = [] \/ R = [] -> (length L + length R <= 6)%nat) ->
      parse_ipv6 (compressed L R)
      = Ok (ipv6_halves (map (stoi 16) L ++ replicate (8 - length L - length R) 0 ++ map (stoi 16) R))).
Proof.
  intros HL HR. split.
  - intros Hl. apply parse_valid; [by apply validation_full| |done|by apply hextets_loose].
    unfold expand_colons. rewrite count_colons_join; [by rewrite Hl|].
    eapply Forall_impl; [exact HL|]. by intros g [? _].
  - intros Hs He.
    assert (map (stoi 16) L ++ replicate (8 - length L - length R) 0 ++ map (stoi 16) R
      = map (stoi 16) (eight_groups L R)) as ->.
    { unfold eight_groups. rewrite !map_app. do 2 f_equal. symmetry. apply (fmap_replicate (stoi 16)). }
    apply parse_valid.
    + destruct L as [|l L]; [apply validation_right; [done|cbn in *; lia]|].
      destruct R as [|r R]; [apply validation_left; [done|cbn in *; lia]|].
      apply validation_both; (done || cbn in *; lia).
    + by apply expand_compressed.
    + unfold eight_groups. rewrite !length_app, length_replicate. lia.
    + unfold eight_groups. apply Forall_app. split; [by apply hextets_loose|]. apply Forall_app.
      split; [|by apply hextets_loose]. apply Forall_replicate. split; [done|cbn; lia].
Qed.

Lemma parse_ipv6_value_witness :
  parse_ipv6 (list_ascii_of_string "fe80::21b:21FF:0:1") = Ok (0xfe80000000000000, 0x021b21ff00000001).
Proof.
  destruct (parse_ipv6_value [list_ascii_of_string "fe80"] (map list_ascii_of_string ["21b"; "21FF"; "0"; "1"]%string)) as [_ H].
  - repeat (apply Forall_cons; split; [split; [vm_compute; reflexivity|cbn; lia]|]). by apply Forall_nil.
  - repeat (apply Forall_cons; split; [split; [vm_compute; reflexivity|cbn; lia]|]). by apply Forall_nil.
  - apply H; [cbn; lia|intros [?|?]; done].
Defined.

(** the two texts with seven groups and [::] at one end pass the validation
    pattern, whose comment lists them as addresses, and are then refused: they
    hold eight colons and nine groups, so the second pattern does not match. *)
Theorem parse_ipv6_seven_groups G :
  Forall hextet G -> length G = 7%nat ->
  regex_match ipv6_validation (compressed G []) = true /\ parse_ipv6 (compressed G []) = Throw bad_representation
  /\ regex_match ipv6_validation (compressed [] G) = true /\ parse_ipv6 (compressed [] G) = Throw bad_representation.
Proof.
  intros HG Hl.
  assert (Hno : forall s, count_colons s = 8%nat -> match_atoms ipv6_pattern s = None).
  { intros s Hs. destruct (match_atoms ipv6_pattern s) as [gs|] eqn:E; [|done].
    apply match_separated_inv in E as (-> & Hgl & Hgf); [|lia]. exfalso.
    rewrite count_colons_join, Hgl in Hs; [lia|]. eapply Forall_impl; [done|]. by intros g [? _]. }
  assert (Hp : forall s, count_colons s = 8%nat -> regex_match ipv6_validation s = true ->
    parse_ipv6 s = Throw bad_representation).
  { intros s Hs Hv. unfold parse_ipv6, expand_colons. rewrite Hv, Hs.
    change (match match_atoms ipv6_pattern s with
      | None => Throw bad_representation
      | Some m => Ok (fold_left push_hextet (take 4 m) 0, fold_left push_hextet (drop 4 m) 0) end
      = (Throw bad_representation : res addr_error (Z * Z))). by rewrite Hno. }
  pose proof (validation_left G HG ltac:(lia)) as V1. pose proof (validation_right G HG ltac:(lia)) as V2.
  split_and!; try done; (apply Hp; [|done]); rewrite count_colons_compressed by done; cbn; lia.
Qed.

Lemma parse_ipv6_seven_groups_witness :
  parse_ipv6 (list_ascii_of_string "1:2:3:4:5:6:7::") = Throw bad_representation.
Proof.
  apply (parse_ipv6_seven_groups (map list_ascii_of_string ["1"; "2"; "3"; "4"; "5"; "6"; "7"]%string)); [|done].
  repeat (apply Forall_cons; split; [split; [vm_compute; reflexivity|cbn; lia]|]). by apply Forall_nil.
Defined.

(** ** No other exception *)

Lemma denotes_upto_inv (P : list ascii -> Prop) r n s :
  P [] -> (forall a b, denotes r a -> P b -> P (a ++ b)) -> denotes (r_upto r n) s -> P s.
Proof.
  intros H0 Hs. revert s. induction n as [|n IH]; intros s Hd; cbn in Hd.
  - by inversion Hd.
  - inversion Hd as [| | |? ? ? Ha|? ? ? Hb| |]; subst; [by inversion Ha|].
    inversion Hb; subst. auto.
Qed.

Lemma ends_head m s : denotes (r_head 1 m) s -> exists u, s = u ++ [":"%char].
Proof.
  intros Hd. inversion Hd as [| |? ? a b Ha Hb| | | |]; subst. inversion Ha as [| |? ? c d Hc Hd'| | | |]; subst.
  inversion Hd'; subst. rewrite app_nil_r. inversion Hc as [| |? ? e f He Hf| | | |]; subst.
  inversion Hf as [|? ? Hp| | | | |]; subst. apply bool_decide_eq_true in Hp as ->.
  assert (b = [] \/ exists u, b = u ++ [":"%char]) as [->|[u ->]].
  - revert Hb. apply (denotes_upto_inv (fun b => b = [] \/ exists u, b = u ++ [":"%char])); [by left|]. intros x y Hx Hy. right. destruct Hy as [->|[v ->]].
    + rewrite app_nil_r. inversion Hx as [| |? ? g h Hg Hh| | | |]; subst. inversion Hh as [|? ? Hq| | | | |]; subst.
      apply bool_decide_eq_true in Hq as ->. eauto.
    + exists (x ++ v). by rewrite app_assoc.
  - exists e. by rewrite app_nil_r.
  - exists ((e ++ [":"%char]) ++ u). by rewrite app_assoc.
Qed.

Lemma starts_colon r s : denotes (r_seq r_colon r) s -> exists v, s = ":"%char :: v.
Proof.
  intros Hd. inversion Hd as [| |? ? a b Ha Hb| | | |]; subst. inversion Ha as [|? ? Hp| | | | |]; subst.
  apply bool_decide_eq_true in Hp as ->. by exists b.
Qed.

Lemma starts_tail m s : denotes (r_tail 1 m) s -> exists v, s = ":"%char :: v.
Proof.
  intros Hd. inversion Hd as [| |? ? a b Ha Hb| | | |]; subst. inversion Ha as [| |? ? c d Hc Hd'| | | |]; subst.
  inversion Hd'; subst. apply starts_colon in Hc as [v ->]. exists (v ++ b). by rewrite app_nil_r.
Qed.

Lemma find_colons_middle u v : find_colons (u ++ ":"%char :: ":"%char :: v) <> None.
Proof.
  induction u as [|c u IH]; [done|]. cbn [app find_colons]. destruct (_ && _); [done|].
  by destruct (find_colons (u ++ _)).
Qed.

Lemma count_colons_power r n s :
  (forall a, denotes r a -> (1 <= count_colons a)%nat) -> denotes (r_power r n) s -> (n <= count_colons s)%nat.
Proof.
  intros Hr. revert s. induction n as [|n IH]; intros s Hd; cbn in Hd; [lia|].
  inversion Hd as [| |? ? a b Ha Hb| | | |]; subst. rewrite count_colons_app. apply Hr in Ha. apply IH in Hb. lia.
Qed.

Lemma valid_has_gap s : denotes ipv6_validation s -> (7 <= count_colons s)%nat \/ find_colons s <> None.
Proof.
  assert (Hmid : forall a b u v, a = u ++ [":"%char] -> b = ":"%char :: v -> find_colons (a ++ b) <> None).
  { intros a b u v -> ->. rewrite <- app_assoc. apply find_colons_middle. }
  unfold ipv6_validation. intros Hd.
  repeat match type of Hd with denotes (r_alt _ _) _ => inversion Hd as [| | |? ? ? Ha|? ? ? Hb| |]; subst; clear Hd;
    [inversion Ha as [| |? ? a b Hx Hy| | | |]; subst; clear Ha|rename Hb into Hd] end.
  - left. rewrite count_colons_app. enough (7 <= count_colons a)%nat by lia.
    inversion Hx as [| |? ? c d Hc Hd| | | |]; subst. rewrite count_colons_app.
    apply (count_colons_power (r_seq r_xdigits r_colon) 7) in Hc; [lia|]. intros e He. inversion He as [| |? ? f g Hf Hg| | | |]; subst.
    inversion Hg as [|? ? Hp| | | | |]; subst. apply bool_decide_eq_true in Hp as ->.
    rewrite count_colons_app, count_colons_cons. lia.
  - right. apply ends_head in Hx as [u ->]. inversion Hy as [|? ? Hp| | | | |]; subst.
    apply bool_decide_eq_true in Hp as ->. by eapply Hmid.
  - right. apply ends_head in Hx as [u ->]. apply starts_colon in Hy as [v ->]. by eapply Hmid.
  - right. apply ends_head in Hx as [u ->]. apply starts_tail in Hy as [v ->]. by eapply Hmid.
  - right. apply ends_head in Hx as [u ->]. apply starts_tail in Hy as [v ->]. by eapply Hmid.
  - right. apply ends_head in Hx as [u ->]. apply starts_tail in Hy as [v ->]. by eapply Hmid.
  - right. apply ends_head in Hx as [u ->]. apply starts_tail in Hy as [v ->]. by eapply Hmid.
  - right. inversion Hy as [| |? ? c d Hc Hd| | | |]; subst. inversion Hc as [|? ? Hp| | | | |]; subst.
    apply bool_decide_eq_true in Hp as ->. apply starts_tail in Hd as [v ->]. cbn. apply find_colons_middle.
  - right. inversion Hd as [| |? ? a b Hx Hy| | | |]; subst. inversion Hx as [|? ? Hp| | | | |]; subst.
    apply bool_decide_eq_true in Hp as ->. apply (find_colons_middle []) || idtac.
    inversion Hy as [| | |? ? ? Ht|? ? ? Ht| |]; subst.
    + apply starts_tail in Ht as [v ->]. apply (find_colons_middle [] v).
    + inversion Ht as [|? ? Hq| | | | |]; subst. apply bool_decide_eq_true in Hq as ->. apply (find_colons_middle [] []).
Qed.

(** the IPv6 parser is total: on every string it gives two halves or throws
    bad_representation; the insertion of the missing colons never runs with
    the position of a [::] that was not found. *)
Theorem parse_ipv6_total s :
  (exists one two, parse_ipv6 s = Ok (one, two)) \/ parse_ipv6 s = Throw bad_representation.
Proof.
  unfold parse_ipv6. destruct (regex_match ipv6_validation s) eqn:Hv; [|by right].
  apply regex_match_ok, valid_has_gap in Hv.
  assert (exists str, expand_colons s = Ok str) as [str ->].
  { unfold expand_colons. cbv zeta. destruct (bool_decide_reflect (count_colons s < 7)%nat); [|eauto].
    destruct Hv as [Hv|Hv]; [lia|]. destruct (find_colons s); [eauto|done]. }
  cbn [mbind res_bind]. destruct (match_atoms ipv6_pattern str); [left; eauto|by right].
Qed.

(** ** IPv6 numbers *)

(** an IPv6 address built from its two halves can be read back only when
    the first half is zero: otherwise [to_ullong] throws inside the noexcept
    [to_number] and the program terminates; when it is zero the halves come
    back in the opposite order, and the printed text is that of the swapped
    address. *)
Theorem ipv6_to_number_halves hi lo :
  in_width 64 hi -> in_width 64 lo ->
  bits_wf (ipv6_of_pair (hi, lo))
  /\ (hi <> 0 -> ipv6_to_number (ipv6_of_pair (hi, lo)) = Throw std_terminate
                 /\ ipv6_print (ipv6_of_pair (hi, lo)) = Throw std_terminate)
  /\ (hi = 0 -> ipv6_to_number (ipv6_of_pair (hi, lo)) = Ok (lo, 0)
                /\ ipv6_print (ipv6_of_pair (hi, lo))
                   = Ok (join ":"%char (map (show_base 16) (hextets_of lo ++ [0; 0; 0; 0])))).
Proof.
  intros Hhi Hlo.
  assert (Hval : bval (ipv6_of_pair (hi, lo)) = hi * 2 ^ 64 + lo /\ in_width 128 (hi * 2 ^ 64 + lo)).
  { unfold in_width in *. unfold ipv6_of_pair. cbn [bval fst snd]. change (2 ^ 64) with 18446744073709551616 in *.
    rewrite (wrap_small 128 hi), (wrap_small 128 lo), Z.shiftl_mul_pow2, wrap_small by
      (lia || (unfold in_width; change (2 ^ 64) with 18446744073709551616; change (2 ^ 128) with 340282366920938463463374607431768211456; lia)).
    rewrite <- Z.shiftl_mul_pow2, lor_shiftl_add by (lia || (unfold in_width; change (2 ^ 64) with 18446744073709551616; lia)).
    change (2 ^ 64) with 18446744073709551616. change (2 ^ 128) with 340282366920938463463374607431768211456. split; lia. }
  destruct Hval as [Hval Hw].
  assert (Hs : Z.shiftr (hi * 2 ^ 64 + lo) 64 = hi).
  { rewrite Z.shiftr_div_pow2, Z.div_add_l, Z.div_small by (apply Hlo || done || lia). lia. }
  unfold ipv6_print, ipv6_to_hextets, ipv6_to_number, bitset_to_ullong. rewrite !Hval, !Hs. split_and!.
  - split; [done|]. cbn [bsize ipv6_of_pair]. by rewrite Hval.
  - intros Hn. apply Z.eqb_neq in Hn. by rewrite Hn.
  - intros ->. cbn [Z.eqb mbind res_bind]. rewrite Z.mul_0_l, Z.add_0_l. cbn [Z.shiftr]. split; done.
Qed.

Lemma ipv6_to_number_halves_witness :
  ipv6_to_number (ipv6_of_pair (0xfe80000000000000, 1)) = Throw std_terminate
  /\ ipv6_print (ipv6_of_pair (0, 0x10002)) = Ok (list_ascii_of_string "0:0:1:2:0:0:0:0").
Proof.
  split.
  - by apply (ipv6_to_number_halves 0xfe80000000000000 1).
  - by apply (ipv6_to_number_halves 0 0x10002).
Defined.
