(* ===== verification/RaftWire.v ===== *)
(** * Raft: the wire format (src/raft/simple_serialize.cpp, simple_message_processor.cpp)

    Messages are lines of words.  Printing is operator<< into an ostringstream,
    reading is operator>> from an istringstream whose failbit throws, and the
    newline tokenizer cuts the bytes of a connection into lines. *)

From S2P Require Import Prelude Regex RaftTypes.
Local Open Scope Z_scope.

(** [std::istringstream::failure], and the std::length_error of
    [vec.reserve] on a count no vector can have. *)
Inductive stream_error := stream_failure | length_error.

#[export] Instance stream_error_dec : EqDecision stream_error.
Proof. solve_decision. Defined.

Abbreviation reading A := (res stream_error (A * list ascii)).

(** ** Formatted output and input (the "C" locale) *)

Definition chars (s : string) : list ascii := list_ascii_of_string s.
Definition sp : list ascii := [" "%char].
Definition nl : ascii := "010"%char.
Definition cr : ascii := "013"%char.

Definition print_uint (n : Z) : list ascii := show_base 10 n.
Definition print_bool (b : bool) : list ascii := if b then ["1"%char] else ["0"%char].

Fixpoint span (p : ascii -> bool) (s : list ascii) : list ascii * list ascii :=
  match s with
  | c :: s' => if p c then let '(w, r) := span p s' in (c :: w, r) else ([], s)
  | [] => ([], [])
  end.

(** [is >> str] *)
Definition read_string (s : list ascii) : reading string :=
  match span (fun c => negb (is_space c)) (skip_ws s) with
  | ([], _) => Throw stream_failure
  | (w, r) => Ok (string_of_list_ascii w, r)
  end.

(** The digits of a number and whether a minus sign came before them. *)
Definition read_digits (s : list ascii) : reading (bool * Z) :=
  let s := skip_ws s in
  let '(neg, s) := match s with
                   | c :: s' => if decide (c = "-"%char) then (true, s')
                                else if decide (c = "+"%char) then (false, s') else (false, s)
                   | [] => (false, s)
                   end in
  match span is_digit s with
  | ([], _) => Throw stream_failure
  | (d, r) => Ok (neg, stoi 10 d, r)
  end.

(** [is >> n] for a uint64_t: a minus sign negates modulo 2^64. *)
Definition read_uint (s : list ascii) : reading Z :=
  '(neg, v, r) ← read_digits s;
  if 2 ^ 64 <=? v then Throw stream_failure else Ok (if neg : bool then u64 (- v) else v, r).

(** [is >> n] for an int *)
Definition read_int (s : list ascii) : reading Z :=
  '(neg, v, r) ← read_digits s;
  let v := if neg : bool then - v else v in
  if (v <? - 2 ^ 31) || (2 ^ 31 <=? v) then Throw stream_failure else Ok (v, r).

(** [is >> b]: the number must be 0 or 1 *)
Definition read_bool (s : list ascii) : reading bool :=
  '(neg, v, r) ← read_digits s;
  let v := if neg : bool then - v else v in
  if v =? 0 then Ok (false, r) else if v =? 1 then Ok (true, r) else Throw stream_failure.

(** ** Vectors *)

Definition print_vector {A} (print : A -> list ascii) (vec : list A) : list ascii :=
  print_uint (Z.of_nat (length vec)) ++ sp ++ concat (map (fun elem => print elem ++ sp) vec).

Fixpoint read_elems {A} (read : list ascii -> reading A) (num_elems : nat) (s : list ascii) : reading (list A) :=
  match num_elems with
  | O => Ok ([], s)
  | S n => '(elem, s) ← read s; '(vec, s) ← read_elems read n s; Ok (elem :: vec, s)
  end.

(** [elem_size] is [sizeof(T)]: [reserve] throws past [max_size]. *)
Definition max_size (elem_size : Z) : Z := (2 ^ 63 - 1) / elem_size.

Definition read_vector {A} (elem_size : Z) (read : list ascii -> reading A) (s : list ascii) : reading (list A) :=
  '(num_elems, s) ← read_uint s;
  if max_size elem_size <? num_elems then Throw length_error
  else read_elems read (Z.to_nat num_elems) s.

(** ** The structures *)

Definition print_entry_info (i : EntryInfo) : list ascii := print_uint (index i) ++ sp ++ print_uint (term i).

Definition read_entry_info (s : list ascii) : reading EntryInfo :=
  '(i, s) ← read_uint s; '(t, s) ← read_uint s; Ok (Info i t, s).

Definition print_header (h : MessageHeader) : list ascii :=
  chars (h_peer_id h) ++ sp ++ chars (h_destination_id h) ++ sp ++ print_uint (h_message_id h) ++ sp ++
  print_uint (h_term h) ++ sp ++ print_entry_info (commit (h_log_state h)) ++ sp ++
  print_entry_info (uncommit (h_log_state h)).

Definition read_header (s : list ascii) : reading MessageHeader :=
  '(p, s) ← read_string s; '(d, s) ← read_string s; '(m, s) ← read_uint s; '(t, s) ← read_uint s;
  '(c, s) ← read_entry_info s; '(u, s) ← read_entry_info s; Ok (Header p d m t (LogSt c u), s).

Definition print_entry (e : Entry) : list ascii := print_entry_info (info e) ++ sp ++ chars (data e).

Definition read_entry (s : list ascii) : reading Entry :=
  '(i, s) ← read_entry_info s; '(d, s) ← read_string s; Ok (Ent i d, s).

(** [sizeof(Entry<std::string>)] and [sizeof(PeerConfig)] *)
Definition entry_size : Z := 48.
Definition peer_config_size : Z := 80.

Definition read_append_request (s : list ascii) : reading AppendEntriesRequest :=
  '(h, s) ← read_header s; '(p, s) ← read_entry_info s; '(es, s) ← read_vector entry_size read_entry s;
  Ok (AppendReq h p es, s).
Definition read_append_response (s : list ascii) : reading AppendEntriesResponse :=
  '(h, s) ← read_header s; '(b, s) ← read_bool s; Ok (AppendResp h b, s).
Definition read_vote_request (s : list ascii) : reading VoteRequest :=
  '(h, s) ← read_header s; Ok (VoteReq h, s).
Definition read_vote_response (s : list ascii) : reading VoteResponse :=
  '(h, s) ← read_header s; '(b, s) ← read_bool s; Ok (VoteResp h b, s).
Definition read_client_request (s : list ascii) : reading ClientRequest :=
  '(d, s) ← read_string s; Ok (ClientReq "" "" d, s).

Record PeerConfig := PeerConf {
  pc_name : string; pc_address : string; pc_peer_port : Z; pc_client_port : Z; pc_is_new : bool }.
Record ConfigChangeRequest := ConfigReq {
  ccr_header : MessageHeader; ccr_previous_entry : Z; peer_configs : list PeerConfig }.

Definition read_peer_config (s : list ascii) : reading PeerConfig :=
  '(n, s) ← read_string s; '(a, s) ← read_string s; '(p, s) ← read_int s; '(c, s) ← read_int s;
  '(b, s) ← read_bool s; Ok (PeerConf n a p c b, s).
Definition read_config_request (s : list ascii) : reading ConfigChangeRequest :=
  '(h, s) ← read_header s; '(p, s) ← read_uint s; '(cs, s) ← read_vector peer_config_size read_peer_config s;
  Ok (ConfigReq h p cs, s).

(** [operator<<] of the messages between nodes, [serialize_impl]. *)
Definition print_message (m : message) : list ascii :=
  match m with
  | m_append_request r =>
      chars "AppendEntriesRequest " ++ print_header (arq_header r) ++ sp ++ print_entry_info (previous_entry r) ++ sp ++
      print_vector print_entry (entries r) ++ [nl]
  | m_append_response r =>
      chars "AppendEntriesResponse " ++ print_header (ars_header r) ++ sp ++ print_bool (success r) ++ sp ++ [nl]
  | m_vote_request r => chars "VoteRequest " ++ print_header (vrq_header r) ++ sp ++ [nl]
  | m_vote_response r =>
      chars "VoteResponse " ++ print_header (vrs_header r) ++ sp ++ print_bool (vote_granted r) ++ sp ++ [nl]
  | m_client_request r => chars "ClientRequest " ++ chars (cr_data r) ++ sp ++ [nl]
  end.

(** [operator<<] of [CurrentEntryResponse]. *)
Definition print_current_entry (i : EntryInfo) : list ascii :=
  chars "CurrentEntryResponse " ++ print_uint (index i) ++ sp ++ print_uint (term i) ++ sp ++ [nl].

(** ** Reading a line *)

Inductive received :=
| r_message (m : message)
| r_config (r : ConfigChangeRequest)
| r_unknown (name : string).

(** The name, then the message it selects. *)
Definition read_line (s : list ascii) : res stream_error received :=
  '(name, s) ← read_string s;
  if decide (name = "AppendEntriesRequest"%string) then '(m, _) ← read_append_request s; Ok (r_message (m_append_request m))
  else if decide (name = "AppendEntriesResponse"%string) then '(m, _) ← read_append_response s; Ok (r_message (m_append_response m))
  else if decide (name = "ClientRequest"%string) then '(m, _) ← read_client_request s; Ok (r_message (m_client_request m))
  else if decide (name = "VoteResponse"%string) then '(m, _) ← read_vote_response s; Ok (r_message (m_vote_response m))
  else if decide (name = "VoteRequest"%string) then '(m, _) ← read_vote_request s; Ok (r_message (m_vote_request m))
  else if decide (name = "ConfigChangeRequest"%string) then '(r, _) ← read_config_request s; Ok (r_config r)
  else Ok (r_unknown name).

(** ** The tokenizer *)

(** [std::find(begin, buffer_end, '\n')] *)
Fixpoint find_newline (s : list ascii) : option (list ascii * list ascii) :=
  match s with
  | [] => None
  | c :: s' => if decide (c = nl) then Some ([], s')
               else match find_newline s' with Some (l, r) => Some (c :: l, r) | None => None end
  end.

Definition strip_cr (l : list ascii) : list ascii :=
  if decide (last l = Some cr) then take (length l - 1) l else l.

Fixpoint tokenizer_loop (fuel : nat) (begin incomplete : list ascii) : list (list ascii) * list ascii :=
  match fuel, find_newline begin with
  | S k, Some (line, rest) =>
      let '(messages, excess) := tokenizer_loop k rest [] in
      (strip_cr (incomplete ++ line) :: messages, excess)
  | _, _ => ([], incomplete ++ begin)
  end.

(** The lines completed by one read, and the new [incomplete_message_]. *)
Definition newline_tokenizer (begin incomplete : list ascii) : list (list ascii) * list ascii :=
  tokenizer_loop (length begin) begin incomplete.

(** The reads of a connection, one after the other. *)
Fixpoint tokenize_reads (reads : list (list ascii)) (incomplete : list ascii) : list (list ascii) * list ascii :=
  match reads with
  | [] => ([], incomplete)
  | r :: rs =>
      let '(m1, inc) := newline_tokenizer r incomplete in
      let '(m2, inc) := tokenize_reads rs inc in
      (m1 ++ m2, inc)
  end.

(** ** Reading back what was printed *)

(** The text ends, or a space follows. *)
Definition ends (rest : list ascii) : Prop := match rest with [] => True | c :: _ => is_space c = true end.

(** A nonempty string without white space. *)
Definition word (s : string) : Prop := chars s <> [] /\ Forall (fun c => is_space c = false) (chars s).

#[export] Instance word_dec s : Decision (word s).
Proof. unfold word. apply _. Defined.

Lemma span_app p w rest :
  Forall (fun c => p c = true) w -> match rest with [] => True | c :: _ => p c = false end -> span p (w ++ rest) = (w, rest).
Proof.
  intros Hw Hr. induction Hw as [|c w Hc _ IH]; cbn.
  - destruct rest as [|c rest]; cbn; [done|]. by rewrite Hr.
  - by rewrite Hc, IH.
Qed.

Lemma span_all p w : Forall (fun c => p c = true) w -> span p w = (w, []).
Proof. intros Hf. rewrite <- (app_nil_r w) at 1. by apply span_app. Qed.

Lemma read_string_word w rest : word w -> ends rest -> read_string (chars w ++ rest) = Ok (w, rest).
Proof.
  intros [Hn Hf] He. unfold read_string.
  assert (skip_ws (chars w ++ rest) = chars w ++ rest) as ->.
  { destruct (chars w) as [|c l]; [done|]. apply Forall_cons in Hf as [Hc _]. cbn. by rewrite Hc. }
  rewrite span_app.
  - destruct (chars w) eqn:E; [done|]. rewrite <- E. unfold chars. by rewrite string_of_list_ascii_of_string.
  - eapply Forall_impl; [done|]. intros c Hc. cbn. by rewrite Hc.
  - destruct rest; [done|]. cbn in *. by rewrite He.
Qed.

(** Numbers of at most 64 bits are printed and read. *)
Lemma print_digits n : in_width 64 n -> stoi 10 (print_uint n) = n /\ print_uint n <> [] /\ Forall (fun c => is_digit c = true) (print_uint n).
Proof.
  intros [Hn1 Hn2]. change (2 ^ 64) with 18446744073709551616 in Hn2.
  destruct (show_base_ok 10 n 20) as (Hv & Hl & Hf); [lia|change (10 ^ Z.of_nat 20) with 100000000000000000000; lia|lia|].
  split_and!; [done| |].
  - intros E. unfold print_uint in E. rewrite E in Hl. cbn in Hl. lia.
  - eapply Forall_impl; [done|]. intros c [_ Hc]. by apply Hc.
Qed.

Lemma digit_not_space c : is_digit c = true -> is_space c = false /\ c <> "-"%char /\ c <> "+"%char.
Proof.
  unfold is_digit, is_space. intros [?%Z.leb_le ?%Z.leb_le]%andb_true_iff. split_and!.
  - apply orb_false_iff. split; [apply Z.eqb_neq; lia|]. apply andb_false_iff. right. apply Z.leb_gt. lia.
  - intros ->. by vm_compute in H.
  - intros ->. by vm_compute in H.
Qed.

Lemma ends_not_digit rest : ends rest -> match rest with [] => True | c :: _ => is_digit c = false end.
Proof.
  destruct rest as [|c rest]; [done|]. cbn. intros Hs. destruct (is_digit c) eqn:E; [|done].
  apply digit_not_space in E as (E & _). congruence.
Qed.

Lemma read_digits_print n rest : in_width 64 n -> ends rest -> read_digits (print_uint n ++ rest) = Ok (false, n, rest).
Proof.
  intros [Hn1 Hn2] He. change (2 ^ 64) with 18446744073709551616 in Hn2.
  destruct (show_base_ok 10 n 20) as (Hv & Hl & Hf); [lia|change (10 ^ Z.of_nat 20) with 100000000000000000000; lia|lia|].
  unfold read_digits, print_uint. destruct (show_base 10 n) as [|c l] eqn:E; [cbn in Hl; lia|].
  assert (Hd : Forall (fun c => is_digit c = true) (c :: l)).
  { eapply Forall_impl; [done|]. intros x [_ Hx]. by apply Hx. }
  destruct (digit_not_space c) as (Hs & Hm & Hp); [by apply Forall_cons in Hd as [? _]|].
  change ((c :: l) ++ rest) with (c :: (l ++ rest)). cbn [skip_ws]. rewrite Hs. cbv zeta iota.
  rewrite (decide_False (P := c = "-"%char)), (decide_False (P := c = "+"%char)) by done.
  change (c :: l ++ rest) with ((c :: l) ++ rest). rewrite span_app by (done || by apply ends_not_digit). by rewrite Hv.
Qed.

Lemma read_uint_print n rest : in_width 64 n -> ends rest -> read_uint (print_uint n ++ rest) = Ok (n, rest).
Proof.
  intros Hn He. unfold read_uint. rewrite read_digits_print by done. cbn.
  destruct (Z.leb_spec (2 ^ 64) n); [unfold in_width in Hn; lia|done].
Qed.

Lemma read_bool_print b rest : ends rest -> read_bool (print_bool b ++ rest) = Ok (b, rest).
Proof.
  intros He. unfold read_bool. assert (print_bool b = print_uint (if b then 1 else 0)) as -> by by destruct b.
  rewrite read_digits_print by (by destruct b || done). by destruct b.
Qed.

(** Readers skip leading space. *)
Definition skips {A} (read : list ascii -> reading A) : Prop := forall s, read (sp ++ s) = read s.

Lemma read_string_sp : skips read_string. Proof. done. Qed.
Lemma read_uint_sp : skips read_uint. Proof. done. Qed.
Lemma read_bool_sp : skips read_bool. Proof. done. Qed.
Lemma read_entry_info_sp : skips read_entry_info. Proof. done. Qed.
Lemma read_entry_sp : skips read_entry. Proof. done. Qed.
Lemma read_header_sp : skips read_header. Proof. done. Qed.
Lemma read_vector_sp {A} n (read : list ascii -> reading A) : skips (read_vector n read). Proof. done. Qed.

Create Rewrite HintDb wire.
#[export] Hint Rewrite read_string_sp read_uint_sp read_bool_sp read_entry_info_sp read_entry_sp read_header_sp : wire.

(** Read the parts one after the other. *)
Ltac wire_parts := repeat (rewrite <- ?app_assoc).
Ltac wire_step lem := rewrite lem by (done || assumption); cbn [mbind res_bind]; autorewrite with wire.

Definition info_ok (i : EntryInfo) : Prop := in_width 64 (index i) /\ in_width 64 (term i).
Definition header_ok (h : MessageHeader) : Prop :=
  word (h_peer_id h) /\ word (h_destination_id h) /\ in_width 64 (h_message_id h) /\ in_width 64 (h_term h)
  /\ info_ok (commit (h_log_state h)) /\ info_ok (uncommit (h_log_state h)).
Definition entry_ok (e : Entry) : Prop := info_ok (info e) /\ word (data e).

#[export] Instance info_ok_dec i : Decision (info_ok i).
Proof. unfold info_ok, in_width. apply _. Defined.
#[export] Instance header_ok_dec h : Decision (header_ok h).
Proof. unfold header_ok, in_width. apply _. Defined.
#[export] Instance entry_ok_dec e : Decision (entry_ok e).
Proof. unfold entry_ok. apply _. Defined.

Lemma read_entry_info_print i rest : info_ok i -> ends rest -> read_entry_info (print_entry_info i ++ rest) = Ok (i, rest).
Proof.
  intros [? ?] He. unfold read_entry_info, print_entry_info. wire_parts.
  wire_step read_uint_print. wire_step read_uint_print. by destruct i.
Qed.

Lemma read_header_print h rest : header_ok h -> ends rest -> read_header (print_header h ++ rest) = Ok (h, rest).
Proof.
  intros (? & ? & ? & ? & ? & ?) He. unfold read_header, print_header. wire_parts.
  wire_step read_string_word. wire_step read_string_word. wire_step read_uint_print. wire_step read_uint_print.
  wire_step read_entry_info_print. wire_step read_entry_info_print. by destruct h as [? ? ? ? []].
Qed.

Lemma read_entry_print e rest : entry_ok e -> ends rest -> read_entry (print_entry e ++ rest) = Ok (e, rest).
Proof.
  intros [? ?] He. unfold read_entry, print_entry. wire_parts.
  wire_step read_entry_info_print. wire_step read_string_word. by destruct e.
Qed.

Lemma read_elems_print {A} (print : A -> list ascii) (read : list ascii -> reading A) (P : A -> Prop) vec rest :
  skips read -> (forall a rest, P a -> ends rest -> read (print a ++ rest) = Ok (a, rest)) -> Forall P vec ->
  read_elems read (length vec) (sp ++ concat (map (fun a => print a ++ sp) vec) ++ rest) = Ok (vec, sp ++ rest).
Proof.
  intros Hs Hr. induction 1 as [|a vec Ha _ IH]; [done|]. cbn [map concat length read_elems]. rewrite Hs. wire_parts.
  rewrite Hr by done. cbn [mbind res_bind]. by rewrite IH.
Qed.

Lemma read_vector_print {A} n (print : A -> list ascii) (read : list ascii -> reading A) (P : A -> Prop) vec rest :
  skips read -> (forall a rest, P a -> ends rest -> read (print a ++ rest) = Ok (a, rest)) -> Forall P vec ->
  1 <= n -> Z.of_nat (length vec) <= max_size n ->
  read_vector n read (print_vector print vec ++ rest) = Ok (vec, sp ++ rest).
Proof.
  intros Hs Hr Hv Hn Hm. unfold read_vector, print_vector. wire_parts.
  assert (max_size n <= 2 ^ 63 - 1) by (apply Z.div_le_upper_bound; lia).
  rewrite read_uint_print; [|unfold in_width; lia|done]. cbn [mbind res_bind].
  destruct (Z.ltb_spec (max_size n) (Z.of_nat (length vec))); [lia|]. rewrite Nat2Z.id.
  by apply (read_elems_print print read P).
Qed.

(** Messages the format can carry: identifiers and data are words, numbers fit
    64 bits, the entries fit a vector. *)
Definition message_wire_ok (m : message) : Prop :=
  match m with
  | m_append_request r => header_ok (arq_header r) /\ info_ok (previous_entry r) /\ Forall entry_ok (entries r)
                          /\ Z.of_nat (length (entries r)) <= max_size entry_size
  | m_append_response r => header_ok (ars_header r)
  | m_vote_request r => header_ok (vrq_header r)
  | m_vote_response r => header_ok (vrs_header r)
  | m_client_request r => word (cr_data r)
  end.

#[export] Instance message_wire_ok_dec m : Decision (message_wire_ok m).
Proof. destruct m; cbn; apply _. Defined.

(** The client and message ids of a client request are not sent. *)
Definition received_as (m : message) : message :=
  match m with m_client_request r => m_client_request (ClientReq "" "" (cr_data r)) | _ => m end.

(** The line of a message, without its newline. *)
Definition message_line (m : message) : list ascii :=
  match m with
  | m_append_request r =>
      chars "AppendEntriesRequest " ++ print_header (arq_header r) ++ sp ++ print_entry_info (previous_entry r) ++ sp ++
      print_vector print_entry (entries r)
  | m_append_response r => chars "AppendEntriesResponse " ++ print_header (ars_header r) ++ sp ++ print_bool (success r) ++ sp
  | m_vote_request r => chars "VoteRequest " ++ print_header (vrq_header r) ++ sp
  | m_vote_response r => chars "VoteResponse " ++ print_header (vrs_header r) ++ sp ++ print_bool (vote_granted r) ++ sp
  | m_client_request r => chars "ClientRequest " ++ chars (cr_data r) ++ sp
  end.

Lemma print_message_line m : print_message m = message_line m ++ [nl].
Proof. destruct m; cbn [print_message message_line]; wire_parts; done. Qed.

Lemma read_name name rest : word name -> read_string (chars (name +:+ " ") ++ rest) = Ok (name, sp ++ rest).
Proof.
  intros Hw. assert (chars (name +:+ " ") = chars name ++ sp) as ->.
  { unfold chars. clear Hw. induction name as [|c name IH]; [done|]. simpl. f_equal. apply IH. }
  rewrite <- app_assoc. by apply read_string_word.
Qed.

Lemma read_message_line m : message_wire_ok m -> read_line (message_line m) = Ok (r_message (received_as m)).
Proof.
  intros Hm. unfold read_line, message_line. destruct m as [r|r|r|r|r]; cbn in Hm.
  - destruct Hm as (? & ? & ? & ?). rewrite (read_name "AppendEntriesRequest") by by apply (bool_decide_unpack _).
    cbn [mbind res_bind]. rewrite decide_True by done. unfold read_append_request. autorewrite with wire. wire_parts.
    wire_step read_header_print. wire_step read_entry_info_print. rewrite read_vector_sp.
    rewrite <- (app_nil_r (print_vector _ _)).
    rewrite (read_vector_print entry_size print_entry read_entry entry_ok); try done;
      [|by intros; apply read_entry_print]. by destruct r.
  - rewrite (read_name "AppendEntriesResponse") by by apply (bool_decide_unpack _). cbn [mbind res_bind].
    rewrite decide_False, decide_True by done. unfold read_append_response. autorewrite with wire. wire_parts.
    wire_step read_header_print. wire_step read_bool_print. by destruct r.
  - rewrite (read_name "VoteRequest") by by apply (bool_decide_unpack _). cbn [mbind res_bind].
    do 4 rewrite decide_False by done. rewrite decide_True by done. unfold read_vote_request. autorewrite with wire.
    wire_step read_header_print. by destruct r.
  - rewrite (read_name "VoteResponse") by by apply (bool_decide_unpack _). cbn [mbind res_bind].
    do 3 rewrite decide_False by done. rewrite decide_True by done. unfold read_vote_response. autorewrite with wire. wire_parts.
    wire_step read_header_print. wire_step read_bool_print. by destruct r.
  - rewrite (read_name "ClientRequest") by by apply (bool_decide_unpack _). cbn [mbind res_bind].
    do 2 rewrite decide_False by done. rewrite decide_True by done. unfold read_client_request. autorewrite with wire.
    wire_step read_string_word. done.
Qed.

(** ** The tokenizer against its specification *)

(** The lines of a byte stream, character by character. *)
Fixpoint lines (incomplete s : list ascii) : list (list ascii) * list ascii :=
  match s with
  | [] => ([], incomplete)
  | c :: s' => if decide (c = nl) then let '(ms, e) := lines [] s' in (strip_cr incomplete :: ms, e)
               else lines (incomplete ++ [c]) s'
  end.

Lemma find_newline_lines s inc :
  match find_newline s with
  | Some (l, r) => lines inc s = (let '(ms, e) := lines [] r in (strip_cr (inc ++ l) :: ms, e)) /\ (length r < length s)%nat
  | None => lines inc s = ([], inc ++ s)
  end.
Proof.
  revert inc. induction s as [|c s IH]; intros inc; cbn; [by rewrite app_nil_r|].
  destruct (decide (c = nl)) as [->|]; [rewrite app_nil_r; split; [done|lia]|].
  specialize (IH (inc ++ [c])). destruct (find_newline s) as [[l r]|].
  - destruct IH as [-> Hl]. rewrite <- app_assoc. split; [done|lia].
  - by rewrite IH, <- app_assoc.
Qed.

Lemma tokenizer_lines begin inc : newline_tokenizer begin inc = lines inc begin.
Proof.
  unfold newline_tokenizer. assert (Hf : (length begin <= length begin)%nat) by lia. revert Hf.
  generalize (length begin) at 2 3 as fuel. intros fuel. revert begin inc.
  induction fuel as [|k IH]; intros begin inc Hf; [destruct begin; [cbn; by rewrite app_nil_r|cbn in Hf; lia]|].
  cbn [tokenizer_loop]. pose proof (find_newline_lines begin inc) as H. destruct (find_newline begin) as [[l r]|]; [|done].
  destruct H as [-> Hl]. rewrite IH by lia. done.
Qed.

Lemma lines_app s t inc :
  lines inc (s ++ t) = let '(m1, i1) := lines inc s in let '(m2, i2) := lines i1 t in (m1 ++ m2, i2).
Proof.
  revert inc. induction s as [|c s IH]; intros inc; cbn; [by destruct (lines inc t)|].
  destruct (decide (c = nl)); [|apply IH]. rewrite IH. destruct (lines [] s) as [m1 i1]. by destruct (lines i1 t).
Qed.

Lemma tokenize_reads_lines reads inc : tokenize_reads reads inc = lines inc (concat reads).
Proof.
  revert inc. induction reads as [|r rs IH]; intros inc; [done|].
  cbn [tokenize_reads concat]. rewrite tokenizer_lines, lines_app. destruct (lines inc r) as [m1 i1]. by rewrite IH.
Qed.

(** how the bytes of a connection are cut into reads does not matter: the
    lines completed over a sequence of reads, and the incomplete line left over,
    are those of one read of all the bytes. *)
Theorem tokenizer_chunks reads incomplete :
  tokenize_reads reads incomplete = newline_tokenizer (concat reads) incomplete.
Proof.
  by rewrite tokenize_reads_lines, tokenizer_lines.
Qed.

Lemma lines_line l s inc :
  Forall (fun c => c <> nl) l -> lines inc (l ++ nl :: s) = let '(ms, e) := lines [] s in (strip_cr (inc ++ l) :: ms, e).
Proof.
  revert inc. induction l as [|c l IH]; intros inc Hl; cbn.
  - by rewrite app_nil_r.
  - apply Forall_cons in Hl as [Hc Hl]. rewrite decide_False, IH, <- app_assoc by done. done.
Qed.

Definition no_newline (l : list ascii) : Prop := Forall (fun c => c <> nl) l.

Lemma no_newline_app a b : no_newline (a ++ b) <-> no_newline a /\ no_newline b.
Proof. apply Forall_app. Qed.

Lemma word_no_newline w : word w -> no_newline (chars w).
Proof. intros [_ Hf]. eapply Forall_impl; [done|]. intros c Hc ->. by vm_compute in Hc. Qed.

Lemma uint_no_newline n : in_width 64 n -> no_newline (print_uint n).
Proof.
  intros [Hn1 Hn2]. change (2 ^ 64) with 18446744073709551616 in Hn2.
  destruct (show_base_ok 10 n 20) as (_ & _ & Hf); [lia|change (10 ^ Z.of_nat 20) with 100000000000000000000; lia|lia|].
  eapply Forall_impl; [done|]. intros c [Hc _] ->. by vm_compute in Hc.
Qed.

Lemma bool_no_newline b : no_newline (print_bool b).
Proof. destruct b; by apply Forall_singleton. Qed.

Lemma sp_no_newline : no_newline sp.
Proof. by apply Forall_singleton. Qed.

Create HintDb wire.
#[export] Hint Resolve word_no_newline uint_no_newline bool_no_newline sp_no_newline : wire.

Lemma info_no_newline i : info_ok i -> no_newline (print_entry_info i).
Proof. intros [? ?]. unfold print_entry_info. rewrite !no_newline_app. auto with wire. Qed.

#[export] Hint Resolve info_no_newline : wire.

Lemma header_no_newline h : header_ok h -> no_newline (print_header h).
Proof. intros (? & ? & ? & ? & ? & ?). unfold print_header. rewrite !no_newline_app. auto 20 with wire. Qed.

#[export] Hint Resolve header_no_newline : wire.

Lemma vector_no_newline es :
  Forall entry_ok es -> Z.of_nat (length es) <= max_size entry_size -> no_newline (print_vector print_entry es).
Proof.
  intros He Hl. unfold print_vector. rewrite !no_newline_app. split_and!; auto with wire.
  - apply uint_no_newline. change (max_size entry_size) with 192153584101141162 in Hl.
    unfold in_width. change (2 ^ 64) with 18446744073709551616. lia.
  - clear Hl. induction He as [|e es [Hi Hw] _ IH]; [by apply Forall_nil|]. cbn [map concat].
    unfold print_entry. rewrite !no_newline_app. auto 10 with wire.
Qed.

Lemma line_no_newline m : message_wire_ok m -> no_newline (message_line m).
Proof.
  assert (Hc : forall s, bool_decide (no_newline (chars s)) = true -> no_newline (chars s)) by (intros s; apply bool_decide_eq_true_1).
  destruct m as [r|r|r|r|r]; cbn [message_wire_ok message_line]; rewrite !no_newline_app.
  - intros (? & ? & ? & ?). split_and!; auto using vector_no_newline with wire.
  - intros. split_and!; auto with wire.
  - intros. split_and!; auto with wire.
  - intros. split_and!; auto with wire.
  - intros. split_and!; auto with wire.
Qed.

Lemma elems_end {A} (print : A -> list ascii) vec :
  exists l, sp ++ concat (map (fun a => print a ++ sp) vec) = l ++ sp.
Proof.
  induction vec as [|a vec _] using rev_ind; [by exists []|].
  exists (sp ++ concat (map (fun a => print a ++ sp) vec) ++ print a).
  rewrite map_app, concat_app. cbn [map concat]. by rewrite app_nil_r, <- !app_assoc.
Qed.

Lemma line_last m : message_wire_ok m -> last (message_line m) = Some " "%char.
Proof.
  intros Hm. enough (exists l, message_line m = l ++ sp) as [l ->] by apply last_snoc.
  destruct m as [r|r|r|r|r]; cbn [message_line].
  - unfold print_vector. destruct (elems_end print_entry (entries r)) as [l E]. rewrite E. eexists.
    by rewrite !app_assoc.
  - eexists. by rewrite !app_assoc.
  - eexists. by rewrite !app_assoc.
  - eexists. by rewrite !app_assoc.
  - eexists. by rewrite !app_assoc.
Qed.

Lemma lines_messages ms :
  Forall message_wire_ok ms -> lines [] (concat (map print_message ms)) = (map message_line ms, []).
Proof.
  induction 1 as [|m ms Hm _ IH]; [done|]. cbn [map concat]. rewrite print_message_line, <- app_assoc.
  change ([nl] ++ ?x) with (nl :: x). rewrite lines_line, IH by by apply line_no_newline. cbn [app]. do 2 f_equal.
  unfold strip_cr. by rewrite line_last, decide_False by done.
Qed.

(** C33: the wire carries the protocol: when the bytes read from a connection,
    however they are cut, are the printed forms of messages whose identifiers
    and data are words without white space, whose numbers fit 64 bits and
    whose entries fit a vector, the processor sees one line per message, in order, with
    nothing left over, and each line reads back as its message (a client
    request without its client and message ids). *)
Theorem wire_delivers ms reads :
  Forall message_wire_ok ms -> concat reads = concat (map print_message ms) ->
  exists ls, tokenize_reads reads [] = (ls, [])
    /\ map read_line ls = map (fun m => Ok (r_message (received_as m))) ms.
Proof.
  intros Hms Hr. rewrite tokenize_reads_lines, Hr. exists (map message_line ms). split; [by apply lines_messages|].
  clear Hr. induction Hms as [|m ms Hm _ IH]; [done|]. cbn [map]. by rewrite read_message_line, IH.
Qed.

Definition sample_header : MessageHeader := Header "n1" "n2" 7 3 (LogSt (Info 4 2) (Info 6 3)).
Definition sample_messages : list message :=
  [m_append_request (AppendReq sample_header (Info 5 3) [Ent (Info 6 3) "x=1"; Ent (Info 7 3) "y"]);
   m_client_request (ClientReq "-1" "9" "z")].

Lemma wire_delivers_witness :
  exists ls, tokenize_reads [take 9 (concat (map print_message sample_messages));
                             drop 9 (concat (map print_message sample_messages))] [] = (ls, [])
    /\ map read_line ls = map (fun m => Ok (r_message (received_as m))) sample_messages.
Proof.
  apply (wire_delivers sample_messages).
  - apply (bool_decide_unpack _). vm_compute. exact I.
  - cbn [concat]. by rewrite app_nil_r, take_drop.
Defined.

Lemma chars_app a b : chars (a +:+ b) = chars a ++ chars b.
Proof. unfold chars. induction a as [|c a IH]; [done|]. simpl. f_equal. apply IH. Qed.

(** data with a space is cut short: an append request for one entry whose
    data is two words is received as a request for the first word only, and so
    is a client request; the receiver logs other data than the sender. *)
Theorem wire_truncates h prev i a b :
  header_ok h -> info_ok prev -> info_ok i -> word a ->
  read_line (message_line (m_append_request (AppendReq h prev [Ent i (a +:+ " " +:+ b)])))
  = Ok (r_message (m_append_request (AppendReq h prev [Ent i a])))
  /\ read_line (message_line (m_client_request (ClientReq "" "" (a +:+ " " +:+ b))))
  = Ok (r_message (m_client_request (ClientReq "" "" a))).
Proof.
  intros Hh Hp Hi Ha. unfold message_line, print_vector, print_entry. cbn [map concat length data info arq_header previous_entry entries cr_data].
  rewrite !chars_app. change (chars " ") with sp. split.
  - unfold read_line. rewrite (read_name "AppendEntriesRequest") by by apply (bool_decide_unpack _).
    cbn [mbind res_bind]. rewrite decide_True by done. unfold read_append_request. autorewrite with wire. wire_parts.
    wire_step read_header_print. wire_step read_entry_info_print. unfold read_vector. rewrite read_uint_sp.
    wire_step read_uint_print. change (max_size entry_size <? Z.of_nat 1) with false. cbn [Z.of_nat Z.to_nat Pos.to_nat].
    change (Z.to_nat (Z.of_nat 1)) with 1%nat. cbn [read_elems]. rewrite read_entry_sp. unfold read_entry.
    wire_step read_entry_info_print. wire_step read_string_word. done.
  - unfold read_line. rewrite (read_name "ClientRequest") by by apply (bool_decide_unpack _).
    cbn [mbind res_bind]. do 2 rewrite decide_False by done. rewrite decide_True by done. unfold read_client_request.
    autorewrite with wire. wire_parts. wire_step read_string_word. done.
Qed.

Lemma wire_truncates_witness :
  read_line (message_line (m_client_request (ClientReq "" "" "add flow"))) = Ok (r_message (m_client_request (ClientReq "" "" "add"))).
Proof.
  apply (wire_truncates sample_header (Info 0 0) (Info 0 0) "add" "flow"); by apply (bool_decide_unpack _).
Defined.
