(* ===== verification/RaftNetwork.v ===== *)
(** * Raft: connections (src/raft/asio_tcp_server.cpp, asio_tcp_session.cpp, simple_message_processor.cpp)

    The sessions of a node and the network server that owns them.  Sessions are
    objects that peers_, the accept slot and pending handlers share, so they
    live in a store and the rest of the state holds pointers.  What the asio
    library is asked to do (start a write, connect, accept, arm a timer) is the
    output of an operation; its completions are operations of their own. *)

From S2P Require Import Prelude Regex RaftTypes RaftStorage RaftServer RaftWire.
Local Open Scope Z_scope.

Inductive fatal := f_crash (c : crash) | f_length_error.

Definition or_crash {A} (r : res crash A) : res fatal A :=
  match r with Ok a => Ok a | Throw c => Throw (f_crash c) end.

(** ** class Session *)

Record session := Sess { s_id : string; s_stop : bool; s_close : bool; s_queue : list (list ascii) }.

Definition new_session (id : string) : session := Sess id true false [].
Definition set_s_id (id : string) (s : session) : session := Sess id (s_stop s) (s_close s) (s_queue s).

Inductive output :=
| o_write (p : nat) (text : list ascii)
| o_shutdown (p : nat)
| o_connect (p : nat) (to : ip_port_t) (text : list ascii)
| o_accept_peer
| o_accept_client
| o_timer (t : callback)
| o_announce (leader : string).

Record net := Net {
  n_heap : gmap nat session;
  n_peers : list nat;
  n_clients : list nat;
  n_accepting_peer : option nat;
  n_accepting_client : option nat;
  n_next_ptr : nat;
  n_next_id : Z;
  n_stop : bool;
  n_watermark : Z;
}.

Definition new_net : net := Net ∅ [] [] None None 0 0 true 0.

Definition set_heap (h : gmap nat session) (n : net) : net :=
  Net h (n_peers n) (n_clients n) (n_accepting_peer n) (n_accepting_client n) (n_next_ptr n) (n_next_id n) (n_stop n) (n_watermark n).
Definition set_n_peers (ps : list nat) (n : net) : net :=
  Net (n_heap n) ps (n_clients n) (n_accepting_peer n) (n_accepting_client n) (n_next_ptr n) (n_next_id n) (n_stop n) (n_watermark n).
Definition set_n_clients (cs : list nat) (n : net) : net :=
  Net (n_heap n) (n_peers n) cs (n_accepting_peer n) (n_accepting_client n) (n_next_ptr n) (n_next_id n) (n_stop n) (n_watermark n).
Definition set_accepting_peer (a : option nat) (n : net) : net :=
  Net (n_heap n) (n_peers n) (n_clients n) a (n_accepting_client n) (n_next_ptr n) (n_next_id n) (n_stop n) (n_watermark n).
Definition set_accepting_client (a : option nat) (n : net) : net :=
  Net (n_heap n) (n_peers n) (n_clients n) (n_accepting_peer n) a (n_next_ptr n) (n_next_id n) (n_stop n) (n_watermark n).
Definition set_next_id (i : Z) (n : net) : net :=
  Net (n_heap n) (n_peers n) (n_clients n) (n_accepting_peer n) (n_accepting_client n) (n_next_ptr n) i (n_stop n) (n_watermark n).
Definition set_n_stop (b : bool) (n : net) : net :=
  Net (n_heap n) (n_peers n) (n_clients n) (n_accepting_peer n) (n_accepting_client n) (n_next_ptr n) (n_next_id n) b (n_watermark n).
Definition set_watermark (w : Z) (n : net) : net :=
  Net (n_heap n) (n_peers n) (n_clients n) (n_accepting_peer n) (n_accepting_client n) (n_next_ptr n) (n_next_id n) (n_stop n) w.

(** [std::make_shared<Session>] *)
Definition alloc (id : string) (n : net) : nat * net :=
  (n_next_ptr n,
   Net (<[n_next_ptr n := new_session id]> (n_heap n)) (n_peers n) (n_clients n) (n_accepting_peer n)
       (n_accepting_client n) (S (n_next_ptr n)) (n_next_id n) (n_stop n) (n_watermark n)).

(** [p->id()]; every pointer of the state was allocated. *)
Definition id_of (h : gmap nat session) (p : nat) : string :=
  match h !! p with Some s => s_id s | None => "" end.

Definition update (p : nat) (f : session -> session) (n : net) : net := set_heap (alter f p (n_heap n)) n.

Definition session_start (p : nat) (n : net) : net :=
  update p (fun s => Sess (s_id s) false (s_close s) (s_queue s)) n.

Definition stop_and_close (p : nat) (n : net) : net * list output :=
  match n_heap n !! p with
  | Some s => if s_close s then (n, [])
              else (update p (fun s => Sess (s_id s) true true (s_queue s)) n, [o_shutdown p])
  | None => (n, [])
  end.

(** [Session::send], with the [do_write] it starts *)
Definition send_text (p : nat) (text : list ascii) (n : net) : net * list output :=
  match n_heap n !! p with
  | Some s =>
      if s_stop s then (n, [])
      else (update p (fun s => Sess (s_id s) (s_stop s) (s_close s) (s_queue s ++ [text])) n,
            if decide (length (s_queue s ++ [text]) = 1%nat) then [o_write p text] else [])
  | None => (n, [])
  end.

Definition stop_all (ps : list nat) (n : net) : net * list output :=
  fold_left (fun '(n, out) p => let '(n, o) := stop_and_close p n in (n, out ++ o)) ps (n, []).

(** ** class Server *)

Definition first_is_dash (s : string) : bool :=
  match s with String c _ => bool_decide (c = "-"%char) | EmptyString => false end.

Definition net_drop (temp_id : string) (n : net) : net * list output :=
  if n_stop n then (n, [])
  else
    match (if first_is_dash temp_id then find (fun p => bool_decide (id_of (n_heap n) p = temp_id)) (n_clients n) else None) with
    | Some p =>
        let '(n, out) := stop_and_close p n in
        (set_n_clients (filter (fun q => id_of (n_heap n) q <> temp_id) (n_clients n)) n, out)
    | None =>
        let gone := filter (fun p => id_of (n_heap n) p = temp_id) (n_peers n) in
        let kept := filter (fun p => id_of (n_heap n) p <> temp_id) (n_peers n) in
        let '(n, out) := stop_all gone n in
        (set_n_peers kept n, out)
    end.

(** The loop of [identify]: [temp_id] is a reference to the id of the session
    [self], so renaming that session changes what the later ones are compared
    with. *)
Definition identify_step (self : nat) (peer_id : string) (acc : gmap nat session * nat) (p : nat) : gmap nat session * nat :=
  let '(h, count) := acc in
  if decide (id_of h p = id_of h self) then (alter (set_s_id peer_id) p h, S count) else (h, count).

Definition identify (known : bool) (self : nat) (peer_id : string) (n : net) : net * bool :=
  if n_stop n then (n, false)
  else
    let '(h, count) := fold_left (identify_step self peer_id) (n_peers n) (n_heap n, 0%nat) in
    (set_heap h n, if negb known then false else bool_decide (count = 1%nat)).

(** [oss << "+" << ++next_id_] *)
Definition next_session_id (sign : ascii) (i : Z) : string := String sign (string_of_list_ascii (print_uint i)).

Definition do_accept_peer (n : net) : net * list output :=
  if n_stop n || bool_decide (n_accepting_peer n <> None) then (n, [])
  else
    let i := u64 (n_next_id n + 1) in
    let '(p, n) := alloc (next_session_id "+"%char i) (set_next_id i n) in
    (set_accepting_peer (Some p) n, [o_accept_peer]).

Definition do_accept_client (n : net) : net * list output :=
  if n_stop n || bool_decide (n_accepting_client n <> None) then (n, [])
  else
    let i := u64 (n_next_id n + 1) in
    let '(p, n) := alloc (next_session_id "-"%char i) (set_next_id i n) in
    (set_accepting_client (Some p) n, [o_accept_client]).

(** The handlers of async_accept; [ok] is [!ec]. *)
Definition peer_accepted (ok : bool) (n : net) : net * list output :=
  if n_stop n then (set_accepting_peer None n, [])
  else
    let n := match n_accepting_peer n with
             | Some p => if ok then session_start p (set_accepting_peer None (set_n_peers (n_peers n ++ [p]) n)) else n
             | None => n
             end in
    do_accept_peer n.

Definition client_accepted (ok : bool) (n : net) : net * list output :=
  if n_stop n then (set_accepting_client None n, [])
  else
    let n := match n_accepting_client n with
             | Some p => if ok then session_start p (set_accepting_client None (set_n_clients (n_clients n ++ [p]) n)) else n
             | None => n
             end in
    do_accept_client n.

Definition net_stop (n : net) : net * list output :=
  if n_stop n then (n, [])
  else
    let n := set_n_stop true n in
    let '(n, o1) := stop_all (n_peers n) n in
    let n := set_n_peers [] n in
    let '(n, o2) := stop_all (n_clients n) n in
    (set_n_clients [] n, o1 ++ o2).

(** The handler of async_write. *)
Definition written (p : nat) (ok : bool) (n : net) : net * list output :=
  match n_heap n !! p with
  | None => (n, [])
  | Some s =>
      if ok && negb (s_stop s) then
        let q := drop 1 (s_queue s) in
        (update p (fun s => Sess (s_id s) (s_stop s) (s_close s) (drop 1 (s_queue s))) n,
         match q with t :: _ => [o_write p t] | [] => [] end)
      else
        let n := update p (fun s => Sess (s_id s) true (s_close s) []) n in
        net_drop (s_id s) n
  end.

Section node.
Context {S : Type} `{Storage S}.

Definition session_send (st : State) (id : string) (text : list ascii) (n : net) : res fatal (net * list output) :=
  if n_stop n then Ok (n, [])
  else
    match find (fun p => bool_decide (id_of (n_heap n) p = id)) (n_peers n) with
    | Some p => Ok (send_text p text n)
    | None =>
        match find_peer id st with
        | None => Throw (f_crash null_dereference)
        | Some peer => let '(p, n) := alloc id n in Ok (n, [o_connect p (p_ip_port peer) text])
        end
    end.

(** The handler of async_connect. *)
Definition connected (p : nat) (text : list ascii) (ok : bool) (n : net) : net * list output :=
  if ok && negb (n_stop n) then send_text p text (session_start p (set_n_peers (n_peers n ++ [p]) n)) else (n, []).

Definition client_session_send (id : string) (text : list ascii) (n : net) : net * list output :=
  if n_stop n then (n, [])
  else match find (fun p => bool_decide (id_of (n_heap n) p = id)) (n_clients n) with
       | Some p => send_text p text n
       | None => (n, [])
       end.

Definition send_to_all (text : list ascii) (ps : list nat) (n : net) : net * list output :=
  fold_left (fun '(n, out) p => let '(n, o) := send_text p text n in (n, out ++ o)) ps (n, []).

(** The loop of [commit_advanced], [steps] times. *)
Fixpoint announce (steps : nat) (st : S) (n : net) : res fatal (net * list output) :=
  match steps with
  | O => Ok (n, [])
  | Datatypes.S k =>
      e ← or_crash (get_entry_info st (n_watermark n));
      let '(n, o1) := send_to_all (print_current_entry e) (n_clients n) n in
      '(n, o2) ← announce k st (set_watermark (n_watermark n + 1) n);
      Ok (n, o1 ++ o2)
  end.

Definition net_commit_advanced (commit_index : Z) (st : S) (n : net) : res fatal (net * list output) :=
  if n_stop n || bool_decide (n_clients n = []) then Ok (n, [])
  else announce (Z.to_nat (commit_index - n_watermark n)) st n.

(** What the network server does for each callback of the raft server. *)
Definition run_callback (s : server S) (c : callback) (n : net) : res fatal (net * list output) :=
  match c with
  | send id m => session_send (state s) id (print_message m) n
  | drop_peer id => Ok (net_drop id n)
  | new_leader_elected l => Ok (n, [o_announce l])
  | commit_advanced i => net_commit_advanced i (storage s) n
  | _ => Ok (n, [o_timer c])
  end.

Fixpoint run_callbacks (s : server S) (cs : list callback) (n : net) : res fatal (net * list output) :=
  match cs with
  | [] => Ok (n, [])
  | c :: cs' =>
      '(n, o1) ← run_callback s c n; '(n, o2) ← run_callbacks s cs' n; Ok (n, o1 ++ o2)
  end.

(** A node: its raft server and its connections. *)
Record node := Node { nd_server : server S; nd_net : net }.

Definition deliver (m : message) (nd : node) : res fatal (node * list output) :=
  '(s, cs) ← or_crash (on_message m (nd_server nd));
  '(n, out) ← run_callbacks s cs (nd_net nd);
  Ok (Node s n, out).

(** [server.callbacks.drop(id)] *)
Definition drop_session (id : string) (nd : node) : res fatal (node * list output) :=
  let '(n, out) := net_drop id (nd_net nd) in Ok (Node (nd_server nd) n, out).

Definition sender (m : message) : string :=
  match m with
  | m_append_request r => h_peer_id (arq_header r)
  | m_append_response r => h_peer_id (ars_header r)
  | m_vote_request r => h_peer_id (vrq_header r)
  | m_vote_response r => h_peer_id (vrs_header r)
  | m_client_request _ => ""
  end.

(** [process_impl], on the session [self] *)
Definition process_impl (self : nat) (m : message) (nd : node) : res fatal (node * list output) :=
  let peer_id := sender m in
  if decide (peer_id = id_of (n_heap (nd_net nd)) self) then deliver m nd
  else
    let '(n, ok) := identify (bool_decide (find_peer peer_id (state (nd_server nd)) <> None)) self peer_id (nd_net nd) in
    if ok : bool then deliver m (Node (nd_server nd) n)
    else drop_session peer_id (Node (nd_server nd) n).

Definition process_server_message (self : nat) (line : list ascii) (nd : node) : res fatal (node * list output) :=
  match read_line line with
  | Ok (r_message (m_client_request r)) => deliver (m_client_request r) nd
  | Ok (r_message m) => process_impl self m nd
  | Ok (r_config _) => Ok (nd, [])
  | Ok (r_unknown _) | Throw stream_failure => drop_session (id_of (n_heap (nd_net nd)) self) nd
  | Throw length_error => Throw f_length_error
  end.

Definition process_client_message (self : nat) (line : list ascii) (nd : node) : res fatal (node * list output) :=
  let id := id_of (n_heap (nd_net nd)) self in
  match read_string line with
  | Throw _ => drop_session id nd
  | Ok (name, s) =>
      if decide (name = "ClientRequest"%string) then
        match read_client_request s with
        | Ok (r, _) => deliver (m_client_request (ClientReq id (cr_message_id r) (cr_data r))) nd
        | Throw _ => drop_session id nd
        end
      else if decide (name = "CurrentEntryRequest"%string) then
        let '(n, out) := client_session_send id (print_current_entry (commit (log_state (storage (nd_server nd))))) (nd_net nd) in
        Ok (Node (nd_server nd) n, out)
      else drop_session id nd
  end.

Inductive MessageCategory := cat_client | cat_server.

Definition process_message (category : MessageCategory) (self : nat) (line : list ascii) (nd : node) : res fatal (node * list output) :=
  match category with
  | cat_client => process_client_message self line nd
  | cat_server => process_server_message self line nd
  end.

Fixpoint process_lines (category : MessageCategory) (self : nat) (ls : list (list ascii)) (nd : node) : res fatal (node * list output) :=
  match ls with
  | [] => Ok (nd, [])
  | l :: ls' =>
      '(nd, o1) ← process_message category self l nd; '(nd, o2) ← process_lines category self ls' nd; Ok (nd, o1 ++ o2)
  end.

(** [process_read]: the bytes of one read, and the incomplete line kept. *)
Definition process_read (category : MessageCategory) (self : nat) (bytes incomplete : list ascii) (nd : node)
    : res fatal (node * list output * list ascii) :=
  let '(ls, excess) := newline_tokenizer bytes incomplete in
  '(nd, out) ← process_lines category self ls nd;
  Ok (nd, out, excess).

(** The handler of async_read_some: on an error the session stops, and is
    dropped at once unless a write is pending. *)
Definition read_done (category : MessageCategory) (self : nat) (ok : bool) (bytes incomplete : list ascii) (nd : node)
    : res fatal (node * list output * list ascii) :=
  match n_heap (nd_net nd) !! self with
  | None => Ok (nd, [], incomplete)
  | Some s =>
      if ok && negb (s_stop s) then process_read category self bytes incomplete nd
      else
        let n := update self (fun s => Sess (s_id s) true (s_close s) (s_queue s)) (nd_net nd) in
        let '(n, out) := match s_queue s with [] => net_drop (s_id s) n | _ => (n, []) end in
        Ok (Node (nd_server nd) n, out, incomplete)
  end.

(** [Server::start] *)
Definition net_start (nd : node) : res fatal (node * list output) :=
  if negb (n_stop (nd_net nd)) then Ok (nd, [])
  else
    let n := set_n_stop false (nd_net nd) in
    '(s, cs) ← or_crash (on_minimum_timeout (nd_server nd));
    '(n, o1) ← run_callbacks s (set_follower_timeout :: cs) n;
    let '(n, o2) := do_accept_peer n in
    let '(n, o3) := do_accept_client n in
    Ok (Node s n, o1 ++ o2 ++ o3).

(** A timer fires. *)
Definition timer_expired (minimum : bool) (nd : node) : res fatal (node * list output) :=
  if n_stop (nd_net nd) then Ok (nd, [])
  else
    '(s, cs) ← or_crash (if minimum then on_minimum_timeout (nd_server nd) else timeout (nd_server nd));
    '(n, out) ← run_callbacks s cs (nd_net nd);
    Ok (Node s n, out).

End node.
Arguments node S : clear implicits.

(** ** Dropping sessions *)

Lemma stop_and_close_frame p n :
  n_peers (stop_and_close p n).1 = n_peers n /\ n_clients (stop_and_close p n).1 = n_clients n
  /\ n_stop (stop_and_close p n).1 = n_stop n /\ (forall q, id_of (n_heap (stop_and_close p n).1) q = id_of (n_heap n) q).
Proof.
  unfold stop_and_close, update. destruct (n_heap n !! p) as [s|] eqn:E; [|done]. destruct (s_close s); [done|].
  split_and!; try done. intros q. cbn. unfold id_of. destruct (decide (q = p)) as [->|].
  - by rewrite lookup_alter_eq, E.
  - by rewrite lookup_alter_ne.
Qed.

(** A stopped and closed session. *)
Definition closed (h : gmap nat session) (p : nat) : Prop :=
  match h !! p with Some s => s_close s = true | None => True end.

Lemma stop_and_close_closed p n q :
  closed (n_heap n) q \/ q = p -> closed (n_heap (stop_and_close p n).1) q.
Proof.
  unfold stop_and_close, update, closed. destruct (n_heap n !! p) as [s|] eqn:E.
  - destruct (s_close s) eqn:Ec; cbn.
    + intros [?| ->]; [done|]. by rewrite E.
    + destruct (decide (q = p)) as [->|]; [by rewrite lookup_alter_eq, E|rewrite lookup_alter_ne by done; tauto].
  - cbn. intros [?| ->]; [done|]. by rewrite E.
Qed.

Lemma stop_all_app ps p n :
  stop_all (ps ++ [p]) n = let '(n, out) := stop_all ps n in let '(n, o) := stop_and_close p n in (n, out ++ o).
Proof. unfold stop_all. rewrite fold_left_app. cbn. by destruct (fold_left _ ps (n, [])). Qed.

Lemma stop_all_frame ps n :
  n_peers (stop_all ps n).1 = n_peers n /\ n_clients (stop_all ps n).1 = n_clients n
  /\ n_stop (stop_all ps n).1 = n_stop n /\ (forall q, id_of (n_heap (stop_all ps n).1) q = id_of (n_heap n) q)
  /\ (forall q, q ∈ ps -> closed (n_heap (stop_all ps n).1) q).
Proof.
  induction ps as [|p ps IH] using rev_ind; [split_and!; try done; set_solver|].
  rewrite stop_all_app. destruct (stop_all ps n) as [n1 out]. cbn in IH.
  pose proof (stop_and_close_frame p n1) as Hf. pose proof (stop_and_close_closed p n1) as Hc.
  destruct (stop_and_close p n1) as [n2 o]. cbn in *.
  destruct IH as (E1 & E2 & E3 & E4 & E5), Hf as (F1 & F2 & F3 & F4).
  split_and!; try congruence. intros q [Hq|Hq%list_elem_of_singleton]%elem_of_app; apply Hc; auto.
Qed.

(** Dropping an id that is no client's removes the peer sessions with that id,
    closes them, and keeps the others in order. *)
Lemma net_drop_peers id n :
  n_stop n = false -> first_is_dash id = false ->
  n_peers (net_drop id n).1 = filter (fun p => id_of (n_heap n) p <> id) (n_peers n)
  /\ n_clients (net_drop id n).1 = n_clients n
  /\ (forall q, id_of (n_heap (net_drop id n).1) q = id_of (n_heap n) q)
  /\ (forall q, q ∈ n_peers n -> id_of (n_heap n) q = id -> closed (n_heap (net_drop id n).1) q).
Proof.
  intros Hs Hd. unfold net_drop. rewrite Hs, Hd.
  pose proof (stop_all_frame (filter (fun p => id_of (n_heap n) p = id) (n_peers n)) n) as Hf.
  destruct (stop_all _ n) as [n1 out]. cbn in *. destruct Hf as (E1 & E2 & E3 & E4 & E5).
  split_and!; try done. intros q Hq Hid. apply E5. by apply list_elem_of_filter.
Qed.

(** ** Identifying a session *)

Lemma id_of_rename h p id q : is_Some (h !! p) -> id_of (alter (set_s_id id) p h) q = if decide (q = p) then id else id_of h q.
Proof.
  intros [s Hs]. unfold id_of. destruct (decide (q = p)) as [->|].
  - by rewrite lookup_alter_eq, Hs.
  - by rewrite lookup_alter_ne.
Qed.

Lemma rename_allocated (h : gmap nat session) p f q : is_Some (alter f p h !! q) <-> is_Some (h !! q).
Proof. by rewrite lookup_alter_is_Some. Qed.

(** The loop over sessions other than [self]: those with the id of [self] are
    counted and take the new id. *)
Lemma identify_loop_others self peer_id ps h c :
  self ∉ ps -> NoDup ps -> (forall p, p ∈ ps -> is_Some (h !! p)) ->
  let old := id_of h self in
  let r := fold_left (identify_step self peer_id) ps (h, c) in
  r.2 = (c + length (filter (fun p => id_of h p = old) ps))%nat
  /\ (forall q, is_Some (r.1 !! q) <-> is_Some (h !! q))
  /\ (forall q, id_of r.1 q = if decide (q ∈ ps /\ id_of h q = old) then peer_id else id_of h q).
Proof.
  intros Hself Hnd Ha old. revert h c Ha old. induction ps as [|p ps IH]; intros h c Ha old.
  { cbn. split_and!; [lia|done|]. intros q. rewrite decide_False by set_solver. done. }
  apply NoDup_cons in Hnd as [Hp Hnd]. apply not_elem_of_cons in Hself as [Hne Hself].
  cbn [fold_left]. unfold identify_step at 2 4 6. destruct (decide (id_of h p = id_of h self)) as [Hid|Hid].
  - assert (Hal : is_Some (h !! p)) by (apply Ha; set_solver).
    assert (Hr : forall q, q <> p -> id_of (alter (set_s_id peer_id) p h) q = id_of h q).
    { intros q Hq. rewrite id_of_rename by done. by rewrite decide_False. }
    destruct (IH Hself Hnd (alter (set_s_id peer_id) p h) (S c)) as (IH1 & IH2 & IH3).
    { intros q Hq. apply rename_allocated, Ha. set_solver. }
    cbv zeta in *. rewrite (Hr self) in * by done. fold old in IH1, IH3. split_and!.
    + rewrite IH1, filter_cons_True by done. cbn [length].
      assert (filter (fun p0 => id_of (alter (set_s_id peer_id) p h) p0 = old) ps = filter (fun p0 => id_of h p0 = old) ps) as ->.
      { apply filter_ext_in. intros q Hq. rewrite Hr by (intros ->; done). done. } lia.
    + intros q. by rewrite IH2, rename_allocated.
    + intros q. rewrite IH3. destruct (decide (q = p)) as [->|Hq].
      * rewrite (decide_True (P := p ∈ p :: ps /\ _)) by (split; [set_solver|done]).
        rewrite decide_False by (intros [? _]; done). rewrite id_of_rename by done. by rewrite decide_True.
      * rewrite Hr by done. apply decide_ext. set_solver.
  - destruct (IH Hself Hnd h c) as (IH1 & IH2 & IH3); [intros q Hq; apply Ha; set_solver|].
    cbv zeta in *. fold old in IH1, IH3. split_and!.
    + rewrite IH1, filter_cons_False by done. done.
    + done.
    + intros q. rewrite IH3. apply decide_ext. split; [set_solver|]. intros [[->|?]%elem_of_cons Hq]; done.
Qed.

Lemma identify_split self peer_id pre post h :
  NoDup (pre ++ self :: post) -> (forall p, p ∈ pre ++ self :: post -> is_Some (h !! p)) ->
  let old := id_of h self in
  old <> peer_id ->
  let r := fold_left (identify_step self peer_id) (pre ++ self :: post) (h, 0%nat) in
  r.2 = (length (filter (fun p => id_of h p = old) pre) + 1 + length (filter (fun p => id_of h p = peer_id) post))%nat
  /\ (forall q, is_Some (r.1 !! q) <-> is_Some (h !! q))
  /\ (forall q, id_of r.1 q = if decide (q = self \/ (q ∈ pre /\ id_of h q = old)) then peer_id else id_of h q).
Proof.
  intros Hnd Ha old Hne. apply NoDup_app in Hnd as (Hpre & Hdis & [Hself Hpost]%NoDup_cons).
  rewrite fold_left_app.
  assert (self ∉ pre) as Hsp by (intros Hin; apply (Hdis _ Hin); set_solver).
  destruct (identify_loop_others self peer_id pre h 0 Hsp Hpre) as (A1 & A2 & A3); [intros; apply Ha; set_solver|].
  cbv zeta in A1, A2, A3. fold old in A1, A3. destruct (fold_left _ pre (h, 0%nat)) as [h1 c1]. cbn [fst snd] in A1, A2, A3.
  cbn [fold_left]. unfold identify_step at 2 4 6. rewrite (decide_True (P := id_of h1 self = id_of h1 self)) by done.
  assert (Hal : is_Some (h1 !! self)) by (apply A2, Ha; set_solver).
  assert (H2 : forall q, id_of (alter (set_s_id peer_id) self h1) q = if decide (q = self) then peer_id else id_of h1 q)
    by (intros q; by apply id_of_rename).
  destruct (identify_loop_others self peer_id post (alter (set_s_id peer_id) self h1) (S c1) Hself Hpost) as (B1 & B2 & B3).
  { intros q Hq. apply rename_allocated, A2, Ha. set_solver. }
  cbv zeta in B1, B2, B3. rewrite (H2 self), decide_True in B1, B3 by done. split_and!.
  - rewrite B1, A1.
    assert (filter (fun p => id_of (alter (set_s_id peer_id) self h1) p = peer_id) post = filter (fun p => id_of h p = peer_id) post) as ->.
    { apply filter_ext_in. intros q Hq. rewrite H2, decide_False by (intros ->; done).
      rewrite A3, decide_False; [done|]. intros [Hin _]. apply (Hdis q Hin). set_solver. }
    lia.
  - intros q. by rewrite B2, rename_allocated, A2.
  - intros q. rewrite B3, H2. destruct (decide (q = self)) as [->|Hq].
    + rewrite decide_False by tauto. by rewrite decide_True by tauto.
    + rewrite A3. destruct (decide (q ∈ pre /\ id_of h q = old)) as [Hin|Hin].
      * rewrite (decide_True (P := q = self \/ _)) by tauto. by case_decide.
      * rewrite (decide_False (P := q = self \/ _)) by tauto. case_decide as Hc; [|done]. by destruct Hc.
Qed.

Lemma filter_length_0 {A} (P : A -> Prop) `{forall x, Decision (P x)} (l : list A) :
  length (filter P l) = 0%nat <-> forall x, x ∈ l -> ~ P x.
Proof.
  split.
  - intros Hl x Hx Hp. apply nil_length_inv in Hl.
    assert (x ∈ filter P l) as Hin by by apply list_elem_of_filter. rewrite Hl in Hin. set_solver.
  - intros Hn. destruct (filter P l) as [|x fl] eqn:E; [done|]. exfalso.
    assert (x ∈ filter P l) as [Hp Hx]%list_elem_of_filter by (rewrite E; set_solver). by apply (Hn x).
Qed.

(** The store of a network: sessions are allocated, each in one place. *)
Record net_wf (n : net) : Prop := {
  nw_nodup : NoDup (n_peers n ++ n_clients n);
  nw_alloc : forall p, p ∈ n_peers n ++ n_clients n -> is_Some (n_heap n !! p);
}.

Lemma identify_spec known self peer_id pre post n :
  net_wf n -> n_stop n = false -> n_peers n = pre ++ self :: post -> id_of (n_heap n) self <> peer_id ->
  let r := identify known self peer_id n in
  id_of (n_heap r.1) self = peer_id
  /\ n_peers r.1 = n_peers n
  /\ (forall q, q ∈ post -> id_of (n_heap r.1) q = id_of (n_heap n) q)
  /\ (r.2 = true <-> known = true
      /\ (forall q, q ∈ pre -> id_of (n_heap n) q <> id_of (n_heap n) self)
      /\ (forall q, q ∈ post -> id_of (n_heap n) q <> peer_id)).
Proof.
  intros [Hnd Hal] Hs Hp Hid r. rewrite Hp in Hnd, Hal.
  destruct (identify_split self peer_id pre post (n_heap n)) as (E1 & _ & E3).
  { by apply NoDup_app in Hnd as (? & _ & _). }
  { intros p Hin. apply Hal. set_solver. }
  { done. }
  cbv zeta in E1, E3. subst r. unfold identify. rewrite Hs, Hp.
  destruct (fold_left _ _ (n_heap n, 0%nat)) as [h c]. cbn [fst snd n_heap n_peers set_heap] in *. split_and!.
  - rewrite E3. by rewrite decide_True by tauto.
  - done.
  - intros q Hq. rewrite E3, decide_False; [done|].
    apply NoDup_app in Hnd as (Hnd & _ & _). apply NoDup_app in Hnd as (_ & Hdis & [Hself _]%NoDup_cons).
    intros [->|[Hin _]]; [done|]. apply (Hdis q Hin). set_solver.
  - destruct known; cbn [negb]; [|by split; [|intros [? _]]]. rewrite bool_decide_eq_true, E1.
    rewrite <- (filter_length_0 (fun q => id_of (n_heap n) q = id_of (n_heap n) self) pre),
      <- (filter_length_0 (fun q => id_of (n_heap n) q = peer_id) post). split; [intros; split_and!; (done || lia)|intros (_ & ? & ?); lia].
Qed.

(** naming a connection: the first message of a session gives it its peer's
    id.  [identify] renames the session, and accepts exactly when the id belongs
    to a known peer, no earlier session has the temporary id, and no later
    session already has the peer's id; for the loop compares with a reference to
    the very id it has just changed. *)
Theorem identify_outcome known self peer_id pre post n :
  net_wf n -> n_stop n = false -> n_peers n = pre ++ self :: post -> id_of (n_heap n) self <> peer_id ->
  let r := identify known self peer_id n in
  id_of (n_heap r.1) self = peer_id
  /\ n_peers r.1 = n_peers n
  /\ (forall q, q ∈ post -> id_of (n_heap r.1) q = id_of (n_heap n) q)
  /\ (r.2 = true <-> known = true
      /\ (forall q, q ∈ pre -> id_of (n_heap n) q <> id_of (n_heap n) self)
      /\ (forall q, q ∈ post -> id_of (n_heap n) q <> peer_id)).
Proof. apply identify_spec. Qed.

(** Two sessions of a node: "+1", accepted and not named yet, and one the node
    opened itself to the peer "n2". *)
Definition sample_net : net :=
  Net (<[0%nat := Sess "+1" false false []]> (<[1%nat := Sess "n2" false false []]> ∅)) [0%nat; 1%nat] [] None None 2 1 false 0.

Lemma sample_net_wf : net_wf sample_net.
Proof.
  split; cbn; [by apply (bool_decide_unpack _)|]. intros p Hp. rewrite app_nil_r in Hp || idtac.
  apply elem_of_cons in Hp as [->|Hp]; [by eexists|]. apply list_elem_of_singleton in Hp as ->. by eexists.
Qed.

Lemma identify_outcome_witness :
  (identify true 0 "n2" sample_net).2 <> true /\ (identify true 0 "n3" sample_net).2 = true.
Proof.
  split.
  - destruct (identify_outcome true 0 "n2" [] [1%nat] sample_net) as (_ & _ & _ & H); [apply sample_net_wf|done..|].
    intros E. apply H in E as (_ & _ & E). apply (E 1%nat); [by apply list_elem_of_singleton|done].
  - apply (identify_outcome true 0 "n3" [] [1%nat] sample_net); [apply sample_net_wf|done..|].
    split_and!; [done|set_solver|]. intros q ->%list_elem_of_singleton. done.
Defined.

Section node_theorems.
Context {S : Type} `{StorageLaws S}.
Implicit Type nd : node S.

Lemma drop_session_peers id nd :
  n_stop (nd_net nd) = false -> first_is_dash id = false ->
  exists n' out, drop_session id nd = Ok (Node (nd_server nd) n', out)
    /\ n_peers n' = filter (fun p => id_of (n_heap (nd_net nd)) p <> id) (n_peers (nd_net nd))
    /\ (forall q, q ∈ n_peers (nd_net nd) -> id_of (n_heap (nd_net nd)) q = id -> closed (n_heap n') q).
Proof.
  intros Hs Hd. destruct (net_drop_peers id (nd_net nd) Hs Hd) as (E1 & _ & _ & E2). unfold drop_session.
  destruct (net_drop id (nd_net nd)) as [n' out]. eauto.
Qed.

(** crossed connections: when the node has also opened a session to the
    peer that a not yet named session belongs to, and that session comes later
    in the list, the first message on the unnamed session is not delivered and
    both sessions are dropped and closed; the raft server does not change. *)
Theorem crossed_connections_drop self other m pre post nd :
  net_wf (nd_net nd) -> n_stop (nd_net nd) = false -> n_peers (nd_net nd) = pre ++ self :: post ->
  first_is_dash (sender m) = false -> id_of (n_heap (nd_net nd)) self <> sender m ->
  other ∈ post -> id_of (n_heap (nd_net nd)) other = sender m ->
  exists n' out, process_impl self m nd = Ok (Node (nd_server nd) n', out)
    /\ self ∉ n_peers n' /\ other ∉ n_peers n' /\ closed (n_heap n') self /\ closed (n_heap n') other.
Proof.
  intros Hwf Hs Hp Hd Hid Ho Hoid. unfold process_impl. rewrite decide_False by congruence.
  destruct (identify_spec (bool_decide (find_peer (sender m) (state (nd_server nd)) <> None)) self (sender m) pre post
    (nd_net nd) Hwf Hs Hp Hid) as (E1 & E2 & E3 & E4).
  assert (Hst : n_stop (identify (bool_decide (find_peer (sender m) (state (nd_server nd)) <> None)) self (sender m) (nd_net nd)).1
    = false).
  { unfold identify. rewrite Hs. by destruct (fold_left _ _ _). }
  destruct (identify _ self (sender m) (nd_net nd)) as [n1 ok]. cbn [fst snd] in *.
  assert (ok = false) as ->.
  { destruct ok; [|done]. exfalso. destruct E4 as [(_ & _ & E4) _]; [done|]. by apply (E4 other). }
  destruct (drop_session_peers (sender m) (Node (nd_server nd) n1)) as (n' & out & -> & F1 & F2); [done|done|].
  cbn [nd_net nd_server] in *. exists n', out. rewrite <- (E3 other) in Hoid by done.
  split_and!; [done| | | |].
  - rewrite F1, list_elem_of_filter. intros [Hn _]. done.
  - rewrite F1, list_elem_of_filter. intros [Hn _]. done.
  - apply F2; [rewrite E2, Hp; set_solver|done].
  - apply F2; [rewrite E2, Hp; set_solver|done].
Qed.

Lemma process_named m self nd :
  sender m = id_of (n_heap (nd_net nd)) self -> process_impl self m nd = deliver m nd.
Proof. intros E. unfold process_impl. by rewrite decide_True. Qed.

(** a message reaches the raft server: on a session that carries its
    sender's id, the bytes that print a message are processed as one call of
    the server's handler for that message and the callbacks it issues, and no
    bytes are left over. *)
Theorem printed_message_delivered self m nd :
  message_wire_ok m -> (forall r, m <> m_client_request r) -> sender m = id_of (n_heap (nd_net nd)) self ->
  process_read cat_server self (print_message m) [] nd
  = ('(nd', out) ← deliver m nd; Ok (nd', out, [])).
Proof.
  intros Hm Hc Hs. pose proof (lines_messages [m] ltac:(by apply Forall_singleton)) as Hl.
  cbn [map concat] in Hl. rewrite app_nil_r in Hl. unfold process_read. rewrite tokenizer_lines, Hl.
  cbn [process_lines process_message]. unfold process_server_message. rewrite read_message_line by done.
  assert (received_as m = m) as -> by (destruct m; try done; by destruct (Hc m)).
  assert (E : forall X : res fatal (node S * list output), (X ≫= fun '(nd', o1) => Ok (nd', o1 ++ [])) = X).
  { intros [[nd' o1]|]; [cbn; by rewrite app_nil_r|done]. }
  assert (match m with m_client_request r => deliver (m_client_request r) nd | _ => process_impl self m nd end = deliver m nd) as ->.
  { destruct m; try (by apply process_named). by destruct (Hc m). }
  cbn [mbind res_bind] in *. destruct (deliver m nd) as [[nd' out]|]; cbn; [by rewrite app_nil_r|done].
Qed.

(** input that is not a message does no harm to the log: a line that cannot
    be read, or with an unknown name, leaves the raft server as it was, and the
    session it came on is dropped and closed. *)
Theorem unreadable_line_drops self line nd :
  n_stop (nd_net nd) = false -> first_is_dash (id_of (n_heap (nd_net nd)) self) = false -> self ∈ n_peers (nd_net nd) ->
  read_line line = Throw stream_failure \/ (exists name, read_line line = Ok (r_unknown name)) ->
  exists n' out, process_server_message self line nd = Ok (Node (nd_server nd) n', out)
    /\ n_peers n' = filter (fun p => id_of (n_heap (nd_net nd)) p <> id_of (n_heap (nd_net nd)) self) (n_peers (nd_net nd))
    /\ closed (n_heap n') self.
Proof.
  intros Hs Hd Hself Hr. destruct (drop_session_peers (id_of (n_heap (nd_net nd)) self) nd Hs Hd) as (n' & out & E & E1 & E2).
  exists n', out. split_and!; [|done|by apply E2]. unfold process_server_message.
  by destruct Hr as [->|[name ->]].
Qed.

(** a count too large for a vector ends the process: an append request
    that announces more entries than a vector can hold makes [reserve] throw
    std::length_error, which the handler of stream failures does not catch. *)
Theorem entry_count_kills self h prev k rest nd :
  header_ok h -> info_ok prev -> max_size entry_size < k < 2 ^ 64 -> ends rest ->
  process_server_message self
    (chars "AppendEntriesRequest " ++ print_header h ++ sp ++ print_entry_info prev ++ sp ++ print_uint k ++ rest) nd
  = Throw f_length_error.
Proof.
  intros Hh Hp Hk He. unfold process_server_message, read_line.
  rewrite (read_name "AppendEntriesRequest") by by apply (bool_decide_unpack _). cbn [mbind res_bind].
  rewrite decide_True by done. unfold read_append_request. autorewrite with wire. wire_parts.
  wire_step read_header_print. wire_step read_entry_info_print. unfold read_vector. rewrite read_uint_sp.
  change (max_size entry_size) with 192153584101141162 in *.
  rewrite read_uint_print by (done || (unfold in_width; lia)). cbn [mbind res_bind].
  by destruct (Z.ltb_spec 192153584101141162 k); [|lia].
Qed.

End node_theorems.

Definition sample_raft : server MemStorage := new_server "n1" [new_peer "n1" "" 0 0; new_peer "n2" "" 0 0] new_mem_storage.
Definition sample_node : node MemStorage := Node sample_raft sample_net.
Definition sample_vote : message := m_vote_request (VoteReq (Header "n2" "n1" 1 1 (LogSt (Info 0 0) (Info 0 0)))).

Lemma crossed_connections_drop_witness :
  exists n' out, process_impl 0 sample_vote sample_node = Ok (Node sample_raft n', out)
    /\ 0%nat ∉ n_peers n' /\ 1%nat ∉ n_peers n' /\ closed (n_heap n') 0 /\ closed (n_heap n') 1.
Proof.
  apply (crossed_connections_drop 0 1 sample_vote [] [1%nat] sample_node); try done.
  - apply sample_net_wf.
  - by apply list_elem_of_singleton.
Defined.

Lemma printed_message_delivered_witness :
  process_read cat_server 1 (print_message sample_vote) [] sample_node
  = ('(nd', out) ← deliver sample_vote sample_node; Ok (nd', out, [])).
Proof. apply (printed_message_delivered 1 sample_vote sample_node); [by apply (bool_decide_unpack _)|done|done]. Defined.

Lemma unreadable_line_drops_witness :
  exists n' out, process_server_message 1 (chars "VoteRequest n2 n1 x") sample_node = Ok (Node sample_raft n', out)
    /\ n_peers n' = filter (fun p => id_of (n_heap sample_net) p <> "n2") [0%nat; 1%nat] /\ closed (n_heap n') 1.
Proof.
  apply (unreadable_line_drops 1 (chars "VoteRequest n2 n1 x") sample_node); [done|done| |left; by vm_compute].
  by apply list_elem_of_further, list_elem_of_here.
Defined.

Lemma entry_count_kills_witness :
  process_server_message 1 (chars "AppendEntriesRequest " ++ print_header sample_header ++ sp ++ print_entry_info (Info 0 0)
    ++ sp ++ print_uint 18446744073709551615 ++ []) sample_node = Throw f_length_error.
Proof.
  apply (entry_count_kills 1 sample_header (Info 0 0) 18446744073709551615 [] sample_node);
    try by apply (bool_decide_unpack _).
Defined.

(** ** Sending *)

Definition queue_of (h : gmap nat session) (p : nat) : list (list ascii) :=
  match h !! p with Some s => s_queue s | None => [] end.
Definition running (h : gmap nat session) (p : nat) : Prop :=
  match h !! p with Some s => s_stop s = false | None => False end.

Lemma send_text_frame p text n :
  let n' := (send_text p text n).1 in
  n_peers n' = n_peers n /\ n_clients n' = n_clients n /\ n_stop n' = n_stop n /\ n_watermark n' = n_watermark n
  /\ (forall q, running (n_heap n') q <-> running (n_heap n) q)
  /\ (forall q, q <> p -> queue_of (n_heap n') q = queue_of (n_heap n) q)
  /\ (running (n_heap n) p -> queue_of (n_heap n') p = queue_of (n_heap n) p ++ [text]).
Proof.
  unfold send_text, update, running, queue_of. destruct (n_heap n !! p) as [s|] eqn:E; cbn.
  - destruct (s_stop s) eqn:Es; cbn.
    + rewrite E. split_and!; (done || congruence).
    + split_and!; try done.
      * intros q. destruct (decide (q = p)) as [->|]; [by rewrite lookup_alter_eq, E|by rewrite lookup_alter_ne].
      * intros q Hq. by rewrite lookup_alter_ne.
      * intros _. by rewrite lookup_alter_eq, E.
  - by rewrite E.
Qed.

Lemma send_to_all_app text ps p n :
  send_to_all text (ps ++ [p]) n = let '(n, out) := send_to_all text ps n in let '(n, o) := send_text p text n in (n, out ++ o).
Proof. unfold send_to_all. rewrite fold_left_app. cbn. by destruct (fold_left _ ps (n, [])). Qed.

Lemma send_to_all_frame text ps n :
  NoDup ps ->
  let n' := (send_to_all text ps n).1 in
  n_clients n' = n_clients n /\ n_stop n' = n_stop n /\ n_watermark n' = n_watermark n
  /\ (forall q, running (n_heap n') q <-> running (n_heap n) q)
  /\ (forall q, running (n_heap n) q ->
        queue_of (n_heap n') q = queue_of (n_heap n) q ++ (if decide (q ∈ ps) then [text] else [])).
Proof.
  induction ps as [|p ps IH] using rev_ind; intros Hnd; cbv zeta.
  - split_and!; try done. intros q _. rewrite decide_False by set_solver. by rewrite app_nil_r.
  - apply NoDup_app in Hnd as (Hps & Hdis & _). rewrite send_to_all_app.
    destruct (IH Hps) as (E2 & E3 & E4 & E5 & E6).
    pose proof (send_text_frame p text (send_to_all text ps n).1) as F. destruct (send_to_all text ps n) as [n1 o1].
    cbn [fst snd] in *. destruct F as (_ & F2 & F3 & F4 & F5 & F6 & F7). destruct (send_text p text n1) as [n2 o2].
    cbn [fst snd] in *. split_and!; try congruence.
    + intros q. by rewrite F5, E5.
    + intros q Hq. destruct (decide (q = p)) as [->|Hne].
      * rewrite F7 by by apply E5. rewrite E6 by done. rewrite decide_False by (intros Hin; apply (Hdis p Hin); set_solver).
        rewrite decide_True by set_solver. by rewrite app_nil_r.
      * rewrite F6, E6 by done. f_equal. apply decide_ext. set_solver.
Qed.

(** The texts announcing entries [w], ..., [w + k - 1]. *)
Definition announcements (es : list Entry) (w : Z) (k : nat) : list (list ascii) :=
  map (fun i => print_current_entry (info_at es (w + Z.of_nat i))) (seq 0 k).

Section announcing.
Context {S : Type} `{StorageLaws S}.

Lemma announce_ok k (st : S) n :
  st_wf st -> NoDup (n_clients n) -> 0 <= n_watermark n ->
  exists n' out, announce k st n = Ok (n', out)
    /\ n_watermark n' = n_watermark n + Z.of_nat k /\ n_clients n' = n_clients n
    /\ (forall q, running (n_heap n') q <-> running (n_heap n) q)
    /\ (forall q, running (n_heap n) q -> q ∈ n_clients n ->
          queue_of (n_heap n') q = queue_of (n_heap n) q ++ announcements (al_entries (st_log st)) (n_watermark n) k).
Proof.
  intros Hst. revert n. induction k as [|k IH]; intros n Hnd Hw; cbn [announce].
  - exists n, []. split_and!; try done; [lia|]. intros q _ _. by rewrite app_nil_r.
  - rewrite get_entry_info_law by done. cbn [mbind res_bind or_crash].
    destruct (send_to_all_frame (print_current_entry (info_at (al_entries (st_log st)) (n_watermark n))) (n_clients n) n Hnd)
      as (E1 & E2 & E3 & E4 & E5).
    destruct (send_to_all _ (n_clients n) n) as [n1 o1]. cbn [fst snd] in *.
    destruct (IH (set_watermark (n_watermark n1 + 1) n1)) as (n2 & o2 & -> & F1 & F2 & F3 & F4).
    { cbn. by rewrite E1. }
    { cbn. lia. }
    cbn [n_watermark n_clients n_heap set_watermark mbind res_bind] in *. exists n2, (o1 ++ o2). split_and!; [done|lia|congruence| |].
    + intros q. by rewrite F3, E4.
    + intros q Hq Hin. rewrite F4; [|by apply E4|by rewrite E1]. rewrite E5, decide_True, E3 by done.
      rewrite <- app_assoc. f_equal. unfold announcements. cbn [seq map app]. rewrite Z.add_0_r. f_equal.
      rewrite <- seq_shift, map_map. apply map_ext. intros i. do 2 f_equal. lia.
Qed.

(** what clients are told: when the raft server reports that the log is
    committed up to an index, every connected client is sent, once and in order,
    the info of each entry from the watermark up to but not including that index,
    and the watermark moves to the index; an index at or below the watermark
    announces nothing.  The committed entry itself waits for the next report. *)
Theorem commit_announcements (st : S) n commit_index :
  st_wf st -> net_wf n -> n_stop n = false -> n_clients n <> [] -> 0 <= n_watermark n ->
  exists n' out, net_commit_advanced commit_index st n = Ok (n', out)
    /\ n_watermark n' = Z.max (n_watermark n) commit_index
    /\ forall q, q ∈ n_clients n -> running (n_heap n) q ->
         queue_of (n_heap n') q = queue_of (n_heap n) q ++
           announcements (al_entries (st_log st)) (n_watermark n) (Z.to_nat (commit_index - n_watermark n)).
Proof.
  intros Hst [Hnd _] Hs Hc Hw. unfold net_commit_advanced. rewrite Hs, bool_decide_eq_false_2 by done. cbn [orb].
  apply NoDup_app in Hnd as (_ & _ & Hnd).
  destruct (announce_ok (Z.to_nat (commit_index - n_watermark n)) st n Hst Hnd Hw) as (n' & out & E & E1 & _ & _ & E2).
  exists n', out. split_and!; [done|lia|auto].
Qed.

End announcing.

(** A node with one client. *)
Definition sample_client_net : net :=
  Net (<[0%nat := Sess "-1" false false []]> ∅) [] [0%nat] None None 1 1 false 0.

Lemma sample_client_net_wf : net_wf sample_client_net.
Proof. split; cbn; [by apply (bool_decide_unpack _)|]. intros p ->%list_elem_of_singleton. by eexists. Qed.

Lemma commit_announcements_witness :
  exists n' out, net_commit_advanced 2 sample_storage sample_client_net = Ok (n', out) /\ n_watermark n' = 2
    /\ queue_of (n_heap n') 0 = [print_current_entry (Info 0 0); print_current_entry (Info 1 1)].
Proof.
  destruct (commit_announcements sample_storage sample_client_net 2) as (n' & out & E & E1 & E2).
  - apply sample_storage_wf.
  - apply sample_client_net_wf.
  - done.
  - done.
  - done.
  - exists n', out. split_and!; [done|done|]. rewrite E2; [done|by apply list_elem_of_singleton|done].
Defined.

(** ** Accepting and writing *)

(** one failed accept closes the listener for good: after the handler of
    async_accept runs with an error, no accept is pending, and neither another
    call of [do_accept_peer] nor the same one for clients starts one, because
    the slot of the session being accepted is still taken. *)
Theorem accept_error_stops n p c :
  n_stop n = false -> n_accepting_peer n = Some p -> n_accepting_client n = Some c ->
  peer_accepted false n = (n, []) /\ do_accept_peer n = (n, [])
  /\ client_accepted false n = (n, []) /\ do_accept_client n = (n, [])
  /\ (exists n1, peer_accepted true n = (n1, [o_accept_peer]) /\ n_peers n1 = n_peers n ++ [p])
  /\ (exists n1, client_accepted true n = (n1, [o_accept_client]) /\ n_clients n1 = n_clients n ++ [c]).
Proof.
  intros Hs Hp Hc.
  assert (E1 : do_accept_peer n = (n, [])) by (unfold do_accept_peer; by rewrite Hs, Hp).
  assert (E2 : do_accept_client n = (n, [])) by (unfold do_accept_client; by rewrite Hs, Hc).
  split_and!; try done.
  - unfold peer_accepted. by rewrite Hs, Hp.
  - unfold client_accepted. by rewrite Hs, Hc.
  - unfold peer_accepted. rewrite Hs, Hp. unfold do_accept_peer. cbn. rewrite Hs. cbn. by eexists.
  - unfold client_accepted. rewrite Hs, Hc. unfold do_accept_client. cbn. rewrite Hs. cbn. by eexists.
Qed.

Definition sample_accepting : net :=
  Net (<[0%nat := new_session "+1"]> (<[1%nat := new_session "-2"]> ∅)) [] [] (Some 0%nat) (Some 1%nat) 2 2 false 0.

Lemma accept_error_stops_witness : peer_accepted false sample_accepting = (sample_accepting, []).
Proof. apply (accept_error_stops sample_accepting 0 1); done. Defined.

(** What happens to the queue of one session: a send, or the end of a write. *)
Inductive write_event := we_send (text : list ascii) | we_written.

Definition write_step (p : nat) (e : write_event) (n : net) : net * list output :=
  match e with we_send t => send_text p t n | we_written => written p true n end.

Fixpoint write_run (p : nat) (es : list write_event) (n : net) : net * list output :=
  match es with
  | [] => (n, [])
  | e :: es' => let '(n, o1) := write_step p e n in let '(n, o2) := write_run p es' n in (n, o1 ++ o2)
  end.

Definition sent (es : list write_event) : list (list ascii) :=
  omap (fun e => match e with we_send t => Some t | we_written => None end) es.

(** A write ends only while one is under way. *)
Fixpoint writes_pending (k : nat) (es : list write_event) : Prop :=
  match es with
  | [] => True
  | we_send _ :: es' => writes_pending (S k) es'
  | we_written :: es' => match k with O => False | S k' => writes_pending k' es' end
  end.

Lemma write_step_queue p e n :
  running (n_heap n) p -> (e = we_written -> queue_of (n_heap n) p <> []) ->
  running (n_heap (write_step p e n).1) p
  /\ queue_of (n_heap (write_step p e n).1) p
     = (match e with we_send t => queue_of (n_heap n) p ++ [t] | we_written => drop 1 (queue_of (n_heap n) p) end)
  /\ (write_step p e n).2
     = (match e with
        | we_send t => if decide (queue_of (n_heap n) p = []) then [o_write p t] else []
        | we_written => match drop 1 (queue_of (n_heap n) p) with t :: _ => [o_write p t] | [] => [] end
        end).
Proof.
  unfold running, queue_of. destruct (n_heap n !! p) as [s|] eqn:E; [|done]. intros Hr Hq.
  destruct e as [t|]; cbn [write_step].
  - unfold send_text. rewrite E, Hr. cbn. rewrite lookup_alter_eq, E. cbn. split_and!; try done.
    destruct (s_queue s) as [|x q]; [done|]. rewrite decide_False; [|rewrite length_app; cbn; lia]. done.
  - unfold written. rewrite E, Hr. cbn. rewrite lookup_alter_eq, E. cbn. done.
Qed.

(** a session writes its messages in order, one at a time: over any sends
    and completed writes, the texts handed to async_write are the texts sent, in
    the order sent, up to those still queued behind the write under way. *)
Theorem writes_in_order p es n :
  running (n_heap n) p -> queue_of (n_heap n) p = [] -> writes_pending 0 es ->
  let r := write_run p es n in
  exists ts, r.2 = map (o_write p) ts /\ sent es = ts ++ drop 1 (queue_of (n_heap r.1) p).
Proof.
  intros Hr Hq Hp.
  enough (G : forall es n, running (n_heap n) p -> writes_pending (length (queue_of (n_heap n) p)) es ->
    exists ts, (write_run p es n).2 = map (o_write p) ts
      /\ drop 1 (queue_of (n_heap n) p) ++ sent es = ts ++ drop 1 (queue_of (n_heap (write_run p es n).1) p)).
  { destruct (G es n Hr) as (ts & E1 & E2); [by rewrite Hq|]. exists ts. rewrite Hq in E2. done. }
  clear. intros es. induction es as [|e es IH]; intros n Hr Hp.
  { exists []. cbn. by rewrite app_nil_r. }
  destruct (write_step_queue p e n Hr) as (E1 & E2 & E3).
  { intros ->. cbn in Hp. by destruct (queue_of (n_heap n) p). }
  cbn [write_run]. destruct (write_step p e n) as [n1 o1]. cbn [fst snd] in *. specialize (IH n1 E1). rewrite E2 in IH.
  destruct e as [t|]; cbn [writes_pending] in Hp.
  - destruct IH as (ts & F1 & F2); [rewrite length_app; cbn; by rewrite Nat.add_1_r|].
    destruct (write_run p es n1) as [n2 o2]. cbn [fst snd] in *. rewrite E3, F1.
    change (sent (we_send t :: es)) with (t :: sent es).
    destruct (queue_of (n_heap n) p) as [|x q]; cbn in *.
    + exists (t :: ts). cbn. by rewrite <- F2.
    + exists ts. cbn. split; [done|]. rewrite <- F2. rewrite !drop_0. by rewrite <- ?app_assoc.
  - destruct (queue_of (n_heap n) p) as [|x q]; [done|]. cbn [length drop] in *. rewrite drop_0 in *.
    destruct IH as (ts & F1 & F2); [done|].
    destruct (write_run p es n1) as [n2 o2]. cbn [fst snd] in *. rewrite E3, F1. change (sent (we_written :: es)) with (sent es).
    destruct q as [|y q]; cbn in *.
    + exists ts. done.
    + exists (y :: ts). cbn. split; [done|]. by rewrite <- F2.
Qed.

Lemma writes_in_order_witness :
  let es := [we_send (chars "a"); we_send (chars "b"); we_written; we_send (chars "c")] in
  exists ts, (write_run 0 es sample_client_net).2 = map (o_write 0) ts
    /\ sent es = ts ++ drop 1 (queue_of (n_heap (write_run 0 es sample_client_net).1) 0).
Proof. intros es. apply (writes_in_order 0 es sample_client_net); done. Defined.
