(* ===== verification/Events.v ===== *)
(** * Events for the web interface (src/Event.cc, Event.hh)

    Applications report objects that appear, change and disappear; the event
    manager keeps every event, and a browser polls for the events it has not
    seen.  A Delete event and the Add event of its object are brothers. *)

From Stdlib Require Import Sorted.
From S2P Require Import Prelude.
Local Open Scope Z_scope.

Inductive EventType := Add | Delete | Change.

#[export] Instance event_type_dec : EqDecision EventType.
Proof. solve_decision. Defined.

(** Objects are compared by address. *)
Record event := Ev {
  ev_id : Z;
  ev_time : Z;
  ev_type : EventType;
  ev_obj : nat;
  ev_hash : Z;
  ev_app : string;
  ev_brother : option Z;
}.

#[export] Instance event_dec : EqDecision event.
Proof. solve_decision. Defined.

(** [last_event] is the static counter of [EventIDs]. *)
Record manager := Manager { last_event : Z; events : list event }.

(** [not_routed]: no path takes a negative number, so the request is not for a poll;
    [no_int]: what [atoi] makes of a number that is no [int] is not defined. *)
Inductive event_error := null_brother | not_routed | no_int.

Definition set_ev_brother (b : Z) (e : event) : event :=
  Ev (ev_id e) (ev_time e) (ev_type e) (ev_obj e) (ev_hash e) (ev_app e) (Some b).

(** [findBrother]: the newest Add event of the object. *)
Definition find_brother (obj : nat) (es : list event) : option event :=
  find (fun e => bool_decide (ev_obj e = obj) && bool_decide (ev_type e = Add)) (rev es).

(** [setBrother]: the two events point to each other; the code dereferences
    what [findBrother] returned. *)
Definition set_brother (ev : event) (es : list event) : res event_error (event * list event) :=
  match find_brother (ev_obj ev) es with
  | None => Throw null_brother
  | Some b =>
      Ok (set_ev_brother (ev_id b) ev,
          map (fun e => if ev_id e =? ev_id b then set_ev_brother (ev_id ev) e else e) es)
  end.

Definition add_to_event_list (now : Z) (ty : EventType) (obj : nat) (hash : Z) (app : string) (m : manager)
    : res event_error manager :=
  if hash =? 0 then Ok m
  else
    let i := u32 (last_event m + 1) in
    let ev := Ev i now ty obj hash app None in
    '(ev, es) ← (if decide (ty = Delete) then set_brother ev (events m) else Ok (ev, events m));
    Ok (Manager i (es ++ [ev])).

(** [checkOverlap]: the event need not be sent. *)
Definition check_overlap (e : event) (last_ev : Z) : res event_error bool :=
  match ev_type e with
  | Add => Ok (bool_decide (ev_brother e <> None))
  | Delete => match ev_brother e with
              | Some b => Ok (negb (b <=? last_ev))
              | None => Throw null_brother
              end
  | Change => Ok false
  end.

(** The loop of [timeout]: the events to send and the largest id among them. *)
Fixpoint timeout_loop (hash_map last : Z) (es : list event) : res event_error (list event * Z) :=
  match es with
  | [] => Ok ([], 0)
  | e :: es' =>
      '(shown, top) ← timeout_loop hash_map last es';
      if negb (Z.land (ev_hash e) hash_map =? 0) && (last <? ev_id e) then
        overlap ← check_overlap e last;
        if overlap : bool then Ok (shown, top) else Ok (e :: shown, Z.max (ev_id e) top)
      else Ok (shown, top)
  end.

Definition timeout (hash_map last : Z) (m : manager) : res event_error (Z * list event) :=
  '(shown, top) ← timeout_loop hash_map last (events m);
  Ok (if top =? 0 then last else top, shown).

(** The events of one application in the answer, [result[app]]. *)
Definition of_app (app : string) (shown : list event) : list event := filter (fun e => ev_app e = app) shown.

(** ** A client

    A browser keeps a set of objects: it adds those of Add events and removes
    those of Delete events. *)

Definition client_apply (objs : gset nat) (e : event) : gset nat :=
  match ev_type e with Add => {[ ev_obj e ]} ∪ objs | Delete => objs ∖ {[ ev_obj e ]} | Change => objs end.
Definition client_apply_all (objs : gset nat) (es : list event) : gset nat := fold_left client_apply es objs.

(** The server sends the last id as an [int], and takes it from the path of the next
    poll, which is digits, by [atoi]. *)
Definition to_int32 (n : Z) : Z := if n <? 2 ^ 31 then n else n - 2 ^ 32.
Definition read_last (n : Z) : res event_error Z :=
  if n <? 0 then Throw not_routed else if n <? 2 ^ 31 then Ok n else Throw no_int.

(** What happens: an application reports an object, or the client polls. *)
Inductive action := act_report (now : Z) (ty : EventType) (obj : nat) | act_poll.

(** The objects that exist, the manager, and the client's last id and objects. *)
Record world := World { w_live : gset nat; w_manager : manager; w_last : Z; w_client : gset nat }.

Definition world_init : world := World ∅ (Manager 0 []) 0 ∅.

Section world.
(** The application of an object, and the applications the client asks for. *)
Variables (hash_of : nat -> Z) (app_of : nat -> string) (hash_map : Z).

(** An application reports an object once when it appears and once when it
    disappears. *)
Definition act_ok (a : action) (w : world) : bool :=
  match a with
  | act_report _ Add o => bool_decide (o ∉ w_live w)
  | act_report _ Delete o => bool_decide (o ∈ w_live w)
  | act_report _ Change o => bool_decide (o ∈ w_live w)
  | act_poll => true
  end.

Definition act (a : action) (w : world) : res event_error world :=
  match a with
  | act_report now ty o =>
      m ← add_to_event_list now ty o (hash_of o) (app_of o) (w_manager w);
      Ok (World (match ty with Add => {[ o ]} ∪ w_live w | Delete => w_live w ∖ {[ o ]} | Change => w_live w end)
                m (w_last w) (w_client w))
  | act_poll =>
      last_event ← read_last (w_last w); '(last, shown) ← timeout hash_map last_event (w_manager w);
      Ok (World (w_live w) (w_manager w) (to_int32 last) (client_apply_all (w_client w) shown))
  end.

(** Executions of [n] actions. *)
Inductive reaches : nat -> world -> Prop :=
| reaches_init : reaches 0 world_init
| reaches_step n w a w' : reaches n w -> act_ok a w = true -> act a w = Ok w' -> reaches (S n) w'.

Definition wanted (o : nat) : Prop := Z.land (hash_of o) hash_map <> 0.
End world.

(** ** Lists in the order of their ids *)

Definition before (a b : event) : Prop := ev_id a < ev_id b.
Abbreviation ordered := (StronglySorted before).

Lemma ordered_snoc es e : ordered (es ++ [e]) <-> ordered es /\ Forall (fun a => before a e) es.
Proof.
  induction es as [|a es IH]; cbn.
  - split; [intros _; split; constructor|]. intros _. repeat constructor.
  - split.
    + inversion_clear 1 as [|? ? Hs Hf]. apply IH in Hs as [Hs1 Hs2]. apply Forall_app in Hf as [Hf1 Hf2].
      apply Forall_cons in Hf2 as [Hf2 _]. split; [by constructor|by constructor].
    + intros [Hs Hf]. inversion_clear Hs as [|? ? Hs1 Hs2]. apply Forall_cons in Hf as [Hf1 Hf2]. constructor; [by apply IH|].
      apply Forall_app. split; [done|]. by repeat constructor.
Qed.

Lemma ordered_filter (P : event -> Prop) `{forall e, Decision (P e)} es : ordered es -> ordered (filter P es).
Proof.
  induction 1 as [|a es Hs IH Hf]; [constructor|]. rewrite filter_cons. case_decide; [|done].
  constructor; [done|]. apply Forall_forall. intros b [_ Hb]%list_elem_of_filter. by eapply Forall_forall in Hf.
Qed.

Lemma ordered_map (f : event -> event) es : (forall e, ev_id (f e) = ev_id e) -> ordered es -> ordered (map f es).
Proof.
  intros Hf. induction 1 as [|a es Hs IH Ha]; [constructor|]. cbn. constructor; [done|].
  apply Forall_map. eapply Forall_impl; [done|]. unfold before. intros b. by rewrite !Hf.
Qed.

Lemma ordered_unique es a b : ordered es -> a ∈ es -> b ∈ es -> ev_id a = ev_id b -> a = b.
Proof.
  induction 1 as [|x es Hs IH Hx]; [set_solver|]. rewrite Forall_forall in Hx. unfold before in Hx.
  intros [->|Ha]%elem_of_cons [->|Hb]%elem_of_cons E; [done|apply Hx in Hb; lia|apply Hx in Ha; lia|auto].
Qed.

(** The newest event of a kind. *)
Lemma find_newest (p : event -> bool) es :
  ordered es ->
  match find p (rev es) with
  | Some e => e ∈ es /\ p e = true /\ forall a, a ∈ es -> p a = true -> ev_id a <= ev_id e
  | None => forall a, a ∈ es -> p a = false
  end.
Proof.
  induction es as [|e es IH] using rev_ind; intros Ho; [set_solver|].
  apply ordered_snoc in Ho as [Ho Hb]. rewrite rev_app_distr. cbn. rewrite Forall_forall in Hb. unfold before in Hb.
  destruct (p e) eqn:Hp.
  - split_and!; [set_solver|done|]. intros a [Ha|Ha]%elem_of_app _; [apply Hb in Ha; lia|].
    apply list_elem_of_singleton in Ha as ->. lia.
  - specialize (IH Ho). destruct (find p (rev es)) as [x|].
    + destruct IH as (H1 & H2 & H3). split_and!; [set_solver|done|]. intros a [Ha|Ha]%elem_of_app Hpa; [auto|].
      apply list_elem_of_singleton in Ha as ->. congruence.
    + intros a [Ha|Ha]%elem_of_app; [auto|]. by apply list_elem_of_singleton in Ha as ->.
Qed.

(** ** What a client makes of the events it is sent *)

Definition concerns (o : nat) (e : event) : bool := bool_decide (ev_obj e = o) && negb (bool_decide (ev_type e = Change)).

Lemma client_apply_all_elem objs es o :
  o ∈ client_apply_all objs es <->
  match find (concerns o) (rev es) with Some e => ev_type e = Add | None => o ∈ objs end.
Proof.
  induction es as [|e es IH] using rev_ind; [done|].
  unfold client_apply_all in *. rewrite fold_left_app, rev_app_distr. cbn [fold_left rev app find].
  destruct (concerns o e) eqn:Ec; unfold concerns in Ec; unfold client_apply.
  - apply andb_true_iff in Ec as [Eo%bool_decide_eq_true Et%negb_true_iff%bool_decide_eq_false].
    destruct (ev_type e); [set_solver|set_solver|done].
  - rewrite <- IH. apply andb_false_iff in Ec as [Eo%bool_decide_eq_false|Et%negb_false_iff%bool_decide_eq_true].
    + destruct (ev_type e); set_solver.
    + by rewrite Et.
Qed.

(** ** The polling loop *)

Definition shown_event (hash_map last : Z) (e : event) : bool :=
  negb (Z.land (ev_hash e) hash_map =? 0) && (last <? ev_id e)
  && match ev_type e with
     | Add => bool_decide (ev_brother e = None)
     | Delete => match ev_brother e with Some b => b <=? last | None => false end
     | Change => true
     end.

Definition paired (e : event) : Prop := ev_type e = Delete -> ev_brother e <> None.

Lemma timeout_loop_ok hash_map last es :
  Forall paired es -> 0 <= last ->
  exists top, timeout_loop hash_map last es = Ok (filter (fun e => shown_event hash_map last e = true) es, top)
    /\ (top = 0 \/ last < top)
    /\ (forall e, e ∈ es -> shown_event hash_map last e = true -> ev_id e <= top)
    /\ (top <> 0 -> exists e, e ∈ es /\ ev_id e = top).
Proof.
  intros Hp Hl. induction Hp as [|e es He _ (top & IH & Ht & Hm & Hx)]; [by exists 0; split_and!; [done|left|set_solver|]|].
  cbn [timeout_loop]. rewrite IH. cbn [mbind res_bind]. rewrite filter_cons.
  assert (Hskip : shown_event hash_map last e = false ->
    exists top0, Ok (filter (fun e => shown_event hash_map last e = true) es, top)
      = (Ok (if decide (shown_event hash_map last e = true)
            then e :: filter (fun e => shown_event hash_map last e = true) es
            else filter (fun e => shown_event hash_map last e = true) es, top0) : res event_error _)
    /\ (top0 = 0 \/ last < top0)
    /\ (forall e0, e0 ∈ e :: es -> shown_event hash_map last e0 = true -> ev_id e0 <= top0)
    /\ (top0 <> 0 -> exists e0, e0 ∈ e :: es /\ ev_id e0 = top0)).
  { intros Hs. exists top. rewrite decide_False by congruence. split_and!; [done|done| |].
    - intros e0 [->|Hin]%elem_of_cons ?; [congruence|auto].
    - intros (e0 & ? & ?)%Hx. exists e0. set_solver. }
  assert (Hshow : shown_event hash_map last e = true -> last < ev_id e ->
    exists top0, Ok (e :: filter (fun e => shown_event hash_map last e = true) es, Z.max (ev_id e) top)
      = (Ok (if decide (shown_event hash_map last e = true)
            then e :: filter (fun e => shown_event hash_map last e = true) es
            else filter (fun e => shown_event hash_map last e = true) es, top0) : res event_error _)
    /\ (top0 = 0 \/ last < top0)
    /\ (forall e0, e0 ∈ e :: es -> shown_event hash_map last e0 = true -> ev_id e0 <= top0)
    /\ (top0 <> 0 -> exists e0, e0 ∈ e :: es /\ ev_id e0 = top0)).
  { intros Hs Hlt. exists (Z.max (ev_id e) top). rewrite decide_True by done. split_and!; [done|right; lia| |].
    - intros e0 [->|Hin]%elem_of_cons ?; [lia|]. specialize (Hm e0 Hin ltac:(assumption)). lia.
    - intros _. destruct (Z.max_spec (ev_id e) top) as [[? ->]|[? ->]]; [|exists e; set_solver].
      destruct Hx as (e0 & ? & ?); [lia|]. exists e0. set_solver. }
  assert (Es : shown_event hash_map last e = negb (Z.land (ev_hash e) hash_map =? 0) && (last <? ev_id e)
    && match ev_type e with
       | Add => bool_decide (ev_brother e = None)
       | Delete => match ev_brother e with Some b => b <=? last | None => false end
       | Change => true
       end) by done.
  rewrite Es in Hskip at 1. rewrite Es in Hshow at 1. clear Es.
  destruct (negb (Z.land (ev_hash e) hash_map =? 0)) eqn:Eh; [|by apply Hskip].
  destruct (Z.ltb_spec last (ev_id e)) as [Hlt|]; [|by apply Hskip]. cbn [andb] in *. unfold check_overlap.
  destruct (ev_type e) eqn:Et; cbn [mbind res_bind].
  - destruct (decide (ev_brother e = None)) as [E|E].
    + rewrite (bool_decide_eq_false_2 (ev_brother e <> None)) by tauto. apply Hshow; [by apply bool_decide_eq_true|done].
    + rewrite (bool_decide_eq_true_2 (ev_brother e <> None)) by done. apply Hskip. by apply bool_decide_eq_false.
  - destruct (ev_brother e) as [b|] eqn:Eb; [|by destruct (He Et)]. cbn [mbind res_bind].
    destruct (Z.leb_spec b last); cbn [negb]; [by apply Hshow|by apply Hskip].
  - by apply Hshow.
Qed.

(** ** The invariant of an execution *)

Section invariant.
Variables (hash_of : nat -> Z) (app_of : nat -> string) (hash_map : Z).
Abbreviation live_add e := (ev_type e = Add /\ ev_brother e = None).

(** The events and the objects that exist. *)
Record log_ok (live : gset nat) (top : Z) (es : list event) : Prop := {
  lo_top : 0 <= top;
  lo_ordered : ordered es;
  lo_ids : forall e, e ∈ es -> 0 < ev_id e <= top;
  lo_hash : forall e, e ∈ es -> ev_hash e = hash_of (ev_obj e) /\ ev_hash e <> 0;
  lo_delete : forall d, d ∈ es -> ev_type d = Delete -> exists a, a ∈ es /\ ev_type a = Add
    /\ ev_obj a = ev_obj d /\ ev_brother d = Some (ev_id a) /\ ev_id a < ev_id d;
  lo_add : forall a b, a ∈ es -> ev_type a = Add -> ev_brother a = Some b -> exists d, d ∈ es
    /\ ev_type d = Delete /\ ev_obj d = ev_obj a /\ ev_id d = b /\ ev_brother d = Some (ev_id a) /\ ev_id a < b;
  lo_live : forall a, a ∈ es -> live_add a -> ev_obj a ∈ live
    /\ forall e, e ∈ es -> ev_obj e = ev_obj a -> ev_type e <> Change -> ev_id e <= ev_id a;
  lo_here : forall o, o ∈ live -> hash_of o <> 0 -> exists a, a ∈ es /\ live_add a /\ ev_obj a = o;
}.

(** The client knows the objects added up to its last id and not deleted
    since, and possibly some whose deletion it has yet to see. *)
Record client_ok (es : list event) (last : Z) (objs : gset nat) : Prop := {
  co_known : forall a, a ∈ es -> live_add a -> ev_id a <= last -> wanted hash_of hash_map (ev_obj a) -> ev_obj a ∈ objs;
  co_added : forall o, o ∈ objs -> wanted hash_of hash_map o /\ exists a, a ∈ es /\ ev_type a = Add /\ ev_obj a = o
    /\ ev_id a <= last /\ (ev_brother a = None \/ exists b, ev_brother a = Some b /\ last < b);
}.

Lemma log_ok_paired live top es : log_ok live top es -> Forall paired es.
Proof. intros H. apply Forall_forall. intros e He Ht. destruct (lo_delete _ _ _ H e He Ht) as (a & _ & _ & _ & -> & _). done. Qed.

(** A new Add or Change event. *)
Lemma log_ok_report live top es now ty o :
  log_ok live top es -> ty <> Delete -> hash_of o <> 0 -> (ty = Add -> o ∉ live) ->
  log_ok (match ty with Add => {[ o ]} ∪ live | _ => live end) (top + 1)
         (es ++ [Ev (top + 1) now ty o (hash_of o) (app_of o) None]).
Proof.
  intros H Ht Hh Ho. pose proof (lo_top _ _ _ H) as H0. set (new := Ev (top + 1) now ty o (hash_of o) (app_of o) None).
  assert (Htop : forall e, e ∈ es -> ev_id e < top + 1) by (intros e He; apply (lo_ids _ _ _ H) in He; lia).
  assert (Hnew : forall e, e ∈ es ++ [new] -> e ∈ es \/ e = new).
  { intros e [He|He]%elem_of_app; [by left|right]. by apply list_elem_of_singleton in He. }
  assert (Hold : forall e, e ∈ es -> e ∈ es ++ [new]) by (intros e He; apply elem_of_app; by left).
  assert (Hother : forall a, a ∈ es -> live_add a -> ev_obj a = o -> ty <> Add).
  { intros a Ha Hla <- ->. destruct (lo_live _ _ _ H a Ha Hla) as [Hin _]. by apply Ho. }
  split; [lia| | | | | | |].
  - apply ordered_snoc. split; [apply H|]. apply Forall_forall. intros e He. by apply Htop.
  - intros e [He%(lo_ids _ _ _ H)| ->]%Hnew; [lia|cbn; lia].
  - intros e [He| ->]%Hnew; [by apply H|done].
  - intros d [Hd| ->]%Hnew Ed; [|by destruct Ht]. destruct (lo_delete _ _ _ H d Hd Ed) as (a & ? & ?). exists a. auto.
  - intros a b [Ha| ->]%Hnew Ea Eb; [|done].
    destruct (lo_add _ _ _ H a b Ha Ea Eb) as (d & ? & ?). exists d. auto.
  - intros a [Ha| ->]%Hnew Hla.
    + destruct (lo_live _ _ _ H a Ha Hla) as [Hin Hm]. split; [destruct ty; set_solver|].
      intros e [He| ->]%Hnew Eo Etc; [auto|]. exfalso. apply (Hother a Ha Hla); [done|]. by destruct ty.
    + destruct Hla as [Et _]. cbn in Et. subst ty. split; [set_solver|].
      intros e [He| ->]%Hnew _ _; [apply Htop in He; cbn; lia|lia].
  - intros o' Ho' Hh'. destruct (decide (ty = Add /\ o' = o)) as [[-> ->]|Hne].
    + exists new. split_and!; [apply elem_of_app; right; by apply list_elem_of_singleton|done..].
    + destruct (lo_here _ _ _ H o') as (a & ? & ?); [destruct ty; set_solver|done|]. exists a. auto.
Qed.

(** The Delete event of an object and the mark on its Add event. *)
Definition deleted (top now : Z) (o : nat) (a : event) (es : list event) : list event :=
  map (fun e => if ev_id e =? ev_id a then set_ev_brother (top + 1) e else e) es
  ++ [Ev (top + 1) now Delete o (hash_of o) (app_of o) (Some (ev_id a))].

Lemma live_brother live top es o a :
  log_ok live top es -> a ∈ es -> live_add a -> ev_obj a = o -> find_brother o es = Some a.
Proof.
  intros H Ha Hla Ho. unfold find_brother.
  pose proof (find_newest (fun e => bool_decide (ev_obj e = o) && bool_decide (ev_type e = Add)) es (lo_ordered _ _ _ H)) as Hn.
  destruct (find _ (rev es)) as [x|].
  - destruct Hn as (Hx & Hp & Hm). apply andb_true_iff in Hp as [Ex%bool_decide_eq_true Etx%bool_decide_eq_true].
    f_equal. apply (ordered_unique es); [apply H|done|done|].
    destruct (lo_live _ _ _ H a Ha Hla) as [_ Hmax]. specialize (Hmax x Hx ltac:(congruence) ltac:(congruence)).
    specialize (Hm a Ha). rewrite Ho, (proj1 Hla), !bool_decide_eq_true_2 in Hm by done. specialize (Hm eq_refl). lia.
  - exfalso. specialize (Hn a Ha). rewrite Ho, (proj1 Hla), !bool_decide_eq_true_2 in Hn by done. done.
Qed.

Lemma deleted_elem top now o a es e :
  e ∈ deleted top now o a es <->
  (exists x, x ∈ es /\ e = if ev_id x =? ev_id a then set_ev_brother (top + 1) x else x)
  \/ e = Ev (top + 1) now Delete o (hash_of o) (app_of o) (Some (ev_id a)).
Proof.
  unfold deleted. rewrite elem_of_app, list_elem_of_singleton. apply or_iff_compat_r.
  rewrite list_elem_of_fmap. split; intros (x & ? & ?); exists x; auto.
Qed.

Lemma log_ok_delete live top es now o a :
  log_ok live top es -> a ∈ es -> live_add a -> ev_obj a = o ->
  log_ok (live ∖ {[ o ]}) (top + 1) (deleted top now o a es).
Proof.
  intros H Ha Hla Ho. pose proof (lo_top _ _ _ H) as H0.
  set (new := Ev (top + 1) now Delete o (hash_of o) (app_of o) (Some (ev_id a))).
  set (f := fun x => if ev_id x =? ev_id a then set_ev_brother (top + 1) x else x).
  assert (Hfid : forall x, ev_id (f x) = ev_id x) by (intros x; unfold f; by destruct (ev_id x =? ev_id a)).
  assert (Hfty : forall x, ev_type (f x) = ev_type x) by (intros x; unfold f; by destruct (ev_id x =? ev_id a)).
  assert (Hfob : forall x, ev_obj (f x) = ev_obj x) by (intros x; unfold f; by destruct (ev_id x =? ev_id a)).
  assert (Hfha : forall x, ev_hash (f x) = ev_hash x) by (intros x; unfold f; by destruct (ev_id x =? ev_id a)).
  assert (Hne : forall x, x ∈ es -> x <> a -> f x = x).
  { intros x Hx Hn. unfold f. destruct (Z.eqb_spec (ev_id x) (ev_id a)) as [E|]; [|done].
    by destruct Hn, (ordered_unique es x a (lo_ordered _ _ _ H) Hx Ha E). }
  assert (Hfa : f a = set_ev_brother (top + 1) a) by (unfold f; by rewrite Z.eqb_refl).
  assert (Hin : forall x, x ∈ es -> f x ∈ deleted top now o a es) by (intros x Hx; apply deleted_elem; left; by exists x).
  assert (Hnin : new ∈ deleted top now o a es) by (apply deleted_elem; by right).
  assert (Hall : forall e, e ∈ deleted top now o a es -> (exists x, x ∈ es /\ e = f x) \/ e = new)
    by (intros e He; by apply deleted_elem in He).
  split; [lia| | | | | | |].
  - apply ordered_snoc. split; [apply ordered_map; [exact Hfid|apply H]|]. apply Forall_forall. intros e.
    intros (x & -> & Hx)%list_elem_of_fmap. unfold before. change (ev_id (f x) < top + 1). rewrite Hfid.
    apply (lo_ids _ _ _ H) in Hx. lia.
  - intros e [(x & Hx & ->)| ->]%Hall; [|cbn; lia]. rewrite Hfid. apply (lo_ids _ _ _ H) in Hx. lia.
  - intros e [(x & Hx & ->)| ->]%Hall; [rewrite Hfha, Hfob; by apply H|]. cbn. split; [done|]. rewrite <- Ho.
    destruct (lo_hash _ _ _ H a Ha) as [<- ?]. done.
  - intros e [(x & Hx & ->)| ->]%Hall.
    + rewrite Hfty. intros Et. assert (x <> a) by (intros ->; destruct Hla; congruence).
      rewrite Hne by done. destruct (lo_delete _ _ _ H x Hx Et) as (b & Hb & E1 & E2 & E3 & E4).
      exists (f b). rewrite Hfty, Hfob, Hfid. auto 6.
    + intros _. exists (f a). rewrite Hfty, Hfob, Hfid. split_and!; [auto|apply Hla|done|done|].
      apply (lo_ids _ _ _ H) in Ha. cbn. lia.
  - intros e b [(x & Hx & ->)| ->]%Hall; [|done]. rewrite Hfty, Hfob, Hfid. intros Et Eb.
    destruct (decide (x = a)) as [->|Hn].
    + rewrite Hfa in Eb. injection Eb as <-. exists new. apply (lo_ids _ _ _ H) in Hx. split_and!; try done. lia.
    + rewrite Hne in Eb by done. destruct (lo_add _ _ _ H x b Hx Et Eb) as (d & Hd & E1 & E2 & E3 & E4 & E5).
      assert (d <> a) by (intros ->; destruct Hla; congruence).
      exists d. rewrite <- (Hne d) at 1 by done. auto 6.
  - intros e [(x & Hx & ->)| ->]%Hall; [|by intros [? _]]. rewrite Hfty, Hfob, Hfid. intros [Et Eb].
    assert (x <> a) as Hn by (intros ->; rewrite Hfa in Eb; done). rewrite Hne in Eb by done.
    destruct (lo_live _ _ _ H x Hx (conj Et Eb)) as [Hl Hm].
    assert (ev_obj x <> o) as Hno.
    { intros E. apply Hn, (ordered_unique es); [apply H|done|done|]. destruct (lo_live _ _ _ H a Ha Hla) as [_ Hma].
      specialize (Hm a Ha ltac:(congruence) ltac:(destruct Hla; congruence)).
      specialize (Hma x Hx ltac:(congruence) ltac:(congruence)). lia. }
    split; [set_solver|]. intros y [(y' & Hy & ->)| ->]%Hall; [rewrite Hfid, Hfob, Hfty; by apply Hm|]. cbn. congruence.
  - intros o' [Ho' Hne']%elem_of_difference Hh'. destruct (lo_here _ _ _ H o' Ho' Hh') as (b & Hb & [Hb1 Hb2] & Hbo).
    assert (b <> a) by (intros ->; set_solver). exists b. rewrite <- (Hne b) at 1 by done. auto.
Qed.

(** An object of an application that has no number is not logged. *)
Lemma log_ok_unlogged live live' top es :
  log_ok live top es -> (forall o, hash_of o <> 0 -> o ∈ live <-> o ∈ live') -> log_ok live' top es.
Proof.
  intros [] Hl. split; try done.
  - intros a Ha Hla. destruct (lo_live0 a Ha Hla) as [H1 H2]. split; [|done]. apply Hl; [|done].
    destruct (lo_hash0 a Ha) as [<- ?]. done.
  - intros o Ho Hh. apply lo_here0; [by apply Hl|done].
Qed.

Lemma client_ok_report es last objs e :
  client_ok es last objs -> last < ev_id e -> client_ok (es ++ [e]) last objs.
Proof.
  intros [H1 H2] Hlt. split.
  - intros a [Ha| ->%list_elem_of_singleton]%elem_of_app; [by apply H1|]. lia.
  - intros o (Hw & a & Ha & ?)%H2. split; [done|]. exists a. rewrite elem_of_app. auto.
Qed.

Lemma client_ok_delete live top es last objs now o a :
  log_ok live top es -> last <= top -> a ∈ es -> live_add a ->
  client_ok es last objs -> client_ok (deleted top now o a es) last objs.
Proof.
  intros H Hlast Ha Hla [H1 H2]. split.
  - intros e [(x & Hx & ->)| ->]%deleted_elem; [|by intros [? _]].
    destruct (Z.eqb_spec (ev_id x) (ev_id a)); [by intros [_ ?]|]. by apply H1.
  - intros o' (Hw & x & Hx & Et & Eo & Hle & Hb)%H2. split; [done|].
    exists (if ev_id x =? ev_id a then set_ev_brother (top + 1) x else x). split_and!.
    + apply deleted_elem. left. by exists x.
    + by destruct (ev_id x =? ev_id a).
    + by destruct (ev_id x =? ev_id a).
    + by destruct (ev_id x =? ev_id a).
    + destruct (ev_id x =? ev_id a); [right; exists (top + 1); split; [done|lia]|done].
Qed.

(** ** A poll *)

Lemma shown_wanted live top es last e :
  log_ok live top es -> e ∈ es -> shown_event hash_map last e = true -> wanted hash_of hash_map (ev_obj e) /\ last < ev_id e.
Proof.
  intros H He [[Hh%negb_true_iff%Z.eqb_neq Hl%Z.ltb_lt]%andb_true_iff _]%andb_true_iff. split; [|done].
  unfold wanted. by destruct (lo_hash _ _ _ H e He) as [<- _].
Qed.

Lemma add_shown live top es last a :
  log_ok live top es -> a ∈ es -> live_add a -> wanted hash_of hash_map (ev_obj a) -> last < ev_id a ->
  shown_event hash_map last a = true.
Proof.
  intros H Ha [Et Eb] Hw Hl. unfold shown_event. rewrite Et, Eb. destruct (lo_hash _ _ _ H a Ha) as [-> _].
  by rewrite (proj2 (Z.eqb_neq _ _) Hw), (proj2 (Z.ltb_lt _ _) Hl).
Qed.

Lemma delete_shown live top es last d b :
  log_ok live top es -> d ∈ es -> ev_type d = Delete -> wanted hash_of hash_map (ev_obj d) -> last < ev_id d ->
  ev_brother d = Some b -> b <= last -> shown_event hash_map last d = true.
Proof.
  intros H Hd Et Hw Hl Eb Hb. unfold shown_event. rewrite Et, Eb. destruct (lo_hash _ _ _ H d Hd) as [-> _].
  by rewrite (proj2 (Z.eqb_neq _ _) Hw), (proj2 (Z.ltb_lt _ _) Hl), (proj2 (Z.leb_le _ _) Hb).
Qed.

Lemma poll_objects live top es last objs o :
  log_ok live top es -> client_ok es last objs ->
  o ∈ client_apply_all objs (filter (fun e => shown_event hash_map last e = true) es) <->
  o ∈ live /\ wanted hash_of hash_map o.
Proof.
  intros H [H1 H2]. rewrite client_apply_all_elem.
  set (shown := filter (fun e => shown_event hash_map last e = true) es).
  assert (Hs : forall e, e ∈ shown <-> shown_event hash_map last e = true /\ e ∈ es) by (intros; unfold shown; by rewrite list_elem_of_filter).
  assert (Hc : forall e, concerns o e = true <-> ev_obj e = o /\ ev_type e <> Change).
  { intros e. unfold concerns. by rewrite andb_true_iff, negb_true_iff, bool_decide_eq_true, bool_decide_eq_false. }
  pose proof (find_newest (concerns o) shown (ordered_filter _ _ (lo_ordered _ _ _ H))) as Hn.
  split.
  - destruct (find (concerns o) (rev shown)) as [e|].
    + destruct Hn as ([Hse He]%Hs & [<- _]%Hc & _). intros Et. destruct (shown_wanted _ _ _ _ _ H He Hse) as [Hw _].
      split; [|done]. apply (lo_live _ _ _ H e He). split; [done|].
      unfold shown_event in Hse. rewrite Et in Hse. by apply andb_true_iff in Hse as [_ ?%bool_decide_eq_true].
    + intros (Hw & a & Ha & Et & <- & Hle & [Eb|(b & Eb & Hlt)])%H2; (split; [|done]).
      * by apply (lo_live _ _ _ H a Ha).
      * exfalso. destruct (lo_add _ _ _ H a b Ha Et Eb) as (d & Hd & Etd & Eo & <- & Ebd & _).
        assert (concerns (ev_obj a) d = false) as Hf.
        { apply Hn, Hs. split; [|done]. eapply delete_shown; try done. by rewrite Eo. }
        rewrite (proj2 (Hc d)) in Hf; [done|]. split; [done|congruence].
  - intros [Ho Hw]. assert (hash_of o <> 0) as Hh by (intros E; apply Hw; by rewrite E).
    destruct (lo_here _ _ _ H o Ho Hh) as (a & Ha & Hla & <-). destruct (lo_live _ _ _ H a Ha Hla) as [_ Hm].
    assert (Hca : concerns (ev_obj a) a = true) by (apply Hc; split; [done|destruct Hla; congruence]).
    destruct (Z.le_gt_cases (ev_id a) last) as [Hle|Hgt].
    + destruct (find _ (rev shown)) as [e|]; [|by apply H1]. destruct Hn as ([Hse He]%Hs & [Eo Et]%Hc & _).
      apply (Hm e He Eo) in Et. destruct (shown_wanted _ _ _ _ _ H He Hse) as [_ ?]. lia.
    + assert (a ∈ shown) as Has by (apply Hs; split; [by eapply add_shown|done]).
      destruct (find _ (rev shown)) as [e|]; [|by rewrite Hn in Hca].
      destruct Hn as ([_ He]%Hs & [Eo Et]%Hc & Hmax). apply (Hm e He Eo) in Et. specialize (Hmax a Has Hca).
      rewrite (ordered_unique es e a (lo_ordered _ _ _ H) He Ha) by lia. apply Hla.
Qed.

Lemma poll_client_ok live top es last last' objs :
  log_ok live top es -> last <= last' ->
  (forall e, e ∈ es -> shown_event hash_map last e = true -> ev_id e <= last') ->
  (forall o, o ∈ objs <-> o ∈ live /\ wanted hash_of hash_map o) -> client_ok es last' objs.
Proof.
  intros H Hl Hm Ho. split.
  - intros a Ha Hla _ Hw. apply Ho. split; [|done]. by apply (lo_live _ _ _ H a Ha).
  - intros o [Hli Hw]%Ho. split; [done|]. assert (hash_of o <> 0) as Hh by (intros E; apply Hw; by rewrite E).
    destruct (lo_here _ _ _ H o Hli Hh) as (a & Ha & Hla & <-). exists a. split_and!; [done|apply Hla|done| |left; apply Hla].
    destruct (Z.le_gt_cases (ev_id a) last) as [|Hgt]; [lia|]. apply Hm; [done|]. by eapply add_shown.
Qed.

(** ** Executions *)

Record world_ok (w : world) : Prop := {
  wo_log : log_ok (w_live w) (last_event (w_manager w)) (events (w_manager w));
  wo_client : client_ok (events (w_manager w)) (w_last w) (w_client w);
  wo_last : 0 <= w_last w <= last_event (w_manager w);
}.

Lemma world_ok_init : world_ok world_init.
Proof. split; [split|split|]; cbn; try set_solver; try lia. constructor. Qed.

Lemma report_ok now ty o w :
  world_ok w -> act_ok (act_report now ty o) w = true -> last_event (w_manager w) < 2 ^ 32 - 1 ->
  exists w', act hash_of app_of hash_map (act_report now ty o) w = Ok w' /\ world_ok w'
    /\ last_event (w_manager w') <= last_event (w_manager w) + 1.
Proof.
  intros [Hl Hc Hlast] Ha Hn. unfold act, add_to_event_list. destruct w as [live [top es] last objs]. cbn in *.
  destruct (Z.eqb_spec (hash_of o) 0) as [E|E].
  { eexists. split; [done|]. split; [|cbn; lia]. split; [|done..]. cbn.
    apply (log_ok_unlogged live); [done|]. intros o' Ho'. destruct ty; set_solver. }
  assert (u32 (top + 1) = top + 1) as -> by (apply wrap_small; unfold in_width; lia).
  destruct (decide (ty = Delete)) as [->|Ht].
  - apply bool_decide_eq_true in Ha. destruct (lo_here _ _ _ Hl o Ha E) as (a & Hain & Hla & Ho).
    unfold set_brother. cbn [ev_obj]. rewrite (live_brother _ _ _ _ _ Hl Hain Hla Ho). cbn.
    eexists. split; [done|]. split; [|cbn; lia]. split; cbn; [by apply log_ok_delete| |lia].
    eapply client_ok_delete; try done. lia.
  - cbn. eexists. split; [done|]. split; [|cbn; lia]. split; cbn; [|apply client_ok_report; [done|cbn; lia]|lia].
    pose proof (log_ok_report _ _ _ now ty o Hl Ht E) as H. destruct ty; try done; apply H; try done.
    intros _. by apply bool_decide_eq_true in Ha.
Qed.

Lemma read_last_ok n : 0 <= n < 2 ^ 31 -> read_last n = Ok n.
Proof. intros Hn. unfold read_last. destruct (Z.ltb_spec n 0); [lia|]. destruct (Z.ltb_spec n (2 ^ 31)); [done|lia]. Qed.

Lemma to_int32_ok n : n < 2 ^ 31 -> to_int32 n = n.
Proof. intros Hn. unfold to_int32. destruct (Z.ltb_spec n (2 ^ 31)); [done|lia]. Qed.

(** The last id of a poll is one of the events'. *)
Lemma poll_last w top' : world_ok w -> (top' <> 0 -> exists e, e ∈ events (w_manager w) /\ ev_id e = top') ->
  0 <= (if top' =? 0 then w_last w else top') <= last_event (w_manager w).
Proof.
  intros [Hl Hc Hlast] Hx. destruct (Z.eqb_spec top' 0) as [|E]; [done|].
  destruct (Hx E) as (e & He & <-). apply (lo_ids _ _ _ Hl) in He. lia.
Qed.

Lemma poll_ok w :
  world_ok w -> last_event (w_manager w) < 2 ^ 31 ->
  exists w', act hash_of app_of hash_map act_poll w = Ok w' /\ world_ok w' /\ w_manager w' = w_manager w
    /\ w_live w' = w_live w /\ (forall o, o ∈ w_client w' <-> o ∈ w_live w /\ wanted hash_of hash_map o).
Proof.
  intros Hw Hi. pose proof (poll_last w) as Hlast'. destruct (Hw) as [Hl Hc Hlast]. destruct w as [live [top es] last objs]. unfold act, timeout. cbn in *.
  rewrite read_last_ok by lia. cbn [mbind res_bind].
  destruct (timeout_loop_ok hash_map last es) as (top' & -> & Ht & Hm & Hx); [by eapply log_ok_paired|lia|]. cbn.
  specialize (Hlast' top' Hw Hx). rewrite to_int32_ok by lia.
  assert (Hp := poll_objects live top es last objs). eexists. split; [done|]. split_and!; [|done|done|cbn; by eauto].
  split; cbn; [done| |done]. apply (poll_client_ok live top es last); [done| | |by eauto].
  - destruct (Z.eqb_spec top' 0); lia.
  - intros e He Hs. destruct (Z.eqb_spec top' 0) as [E|]; [|by apply Hm].
    destruct (shown_wanted _ _ _ _ _ Hl He Hs) as [_ ?]. specialize (Hm e He Hs). lia.
Qed.

Lemma reaches_ok n w :
  reaches hash_of app_of hash_map n w -> Z.of_nat n < 2 ^ 31 -> world_ok w /\ last_event (w_manager w) <= Z.of_nat n.
Proof.
  induction 1 as [|n w a w' Hr IH Ha Hw]; intros Hn; [split; [exact world_ok_init|done]|].
  destruct IH as [IH Hle]; [lia|]. destruct a as [now ty o|].
  - destruct (report_ok now ty o w) as (w1 & E & ? & ?); [done|done|lia|].
    rewrite E in Hw. injection Hw as <-. split; [done|lia].
  - destruct (poll_ok w IH ltac:(lia)) as (w1 & E & ? & Em & _). rewrite E in Hw. injection Hw as <-. split; [done|]. rewrite Em. lia.
Qed.

(** Up to 2^31 - 1 reports and polls, in any order, no report or poll
    dereferences null, and after every poll the client has exactly the objects
    that exist and belong to the applications it asks for: it has missed no
    object and keeps none that is gone, although the manager withholds the
    events of objects that were added and deleted between two polls. *)
Theorem poll_synchronises n w a :
  reaches hash_of app_of hash_map n w -> Z.of_nat n < 2 ^ 31 - 1 -> act_ok a w = true ->
  exists w', act hash_of app_of hash_map a w = Ok w'
    /\ (a = act_poll -> forall o, o ∈ w_client w' <-> o ∈ w_live w' /\ wanted hash_of hash_map o).
Proof.
  intros Hr Hn Ha. destruct (reaches_ok n w Hr) as [Hw Hle]; [lia|]. destruct a as [now ty o|].
  - destruct (report_ok now ty o w) as (w' & ? & _); [done|done|lia|]. by exists w'.
  - destruct (poll_ok w Hw ltac:(lia)) as (w' & ? & _ & _ & <- & ?). by exists w'.
Qed.
End invariant.


(** The run of a list of actions, if each may happen. *)
Section run.
Variables (hash_of : nat -> Z) (app_of : nat -> string) (hash_map : Z).

Fixpoint run (acts : list action) (w : world) : option world :=
  match acts with
  | [] => Some w
  | a :: acts => if act_ok a w then match act hash_of app_of hash_map a w with Ok w' => run acts w' | Throw _ => None end else None
  end.

Lemma run_reaches acts n w w' :
  reaches hash_of app_of hash_map n w -> run acts w = Some w' -> reaches hash_of app_of hash_map (length acts + n) w'.
Proof.
  revert n w. induction acts as [|a acts IH]; intros n w Hr; [by intros [= <-]|]. cbn.
  destruct (act_ok a w) eqn:Ea; [|done]. destruct (act _ _ _ a w) as [w1|] eqn:Ew; [|done]. intros H.
  rewrite <- Nat.add_succ_r. eapply IH; [|done]. by eapply reaches_step.
Qed.
End run.

(** Two objects of application 1 and one of application 2; the client asks for
    application 1. *)
Definition sample_hash (o : nat) : Z := if bool_decide (o = 7%nat) then 2 else 1.
Definition sample_app (o : nat) : string := if bool_decide (o = 7%nat) then "b" else "a".
Definition sample_actions : list action :=
  [act_report 0 Add 5; act_report 0 Add 7; act_poll; act_report 1 Add 6; act_report 1 Delete 6; act_report 2 Delete 5;
   act_report 2 Add 6].

Definition sample_world : world := default world_init (run sample_hash sample_app 1 sample_actions world_init).

Lemma poll_synchronises_witness :
  reaches sample_hash sample_app 1 7 sample_world
  /\ exists w', act sample_hash sample_app 1 act_poll sample_world = Ok w'
    /\ elements (w_client sample_world) = [5%nat] /\ elements (w_client w') = [6%nat]
    /\ forall o, o ∈ w_client w' <-> o ∈ w_live w' /\ wanted sample_hash 1 o.
Proof.
  assert (Hr : reaches sample_hash sample_app 1 7 sample_world).
  { apply (run_reaches sample_hash sample_app 1 sample_actions 0 world_init); [constructor|]. vm_compute. reflexivity. }
  split; [exact Hr|].
  destruct (poll_synchronises sample_hash sample_app 1 7 sample_world act_poll) as (w' & Hw & Hp);
    [exact Hr|lia|reflexivity|].
  exists w'. split; [exact Hw|]. split; [vm_compute; reflexivity|]. split; [|by apply Hp].
  assert (E : act sample_hash sample_app 1 act_poll sample_world = Ok (World (w_live sample_world) (w_manager sample_world) 6
     (client_apply_all (w_client sample_world) (filter (fun e => shown_event 1 2 e = true) (events (w_manager sample_world)))))).
  { vm_compute. reflexivity. }
  rewrite E in Hw. injection Hw as <-. vm_compute. reflexivity.
Defined.

(** ** Objects

    What a listener to the events knows: it is stuck when an object it knows is
    reported as new, or one it does not know as gone. *)
Definition hear_object (e : EventType * nat) (k : gset nat) : option (gset nat) :=
  match e.1 with
  | Add => guard (e.2 ∉ k) ;; Some ({[e.2]} ∪ k)
  | Delete => guard (e.2 ∈ k) ;; Some (k ∖ {[e.2]})
  | Change => Some k
  end.
Fixpoint hear_objects (es : list (EventType * nat)) (k : gset nat) : option (gset nat) :=
  match es with [] => Some k | e :: es => hear_object e k ≫= hear_objects es end.

Lemma hear_objects_snoc es e k : hear_objects (es ++ [e]) k = hear_objects es k ≫= hear_object e.
Proof.
  revert k. induction es as [|e' es IH]; intros k; cbn.
  - by destruct (hear_object e k).
  - destruct (hear_object e' k) as [k'|]; cbn; [apply IH|done].
Qed.
