(* ===== verification/Handlers.v ===== *)
(** * What packet handlers read (src/api/Packet.hh, src/api/TraceablePacket.hh)

    The applications get a packet and the decision so far, load or test whole
    fields of fixed types, and use their values as numbers.  [watch] is a load
    that the trace does not see; on the packet it is the same load.  The fields
    exist as in [PacketLaws], and here are the values the handlers see. *)

From S2P Require Import Prelude Bits OxmField Packet TraceTree.
Local Open Scope Z_scope.

Section handlers.
Context {P : Type} `{Packet P}.

(** [pkt.load(type)], as a number. *)
Definition load_num (p : P) (t : type) : res error Z := load_type p t ≫= fun v => Ok (to_ullong (v_bits v)).

(** [tpkt.watch(type)] *)
Definition watch_num (p : P) (t : type) : res error Z := load_num p t.

(** [pkt.test(type == n)] *)
Definition test_num (p : P) (t : type) (n : Z) : res error bool :=
  lift (type_is t (bits_of_ull (t_nbits t) n)) ≫= fun v =>
  lift (field_of_value v) ≫= fun need => test p need.
End handlers.

Section laws.
Context {P : Type} `{PacketLaws P}.

Lemma exact_mask_wf t : known t -> mask_wf (Mask t (bits_set (bits_zero (t_nbits t)))).
Proof. intros Ht. pose proof (known_nbits t Ht). split; [done|]. apply (mask_ok_set t). lia. Qed.

Lemma load_num_present p t v :
  pkt_wf p -> known t -> pval p t = Some v -> load_num p t = Ok (wrap (t_nbits t) v).
Proof.
  intros Hp Ht Hv. pose proof (exact_mask_wf t Ht) as Hm. pose proof (known_nbits t Ht) as Hnb.
  unfold load_num, load_type, mask_exact. rewrite make_mask_ok, lift_Ok, res_bind_Ok by apply Hm.
  destruct (load_present p _ v Hp Hm Hv) as (f & -> & Wf & Tf & Bf). rewrite res_bind_Ok. cbn [m_type] in Tf.
  pose proof Wf as (_ & [Wv Sv] & [[Wm Sm] _] & _). rewrite Tf in Sv, Sm.
  assert (Em : f_mask f = bits_set (bits_zero (t_nbits t))).
  { destruct f as [ft fv [n m]]; cbn in *. subst n. unfold bits_set, bits_zero. cbn [bsize]. f_equal. apply Z.bits_inj'. intros i Hi.
    rewrite testbit_ones by lia. destruct (Z.ltb_spec i (t_nbits t)) as [Hlt|Hge].
    - specialize (Bf i Hi). unfold fbit, mbit in Bf. cbn in Bf. rewrite testbit_ones in Bf by lia.
      destruct (Z.ltb_spec i (t_nbits t)); [|lia]. by destruct (Z.testbit m i).
    - apply (Z_testbit_high (t_nbits t)); [apply Wm|done]. }
  assert (Ec : field_cast t f = Ok f).
  { unfold field_cast. rewrite <- Tf, type_eqb_refl. pose proof Wf as (_ & ? & ? & E). rewrite make_field_ok by done. rewrite E. by destruct f. }
  assert (Hex : exact (f_mask f) = true) by (rewrite Em; unfold exact, bits_all; cbn; apply Z.eqb_refl).
  destruct (value_of_field_ok f Wf) as [Ev _]. rewrite Ec, lift_Ok, res_bind_Ok, Hex, Ev. cbn [guard_or]. cbn.
  f_equal. unfold to_ullong. apply Z.bits_inj'. intros i Hi. unfold wrap.
  destruct (Z.lt_ge_cases i (t_nbits t)) as [Hlt|Hge].
  - rewrite Z.mod_pow2_bits_low by done. specialize (Bf i Hi). unfold fbit, mbit in Bf. rewrite Em in Bf. cbn in Bf.
    rewrite testbit_ones in Bf by lia. destruct (Z.ltb_spec i (t_nbits t)); [congruence|lia].
  - rewrite Z.mod_pow2_bits_high by lia. apply (Z_testbit_high (t_nbits t)); [|done]. rewrite <- Sv. apply Wv.
Qed.

Lemma load_num_absent p t : pkt_wf p -> known t -> pval p t = None -> load_num p t = Throw E_out_of_range.
Proof.
  intros Hp Ht Hv. pose proof (exact_mask_wf t Ht) as Hm. unfold load_num, load_type, mask_exact.
  rewrite make_mask_ok, lift_Ok, res_bind_Ok by apply Hm. by rewrite (load_absent p _ Hp Hm Hv).
Qed.

Lemma test_num_present p t v n :
  pkt_wf p -> known t -> pval p t = Some v ->
  test_num p t n = Ok (wrap (t_nbits t) v =? wrap (t_nbits t) n).
Proof.
  intros Hp Ht Hv. pose proof (exact_mask_wf t Ht) as [_ Hm]. pose proof (known_nbits t Ht) as Hnb.
  set (b := bits_of_ull (t_nbits t) n). assert (Hb : bits_at t b) by (split; [apply bits_of_ull_wf; lia|done]).
  unfold test_num, type_is. fold b. rewrite make_value_ok, lift_Ok, res_bind_Ok by done.
  unfold field_of_value, field_exact. cbn [v_type v_bits]. rewrite make_field_ok by done. rewrite lift_Ok, res_bind_Ok.
  set (need := Field _ _ _). assert (Hw : field_wf need) by by apply make_field_wf.
  destruct (test_present p need v Hp Hw Hv) as (r & -> & Hr). f_equal.
  apply eq_true_iff_eq. rewrite Hr, Z.eqb_eq. split.
  - intros (v' & Hv' & Hs). assert (v' = v) as -> by (cbn in Hv'; congruence). apply Z.bits_inj'. intros i Hi. unfold wrap.
    destruct (Z.lt_ge_cases i (t_nbits t)); [|by rewrite !Z.mod_pow2_bits_high by lia].
    specialize (Hs i (Z.testbit (bval b) i) Hi). unfold need in Hs. rewrite fbit_make in Hs. cbn in Hs.
    rewrite testbit_ones in Hs by lia. destruct (Z.ltb_spec i (t_nbits t)); [|lia]. specialize (Hs eq_refl).
    unfold wrap in Hs. rewrite Z.mod_pow2_bits_low in Hs by done. by rewrite !Z.mod_pow2_bits_low by done.
  - intros E. exists v. split; [done|]. intros i x Hi Hx. unfold need in Hx. rewrite fbit_make in Hx. cbn in Hx.
    rewrite testbit_ones in Hx by lia. destruct (Z.ltb_spec i (t_nbits t)) as [Hlt|]; [|done]. injection Hx as <-.
    rewrite <- E. unfold wrap. by rewrite Z.mod_pow2_bits_low.
Qed.

Lemma test_num_absent p t n : pkt_wf p -> known t -> pval p t = None -> test_num p t n = Throw E_out_of_range.
Proof.
  intros Hp Ht Hv. pose proof (exact_mask_wf t Ht) as [_ Hm]. pose proof (known_nbits t Ht) as Hnb.
  set (b := bits_of_ull (t_nbits t) n). assert (Hb : bits_at t b) by (split; [apply bits_of_ull_wf; lia|done]).
  unfold test_num, type_is. fold b. rewrite make_value_ok, lift_Ok, res_bind_Ok by done.
  unfold field_of_value, field_exact. cbn [v_type v_bits]. rewrite make_field_ok by done. rewrite lift_Ok, res_bind_Ok.
  set (need := Field _ _ _). assert (Hw : field_wf need) by by apply make_field_wf. unfold test.
  rewrite mask_of_field_ok, lift_Ok, res_bind_Ok by done.
  by rewrite load_absent by (done || by apply mask_of_field_wf).
Qed.
End laws.
