(* ===== verification/Switch.v ===== *)
(** * The switches and their ports (src/Switch.cc: SwitchManager and Switch)

    The manager keeps a [Switch] for every datapath id that has connected, with
    the ports the switch has reported, and tells the other applications of
    changes by signals, which are the output of the operations here.  An event of
    the web interface is one of the signals. *)

From S2P Require Import Prelude Events.
Local Open Scope Z_scope.

(** ** Messages (of13 of libfluid), with the members the code reads *)

Record of_port := Port { port_no : Z; hw_addr : list Z; port_state : Z; port_name : string }.

#[export] Instance of_port_dec : EqDecision of_port.
Proof. solve_decision. Defined.

Record features_reply := FeaturesReply { fr_datapath_id : Z; fr_n_buffers : Z; fr_n_tables : Z; fr_capabilities : Z }.

Inductive ps_reason := OFPPR_ADD | OFPPR_DELETE | OFPPR_MODIFY.

(** A multipart reply: of port descriptions, of the switch's description, or of
    another kind; or another message with the xid of the request. *)
Inductive of_reply :=
| reply_port_desc (ports : list of_port)
| reply_desc (desc : string)
| reply_other_multipart
| reply_not_multipart.

(** ** State *)

(** [SwitchImpl]; the connection is the one of the switch's scope, which the
    datapath id determines. *)
Record switch := Switch {
  sw_id : Z;
  sw_nbuffers : Z;
  sw_ntables : Z;
  sw_capabilities : Z;
  sw_desc : string;
  sw_port : gmap Z of_port;
}.

Inductive signal :=
| switchDiscovered (dpid : Z)
| switchUp (dpid : Z)
| switchDown (dpid : Z)
| up (dpid : Z)
| down (dpid : Z)
| portUp (dpid : Z) (port : of_port)
| portDown (dpid : Z) (port_no : Z)
| portModified (dpid : Z) (port old_port : of_port)
| request_port_desc (dpid : Z)
| request_desc (dpid : Z)
| add_event (t : EventType) (dpid : Z).

#[export] Instance signal_dec : EqDecision signal.
Proof. solve_decision. Defined.

Inductive sw_fault := assertion_failed | out_of_range | unmatched_reply.

(** [SwitchManagerImpl] *)
Abbreviation switch_map := (gmap Z switch).

(** ** class Switch *)

Definition set_ports (ps : gmap Z of_port) (sw : switch) : switch :=
  Switch (sw_id sw) (sw_nbuffers sw) (sw_ntables sw) (sw_capabilities sw) (sw_desc sw) ps.
Definition set_desc (d : string) (sw : switch) : switch :=
  Switch (sw_id sw) (sw_nbuffers sw) (sw_ntables sw) (sw_capabilities sw) d (sw_port sw).

(** [Switch::Switch] *)
Definition new_switch (fr : features_reply) : switch :=
  Switch (fr_datapath_id fr) (fr_n_buffers fr) (fr_n_tables fr) (fr_capabilities fr) EmptyString ∅.

Definition sw_setUp (fr : features_reply) (sw : switch) : switch * list signal :=
  (Switch (fr_datapath_id fr) (fr_n_buffers fr) (fr_n_tables fr) (fr_capabilities fr) (sw_desc sw) (sw_port sw),
   [up (fr_datapath_id fr)]).

(** [portStatus]: [insert] keeps a port that exists, but the signal has the new
    one. *)
Definition sw_portStatus (reason : ps_reason) (p : of_port) (sw : switch) : switch * list signal :=
  match reason with
  | OFPPR_ADD =>
      (if decide (is_Some (sw_port sw !! port_no p)) then sw else set_ports (<[port_no p := p]> (sw_port sw)) sw,
       [portUp (sw_id sw) p])
  | OFPPR_DELETE => (set_ports (delete (port_no p) (sw_port sw)) sw, [portDown (sw_id sw) (port_no p)])
  | OFPPR_MODIFY =>
      match sw_port sw !! port_no p with
      | None => (sw, [])
      | Some old => (set_ports (<[port_no p := p]> (sw_port sw)) sw, [portModified (sw_id sw) p old])
      end
  end.

(** [setDown]; the order of the ports is that of the hash table. *)
Definition sw_setDown (sw : switch) : switch * list signal :=
  (set_ports ∅ sw, map (fun e => portDown (sw_id sw) e.1) (map_to_list (sw_port sw)) ++ [down (sw_id sw)]).

(** [portDescArrived] *)
Fixpoint sw_portDescArrived (ps : list of_port) (sw : switch) : switch * list signal :=
  match ps with
  | [] => (sw, [])
  | p :: ps =>
      match sw_port sw !! port_no p with
      | Some _ => sw_portDescArrived ps sw
      | None =>
          let '(sw', out) := sw_portDescArrived ps (set_ports (<[port_no p := p]> (sw_port sw)) sw) in
          (sw', portUp (sw_id sw) p :: out)
      end
  end.

(** [port], [ports] *)
Definition sw_get_port (no : Z) (sw : switch) : res sw_fault of_port :=
  match sw_port sw !! no with Some p => Ok p | None => Throw out_of_range end.
Definition sw_ports (sw : switch) : list of_port := map snd (map_to_list (sw_port sw)).

(** ** class SwitchManager *)

Definition getSwitch (dpid : Z) (m : switch_map) : option switch := m !! dpid.

(** A call on the switch of a connection, [switches.at(conn->dpid())]. *)
Definition at_switch (dpid : Z) (call : switch -> switch * list signal) (m : switch_map) : res sw_fault (switch_map * list signal) :=
  match m !! dpid with
  | None => Throw out_of_range
  | Some sw => let '(sw', out) := call sw in Ok (<[dpid := sw']> m, out)
  end.

Definition onSwitchUp (dpid : Z) (fr : features_reply) (m : switch_map) : res sw_fault (switch_map * list signal) :=
  _ ← guard_or (fr_datapath_id fr =? dpid) assertion_failed;
  let '(m', out) :=
    match m !! dpid with
    | None => (<[dpid := new_switch fr]> m, [switchDiscovered dpid; switchUp dpid])
    | Some sw => let '(sw', out) := sw_setUp fr sw in (<[dpid := sw']> m, out ++ [switchUp dpid])
    end in
  Ok (m', out ++ [request_port_desc dpid; request_desc dpid; add_event Add dpid]).

Definition onSwitchDown (dpid : Z) (m : switch_map) : switch_map * list signal :=
  match m !! dpid with
  | None => (m, [])
  | Some sw => let '(sw', out) := sw_setDown sw in (<[dpid := sw']> m, out ++ [switchDown dpid; add_event Delete dpid])
  end.

Definition onPortStatus (dpid : Z) (reason : ps_reason) (p : of_port) : switch_map -> res sw_fault (switch_map * list signal) :=
  at_switch dpid (sw_portStatus reason p).

Definition onPortDescriptions (dpid : Z) (reply : of_reply) (m : switch_map) : res sw_fault (switch_map * list signal) :=
  match reply with
  | reply_port_desc ps => at_switch dpid (sw_portDescArrived ps) m
  | _ => Ok (m, [])
  end.

(** A multipart reply of another kind is read as a description all the same,
    which is not defined. *)
Definition onSwitchDescriptions (dpid : Z) (reply : of_reply) (m : switch_map) : res sw_fault (switch_map * list signal) :=
  match reply with
  | reply_desc d => at_switch dpid (fun sw => (set_desc d sw, [])) m
  | reply_not_multipart => Ok (m, [])
  | _ => Throw unmatched_reply
  end.

(** [switches]: those whose connection is alive. *)
Definition manager_switches (alive : Z -> bool) (m : switch_map) : list switch :=
  map snd (filter (fun e => alive e.1 = true) (map_to_list m)).

(** ** Events and what a listener hears

    The applications connect to a switch when it is discovered.  A listener that
    follows the signals keeps the port numbers of every switch; it is stuck when
    a switch is discovered twice, or a port of an unknown switch or a change of
    an unknown port is signalled. *)

Inductive sw_event :=
| ev_switchUp (dpid : Z) (fr : features_reply)
| ev_switchDown (dpid : Z)
| ev_portStatus (dpid : Z) (reason : ps_reason) (p : of_port)
| ev_portDescriptions (dpid : Z) (reply : of_reply)
| ev_switchDescriptions (dpid : Z) (reply : of_reply).

Definition sw_handle (e : sw_event) (m : switch_map) : res sw_fault (switch_map * list signal) :=
  match e with
  | ev_switchUp dpid fr => onSwitchUp dpid fr m
  | ev_switchDown dpid => Ok (onSwitchDown dpid m)
  | ev_portStatus dpid reason p => onPortStatus dpid reason p m
  | ev_portDescriptions dpid reply => onPortDescriptions dpid reply m
  | ev_switchDescriptions dpid reply => onSwitchDescriptions dpid reply m
  end.

Fixpoint sw_run (es : list sw_event) (m : switch_map) : res sw_fault (switch_map * list signal) :=
  match es with
  | [] => Ok (m, [])
  | e :: es => r1 ← sw_handle e m; r2 ← sw_run es r1.1; Ok (r2.1, r1.2 ++ r2.2)
  end.

Definition hear (s : signal) (k : gmap Z (gset Z)) : option (gmap Z (gset Z)) :=
  match s with
  | switchDiscovered d => match k !! d with None => Some (<[d := ∅]> k) | Some _ => None end
  | portUp d p => ps ← k !! d; Some (<[d := {[port_no p]} ∪ ps]> k)
  | portDown d n => ps ← k !! d; Some (<[d := ps ∖ {[n]}]> k)
  | portModified d p old =>
      ps ← k !! d; guard (port_no p ∈ ps) ;; guard (port_no old = port_no p) ;; Some k
  | switchUp d | switchDown d | up d | down d | request_port_desc d | request_desc d | add_event _ d => _ ← k !! d; Some k
  end.

Fixpoint hear_all (ss : list signal) (k : gmap Z (gset Z)) : option (gmap Z (gset Z)) :=
  match ss with [] => Some k | s :: ss => hear s k ≫= hear_all ss end.

Lemma hear_all_app s1 s2 k : hear_all (s1 ++ s2) k = hear_all s1 k ≫= hear_all s2.
Proof. revert k. induction s1 as [|s s1 IH]; intros k; cbn; [done|]. destruct (hear s k); cbn; [apply IH|done]. Qed.

(** What the listener should know. *)
Definition port_view (m : switch_map) : gmap Z (gset Z) := (fun sw => dom (sw_port sw)) <$> m.

Definition keyed (m : switch_map) : Prop :=
  forall d sw, m !! d = Some sw -> sw_id sw = d /\ forall n p, sw_port sw !! n = Some p -> port_no p = n.

Lemma view_insert d sw m : port_view (<[d := sw]> m) = <[d := dom (sw_port sw)]> (port_view m).
Proof. unfold port_view. by rewrite fmap_insert. Qed.

Lemma view_lookup d sw m : m !! d = Some sw -> port_view m !! d = Some (dom (sw_port sw)).
Proof. intros H. unfold port_view. by rewrite lookup_fmap, H. Qed.

(** A call on one switch, as the listener hears it. *)
Definition call_ok (sw sw' : switch) (out : list signal) : Prop :=
  sw_id sw' = sw_id sw /\ (forall n p, sw_port sw' !! n = Some p -> port_no p = n)
  /\ forall k, k !! sw_id sw = Some (dom (sw_port sw)) -> hear_all out k = Some (<[sw_id sw := dom (sw_port sw')]> k).

Lemma portStatus_call reason p sw :
  (forall n q, sw_port sw !! n = Some q -> port_no q = n) ->
  call_ok sw (sw_portStatus reason p sw).1 (sw_portStatus reason p sw).2.
Proof.
  intros Hk. unfold call_ok. destruct reason; cbn.
  - destruct (decide (is_Some (sw_port sw !! port_no p))) as [Hs|Hs]; (split; [done|]); (split; [|]).
    + done.
    + intros k Hkk. rewrite Hkk. cbn. do 2 f_equal. assert (port_no p ∈ dom (sw_port sw)) by by apply elem_of_dom. set_solver.
    + cbn. intros n q. rewrite lookup_insert_Some. intros [[<- <-]|[_ Hq]]; [done|by apply Hk].
    + intros k Hkk. rewrite Hkk. cbn. by rewrite dom_insert_L.
  - split; [done|]. split; [intros n q; rewrite lookup_delete_Some; intros [_ Hq]; by apply Hk|].
    intros k Hkk. rewrite Hkk. cbn. by rewrite dom_delete_L.
  - destruct (sw_port sw !! port_no p) as [old|] eqn:E; cbn; (split; [done|]).
    + split; [intros n q; rewrite lookup_insert_Some; intros [[<- <-]|[_ Hq]]; [done|by apply Hk]|].
      intros k Hkk. rewrite Hkk. cbn. rewrite option_guard_True by (by apply elem_of_dom; eauto). cbn.
      rewrite option_guard_True by by apply Hk. cbn. f_equal. symmetry. apply insert_id. rewrite Hkk. f_equal.
      rewrite dom_insert_L. assert (port_no p ∈ dom (sw_port sw)) by (apply elem_of_dom; eauto). set_solver.
    + split; [done|]. intros k Hkk. f_equal. symmetry. by apply insert_id.
Qed.

Lemma hear_portDown_all d (l : list (Z * of_port)) (ps : gset Z) k :
  k !! d = Some ps -> hear_all (map (fun e => portDown d e.1) l) k = Some (<[d := ps ∖ list_to_set (map fst l)]> k).
Proof.
  revert ps k. induction l as [|e l IH]; intros ps k Hk; cbn.
  - f_equal. symmetry. apply insert_id. rewrite Hk. f_equal. set_solver.
  - rewrite Hk. cbn. rewrite (IH (ps ∖ {[e.1]})) by by rewrite lookup_insert_eq. rewrite insert_insert_eq. do 2 f_equal. set_solver.
Qed.

Lemma setDown_call sw : call_ok sw (sw_setDown sw).1 (sw_setDown sw).2.
Proof.
  split; [done|]. split; [cbn; intros n p; by rewrite lookup_empty|]. intros k Hk. cbn.
  rewrite hear_all_app, (hear_portDown_all _ _ _ _ Hk). cbn. rewrite lookup_insert_eq. cbn. do 2 f_equal.
  rewrite dom_empty_L. apply set_eq. intros n. split; [|set_solver].
  rewrite elem_of_difference, elem_of_list_to_set. intros [[p Hp]%elem_of_dom Hn]. exfalso. apply Hn.
  apply list_elem_of_fmap. exists (n, p). split; [done|]. by apply elem_of_map_to_list.
Qed.

Lemma portDescArrived_call ps sw :
  (forall n q, sw_port sw !! n = Some q -> port_no q = n) ->
  call_ok sw (sw_portDescArrived ps sw).1 (sw_portDescArrived ps sw).2.
Proof.
  revert sw. induction ps as [|p ps IH]; intros sw Hk; cbn.
  - split; [done|]. split; [done|]. intros k Hkk. cbn. f_equal. symmetry. by apply insert_id.
  - destruct (sw_port sw !! port_no p) as [q|] eqn:E; [by apply IH|].
    specialize (IH (set_ports (<[port_no p := p]> (sw_port sw)) sw)).
    destruct (sw_portDescArrived ps _) as [sw' out]. cbn in *. destruct IH as (Hid & Hp & Hh).
    { intros n q'. rewrite lookup_insert_Some. intros [[<- <-]|[_ Hq]]; [done|by apply Hk]. }
    split; [done|]. split; [done|]. intros k Hkk. cbn. rewrite Hkk. cbn.
    rewrite (Hh (<[sw_id sw := _]> k)) by (rewrite lookup_insert_eq; f_equal; cbn; by rewrite dom_insert_L).
    by rewrite insert_insert_eq.
Qed.

Lemma at_switch_ok d call m m' out :
  keyed m -> (forall sw, m !! d = Some sw -> call_ok sw (call sw).1 (call sw).2) ->
  at_switch d call m = Ok (m', out) -> keyed m' /\ hear_all out (port_view m) = Some (port_view m').
Proof.
  intros Hk Hc. unfold at_switch. destruct (m !! d) as [sw|] eqn:E; [|done]. specialize (Hc sw eq_refl).
  destruct (call sw) as [sw' o]. intros [= <- <-]. destruct (Hk d sw E) as [Hid _]. destruct Hc as (Hid' & Hp & Hh).
  cbn in *. split.
  - intros d' s. rewrite lookup_insert_Some. intros [[<- <-]|[_ Hs]]; [split; [congruence|done]|by apply Hk].
  - rewrite view_insert, Hh by (rewrite Hid; by apply view_lookup). by rewrite Hid.
Qed.

Lemma sw_handle_ok e m m' out :
  keyed m -> sw_handle e m = Ok (m', out) -> keyed m' /\ hear_all out (port_view m) = Some (port_view m').
Proof.
  intros Hk. destruct e as [d fr|d|d reason p|d reply|d reply]; cbn.
  - unfold onSwitchUp. destruct (Z.eqb_spec (fr_datapath_id fr) d) as [Ed|]; [|done]. cbn.
    destruct (m !! d) as [sw|] eqn:E; intros [= <- <-].
    + destruct (Hk d sw E) as [Hid Hp]. split.
      * intros d' s. rewrite lookup_insert_Some. intros [[<- <-]|[_ Hs]]; [done|by apply Hk].
      * rewrite Ed. pose proof (view_lookup d sw m E) as Ev. do 5 (cbn; rewrite Ev). cbn. f_equal.
        rewrite view_insert. symmetry. by apply insert_id.
    + split.
      * intros d' s. rewrite lookup_insert_Some. intros [[<- <-]|[_ Hs]]; [|by apply Hk]. split; [done|].
        intros n q. cbn. by rewrite lookup_empty.
      * assert (Ev : port_view m !! d = None) by (unfold port_view; by rewrite lookup_fmap, E). cbn. rewrite Ev.
        do 4 (cbn; rewrite lookup_insert_eq). cbn.
        rewrite view_insert. cbn. by rewrite dom_empty_L.
  - unfold onSwitchDown. destruct (m !! d) as [sw|] eqn:E; [|intros [= <- <-]; done].
    destruct (sw_setDown sw) as [sw' o] eqn:Es. intros [= <- <-].
    destruct (at_switch_ok d sw_setDown m (<[d := sw']> m) o) as [Hk' Hh]; [done| | |].
    { intros s _. apply setDown_call. }
    { unfold at_switch. by rewrite E, Es. }
    split; [done|]. rewrite hear_all_app, Hh. cbn. rewrite view_insert, !lookup_insert_eq. cbn. by rewrite !lookup_insert_eq.
  - intros Hr. eapply at_switch_ok; [done| |exact Hr]. intros sw Hs. apply portStatus_call. by apply (Hk d sw Hs).
  - destruct reply; try (intros [= <- <-]; done). intros Hr. eapply at_switch_ok; [done| |exact Hr].
    intros sw Hs. apply portDescArrived_call. by apply (Hk d sw Hs).
  - destruct reply; try (intros [= <- <-]; done); try done. intros Hr. eapply at_switch_ok; [done| |exact Hr].
    intros sw Hs. split; [done|]. split; [by apply (Hk d sw Hs)|]. intros k Hkk. f_equal. symmetry. by apply insert_id.
Qed.

(** C15: The signals of the switch manager tell the whole truth about ports.  In
    any run from the start in which no exception escapes, a listener that follows
    the signals never gets stuck: every switch is discovered once, before any
    other signal about it; and after the run it knows exactly the switches and
    the port numbers that the manager holds for each, also when a switch went
    down, reconnected, repeated a port or described ports it had reported. *)
Theorem port_signals_complete es m out :
  sw_run es ∅ = Ok (m, out) -> hear_all out ∅ = Some (port_view m).
Proof.
  assert (H : forall m0, keyed m0 -> sw_run es m0 = Ok (m, out) -> hear_all out (port_view m0) = Some (port_view m)).
  { revert m out. induction es as [|e es IH]; intros m out m0 Hk; cbn; [by intros [= <- <-]|].
    destruct (sw_handle e m0) as [[m1 o1]|] eqn:E1; [|done]. cbn. destruct (sw_run es m1) as [[m2 o2]|] eqn:E2; [|done].
    intros [= <- <-]. destruct (sw_handle_ok e m0 m1 o1 Hk E1) as [Hk1 H1]. rewrite hear_all_app, H1. cbn. by apply IH. }
  intros Hr. rewrite <- (H ∅); [unfold port_view; by rewrite fmap_empty| |done]. intros d sw. by rewrite lookup_empty.
Qed.

Definition sample_port (n : Z) : of_port := Port n [2; 0; 0; 0; 0; n] 0 EmptyString.

Definition sample_sw_events : list sw_event :=
  [ev_switchUp 5 (FeaturesReply 5 256 254 0); ev_portStatus 5 OFPPR_ADD (sample_port 1);
   ev_portDescriptions 5 (reply_port_desc [sample_port 1; sample_port 2]); ev_portStatus 5 OFPPR_DELETE (sample_port 1);
   ev_switchDown 5; ev_switchUp 5 (FeaturesReply 5 256 254 0); ev_portDescriptions 5 (reply_port_desc [sample_port 2])].

Lemma port_signals_complete_witness :
  exists m out, sw_run sample_sw_events ∅ = Ok (m, out) /\ hear_all out ∅ = Some {[5 := {[2]}]}.
Proof.
  eexists _, _. split; [vm_compute; reflexivity|].
  etransitivity; [apply (port_signals_complete sample_sw_events); vm_compute; reflexivity|vm_compute; reflexivity].
Defined.
