(* ===== verification/Decision.v ===== *)
(** * Decisions (src/Decision.cc, Decision.hh)

    What a packet handler decides: where the packet goes, for how long, and
    whether the handlers after it still run.  A handler receives the decision
    of those before it and refines it. *)

From S2P Require Import Prelude.
Local Open Scope Z_scope.

(** [Decision::duration] counts seconds in 32 bits. *)
Definition duration_max : Z := 2 ^ 32 - 1.

Record base := Base { return_ : bool; idle_timeout : Z; hard_timeout : Z }.

Definition base_default : base := Base false duration_max duration_max.

(** [boost::variant<Undefined, Drop, Unicast, Multicast, Broadcast, Inspect>]
    without the common base. *)
Inductive target :=
| Undefined
| Drop
| Unicast (port : Z)
| Multicast (ports : gset Z)
| Broadcast
| Inspect (send_bytes_len : Z).

#[export] Instance target_dec : EqDecision target.
Proof. solve_decision. Defined.

Record decision := Decision { d_base : base; d_data : target }.

#[export] Instance base_dec : EqDecision base.
Proof. solve_decision. Defined.
#[export] Instance decision_dec : EqDecision decision.
Proof. solve_decision. Defined.

Definition decision_default : decision := Decision base_default Undefined.

Inductive decision_error := decision_conflict.

Definition d_return (d : decision) : decision :=
  Decision (Base true (idle_timeout (d_base d)) (hard_timeout (d_base d))) (d_data d).

Definition d_idle_timeout (s : Z) (d : decision) : decision :=
  Decision (Base (return_ (d_base d)) (Z.min s (idle_timeout (d_base d))) (hard_timeout (d_base d))) (d_data d).

Definition d_hard_timeout (s : Z) (d : decision) : decision :=
  Decision (Base (return_ (d_base d)) (Z.min s (idle_timeout (d_base d))) (Z.min s (hard_timeout (d_base d)))) (d_data d).

(** Refining an undefined decision, or one that already says the same. *)
Definition refine (same : target -> bool) (t : target) (d : decision) : res decision_error decision :=
  match d_data d with
  | Undefined => Ok (Decision (d_base d) t)
  | t' => if same t' then Ok (Decision (d_base d) t) else Throw decision_conflict
  end.

Definition d_unicast (port : Z) : decision -> res decision_error decision :=
  refine (fun t => match t with Unicast p => p =? port | _ => false end) (Unicast port).

Definition d_multicast (ps : gset Z) : decision -> res decision_error decision :=
  refine (fun t => match t with Multicast qs => bool_decide (qs = ps) | _ => false end) (Multicast ps).

Definition d_broadcast : decision -> res decision_error decision :=
  refine (fun t => match t with Broadcast => true | _ => false end) Broadcast.

Definition d_inspect (bytes : Z) (d : decision) : res decision_error decision :=
  match d_data d with
  | Undefined => Ok (Decision (d_base d) (Inspect bytes))
  | Inspect n => Ok (Decision (d_base d) (Inspect (Z.max bytes n)))
  | _ => Throw decision_conflict
  end.

Definition d_drop (d : decision) : decision := Decision (d_base d) Drop.

(** Also forgets the timeouts and the [return_] flag. *)
Definition d_clear (d : decision) : decision := decision_default.

(** ** A chain of refinements *)

Inductive op :=
| op_return
| op_idle (s : Z)
| op_hard (s : Z)
| op_unicast (port : Z)
| op_multicast (ports : gset Z)
| op_broadcast
| op_inspect (bytes : Z)
| op_drop
| op_clear.

Definition apply_op (o : op) (d : decision) : res decision_error decision :=
  match o with
  | op_return => Ok (d_return d)
  | op_idle s => Ok (d_idle_timeout s d)
  | op_hard s => Ok (d_hard_timeout s d)
  | op_unicast p => d_unicast p d
  | op_multicast ps => d_multicast ps d
  | op_broadcast => d_broadcast d
  | op_inspect n => d_inspect n d
  | op_drop => Ok (d_drop d)
  | op_clear => Ok (d_clear d)
  end.

Fixpoint apply_ops (os : list op) (d : decision) : res decision_error decision :=
  match os with
  | [] => Ok d
  | o :: os => d ← apply_op o d; apply_ops os d
  end.

(** ** What a chain means

    A meaning is computed from the operations alone: the smallest timeouts asked
    for, the longest inspection, and where the packet goes. *)

Definition idle_bound (o : op) (b : Z) : Z :=
  match o with op_idle s | op_hard s => Z.min s b | op_clear => duration_max | _ => b end.
Definition hard_bound (o : op) (b : Z) : Z :=
  match o with op_hard s => Z.min s b | op_clear => duration_max | _ => b end.
Definition returned (o : op) (b : bool) : bool :=
  match o with op_return => true | op_clear => false | _ => b end.

(** The target an operation asks for. *)
Definition wants (o : op) : option target :=
  match o with
  | op_unicast p => Some (Unicast p)
  | op_multicast ps => Some (Multicast ps)
  | op_broadcast => Some Broadcast
  | op_inspect n => Some (Inspect n)
  | _ => None
  end.

(** Two targets agree when they are equal, but inspections always do. *)
Definition agree (a b : target) : bool :=
  match a, b with Inspect _, Inspect _ => true | _, _ => bool_decide (a = b) end.

Definition join (a b : target) : target :=
  match a, b with Inspect m, Inspect n => Inspect (Z.max m n) | _, _ => b end.

(** Timeouts that make sense: a flow does not idle longer than it lives. *)
Definition decision_ok (d : decision) : Prop :=
  0 <= idle_timeout (d_base d) <= hard_timeout (d_base d) /\ hard_timeout (d_base d) <= duration_max.

Definition op_ok (o : op) : bool :=
  match o with
  | op_idle s | op_hard s => (0 <=? s) && (s <=? duration_max)
  | op_unicast p => (0 <=? p) && (p <? 2 ^ 32)
  | op_inspect n => (0 <=? n) && (n <? 2 ^ 16)
  | _ => true
  end.

Lemma apply_op_base o d d' :
  apply_op o d = Ok d' ->
  d_base d' = Base (returned o (return_ (d_base d))) (idle_bound o (idle_timeout (d_base d))) (hard_bound o (hard_timeout (d_base d))).
Proof.
  unfold apply_op, d_unicast, d_multicast, d_broadcast, d_inspect, refine. destruct d as [[r i h] t].
  destruct o, t; cbn; try case_match; intros [= <-]; done.
Qed.

Lemma apply_op_data o d :
  match wants o with
  | Some t =>
      if decide (d_data d = Undefined) then exists d', apply_op o d = Ok d' /\ d_data d' = t
      else if agree (d_data d) t then exists d', apply_op o d = Ok d' /\ d_data d' = join t (d_data d)
      else apply_op o d = Throw decision_conflict
  | None => exists d', apply_op o d = Ok d'
      /\ d_data d' = match o with op_drop => Drop | op_clear => Undefined | _ => d_data d end
  end.
Proof.
  destruct d as [b t]. destruct o; cbn; try (eexists; split; done);
    destruct t; cbn; unfold d_unicast, d_multicast, d_broadcast, d_inspect, refine, agree; cbn;
    try (eexists; split; done); try done.
  - destruct (Z.eqb_spec port0 port) as [->|]; [rewrite bool_decide_eq_true_2 by done; by eexists|].
    rewrite bool_decide_eq_false_2 by congruence. done.
  - destruct (decide (ports0 = ports)) as [->|]; [rewrite !bool_decide_eq_true_2 by done; by eexists|].
    rewrite !bool_decide_eq_false_2 by congruence. done.
Qed.

Lemma apply_op_ok o d d' : decision_ok d -> op_ok o = true -> apply_op o d = Ok d' -> decision_ok d'.
Proof.
  intros Hd Ho H%apply_op_base. unfold decision_ok in *. rewrite H. cbn.
  assert (0 <= duration_max) by done.
  destruct o; cbn in *; rewrite ?andb_true_iff, ?Z.leb_le in Ho; lia.
Qed.

Lemma decision_default_ok : decision_ok decision_default.
Proof. done. Qed.

Lemma apply_ops_ok os d d' : decision_ok d -> forallb op_ok os = true -> apply_ops os d = Ok d' -> decision_ok d'.
Proof.
  revert d. induction os as [|o os IH]; intros d Hd Ho; cbn; [by intros [= <-]|].
  apply andb_true_iff in Ho as [Ho Hos]. intros (d1 & H1 & H2)%res_bind_inv. eapply IH; [|done..]. by eapply apply_op_ok.
Qed.

(** What a chain of refinements decides.  On a decision whose timeouts make
    sense, a chain of operations throws [decision_conflict] or ends in a decision
    whose idle timeout is the smallest of all timeouts asked for since the last
    [clear], whose hard timeout is the smallest hard one, and whose idle timeout
    never exceeds the hard one; and each operation that asks for a target throws
    exactly when an earlier one, not cleared, decided on another one. *)
Theorem decision_chain os d :
  decision_ok d -> forallb op_ok os = true ->
  match apply_ops os d with
  | Ok d' => decision_ok d'
      /\ return_ (d_base d') = fold_left (fun b o => returned o b) os (return_ (d_base d))
      /\ idle_timeout (d_base d') = fold_left (fun b o => idle_bound o b) os (idle_timeout (d_base d))
      /\ hard_timeout (d_base d') = fold_left (fun b o => hard_bound o b) os (hard_timeout (d_base d))
      /\ forall o t, wants o = Some t ->
           apply_op o d' = Throw decision_conflict <-> d_data d' <> Undefined /\ agree (d_data d') t = false
  | Throw e => e = decision_conflict
      /\ exists pre o post d1 t, os = pre ++ o :: post /\ apply_ops pre d = Ok d1 /\ wants o = Some t
           /\ d_data d1 <> Undefined /\ agree (d_data d1) t = false
  end.
Proof.
  revert d. induction os as [|o os IH]; intros d Hd Hos; cbn.
  - split_and!; [done..|]. intros o t Hw. pose proof (apply_op_data o d) as H. rewrite Hw in H.
    destruct (decide (d_data d = Undefined)) as [E|E]; [destruct H as (d' & -> & _); split; [done|by intros [? _]]|].
    destruct (agree (d_data d) t); [destruct H as (d' & -> & _); split; [done|by intros [_ ?]]|]. by rewrite H.
  - apply andb_true_iff in Hos as [Ho Hos]. pose proof (apply_op_data o d) as Hdata.
    destruct (apply_op o d) as [d1|[]] eqn:E; cbn.
    + pose proof (apply_op_base o d d1 E) as Hb. specialize (IH d1 (apply_op_ok o d d1 Hd Ho E) Hos).
      rewrite Hb in IH. cbn in IH. destruct (apply_ops os d1) as [d2|]; [done|].
      destruct IH as (-> & pre & o' & post & d3 & t & -> & Hpre & ?). split; [done|].
      exists (o :: pre), o', post, d3, t. cbn. by rewrite E.
    + split; [done|]. destruct (wants o) as [t|] eqn:Ew; [|by destruct Hdata as (? & ? & _)].
      destruct (decide (d_data d = Undefined)); [by destruct Hdata as (? & ? & _)|].
      destruct (agree (d_data d) t) eqn:Ea; [by destruct Hdata as (? & ? & _)|].
      exists [], o, os, d, t. done.
Qed.

Lemma decision_chain_witness :
  apply_ops [op_unicast 3; op_idle 60; op_hard 30; op_broadcast] decision_default = Throw decision_conflict
  /\ exists d, apply_ops [op_unicast 3; op_idle 60; op_hard 30] decision_default = Ok d /\ decision_ok d
      /\ idle_timeout (d_base d) = 30.
Proof.
  split; [reflexivity|]. eexists. split; [reflexivity|].
  destruct (decision_chain [op_unicast 3; op_idle 60; op_hard 30] decision_default) as (H1 & _ & H3 & _);
    [exact decision_default_ok|reflexivity|]. split; [exact H1|exact H3].
Defined.
