(* ===== verification/LinkDiscovery.v ===== *)
(** * Link discovery (src/LinkDiscovery.cc, src/ILinkDiscovery.hh)

    The application sends an LLDP packet out of every port.  When one arrives at
    another switch it queues a beacon with both ends, and from the beacons it
    keeps the links, each valid for two polling intervals.  The signals are the
    output of the operations. *)

From S2P Require Import Prelude Bits OxmField OpenflowBasic Packet PacketParser Decision Handlers Switch.
Local Open Scope Z_scope.

(** ** struct switch_and_port *)

Record switch_and_port := SwitchAndPort { dpid : Z; port : Z }.

#[export] Instance sp_dec : EqDecision switch_and_port.
Proof. solve_decision. Defined.
#[export] Instance sp_countable : Countable switch_and_port.
Proof. apply (inj_countable' (fun a => (dpid a, port a)) (fun x => SwitchAndPort x.1 x.2)). by intros []. Defined.

(** [operator<], on tuples *)
Definition sp_ltb (a b : switch_and_port) : bool := (dpid a <? dpid b) || ((dpid a =? dpid b) && (port a <? port b)).

(** ** struct lldp_packet *)

Definition LLDP_ETH_TYPE : Z := 0x88cc.
Definition OFPP_MAX : Z := 0xffffff00.
Definition OFPPS_LINK_DOWN : Z := 1.
Definition OFPCML_NO_BUFFER : Z := 0xffff.

Definition lldp_tlv_header (type length : Z) : Z := Z.lor (u16 (Z.shiftl type 9)) length.

Record lldp_packet := LldpPacket {
  src_mac : Z;
  chassis_id_sub_mac : Z;
  port_id_sub_component : Z;
  ttl_seconds : Z;
  dpid_data : Z;
}.

(** The members in order, with the constants of their initialisers. *)
Definition lldp_bytes (l : lldp_packet) : list Z :=
  be_bytes 6 0x0180c200000e ++ be_bytes 6 (src_mac l) ++ be_bytes 2 LLDP_ETH_TYPE
  ++ be_bytes 2 (lldp_tlv_header 1 7) ++ be_bytes 1 4 ++ be_bytes 6 (chassis_id_sub_mac l)
  ++ be_bytes 2 (lldp_tlv_header 2 5) ++ be_bytes 1 2 ++ be_bytes 4 (port_id_sub_component l)
  ++ be_bytes 2 (lldp_tlv_header 3 2) ++ be_bytes 2 (ttl_seconds l)
  ++ be_bytes 2 (lldp_tlv_header 127 12) ++ be_bytes 3 0x0026e1 ++ be_bytes 1 0 ++ be_bytes 8 (dpid_data l)
  ++ be_bytes 2 0.

Definition sizeof_lldp : Z := 50.

(** The members the handler reads from the bytes it has copied over the struct. *)
Definition read_lldp (bs : list Z) : switch_and_port := SwitchAndPort (read_be bs 40 8) (read_be bs 26 4).

(** ** The packet handler

    The decision, and the beacon that is queued. *)
Definition discovery_handler (here : Z) (p : parser) (d : decision)
  : res error (decision * option (switch_and_port * switch_and_port)) :=
  is_lldp ← test_num p eth_type LLDP_ETH_TYPE;
  if negb is_lldp then Ok (d, None)
  else
    let written := serialize_to sizeof_lldp p in
    if Z.of_nat (length written) <? sizeof_lldp then Ok (d_return (d_drop (d_idle_timeout 0 d)), None)
    else
      in_port_no ← watch_num p in_port;
      let source := read_lldp written in
      let target := SwitchAndPort here in_port_no in
      let '(source, target) := if sp_ltb target source then (target, source) else (source, target) in
      Ok (d_return (d_drop (d_idle_timeout 0 d)), Some (source, target)).

(** ** State

    [std::set<DiscoveredLink>] orders the links by [valid_through] alone, so it
    holds at most one for each time.  An iterator is the time of a node and the
    number it was given when it was inserted; it dangles when the node is gone. *)
Abbreviation iterator := (Z * nat)%type.

Record discovery := Discovery {
  m_links : gmap Z (nat * (switch_and_port * switch_and_port));
  m_out_edges : gmap switch_and_port iterator;
  next_node : nat;
  c_poll_interval : Z;
}.

Inductive ld_signal :=
| linkDiscovered (from to : switch_and_port)
| linkBroken (from to : switch_and_port)
| invalidateTraceTree
| packet_out (dpid : Z) (port_no max_len : Z) (data : list Z).

#[export] Instance ld_signal_dec : EqDecision ld_signal.
Proof. solve_decision. Defined.

Inductive ld_fault := dangling_iterator | check_failed | ld_assertion.

#[export] Instance ld_fault_dec : EqDecision ld_fault.
Proof. solve_decision. Defined.

Definition set_links (ls : gmap Z (nat * (switch_and_port * switch_and_port))) (s : discovery) : discovery :=
  Discovery ls (m_out_edges s) (next_node s) (c_poll_interval s).
Definition set_out (o : gmap switch_and_port iterator) (s : discovery) : discovery :=
  Discovery (m_links s) o (next_node s) (c_poll_interval s).

(** [*it] *)
Definition deref_link (it : iterator) (s : discovery) : res ld_fault (switch_and_port * switch_and_port) :=
  match m_links s !! it.1 with
  | Some (n, l) => if Nat.eqb n it.2 then Ok l else Throw dangling_iterator
  | None => Throw dangling_iterator
  end.

(** [m_links.erase(it)] *)
Definition erase_link (it : iterator) (s : discovery) : res ld_fault discovery :=
  _ ← deref_link it s; Ok (set_links (delete it.1 (m_links s)) s).

(** [m_links.insert(link).first]: the node that is already there, if any. *)
Definition insert_link (valid_through : Z) (l : switch_and_port * switch_and_port) (s : discovery) : iterator * discovery :=
  match m_links s !! valid_through with
  | Some (n, _) => ((valid_through, n), s)
  | None => ((valid_through, next_node s),
             Discovery (<[valid_through := (next_node s, l)]> (m_links s)) (m_out_edges s) (S (next_node s)) (c_poll_interval s))
  end.

(** [m_out_edges.erase(key) == 1], in a CHECK. *)
Definition erase_out (key : switch_and_port) (e : ld_fault) (s : discovery) : res ld_fault discovery :=
  match m_out_edges s !! key with
  | Some _ => Ok (set_out (delete key (m_out_edges s)) s)
  | None => Throw e
  end.

(** ** handleBeacon, clearLinkAt, timerEvent *)

(** The clock counts nanoseconds. *)
Definition seconds : Z := 10 ^ 9.

Definition handle_beacon (now : Z) (from to : switch_and_port) (s : discovery) : res ld_fault (discovery * list ld_signal) :=
  let valid_through := now + u32 (c_poll_interval s * 2) * seconds in
  r ← match m_out_edges s !! from with
      | Some it =>
          s ← erase_link it s;
          Ok (set_out (delete to (delete from (m_out_edges s))) s, false)
      | None => Ok (s, true)
      end;
  let i := insert_link valid_through (from, to) r.1 in
  Ok (set_out (<[to := i.1]> (<[from := i.1]> (m_out_edges i.2))) i.2, if r.2 : bool then [linkDiscovered from to] else []).

Definition clear_link_at (source : switch_and_port) (s : discovery) : res ld_fault (discovery * list ld_signal) :=
  match m_out_edges s !! source with
  | None => Ok (s, [])
  | Some it =>
      edge ← deref_link it s;
      target ← (if decide (edge.1 = source) then Ok edge.2
                else _ ← guard_or (bool_decide (edge.2 = source)) ld_assertion; Ok edge.1);
      s ← erase_link it s;
      s ← erase_out source check_failed s;
      s ← erase_out target check_failed s;
      Ok (s, [if sp_ltb source target then linkBroken source target else linkBroken target source; invalidateTraceTree])
  end.

(** [m_links.begin()] *)
Fixpoint first_key {A} (l : list (Z * A)) : option (Z * A) :=
  match l with
  | [] => None
  | e :: l => match first_key l with Some e' => Some (if e'.1 <? e.1 then e' else e) | None => Some e end
  end.
Definition links_begin (s : discovery) : option (Z * (nat * (switch_and_port * switch_and_port))) :=
  first_key (map_to_list (m_links s)).

(** The loop of [timerEvent]; [fuel] is the number of links. *)
Fixpoint expire (fuel : nat) (now : Z) (s : discovery) : res ld_fault (discovery * list ld_signal) :=
  match links_begin s with
  | None => Ok (s, [])
  | Some (t, (n, (source, target))) =>
      if t <? now then
        match fuel with
        | O => Ok (s, [])
        | S fuel =>
            s ← erase_out source ld_assertion s;
            s ← erase_out target ld_assertion s;
            s ← erase_link (t, n) s;
            r ← expire fuel now s;
            Ok (r.1, linkBroken source target :: r.2)
        end
      else Ok (s, [])
  end.

(** ** Sending LLDP *)

Definition mac_number (mac : list Z) : Z := be_val (take 6 mac).

Definition sendLLDP (here : Z) (p : of_port) (s : discovery) : list ld_signal :=
  let lldp := LldpPacket (mac_number (hw_addr p)) here (port_no p) (u16 (c_poll_interval s)) here in
  replicate 3 (packet_out here (port_no p) OFPCML_NO_BUFFER (lldp_bytes lldp)).

Definition link_up (p : of_port) : bool := Z.land (port_state p) OFPPS_LINK_DOWN =? 0.

Definition ld_portUp (here : Z) (p : of_port) (s : discovery) : list ld_signal :=
  if OFPP_MAX <? port_no p then [] else if link_up p then sendLLDP here p s else [].

Definition ld_portModified (here : Z) (p old_port : of_port) (s : discovery) : res ld_fault (discovery * list ld_signal) :=
  if link_up p && negb (link_up old_port) then Ok (s, sendLLDP here p s)
  else if negb (link_up p) && link_up old_port then clear_link_at (SwitchAndPort here (port_no p)) s
  else Ok (s, []).

Definition ld_portDown (here no : Z) (s : discovery) : res ld_fault (discovery * list ld_signal) :=
  clear_link_at (SwitchAndPort here no) s.

Definition poll_all (sws : list switch) (s : discovery) : list ld_signal :=
  concat (map (fun sw => concat (map (fun p => if OFPP_MAX <? port_no p then [] else sendLLDP (sw_id sw) p s) (sw_ports sw))) sws).

Definition timer_event (now : Z) (sws : list switch) (s : discovery) : res ld_fault (discovery * list ld_signal) :=
  r ← expire (size (m_links s)) now s;
  let '(s, out) := r in
  Ok (s, out ++ poll_all sws s).

(** ** The packet that is sent is the packet that is understood *)

Lemma lldp_length l : length (lldp_bytes l) = 50%nat.
Proof. reflexivity. Qed.

Lemma lldp_eth_type l : read_be (lldp_bytes l) 12 2 = LLDP_ETH_TYPE.
Proof. reflexivity. Qed.

Lemma lldp_source l : read_lldp (lldp_bytes l) = SwitchAndPort (u64 (dpid_data l)) (u32 (port_id_sub_component l)).
Proof.
  unfold read_lldp, read_be.
  change (take (Z.to_nat 8) (drop (Z.to_nat 40) (lldp_bytes l))) with (be_bytes 8 (dpid_data l)).
  change (take (Z.to_nat 4) (drop (Z.to_nat 26) (lldp_bytes l))) with (be_bytes 4 (port_id_sub_component l)).
  by rewrite !be_val_bytes.
Qed.

Lemma lldp_parsed l q bd bp :
  exists p, packet_parser (Some (lldp_bytes l)) q bd bp = Ok p /\ parser_wf p /\ pp_data p = lldp_bytes l
    /\ parser_val p eth_type = Some LLDP_ETH_TYPE /\ parser_val p in_port = Some (u32 q).
Proof.
  assert (Hihl : ihl_ok (lldp_bytes l)) by done.
  assert (Hp : exists b, packet_parser (Some (lldp_bytes l)) q bd bp = Ok (Parser (lldp_bytes l) (be_bytes 4 q) bd bp b)
                 /\ bound b eth_type = Some (data_ptr 12) /\ bound b in_port = Some in_port_ptr).
  { unfold packet_parser. rewrite port_bound, res_bind_Ok, lldp_length. unfold parse_l2. rewrite lldp_eth_type.
    eexists. split; [reflexivity|]. split; reflexivity. }
  destruct Hp as (b & E & Hb1 & Hb2). eexists. split; [exact E|]. split; [by eapply packet_parser_wf|]. split; [done|].
  unfold parser_val. cbn [pp_bindings]. rewrite Hb1, Hb2. split; [reflexivity|]. cbn [option_bind mbind]. f_equal.
  unfold field_bytes. cbn [deref pp_in_port]. change (Z.to_nat (blocks in_port)) with 4%nat.
  rewrite take_ge by by rewrite be_bytes_length. rewrite be_val_bytes. by apply Z.mod_mod.
Qed.

Lemma known_in_port : known in_port. Proof. by apply known_by_check. Qed.
Lemma known_eth_type : known eth_type. Proof. by apply known_by_check. Qed.
#[local] Hint Resolve known_in_port known_eth_type : core.

Definition normal_link (a b : switch_and_port) : switch_and_port * switch_and_port :=
  if sp_ltb b a then (b, a) else (a, b).

(** C18: The LLDP packet a switch sends is understood where it arrives.  A packet
    for port [p] of switch [d], whatever the MAC address and the interval, that
    arrives on port [q] of switch [e] is parsed, recognised and dropped with a
    decision that makes no rule, and the beacon that is queued names exactly the
    ports [(d, p)] and [(e, q)], the smaller one first. *)
Theorem lldp_roundtrip d p mac state name s e q bd bp dec :
  in_width 64 d -> in_width 32 p -> in_width 32 q ->
  exists data pkt,
    sendLLDP d (Port p mac state name) s = replicate 3 (packet_out d p OFPCML_NO_BUFFER data)
    /\ packet_parser (Some data) q bd bp = Ok pkt
    /\ discovery_handler e pkt dec
       = Ok (d_return (d_drop (d_idle_timeout 0 dec)), Some (normal_link (SwitchAndPort d p) (SwitchAndPort e q))).
Proof.
  intros Hd Hp Hq. eexists. unfold sendLLDP. cbn [port_no hw_addr]. set (l := LldpPacket _ _ _ _ _).
  destruct (lldp_parsed l q bd bp) as (pkt & E & Hw & Hdata & Ht & Hi). exists pkt. split; [reflexivity|]. split; [exact E|].
  unfold discovery_handler. rewrite (test_num_present pkt eth_type LLDP_ETH_TYPE) by done. cbn [mbind res_bind].
  change (wrap (t_nbits eth_type) LLDP_ETH_TYPE =? wrap (t_nbits eth_type) LLDP_ETH_TYPE) with true. cbn [negb].
  assert (Hser : serialize_to sizeof_lldp pkt = lldp_bytes l).
  { unfold serialize_to, total_bytes. rewrite Hdata, lldp_length. change (Z.to_nat _) with 50%nat. by apply take_ge. }
  rewrite Hser, lldp_length. change (Z.of_nat 50 <? sizeof_lldp) with false. cbn iota.
  unfold watch_num. rewrite (load_num_present pkt in_port (u32 q)) by done. cbn [mbind res_bind].
  rewrite lldp_source. cbn [dpid_data port_id_sub_component l]. rewrite (wrap_small 64 d), (wrap_small 32 p), (wrap_small 32 q) by done.
  change (t_nbits in_port) with 32. rewrite (wrap_small 32 q) by done. unfold normal_link.
  by destruct (sp_ltb (SwitchAndPort e q) (SwitchAndPort d p)).
Qed.

Definition new_discovery (poll_interval : Z) : discovery := Discovery ∅ ∅ 0 poll_interval.

Lemma lldp_roundtrip_witness :
  exists data pkt,
    packet_parser (Some data) 7 0 0 = Ok pkt
    /\ discovery_handler 3 pkt decision_default
       = Ok (d_return (d_drop (d_idle_timeout 0 decision_default)), Some (SwitchAndPort 3 7, SwitchAndPort 5 1)).
Proof.
  destruct (lldp_roundtrip 5 1 [2; 0; 0; 0; 0; 1] 0 EmptyString (new_discovery 120) 3 7 0 0 decision_default)
    as (data & pkt & _ & E & Hh); [unfold in_width; lia..|].
  exists data, pkt. split; [exact E|exact Hh].
Defined.

(** ** What link discovery promises

    The abstract state is the set of links with their deadlines.  A beacon
    renews or discovers a link, a port that goes down breaks the link at it, and
    the timer breaks the links whose deadline has passed. *)

Inductive ld_op :=
| op_beacon (now : Z) (from to : switch_and_port)
| op_port_gone (a : switch_and_port)
| op_timer (now : Z) (sws : list switch).

Definition ld_step (op : ld_op) (s : discovery) : res ld_fault (discovery * list ld_signal) :=
  match op with
  | op_beacon now from to => handle_beacon now from to s
  | op_port_gone a => clear_link_at a s
  | op_timer now sws => timer_event now sws s
  end.

Fixpoint ld_run (ops : list ld_op) (s : discovery) : res ld_fault (discovery * list ld_signal) :=
  match ops with
  | [] => Ok (s, [])
  | op :: ops => r1 ← ld_step op s; r2 ← ld_run ops r1.1; Ok (r2.1, r1.2 ++ r2.2)
  end.

Abbreviation links_spec := (gmap (switch_and_port * switch_and_port) Z).

Definition is_packet_out (x : ld_signal) : bool := match x with packet_out _ _ _ _ => true | _ => false end.

Section refinement.
(** The wiring: every port is connected to at most one other. *)
Variable peer : switch_and_port -> switch_and_port.
Hypothesis peer_peer : forall a, peer (peer a) = a.
Hypothesis peer_other : forall a, peer a <> a.
(** Two polling intervals, in nanoseconds. *)
Variable lifetime : Z.

Definition link_at (a : switch_and_port) : switch_and_port * switch_and_port := normal_link a (peer a).

Inductive spec_step (A : links_spec) : ld_op -> list ld_signal -> links_spec -> Prop :=
| spec_beacon now a :
    spec_step A (op_beacon now (link_at a).1 (link_at a).2)
      (if decide (is_Some (A !! link_at a)) then [] else [linkDiscovered (link_at a).1 (link_at a).2])
      (<[link_at a := now + lifetime]> A)
| spec_port_gone a :
    spec_step A (op_port_gone a)
      (if decide (is_Some (A !! link_at a)) then [linkBroken (link_at a).1 (link_at a).2; invalidateTraceTree] else [])
      (delete (link_at a) A)
| spec_timer now sws expired polls :
    NoDup expired -> (forall l, l ∈ expired <-> exists t, A !! l = Some t /\ t < now) -> forallb is_packet_out polls = true ->
    spec_step A (op_timer now sws) (map (fun l => linkBroken l.1 l.2) expired ++ polls) (filter (fun e => now <= e.2) A).

Inductive spec_run : links_spec -> list ld_op -> list ld_signal -> links_spec -> Prop :=
| spec_nil A : spec_run A [] [] A
| spec_cons A op out A' ops out' A'' :
    spec_step A op out A' -> spec_run A' ops out' A'' -> spec_run A (op :: ops) (out ++ out') A''.

Lemma sp_ltb_asym a b : sp_ltb a b = true -> sp_ltb b a = false.
Proof. unfold sp_ltb. rewrite orb_true_iff, orb_false_iff, !andb_true_iff, andb_false_iff. intros; split; lia. Qed.

Lemma sp_ltb_total a b : sp_ltb a b = false -> sp_ltb b a = false -> a = b.
Proof.
  destruct a as [d p], b as [e q]. unfold sp_ltb. cbn. rewrite !orb_false_iff, !andb_false_iff. intros. f_equal; lia.
Qed.

Lemma link_at_cases a : link_at a = (a, peer a) \/ link_at a = (peer a, a).
Proof. unfold link_at, normal_link. destruct (sp_ltb (peer a) a); auto. Qed.

Lemma link_at_peer a : link_at (peer a) = link_at a.
Proof.
  unfold link_at, normal_link. rewrite peer_peer. destruct (sp_ltb a (peer a)) eqn:E1, (sp_ltb (peer a) a) eqn:E2; try done.
  - by rewrite (sp_ltb_asym _ _ E1) in E2.
  - by destruct (peer_other a (sp_ltb_total _ _ E2 E1)).
Qed.

(** A link is determined by any of its ends. *)
Lemma link_at_end a b : a = (link_at b).1 \/ a = (link_at b).2 -> link_at b = link_at a.
Proof. destruct (link_at_cases b) as [E|E]; rewrite E; cbn; intros [-> | ->]; by rewrite ?link_at_peer, E. Qed.

Lemma link_at_ends a : a = (link_at a).1 \/ a = (link_at a).2.
Proof. destruct (link_at_cases a) as [E|E]; rewrite E; cbn; auto. Qed.

Lemma link_at_order a : sp_ltb (link_at a).1 (link_at a).2 = true.
Proof.
  unfold link_at, normal_link. destruct (sp_ltb (peer a) a) eqn:E; [done|]. cbn.
  destruct (sp_ltb a (peer a)) eqn:E2; [done|]. by destruct (peer_other a (sp_ltb_total _ _ E E2)).
Qed.

Record refines (last : Z) (L : gmap Z (nat * (switch_and_port * switch_and_port))) (O : gmap switch_and_port iterator)
    (A : links_spec) : Prop := {
  rf_links l t : A !! l = Some t <-> exists n, L !! t = Some (n, l);
  rf_out a t n : O !! a = Some (t, n) <-> exists l, L !! t = Some (n, l) /\ (a = l.1 \/ a = l.2);
  rf_wired l t : A !! l = Some t -> exists a, l = link_at a;
  rf_last l t : A !! l = Some t -> t <= last + lifetime;
}.

Lemma refines_end last L O A l t a : refines last L O A -> A !! l = Some t -> a = l.1 \/ a = l.2 -> l = link_at a.
Proof. intros HR Hl Ha. destruct (rf_wired _ _ _ _ HR l t Hl) as [b ->]. by apply link_at_end. Qed.

Lemma refines_out last L O A a t n :
  refines last L O A -> O !! a = Some (t, n) -> L !! t = Some (n, link_at a) /\ A !! link_at a = Some t.
Proof.
  intros HR (l & Hl & Ha)%(rf_out _ _ _ _ HR). assert (HA : A !! l = Some t) by (apply (rf_links _ _ _ _ HR); eauto).
  by rewrite <- (refines_end _ _ _ _ _ _ _ HR HA Ha).
Qed.

Lemma refines_known last L O A a t :
  refines last L O A -> A !! link_at a = Some t ->
  exists n, L !! t = Some (n, link_at a) /\ O !! (link_at a).1 = Some (t, n) /\ O !! (link_at a).2 = Some (t, n).
Proof.
  intros HR HA. destruct (proj1 (rf_links _ _ _ _ HR _ _) HA) as [n Hn]. exists n. split; [done|].
  split; apply (rf_out _ _ _ _ HR); eauto.
Qed.

Lemma refines_unknown last L O A a : refines last L O A -> A !! link_at a = None -> O !! a = None.
Proof. intros HR HA. destruct (O !! a) as [[t n]|] eqn:E; [|done]. destruct (refines_out _ _ _ _ _ _ _ HR E). congruence. Qed.

Lemma refines_remove last L O A a t x y :
  refines last L O A -> A !! link_at a = Some t -> link_at a = (x, y) \/ link_at a = (y, x) ->
  refines last (delete t L) (delete y (delete x O)) (delete (link_at a) A).
Proof.
  intros HR HA Hxy. destruct (proj1 (rf_links _ _ _ _ HR _ _) HA) as [n0 Hn0].
  assert (Hends : forall b, b = (link_at a).1 \/ b = (link_at a).2 <-> b = x \/ b = y).
  { intros b. destruct Hxy as [-> | ->]; cbn; tauto. }
  split.
  - intros l t'. rewrite lookup_delete_Some. split.
    + intros [Hne Hl]. destruct (proj1 (rf_links _ _ _ _ HR _ _) Hl) as [n Hn]. exists n. apply lookup_delete_Some. split; [|done].
      intros <-. congruence.
    + intros [n [Hne Hn]%lookup_delete_Some]. assert (Hl : A !! l = Some t') by (apply (rf_links _ _ _ _ HR); eauto).
      split; [intros <-; congruence|done].
  - intros b t' n. rewrite !lookup_delete_Some, (rf_out _ _ _ _ HR). split.
    + intros (Hy & Hx & l & Hl & Hb). exists l. split; [|done]. apply lookup_delete_Some. split; [|done]. intros <-.
      assert (l = link_at a) as -> by congruence. apply Hends in Hb as [-> | ->]; [by apply Hx|by apply Hy].
    + intros (l & [Hne Hl]%lookup_delete_Some & Hb). assert (HAl : A !! l = Some t') by (apply (rf_links _ _ _ _ HR); eauto).
      assert (Hnot : ~ (b = x \/ b = y)).
      { intros Hbx%Hends. rewrite (refines_end _ _ _ _ _ _ _ HR HAl Hb), <- (link_at_end b a Hbx) in HAl. congruence. }
      split_and!; [by intros ->; apply Hnot; right|by intros ->; apply Hnot; left|eauto].
  - intros l t' [_ Hl]%lookup_delete_Some. by apply (rf_wired _ _ _ _ HR l t').
  - intros l t' [_ Hl]%lookup_delete_Some. by apply (rf_last _ _ _ _ HR l t').
Qed.

Lemma refines_fresh last now L O A : refines last L O A -> last < now -> L !! (now + lifetime) = None.
Proof.
  intros HR Hnow. destruct (L !! (now + lifetime)) as [[n' l]|] eqn:E; [|done].
  assert (Hl : A !! l = Some (now + lifetime)) by (apply (rf_links _ _ _ _ HR); eauto). apply (rf_last _ _ _ _ HR) in Hl. lia.
Qed.

Lemma refines_insert last now L O A a n :
  refines last L O A -> A !! link_at a = None -> last < now ->
  let it := (now + lifetime, n) in
  refines now (<[now + lifetime := (n, link_at a)]> L) (<[(link_at a).2 := it]> (<[(link_at a).1 := it]> O))
    (<[link_at a := now + lifetime]> A).
Proof.
  intros HR HA Hnow it. pose proof (refines_fresh _ _ _ _ _ HR Hnow) as Hfresh.
  split.
  - intros l t. rewrite lookup_insert_Some. split.
    + intros [[<- <-]|[Hne Hl]]; [exists n; by rewrite lookup_insert_eq|].
      destruct (proj1 (rf_links _ _ _ _ HR _ _) Hl) as [n' Hn']. exists n'. rewrite lookup_insert_ne; [done|]. congruence.
    + intros [n' [[<- [= <- <-]]|[Hne Hn']]%lookup_insert_Some]; [by left|]. right.
      assert (Hl : A !! l = Some t) by (apply (rf_links _ _ _ _ HR); eauto). split; [congruence|done].
  - intros b t n'. rewrite !lookup_insert_Some, (rf_out _ _ _ _ HR). split.
    + intros [[<- [= <- <-]]|[Hne [[<- [= <- <-]]|[Hne' (l & Hl & Hb)]]]].
      * exists (link_at a). rewrite lookup_insert_eq. auto.
      * exists (link_at a). rewrite lookup_insert_eq. auto.
      * exists l. rewrite lookup_insert_ne by congruence. done.
    + intros (l & [[<- [= <- <-]]|[Hne Hl]]%lookup_insert_Some & Hb).
      * destruct Hb as [-> | ->]; [|by left]. destruct (decide ((link_at a).2 = (link_at a).1)); [by left|right; split; [done|by left]].
      * assert (HAl : A !! l = Some t) by (apply (rf_links _ _ _ _ HR); eauto).
        assert (Hl' : l <> link_at a) by congruence.
        assert (Hnot : forall c, c = (link_at a).1 \/ c = (link_at a).2 -> c <> b).
        { intros c Hc ->. apply Hl'. rewrite (refines_end _ _ _ _ _ _ _ HR HAl Hb). symmetry. by apply link_at_end. }
        right. split; [apply Hnot; auto|]. right. split; [apply Hnot; auto|]. eauto.
  - intros l t [[<- _]|[_ Hl]]%lookup_insert_Some; [eauto|by apply (rf_wired _ _ _ _ HR l t)].
  - intros l t [[_ <-]|[_ Hl]]%lookup_insert_Some; [lia|]. apply (rf_last _ _ _ _ HR) in Hl. lia.
Qed.

Definition refines_state (last : Z) (s : discovery) (A : links_spec) : Prop :=
  refines last (m_links s) (m_out_edges s) A /\ u32 (c_poll_interval s * 2) * seconds = lifetime.

Lemma erase_out_ok a e it s :
  m_out_edges s !! a = Some it -> erase_out a e s = Ok (set_out (delete a (m_out_edges s)) s).
Proof. unfold erase_out. by intros ->. Qed.

Lemma beacon_refines last now a s A :
  refines_state last s A -> last < now ->
  exists s' out A', handle_beacon now (link_at a).1 (link_at a).2 s = Ok (s', out)
    /\ spec_step A (op_beacon now (link_at a).1 (link_at a).2) out A' /\ refines_state now s' A'.
Proof.
  intros [HR Hlt] Hnow. unfold handle_beacon. rewrite Hlt. destruct (A !! link_at a) as [t|] eqn:EA.
  - destruct (refines_known _ _ _ _ _ _ HR EA) as (n & HL & HO1 & _). rewrite HO1. unfold erase_link, deref_link. cbn.
    rewrite HL, Nat.eqb_refl. cbn.
    pose proof (refines_remove _ _ _ _ a t (link_at a).1 (link_at a).2 HR EA (or_introl (surjective_pairing _))) as HR1.
    unfold insert_link. cbn. rewrite (refines_fresh _ _ _ _ _ HR1 Hnow). do 3 eexists. split; [reflexivity|].
    split; [|split; [|done]].
    + pose proof (spec_beacon A now a) as Hs. rewrite decide_True in Hs by eauto. exact Hs.
    + pose proof (refines_insert _ now _ _ _ a (next_node s) HR1 (lookup_delete_eq _ _) Hnow) as HR2.
      rewrite insert_delete_eq in HR2. cbn. rewrite <- surjective_pairing. exact HR2.
  - rewrite (refines_unknown _ _ _ _ (link_at a).1 HR) by (by rewrite <- (link_at_end _ a); [|left]). cbn.
    unfold insert_link. rewrite (refines_fresh _ _ _ _ _ HR Hnow). do 3 eexists. split; [reflexivity|]. split; [|split; [|done]].
    + pose proof (spec_beacon A now a) as Hs. rewrite decide_False in Hs by (rewrite EA; by intros [? ?]). exact Hs.
    + cbn. rewrite <- surjective_pairing. by apply refines_insert with (last := last).
Qed.

Lemma port_gone_refines last a s A :
  refines_state last s A ->
  exists s' out A', clear_link_at a s = Ok (s', out) /\ spec_step A (op_port_gone a) out A' /\ refines_state last s' A'.
Proof.
  intros [HR Hlt]. unfold clear_link_at. pose proof (spec_port_gone A a) as Hs. destruct (A !! link_at a) as [t|] eqn:EA.
  - rewrite decide_True in Hs by eauto. destruct (refines_known _ _ _ _ _ _ HR EA) as (n & HL & HO1 & HO2).
    assert (HOa : m_out_edges s !! a = Some (t, n)) by (destruct (link_at_ends a) as [E|E]; rewrite E; done).
    assert (HOp : m_out_edges s !! peer a = Some (t, n)).
    { rewrite <- (link_at_peer a) in HO1, HO2. destruct (link_at_ends (peer a)) as [E|E]; rewrite E; done. }
    rewrite HOa. unfold deref_link at 1. cbn [fst snd]. rewrite HL, Nat.eqb_refl. rewrite res_bind_Ok.
    assert (Htgt : (if decide ((link_at a).1 = a) then Ok (link_at a).2
                    else guard_or (bool_decide ((link_at a).2 = a)) ld_assertion ≫= fun _ => Ok (link_at a).1) = Ok (peer a)).
    { destruct (link_at_cases a) as [E|E]; rewrite E; cbn [fst snd]; [by rewrite decide_True|].
      rewrite decide_False by apply peer_other. by rewrite bool_decide_true. }
    rewrite Htgt, res_bind_Ok. unfold erase_link, deref_link. cbn [fst snd]. rewrite HL, Nat.eqb_refl, !res_bind_Ok.
    rewrite (erase_out_ok a _ (t, n) _), res_bind_Ok by exact HOa.
    rewrite (erase_out_ok _ _ (t, n)), res_bind_Ok
      by (cbn; rewrite lookup_delete_ne; [done|intros E; by apply (peer_other a)]). do 3 eexists. split; [reflexivity|]. split.
    + replace (if sp_ltb a (peer a) then linkBroken a (peer a) else linkBroken (peer a) a)
        with (linkBroken (link_at a).1 (link_at a).2); [exact Hs|].
      pose proof (link_at_order a) as Ho. destruct (link_at_cases a) as [E|E]; rewrite E in Ho |- *; cbn in Ho |- *.
      * by rewrite Ho.
      * by rewrite (sp_ltb_asym _ _ Ho).
    + split; [|done]. cbn. apply refines_remove; [done|done|]. apply link_at_cases.
  - rewrite (refines_unknown _ _ _ _ a HR EA). do 3 eexists. split; [reflexivity|].
    rewrite decide_False in Hs by (by intros [? ?]). split; [exact Hs|]. by rewrite delete_id.
Qed.

Lemma first_key_ok {A} (l : list (Z * A)) :
  match first_key l with None => l = [] | Some e => e ∈ l /\ forall e', e' ∈ l -> e.1 <= e'.1 end.
Proof.
  induction l as [|e l IH]; [done|]. cbn. destruct (first_key l) as [e0|].
  - destruct IH as [Hin Hmin]. destruct (Z.ltb_spec e0.1 e.1).
    + split; [by right|]. intros e' [-> |He]%elem_of_cons; [lia|auto].
    + split; [by left|]. intros e' [-> |He]%elem_of_cons; [lia|]. specialize (Hmin e' He). lia.
  - subst. split; [by left|]. intros e' [-> |He]%elem_of_cons; [lia|by apply not_elem_of_nil in He].
Qed.

Lemma links_begin_ok s :
  match links_begin s with
  | None => m_links s = ∅
  | Some (t, x) => m_links s !! t = Some x /\ forall t' x', m_links s !! t' = Some x' -> t <= t'
  end.
Proof.
  unfold links_begin. pose proof (first_key_ok (map_to_list (m_links s))) as H. destruct (first_key _) as [[t x]|].
  - destruct H as [Hin Hmin]. split; [by apply elem_of_map_to_list|]. intros t' x' Ht. apply (Hmin (t', x')). by apply elem_of_map_to_list.
  - by apply map_to_list_empty_iff.
Qed.

Lemma expire_refines fuel last now s A :
  refines_state last s A -> (size (m_links s) <= fuel)%nat ->
  exists s' expired, expire fuel now s = Ok (s', map (fun l => linkBroken l.1 l.2) expired)
    /\ NoDup expired /\ (forall l, l ∈ expired <-> exists t, A !! l = Some t /\ t < now)
    /\ refines_state last s' (filter (fun e => now <= e.2) A) /\ c_poll_interval s' = c_poll_interval s.
Proof.
  revert s A. induction fuel as [|fuel IH]; intros s A [HR Hlt] Hf.
  all: pose proof (links_begin_ok s) as Hb; cbn [expire].
  all: destruct (links_begin s) as [[t [n [x y]]]|].
  all: try (destruct Hb as [Ht Hmin]; destruct (Z.ltb_spec t now) as [Hexp|Hge]).
  all: try (exfalso; pose proof (map_size_non_empty_iff (m_links s)) as Hs; destruct Hs as [_ Hs]; specialize (Hs ltac:(intros E; rewrite E in Ht; by rewrite lookup_empty in Ht)); lia).
  all: try (exists s, []; split; [reflexivity|]; split; [constructor|]; split; [|split; [split; [|done]|done]]).
  all: try (intros l; split; [intros Hl; by apply not_elem_of_nil in Hl|]; intros (t' & Hl & Hlt'); exfalso;
    apply (rf_links _ _ _ _ HR) in Hl as [n' Hn']; first [specialize (Hmin _ _ Hn'); lia|rewrite Hb in Hn'; by rewrite lookup_empty in Hn']).
  all: try (rewrite map_filter_id; [done|]; intros l t' Hl; cbn; apply (rf_links _ _ _ _ HR) in Hl as [n' Hn'];
    first [specialize (Hmin _ _ Hn'); lia|rewrite Hb in Hn'; by rewrite lookup_empty in Hn']).
  assert (HA : A !! (x, y) = Some t) by (apply (rf_links _ _ _ _ HR); eauto).
  destruct (rf_wired _ _ _ _ HR _ _ HA) as [a Ea]. rewrite Ea in HA.
  destruct (refines_known _ _ _ _ _ _ HR HA) as (n' & HL & HO1 & HO2). assert (n' = n) as -> by congruence.
  rewrite <- Ea in HO1, HO2. cbn in HO1, HO2.
  assert (Hne : x <> y). { pose proof (link_at_order a) as Ho. rewrite <- Ea in Ho. cbn in Ho. intros ->. by rewrite (sp_ltb_asym _ _ Ho) in Ho. }
  rewrite (erase_out_ok x _ (t, n)), res_bind_Ok by done.
  rewrite (erase_out_ok y _ (t, n)), res_bind_Ok by (cbn; by rewrite lookup_delete_ne).
  unfold erase_link, deref_link. cbn [fst snd m_links set_out]. rewrite Ht, Nat.eqb_refl, !res_bind_Ok.
  pose proof (refines_remove _ _ _ _ a t x y HR HA (or_introl (eq_sym Ea))) as HR1.
  match goal with |- context [expire fuel now ?s1] => destruct (IH s1 (delete (link_at a) A)) as (s' & ls & -> & Hnd & Hls & HR' & Hc) end.
  { split; [exact HR1|done]. }
  { cbn. rewrite map_size_delete_Some by eauto. lia. }
  rewrite res_bind_Ok. exists s', ((x, y) :: ls). split; [reflexivity|]. split; [|split; [|split; [|done]]].
  - constructor; [|done]. rewrite Hls. intros (t' & Hd & _). rewrite Ea in Hd. by rewrite lookup_delete_eq in Hd.
  - intros l. rewrite elem_of_cons, Hls. rewrite Ea. split.
    + intros [-> |(t' & [_ Hl]%lookup_delete_Some & Hlt')]; eauto.
    + intros (t' & Hl & Hlt'). destruct (decide (l = link_at a)) as [->|Hn]; [by left|]. right. exists t'.
      by rewrite lookup_delete_ne.
  - replace (filter (fun e => now <= e.2) A) with (filter (fun e => now <= e.2) (delete (link_at a) A)); [done|].
    apply map_eq. intros l. rewrite map_filter_delete. destruct (decide (l = link_at a)) as [->|Hn].
    + rewrite lookup_delete_eq. symmetry. apply map_lookup_filter_None_2. right. intros t' Hl. cbn. assert (t' = t) as -> by congruence. lia.
    + by rewrite lookup_delete_ne.
Qed.

Lemma polls_are_packets sws s : forallb is_packet_out (poll_all sws s) = true.
Proof.
  apply forallb_forall. intros x Hx. unfold poll_all in Hx.
  apply in_concat in Hx as (l & (sw & <- & _)%in_map_iff & Hx). apply in_concat in Hx as (l & (p & <- & _)%in_map_iff & Hx).
  destruct (OFPP_MAX <? port_no p); [done|]. apply list_elem_of_In, elem_of_replicate_inv in Hx as ->. done.
Qed.

(** The operations of a run: beacons come from the wiring and the clock shows a
    later time for each. *)
Fixpoint ops_ok (last : Z) (ops : list ld_op) : Prop :=
  match ops with
  | [] => True
  | op_beacon now from to :: ops => last < now /\ (exists a, (from, to) = link_at a) /\ ops_ok now ops
  | _ :: ops => ops_ok last ops
  end.

Lemma ld_run_refines ops last s A :
  refines_state last s A -> ops_ok last ops ->
  exists s' out A' last', ld_run ops s = Ok (s', out) /\ spec_run A ops out A' /\ refines_state last' s' A'.
Proof.
  revert last s A. induction ops as [|op ops IH]; intros last s A HR Hok.
  { exists s, [], A, last. split; [done|]. split; [constructor|done]. }
  assert (Hstep : exists s1 out1 A1 last1, ld_step op s = Ok (s1, out1) /\ spec_step A op out1 A1 /\ refines_state last1 s1 A1
            /\ ops_ok last1 ops).
  { destruct op as [now from to|a|now sws]; cbn in Hok |- *.
    - destruct Hok as (Hnow & [a Ea] & Hok). destruct (beacon_refines last now a s A HR Hnow) as (s1 & o1 & A1 & E & Hs & HR1).
      rewrite <- Ea in E, Hs. cbn in E, Hs. by exists s1, o1, A1, now.
    - destruct (port_gone_refines last a s A HR) as (s1 & o1 & A1 & E & Hs & HR1). by exists s1, o1, A1, last.
    - destruct (expire_refines (size (m_links s)) last now s A HR) as (s1 & ls & E & Hnd & Hls & HR1 & _); [done|].
      unfold timer_event. rewrite E, res_bind_Ok. do 3 eexists. exists last. split; [reflexivity|]. split; [|done].
      apply spec_timer; [done|done|apply polls_are_packets]. }
  destruct Hstep as (s1 & o1 & A1 & last1 & E & Hs & HR1 & Hok1). destruct (IH last1 s1 A1 HR1 Hok1) as (s2 & o2 & A2 & last2 & E2 & Hs2 & HR2).
  exists s2, (o1 ++ o2), A2, last2. cbn. rewrite E, res_bind_Ok. cbn [fst]. rewrite E2, res_bind_Ok. split; [done|]. split; [|done].
  by apply spec_cons with (A' := A1).
Qed.
End refinement.

(** ** The signals tell which links there are *)

(** A listener that is stuck when a known link is discovered or an unknown one
    breaks. *)
Definition link_hear (x : ld_signal) (k : gset (switch_and_port * switch_and_port)) : option (gset (switch_and_port * switch_and_port)) :=
  match x with
  | linkDiscovered a b => guard ((a, b) ∉ k) ;; Some ({[(a, b)]} ∪ k)
  | linkBroken a b => guard ((a, b) ∈ k) ;; Some (k ∖ {[(a, b)]})
  | _ => Some k
  end.
Fixpoint link_hear_all (xs : list ld_signal) (k : gset (switch_and_port * switch_and_port)) : option (gset (switch_and_port * switch_and_port)) :=
  match xs with [] => Some k | x :: xs => link_hear x k ≫= link_hear_all xs end.

Lemma link_hear_app xs ys k : link_hear_all (xs ++ ys) k = link_hear_all xs k ≫= link_hear_all ys.
Proof. revert k. induction xs as [|x xs IH]; intros k; cbn; [done|]. destruct (link_hear x k); cbn; [apply IH|done]. Qed.

Lemma link_hear_packets xs k : forallb is_packet_out xs = true -> link_hear_all xs k = Some k.
Proof. induction xs as [|x xs IH]; cbn; [done|]. destruct x; cbn; try done. Qed.

Lemma link_hear_broken ls k :
  NoDup ls -> (forall l, l ∈ ls -> l ∈ k) ->
  link_hear_all (map (fun l => linkBroken l.1 l.2) ls) k = Some (k ∖ list_to_set ls).
Proof.
  intros Hnd. revert k. induction Hnd as [|l ls Hl Hnd IH]; intros k Hk; cbn.
  - f_equal. set_solver.
  - rewrite <- surjective_pairing. rewrite option_guard_True by (apply Hk; by left). cbn. rewrite IH.
    + f_equal. set_solver.
    + intros l' Hl'. apply elem_of_difference. split; [apply Hk; by right|]. rewrite elem_of_singleton. intros ->. done.
Qed.

Lemma spec_step_heard peer T A op out A' :
  spec_step peer T A op out A' -> link_hear_all out (dom A) = Some (dom A').
Proof.
  destruct 1 as [now a|a|now sws expired polls Hnd Hex Hp].
  - rewrite dom_insert_L. case_decide as Hd; cbn.
    + f_equal. assert (link_at peer a ∈ dom A) by by apply elem_of_dom. set_solver.
    + rewrite <- surjective_pairing. rewrite option_guard_True by (by rewrite elem_of_dom). done.
  - rewrite dom_delete_L. case_decide as Hd; cbn.
    + rewrite <- surjective_pairing. rewrite option_guard_True by (by apply elem_of_dom). done.
    + f_equal. assert (link_at peer a ∉ dom A) by by rewrite elem_of_dom. set_solver.
  - rewrite link_hear_app, link_hear_broken; [|done|]. 
    + cbn. rewrite link_hear_packets by done. f_equal. apply set_eq. intros l.
      rewrite elem_of_difference, elem_of_list_to_set, Hex, !elem_of_dom. split.
      * intros [[t Ht] Hn]. exists t. apply map_lookup_filter_Some. split; [done|]. cbn. destruct (Z.le_gt_cases now t); [done|].
        exfalso. apply Hn. exists t. split; [done|lia].
      * intros [t [Ht Hle]%map_lookup_filter_Some]. cbn in Hle. split; [by exists t|]. intros (t' & Ht' & Hlt). rewrite Ht in Ht'.
        injection Ht' as ->. lia.
    + intros l (t & Ht & _)%Hex. apply elem_of_dom. eauto.
Qed.

Lemma spec_run_heard peer T A ops out A' :
  spec_run peer T A ops out A' -> link_hear_all out (dom A) = Some (dom A').
Proof.
  induction 1 as [A|A op o A1 ops o1 A2 H1 _ IH]; [done|]. rewrite link_hear_app, (spec_step_heard _ _ _ _ _ _ H1). exact IH.
Qed.

(** C12: Link discovery implements its specification.  When every port is wired to
    at most one other and the clock shows a later time for each beacon, any
    sequence of beacons, ports that go down and timer ticks runs without a failed
    check, assertion or dangling iterator, and does what the abstract set of
    links with deadlines does: a link is discovered by its first beacon, renewed
    by the next ones for two polling intervals, and broken exactly when one of its
    ports goes down or the timer finds it expired.  A listener that follows the
    signals, and would get stuck if a known link were discovered or an unknown one
    broke, knows exactly the links that are kept. *)
Theorem link_discovery_refines peer poll ops last :
  (forall a, peer (peer a) = a) -> (forall a, peer a <> a) -> ops_ok peer last ops ->
  exists s out A, ld_run ops (new_discovery poll) = Ok (s, out)
    /\ spec_run peer (u32 (poll * 2) * seconds) ∅ ops out A
    /\ (forall l t, A !! l = Some t <-> exists n, m_links s !! t = Some (n, l))
    /\ link_hear_all out ∅ = Some (dom A).
Proof.
  intros Hpp Hpo Hok. assert (H0 : refines_state peer (u32 (poll * 2) * seconds) last (new_discovery poll) ∅).
  { split; [|done]. split; cbn; [intros l t; rewrite !lookup_empty; split; [done|by intros [? ?]]| |by intros|by intros].
    intros a t n. rewrite lookup_empty. split; [done|]. intros (l & Hl & _). by rewrite lookup_empty in Hl. }
  destruct (ld_run_refines peer Hpp Hpo _ ops last _ _ H0 Hok) as (s & out & A & last' & E & Hs & HR & _).
  exists s, out, A. split; [done|]. split; [done|]. split; [by apply (rf_links _ _ _ _ _ _ HR)|].
  pose proof (spec_run_heard _ _ _ _ _ _ Hs) as Hh. by rewrite dom_empty_L in Hh.
Qed.

(** Ports with the same number of switches [2 k] and [2 k + 1] are connected. *)
Definition sample_peer (a : switch_and_port) : switch_and_port := SwitchAndPort (Z.lxor (dpid a) 1) (port a).

Definition sample_ops : list ld_op :=
  [op_beacon 1 (SwitchAndPort 2 1) (SwitchAndPort 3 1); op_beacon 2 (SwitchAndPort 2 5) (SwitchAndPort 3 5);
   op_beacon (100 * seconds) (SwitchAndPort 2 1) (SwitchAndPort 3 1); op_timer (241 * seconds) [];
   op_port_gone (SwitchAndPort 3 1)].

Lemma link_discovery_refines_witness :
  exists s out, ld_run sample_ops (new_discovery 120) = Ok (s, out) /\ link_hear_all out ∅ = Some ∅
    /\ out = [linkDiscovered (SwitchAndPort 2 1) (SwitchAndPort 3 1); linkDiscovered (SwitchAndPort 2 5) (SwitchAndPort 3 5);
              linkBroken (SwitchAndPort 2 5) (SwitchAndPort 3 5); linkBroken (SwitchAndPort 2 1) (SwitchAndPort 3 1);
              invalidateTraceTree].
Proof.
  destruct (link_discovery_refines sample_peer 120 sample_ops 0) as (s & out & A & E & _ & _ & Hh).
  - intros [d p]. unfold sample_peer. cbn. by rewrite Z.lxor_assoc, Z.lxor_nilpotent, Z.lxor_0_r.
  - intros [d p] Ha. injection Ha as Ha. apply (f_equal (fun x => Z.testbit x 0)) in Ha. rewrite Z.lxor_spec in Ha.
    by destruct (Z.testbit d 0).
  - cbn. split_and!; try lia; try (eexists; reflexivity).
    + by exists (SwitchAndPort 2 1).
    + by exists (SwitchAndPort 2 5).
    + by exists (SwitchAndPort 2 1).
  - exists s, out. split; [exact E|]. vm_compute in E. injection E as <- <-. split; [vm_compute; reflexivity|reflexivity].
Defined.

(** What the wiring and the clock are needed for.  A port that hears its own
    LLDP packet is discovered as a link to itself, and when it goes down the
    second CHECK fails and the controller aborts.  When a cable is moved, the new
    link is not announced, the old one is not reported as broken, and the port it
    left keeps an iterator to a node that is gone, used when that port goes down.
    Of two beacons at one clock tick, the second link's ports point at the first
    link, and the assertion fails when one goes down. *)
Theorem unwired_ports_fail :
  let a := SwitchAndPort 1 1 in let b := SwitchAndPort 2 1 in let c := SwitchAndPort 3 1 in let d := SwitchAndPort 4 1 in
  ld_run [op_beacon 1 a a; op_port_gone a] (new_discovery 120) = Throw check_failed
  /\ (exists s, ld_run [op_beacon 1 a b; op_beacon 2 a c] (new_discovery 120) = Ok (s, [linkDiscovered a b])
        /\ ld_step (op_port_gone b) s = Throw dangling_iterator)
  /\ ld_run [op_beacon 1 a b; op_beacon 1 c d; op_port_gone c] (new_discovery 120) = Throw ld_assertion.
Proof. vm_compute. split_and!; [reflexivity|eexists; split; reflexivity|reflexivity]. Qed.
