(* ===== verification/Topology.v ===== *)
(** * The topology (src/Topology.cc, Topology.hh)

    The application keeps a graph of the switches with the discovered links as
    edges, and computes routes in it.  The graph algorithms are Boost's: a
    shortest-path tree is a parameter of [computeRoute], with its documented
    behaviour. *)

From S2P Require Import Prelude Events LinkDiscovery.
Local Open Scope Z_scope.

(** ** The graph

    [adjacency_list] with [vecS]: a vertex is an index, and the edges are in the
    order of their insertion, also around each vertex. *)

Record link_property := LinkProperty { lp_source : switch_and_port; lp_target : switch_and_port; lp_weight : Z }.
Record edge := Edge { e_src : nat; e_dst : nat; e_prop : link_property }.

Definition joins (u v : nat) (e : edge) : bool :=
  (Nat.eqb (e_src e) u && Nat.eqb (e_dst e) v) || (Nat.eqb (e_src e) v && Nat.eqb (e_dst e) u).

(** [edge(u, v, graph)]: the first edge between the vertices. *)
Definition find_edge (u v : nat) (es : list edge) : option edge := List.find (joins u v) es.

(** [remove_edge(u, v, graph)]: all edges between the vertices. *)
Definition remove_edges (u v : nat) (es : list edge) : list edge := List.filter (fun e => negb (joins u v e)) es.

(** ** State

    A [Link] is known by its address, which is never 0, the null pointer. *)

Record link := Link { l_source : switch_and_port; l_target : switch_and_port; l_weight : Z; l_obj_id : Z }.

Record topology := Topology {
  g_vertices : list Z;
  g_edges : list edge;
  vertex_map : gmap Z nat;
  topo : list (nat * link);
  next_address : nat;
}.

Inductive topo_fault := topo_assertion | endless_route.

Definition set_edges (es : list edge) (t : topology) : topology :=
  Topology (g_vertices t) es (vertex_map t) (topo t) (next_address t).
Definition set_topo (ls : list (nat * link)) (next : nat) (t : topology) : topology :=
  Topology (g_vertices t) (g_edges t) (vertex_map t) ls next.

Definition new_topology : topology := Topology [] [] ∅ [] 1.

(** [TopologyImpl::vertex] *)
Definition vertex (d : Z) (t : topology) : res topo_fault (nat * topology) :=
  match vertex_map t !! d with
  | Some v => _ ← guard_or (bool_decide (g_vertices t !! v = Some d)) topo_assertion; Ok (v, t)
  | None =>
      let v := length (g_vertices t) in
      Ok (v, Topology (g_vertices t ++ [d]) (g_edges t) (<[d := v]> (vertex_map t)) (topo t) (next_address t))
  end.

(** [getLink]: its address, or null. *)
Definition getLink (from to : switch_and_port) (t : topology) : nat :=
  match List.find (fun x => (bool_decide (l_source x.2 = from) && bool_decide (l_target x.2 = to))
                       || (bool_decide (l_source x.2 = to) && bool_decide (l_target x.2 = from))) (topo t) with
  | Some x => x.1
  | None => O
  end.

(** [linkDiscovered], with the random number of the new link; the events it
    adds. *)
Definition topo_linkDiscovered (from to : switch_and_port) (random : Z) (t : topology)
  : res topo_fault (topology * list (EventType * nat)) :=
  if dpid from =? dpid to then Ok (t, [])
  else
    r1 ← vertex (dpid from) t;
    r2 ← vertex (dpid to) r1.2;
    let t := set_edges (g_edges r2.2 ++ [Edge r1.1 r2.1 (LinkProperty from to 1)]) r2.2 in
    let a := next_address t in
    Ok (set_topo (topo t ++ [(a, Link from to 5 (random mod 1000 + 2000))]) (S a) t, [(Add, a)]).

(** [linkBroken] *)
Definition topo_linkBroken (from to : switch_and_port) (t : topology) : res topo_fault (topology * list (EventType * nat)) :=
  r1 ← vertex (dpid from) t;
  r2 ← vertex (dpid to) r1.2;
  let t := set_edges (remove_edges r1.1 r2.1 (g_edges r2.2)) r2.2 in
  let a := getLink from to t in
  Ok (set_topo (List.filter (fun x => negb (Nat.eqb x.1 a)) (topo t)) (next_address t) t, [(Delete, a)]).

Abbreviation data_link_route := (list switch_and_port).

Section routes.
(** [dijkstra_shortest_paths_no_color_map]: the predecessor map for a graph, its
    number of vertices and a source. *)
Variable dijkstra : nat -> list edge -> nat -> nat -> nat.

(** The loop of [computeRoute]; it ends at a vertex that is its own predecessor. *)
Fixpoint walk_back (fuel : nat) (p : nat -> nat) (v : nat) (t : topology) : res topo_fault data_link_route :=
  if Nat.eqb v (p v) then Ok []
  else
    match fuel with
    | O => Throw endless_route
    | S fuel =>
        match find_edge v (p v) (g_edges t) with
        | None => Throw topo_assertion
        | Some e =>
            let l := e_prop e in
            hop ← (if bool_decide (g_vertices t !! v = Some (dpid (lp_source l))) then
                     _ ← guard_or (bool_decide (g_vertices t !! p v = Some (dpid (lp_target l)))) topo_assertion;
                     Ok [lp_source l; lp_target l]
                   else
                     _ ← guard_or (bool_decide (g_vertices t !! v = Some (dpid (lp_target l)))) topo_assertion;
                     _ ← guard_or (bool_decide (g_vertices t !! p v = Some (dpid (lp_source l)))) topo_assertion;
                     Ok [lp_target l; lp_source l]);
            rest ← walk_back fuel p (p v) t;
            Ok (hop ++ rest)
        end
    end.

(** [computeRoute]; it adds the switches it does not know to the graph.  A walk
    to the root of a tree visits every vertex at most once. *)
Definition computeRoute (from_dpid to_dpid : Z) (t : topology) : res topo_fault (data_link_route * topology) :=
  r1 ← vertex from_dpid t;
  r2 ← vertex to_dpid r1.2;
  let t := r2.2 in
  route ← walk_back (length (g_vertices t)) (dijkstra (length (g_vertices t)) (g_edges t) r2.1) r1.1 t;
  Ok (route, t).
End routes.

(** ** Walks and distances *)

(** A walk of [n] edges. *)
Inductive walk (es : list edge) : nat -> nat -> nat -> Prop :=
| walk_nil u : walk es u u 0
| walk_cons u v w n e : e ∈ es -> joins u v e = true -> walk es v w n -> walk es u w (S n).

Definition distance (es : list edge) (u v n : nat) : Prop :=
  walk es u v n /\ forall m, walk es u v m -> (n <= m)%nat.

(** What Boost documents of the predecessor map, on graphs whose edges all have
    weight 1: the edges [(p[v], v)] are those of a tree of shortest paths to the
    source, and the source and the vertices that do not reach it are their own
    predecessors. *)
Definition shortest_path_tree (n : nat) (es : list edge) (s : nat) (p : nat -> nat) : Prop :=
  p s = s /\ forall v, (v < n)%nat -> v <> s ->
    ((forall k, ~ walk es v s k) /\ p v = v)
    \/ exists k e, distance es v s (S k) /\ e ∈ es /\ joins v (p v) e = true /\ distance es (p v) s k.

Definition unit_graph (n : nat) (es : list edge) : Prop :=
  forall e, e ∈ es -> (e_src e < n)%nat /\ (e_dst e < n)%nat /\ lp_weight (e_prop e) = 1.

Definition dijkstra_ok (dijkstra : nat -> list edge -> nat -> nat -> nat) : Prop :=
  forall n es s, unit_graph n es -> (s < n)%nat -> shortest_path_tree n es s (dijkstra n es s).

(** ** The invariant of the graph *)

Record topo_ok (t : topology) : Prop := {
  to_vertices d v : vertex_map t !! d = Some v <-> g_vertices t !! v = Some d;
  to_edges e : e ∈ g_edges t ->
    g_vertices t !! e_src e = Some (dpid (lp_source (e_prop e))) /\ g_vertices t !! e_dst e = Some (dpid (lp_target (e_prop e)))
    /\ lp_weight (e_prop e) = 1 /\ dpid (lp_source (e_prop e)) <> dpid (lp_target (e_prop e));
  to_addresses x : x ∈ topo t -> (0 < x.1 < next_address t)%nat;
  to_next : (0 < next_address t)%nat;
}.

Lemma new_topology_ok : topo_ok new_topology.
Proof.
  split; cbn; [|intros e He; by apply not_elem_of_nil in He|intros e He; by apply not_elem_of_nil in He|lia].
  intros d v. by rewrite lookup_empty, lookup_nil.
Qed.

(** [t'] has the edges of [t] and perhaps more vertices. *)
Definition extends (t t' : topology) : Prop :=
  (forall u d, g_vertices t !! u = Some d -> g_vertices t' !! u = Some d)
  /\ g_edges t' = g_edges t /\ topo t' = topo t /\ next_address t' = next_address t.

Lemma vertex_ok d t :
  topo_ok t -> exists v t', vertex d t = Ok (v, t') /\ topo_ok t' /\ extends t t' /\ g_vertices t' !! v = Some d.
Proof.
  intros [Hv He Ha Hn]. unfold vertex. destruct (vertex_map t !! d) as [v|] eqn:E.
  - exists v, t. rewrite bool_decide_true by by apply Hv. split; [done|]. split; [by split|]. split; [by split|]. by apply Hv.
  - eexists _, _. split; [reflexivity|].
    assert (Hext : forall u d', g_vertices t !! u = Some d' -> (g_vertices t ++ [d]) !! u = Some d') by (intros; by apply lookup_app_l_Some).
    split; [|split; [by split|]]; cbn; [|by rewrite lookup_app_r, Nat.sub_diag].
    split; cbn; [| |done|done].
    + intros d' v. rewrite lookup_insert_Some, Hv. split.
      * intros [[<- <-]|[_ Hd]]; [by rewrite lookup_app_r, Nat.sub_diag|auto].
      * intros [Hd|[Hge Hd]]%lookup_app_Some.
        -- right. split; [|done]. intros <-. apply Hv in Hd. congruence.
        -- apply list_lookup_singleton_Some in Hd as [Hd <-]. left. split; [done|lia].
    + intros e Hin. destruct (He e Hin) as (? & ? & ? & ?). split_and!; auto.
Qed.

Lemma vertices_inj t u v d : topo_ok t -> g_vertices t !! u = Some d -> g_vertices t !! v = Some d -> u = v.
Proof. intros Ht Hu%(to_vertices t Ht) Hv%(to_vertices t Ht). congruence. Qed.

Lemma vertex_bound t v d : g_vertices t !! v = Some d -> (v < length (g_vertices t))%nat.
Proof. apply lookup_lt_Some. Qed.

(** ** The links the graph holds *)

Definition links (t : topology) : list (switch_and_port * switch_and_port) :=
  map (fun e => (lp_source (e_prop e), lp_target (e_prop e))) (g_edges t).

Lemma extends_links t t' : extends t t' -> links t' = links t.
Proof. intros (_ & E & _). unfold links. by rewrite E. Qed.

(** A link lies between two switches. *)
Definition between (d e : Z) (l : switch_and_port * switch_and_port) : bool :=
  ((dpid l.1 =? d) && (dpid l.2 =? e)) || ((dpid l.1 =? e) && (dpid l.2 =? d)).

Lemma linkDiscovered_ok from to r t :
  topo_ok t -> exists t' out, topo_linkDiscovered from to r t = Ok (t', out) /\ topo_ok t'
    /\ links t' = links t ++ (if dpid from =? dpid to then [] else [(from, to)])
    /\ out = (if dpid from =? dpid to then [] else [(Add, next_address t)]).
Proof.
  intros Ht. unfold topo_linkDiscovered. destruct (Z.eqb_spec (dpid from) (dpid to)) as [E|Hne].
  { exists t, []. by rewrite app_nil_r. }
  destruct (vertex_ok (dpid from) t Ht) as (u & t1 & E1 & Ht1 & Hx1 & Hu). rewrite E1, res_bind_Ok. cbn [fst snd].
  destruct (vertex_ok (dpid to) t1 Ht1) as (v & t2 & E2 & Ht2 & Hx2 & Hv). rewrite E2, res_bind_Ok. cbn [fst snd].
  do 2 eexists. split; [reflexivity|].
  assert (Hnext : next_address t2 = next_address t) by (destruct Hx1 as (_ & _ & _ & ?), Hx2 as (_ & _ & _ & ?); congruence).
  cbn. split; [|split].
  - destruct Ht2 as [H1 H2 H3 H4]. split; cbn; [done| | |lia].
    + intros e [Hin|Hin]%elem_of_app; [by apply H2|]. apply list_elem_of_singleton in Hin as ->. cbn.
      split_and!; [by apply Hx2|done|done|done].
    + intros x [Hin|Hin]%elem_of_app; [apply H3 in Hin; lia|]. apply list_elem_of_singleton in Hin as ->. cbn. lia.
  - unfold links. cbn. rewrite map_app. f_equal. apply (extends_links t1 t2) in Hx2. apply (extends_links t t1) in Hx1.
    unfold links in Hx1, Hx2. congruence.
  - by rewrite Hnext.
Qed.

Lemma joins_between t u v d e x :
  topo_ok t -> g_vertices t !! u = Some d -> g_vertices t !! v = Some e -> x ∈ g_edges t ->
  joins u v x = between d e (lp_source (e_prop x), lp_target (e_prop x)).
Proof.
  intros Ht Hu Hv Hx. destruct (to_edges t Ht x Hx) as (Hs & Hd & _).
  assert (Heq : forall w c i f, g_vertices t !! w = Some f -> g_vertices t !! i = Some c -> Nat.eqb i w = (c =? f)).
  { intros w c i f Hw Hi. destruct (Nat.eqb_spec i w) as [->|Hn], (Z.eqb_spec c f) as [->|Hn']; try done; [congruence|].
    by destruct Hn; apply (vertices_inj t i w f). }
  unfold joins, between. cbn. by rewrite (Heq _ _ _ _ Hu Hs), (Heq _ _ _ _ Hv Hd), (Heq _ _ _ _ Hv Hs), (Heq _ _ _ _ Hu Hd).
Qed.

Lemma remove_edges_ok t u v d e :
  topo_ok t -> g_vertices t !! u = Some d -> g_vertices t !! v = Some e ->
  let t' := set_edges (remove_edges u v (g_edges t)) t in
  topo_ok t' /\ links t' = List.filter (fun l => negb (between d e l)) (links t).
Proof.
  intros Ht Hu Hv. cbv zeta. split.
  - destruct Ht as [H1 H2 H3 H4]. split; cbn; [done| |done|done].
    intros x [Hin _]%list_elem_of_In%filter_In. apply H2. by apply list_elem_of_In.
  - unfold links, remove_edges. cbn. pose proof (joins_between t u v d e) as Hj.
    assert (Hsub : forall x, x ∈ g_edges t -> x ∈ g_edges t) by done.
    revert Hsub. generalize (g_edges t) at 1 3 4 as es. induction es as [|x es IH]; intros Hsub; cbn; [done|].
    rewrite (Hj x) by (done || (apply Hsub; by left)).
    specialize (IH (fun y Hy => Hsub y (list_elem_of_further _ _ _ Hy))).
    destruct (between _ _ _); cbn; [apply IH|f_equal; apply IH].
Qed.

Lemma linkBroken_ok from to t :
  topo_ok t -> exists t' out, topo_linkBroken from to t = Ok (t', out) /\ topo_ok t'
    /\ links t' = List.filter (fun l => negb (between (dpid from) (dpid to) l)) (links t)
    /\ out = [(Delete, getLink from to t)].
Proof.
  intros Ht. unfold topo_linkBroken.
  destruct (vertex_ok (dpid from) t Ht) as (u & t1 & E1 & Ht1 & Hx1 & Hu). rewrite E1, res_bind_Ok. cbn [fst snd].
  destruct (vertex_ok (dpid to) t1 Ht1) as (v & t2 & E2 & Ht2 & Hx2 & Hv). rewrite E2, res_bind_Ok. cbn [fst snd].
  do 2 eexists. split; [reflexivity|].
  assert (Htopo : topo t2 = topo t) by (destruct Hx1 as (_ & _ & ? & _), Hx2 as (_ & _ & ? & _); congruence).
  apply Hx2 in Hu. destruct (remove_edges_ok t2 u v (dpid from) (dpid to) Ht2 Hu Hv) as [Ht3 L3].
  split; [|split].
  - destruct Ht3 as [H1 H2 H3 H4]. split; cbn; [done|done| |done].
    intros x [Hin _]%list_elem_of_In%filter_In. apply H3. by apply list_elem_of_In.
  - rewrite <- (extends_links _ _ Hx1), <- (extends_links _ _ Hx2). exact L3.
  - unfold getLink. cbn. by rewrite Htopo.
Qed.

(** ** Routes *)

(** A route hops over links, in either direction: the ports of each link in the
    order they are passed. *)
Inductive chain (ls : list (switch_and_port * switch_and_port)) : Z -> Z -> data_link_route -> Prop :=
| chain_here d : chain ls d d []
| chain_hop a b e r : (a, b) ∈ ls \/ (b, a) ∈ ls -> chain ls (dpid b) e r -> chain ls (dpid a) e (a :: b :: r).

Lemma joins_sym u v e : joins u v e = joins v u e.
Proof. unfold joins. apply orb_comm. Qed.

Lemma joins_cases u v e :
  joins u v e = true <-> (e_src e = u /\ e_dst e = v) \/ (e_src e = v /\ e_dst e = u).
Proof. unfold joins. by rewrite orb_true_iff, !andb_true_iff, !Nat.eqb_eq. Qed.

Lemma distance_unique es u v m n : distance es u v m -> distance es u v n -> m = n.
Proof. intros [W1 M1] [W2 M2]. apply M1 in W2. apply M2 in W1. lia. Qed.

Lemma distance_zero es s : distance es s s 0.
Proof. split; [constructor|lia]. Qed.

(** The vertices of a shortest walk are distinct, so it has fewer edges than the
    graph has vertices. *)
Lemma distance_vertices n es s v k :
  unit_graph n es -> (v < n)%nat -> distance es v s k ->
  exists l, NoDup l /\ length l = S k /\ forall x, x ∈ l -> (x < n)%nat /\ exists j, (j <= k)%nat /\ distance es x s j.
Proof.
  intros Hg. revert v. induction k as [|k IH]; intros v Hv [Hw Hmin].
  - exists [v]. split; [apply NoDup_singleton|]. split; [done|]. intros x ->%list_elem_of_singleton. split; [done|]. by exists 0%nat.
  - inversion Hw as [|? v' ? ? e He Hj Hw']; subst.
    assert (Hd : distance es v' s k).
    { split; [done|]. intros m Hm. assert (S k <= S m)%nat; [|lia]. apply Hmin. by eapply walk_cons. }
    assert (Hv' : (v' < n)%nat). { apply joins_cases in Hj. destruct (Hg e He) as (? & ? & _). destruct Hj as [[<- <-]|[<- <-]]; done. }
    destruct (IH v' Hv' Hd) as (l & Hnd & Hlen & Hl). exists (v :: l). split; [|split; [cbn; lia|]].
    + constructor; [|done]. intros Hin. destruct (Hl v Hin) as [_ (j & Hj' & Hdv)].
      pose proof (distance_unique _ _ _ _ _ Hdv (conj Hw Hmin)). lia.
    + intros x [-> |Hx]%elem_of_cons; [split; [done|by exists (S k)]|]. destruct (Hl x Hx) as [? (j & ? & ?)]. split; [done|].
      exists j. split; [lia|done].
Qed.

Lemma distance_bound n es s v k : unit_graph n es -> (v < n)%nat -> distance es v s k -> (k < n)%nat.
Proof.
  intros Hg Hv Hd. destruct (distance_vertices n es s v k Hg Hv Hd) as (l & Hnd & Hlen & Hl).
  assert (Hle : (length l <= length (seq 0 n))%nat).
  { apply NoDup_incl_length; [by apply NoDup_ListNoDup|]. intros x Hx%list_elem_of_In. apply in_seq. destruct (Hl x Hx). lia. }
  rewrite length_seq in Hle. lia.
Qed.

Lemma graph_unit t : topo_ok t -> unit_graph (length (g_vertices t)) (g_edges t).
Proof.
  intros Ht e He. destruct (to_edges t Ht e He) as (H1 & H2 & H3 & _). split_and!; [by eapply vertex_bound..|done].
Qed.

Lemma chain_walk t d e r u v :
  topo_ok t -> chain (links t) d e r -> g_vertices t !! u = Some d -> g_vertices t !! v = Some e ->
  exists n, walk (g_edges t) u v n /\ length r = (2 * n)%nat.
Proof.
  intros Ht Hc. revert u. induction Hc as [d|a b e r Hab Hc IH]; intros u Hu Hv.
  - exists 0%nat. rewrite (vertices_inj t u v d Ht Hu Hv). split; [constructor|done].
  - assert (Hx : exists x, x ∈ g_edges t /\ ((lp_source (e_prop x), lp_target (e_prop x)) = (a, b)
                    \/ (lp_source (e_prop x), lp_target (e_prop x)) = (b, a))).
    { destruct Hab as [H|H]; unfold links in H; apply list_elem_of_fmap in H as (x & E & Hx); exists x; auto. }
    destruct Hx as (x & Hx & E). destruct (to_edges t Ht x Hx) as (Hs & Hd & _).
    assert (exists w, g_vertices t !! w = Some (dpid b) /\ joins u w x = true) as (w & Hw & Hj).
    { destruct E as [[= Ea Eb]|[= Eb Ea]]; rewrite Ea, Eb in *.
      - exists (e_dst x). split; [done|]. apply joins_cases. left. split; [by eapply vertices_inj|done].
      - exists (e_src x). split; [done|]. apply joins_cases. right. split; [done|by eapply vertices_inj]. }
    destruct (IH w Hw Hv) as (n & Hn & Hl). exists (S n). split; [by eapply walk_cons|]. cbn. lia.
Qed.

Lemma walk_back_ok t s ds p :
  topo_ok t -> g_vertices t !! s = Some ds -> shortest_path_tree (length (g_vertices t)) (g_edges t) s p ->
  forall k v d fuel, distance (g_edges t) v s k -> g_vertices t !! v = Some d -> (k <= fuel)%nat ->
  exists r, walk_back fuel p v t = Ok r /\ chain (links t) d ds r /\ length r = (2 * k)%nat.
Proof.
  intros Ht Hs [Hps Htree] k. induction k as [|k IH]; intros v d fuel Hdist Hv Hf.
  - destruct Hdist as [Hw _]. inversion Hw; subst. assert (d = ds) as -> by congruence. exists [].
    split; [destruct fuel; cbn; by rewrite Hps, Nat.eqb_refl|]. split; [constructor|done].
  - assert (Hne : v <> s). { intros ->. pose proof (distance_unique _ _ _ _ _ Hdist (distance_zero _ s)). lia. }
    destruct (Htree v (vertex_bound t v d Hv) Hne) as [[Hno _]|(k' & e & Hd' & He & Hj & Hdp)].
    { destruct Hdist as [Hw _]. by apply Hno in Hw. }
    assert (k' = k) as -> by (pose proof (distance_unique _ _ _ _ _ Hd' Hdist); lia).
    assert (Hpv : v <> p v). { intros E. rewrite <- E in Hdp. pose proof (distance_unique _ _ _ _ _ Hdp Hdist). lia. }
    destruct fuel as [|fuel]; [lia|]. cbn [walk_back]. destruct (Nat.eqb_spec v (p v)); [done|].
    destruct (find_edge v (p v) (g_edges t)) as [x|] eqn:Ex.
    2:{ unfold find_edge in Ex. apply list_elem_of_In in He. by rewrite (List.find_none _ _ Ex e He) in Hj. }
    apply List.find_some in Ex as [Hx%list_elem_of_In Hjx]. destruct (to_edges t Ht x Hx) as (Hxs & Hxd & _ & Hdp').
    assert (Hlink : (lp_source (e_prop x), lp_target (e_prop x)) ∈ links t) by by apply list_elem_of_fmap_2 with (f := fun e => (lp_source (e_prop e), lp_target (e_prop e))).
    apply joins_cases in Hjx as [[E1 E2]|[E1 E2]]; rewrite E1 in Hxs; rewrite E2 in Hxd.
    + destruct (IH (p v) _ fuel Hdp Hxd ltac:(lia)) as (r & Hr & Hc & Hl).
      rewrite (bool_decide_true _ Hxs), (bool_decide_true _ Hxd), Hr. cbn. eexists. split; [reflexivity|].
      assert (d = dpid (lp_source (e_prop x))) as -> by congruence. split; [apply chain_hop; [by left|done]|cbn; lia].
    + destruct (IH (p v) _ fuel Hdp Hxs ltac:(lia)) as (r & Hr & Hc & Hl).
      rewrite bool_decide_false by congruence. rewrite (bool_decide_true _ Hxs), (bool_decide_true _ Hxd), Hr. cbn.
      eexists. split; [reflexivity|]. assert (d = dpid (lp_target (e_prop x))) as -> by congruence.
      split; [apply chain_hop; [by right|done]|cbn; lia].
Qed.

(** A shortest route. *)
Definition shortest_route (ls : list (switch_and_port * switch_and_port)) (d e : Z) (r : data_link_route) : Prop :=
  chain ls d e r /\ forall r', chain ls d e r' -> (length r <= length r')%nat.

Lemma computeRoute_ok dijkstra from to t :
  dijkstra_ok dijkstra -> topo_ok t ->
  exists r t', computeRoute dijkstra from to t = Ok (r, t') /\ topo_ok t' /\ links t' = links t
    /\ (shortest_route (links t) from to r \/ r = [] /\ forall r', ~ chain (links t) from to r').
Proof.
  intros Hdij Ht. unfold computeRoute.
  destruct (vertex_ok from t Ht) as (u & t1 & E1 & Ht1 & Hx1 & Hu). rewrite E1, res_bind_Ok. cbn [fst snd].
  destruct (vertex_ok to t1 Ht1) as (s & t2 & E2 & Ht2 & Hx2 & Hs). rewrite E2, res_bind_Ok. cbn [fst snd].
  apply Hx2 in Hu. rewrite <- (extends_links _ _ Hx1), <- (extends_links _ _ Hx2).
  pose proof (Hdij _ _ s (graph_unit t2 Ht2) (vertex_bound _ _ _ Hs)) as Htree.
  set (p := dijkstra _ _ s) in *. pose proof (walk_back_ok t2 s to p Ht2 Hs Htree) as Hback.
  assert (Hdist : (exists k, distance (g_edges t2) u s k) \/ (forall k, ~ walk (g_edges t2) u s k) /\ p u = u).
  { destruct (decide (u = s)) as [->|Hne]; [left; exists 0%nat; apply distance_zero|].
    destruct Htree as [_ Htree]. destruct (Htree u (vertex_bound _ _ _ Hu) Hne) as [?|(k & _ & ? & _)]; eauto. }
  destruct Hdist as [[k Hk]|[Hno Hpu]].
  - pose proof (distance_bound _ _ _ _ _ (graph_unit t2 Ht2) (vertex_bound _ _ _ Hu) Hk) as Hb.
    destruct (Hback k u from _ Hk Hu (Nat.lt_le_incl _ _ Hb)) as (r & Hr & Hc & Hl). rewrite Hr, res_bind_Ok.
    exists r, t2. split_and!; [done..|]. left. split; [done|]. intros r' Hr'.
    destruct (chain_walk t2 from to r' u s Ht2 Hr' Hu Hs) as (n & Hn & Hl'). apply Hk in Hn. lia.
  - assert (Hr : walk_back (length (g_vertices t2)) p u t2 = Ok []) by (destruct (length _); cbn; by rewrite Hpu, Nat.eqb_refl).
    rewrite Hr, res_bind_Ok. exists [], t2. split_and!; [done..|]. right. split; [done|]. intros r' Hr'.
    destruct (chain_walk t2 from to r' u s Ht2 Hr' Hu Hs) as (n & Hn & _). by apply Hno in Hn.
Qed.

(** ** A shortest-path tree that can be computed

    [bfs] shows that the documented behaviour can be had, and runs the examples. *)

Fixpoint within (es : list edge) (s : nat) (k : nat) (v : nat) : bool :=
  match k with
  | O => Nat.eqb v s
  | S k => within es s k v
           || existsb (fun e => (Nat.eqb (e_src e) v && within es s k (e_dst e)) || (Nat.eqb (e_dst e) v && within es s k (e_src e))) es
  end.

Definition bfs (n : nat) (es : list edge) (s v : nat) : nat :=
  match List.find (fun k => within es s k v) (seq 0 n) with
  | Some (S k) =>
      match List.find (fun e => (Nat.eqb (e_src e) v && within es s k (e_dst e)) || (Nat.eqb (e_dst e) v && within es s k (e_src e))) es with
      | Some e => if Nat.eqb (e_src e) v && within es s k (e_dst e) then e_dst e else e_src e
      | None => v
      end
  | _ => v
  end.

Lemma within_walk es s k v : within es s k v = true <-> exists j, (j <= k)%nat /\ walk es v s j.
Proof.
  revert v. induction k as [|k IH]; intros v; cbn.
  - rewrite Nat.eqb_eq. split; [intros ->; exists 0%nat; split; [done|constructor]|].
    intros (j & Hj & Hw). assert (j = 0)%nat as -> by lia. by inversion Hw.
  - rewrite orb_true_iff, IH, existsb_exists. split.
    + intros [(j & Hj & Hw)|(e & He & Hor)]; [exists j; split; [lia|done]|]. apply list_elem_of_In in He.
      apply orb_true_iff in Hor as [[<-%Nat.eqb_eq (j & Hj & Hw)%IH]%andb_true_iff|[<-%Nat.eqb_eq (j & Hj & Hw)%IH]%andb_true_iff];
        exists (S j); (split; [lia|]); eapply walk_cons; try done; apply joins_cases; auto.
    + intros (j & Hj & Hw). destruct (decide (j <= k)%nat); [left; eauto|]. right. assert (j = S k) as -> by lia.
      inversion Hw as [|? w ? ? e He Hje Hw']; subst. exists e. split; [by apply list_elem_of_In|].
      apply joins_cases in Hje as [[<- <-]|[<- <-]]; rewrite Nat.eqb_refl; cbn.
      * rewrite (proj2 (IH (e_dst e))) by eauto. done.
      * rewrite (proj2 (IH (e_src e))) by eauto. by rewrite orb_true_r.
Qed.

Lemma find_seq_from (f : nat -> bool) a n :
  match List.find f (seq a n) with
  | Some k => (a <= k < a + n)%nat /\ f k = true /\ forall j, (a <= j < k)%nat -> f j = false
  | None => forall j, (a <= j < a + n)%nat -> f j = false
  end.
Proof.
  revert a. induction n as [|n IH]; intros a; cbn; [intros j; lia|]. destruct (f a) eqn:E; [split_and!; [lia|lia|done|intros j; lia]|].
  specialize (IH (S a)). destruct (List.find f (seq (S a) n)) as [k|].
  - destruct IH as (? & ? & Hmin). split_and!; [lia|lia|done|]. intros j Hj. destruct (decide (j = a)) as [->|]; [done|]. apply Hmin. lia.
  - intros j Hj. destruct (decide (j = a)) as [->|]; [done|]. apply IH. lia.
Qed.

Lemma find_seq_least (f : nat -> bool) n :
  match List.find f (seq 0 n) with
  | Some k => (k < n)%nat /\ f k = true /\ forall j, (j < k)%nat -> f j = false
  | None => forall j, (j < n)%nat -> f j = false
  end.
Proof.
  pose proof (find_seq_from f 0 n) as H. destruct (List.find f (seq 0 n)) as [k|].
  - destruct H as (? & ? & Hmin). split_and!; [lia|done|]. intros j Hj. apply Hmin. lia.
  - intros j Hj. apply H. lia.
Qed.

Lemma least_distance es s k v : within es s k v = true -> (forall j, (j < k)%nat -> within es s j v = false) -> distance es v s k.
Proof.
  intros (j & Hj & Hw)%within_walk Hmin.
  assert (Hno : forall m, walk es v s m -> (k <= m)%nat).
  { intros m Hm. destruct (Nat.le_gt_cases k m); [done|]. specialize (Hmin m ltac:(lia)).
    assert (within es s m v = true) by (apply within_walk; eauto). congruence. }
  assert (j = k) as -> by (pose proof (Hno j Hw); lia). by split.
Qed.

(** Some shortest walk exists when there is a walk. *)
Lemma walk_distance es s v m : walk es v s m -> exists k, distance es v s k.
Proof.
  intros Hm. pose proof (find_seq_least (fun k => within es s k v) (S m)) as H.
  destruct (List.find _ _) as [k|]; [destruct H as (_ & ? & ?); exists k; by apply least_distance|].
  specialize (H m ltac:(lia)). assert (within es s m v = true) by (apply within_walk; eauto). congruence.
Qed.

Lemma bfs_ok : dijkstra_ok bfs.
Proof.
  intros n es s Hg Hs. split.
  - unfold bfs. destruct n as [|n]; [lia|]. cbn. by rewrite Nat.eqb_refl.
  - intros v Hv Hne. unfold bfs. pose proof (find_seq_least (fun k => within es s k v) n) as H.
    destruct (List.find _ (seq 0 n)) as [k|].
    + destruct H as (Hk & Hw & Hmin). pose proof (least_distance es s k v Hw Hmin) as Hd.
      destruct k as [|k]; [destruct Hd as [Hw0 _]; inversion Hw0; by subst|]. right.
      cbn in Hw. rewrite (Hmin k), orb_false_l in Hw by lia. apply existsb_exists in Hw as (e0 & He0 & Hor0).
      destruct (List.find _ es) as [e|] eqn:Ee; [|apply List.find_none with (x := e0) in Ee; [congruence|done]].
      apply List.find_some in Ee as [He%list_elem_of_In Hor]. exists k, e. split; [done|]. split; [done|].
      assert (Hgoal : forall w, within es s k w = true -> joins v w e = true -> joins v w e = true /\ distance es w s k).
      { intros w Hww Hj. split; [done|]. apply least_distance; [done|]. intros j Hj'.
        destruct (within es s j w) eqn:E; [|done]. apply within_walk in E as (i & Hi & Hwi).
        destruct Hd as [_ Hd]. specialize (Hd (S i) (walk_cons _ _ _ _ _ e He Hj Hwi)). lia. }
      destruct (Nat.eqb (e_src e) v && within es s k (e_dst e)) eqn:E.
      * apply andb_true_iff in E as [E1%Nat.eqb_eq E2]. apply Hgoal; [done|]. apply joins_cases. auto.
      * rewrite orb_false_l in Hor. apply andb_true_iff in Hor as [E1%Nat.eqb_eq E2]. apply Hgoal; [done|]. apply joins_cases. auto.
    + left. split; [|done]. intros m Hm. destruct (walk_distance es s v m Hm) as [k Hk].
      pose proof (distance_bound n es s v k Hg Hv Hk) as Hb. specialize (H k Hb).
      assert (within es s k v = true) by (apply within_walk; exists k; split; [done|apply Hk]). congruence.
Qed.

(** ** What happens to a topology *)

Inductive topo_event :=
| ev_discovered (from to : switch_and_port) (random : Z)
| ev_broken (from to : switch_and_port)
| ev_route (from_dpid to_dpid : Z).

Section topology.
Variable dijkstra : nat -> list edge -> nat -> nat -> nat.

Definition topo_step (e : topo_event) (t : topology) : res topo_fault (topology * list (EventType * nat)) :=
  match e with
  | ev_discovered from to r => topo_linkDiscovered from to r t
  | ev_broken from to => topo_linkBroken from to t
  | ev_route d e => r ← computeRoute dijkstra d e t; Ok (r.2, [])
  end.

Fixpoint topo_run (es : list topo_event) (t : topology) : res topo_fault (topology * list (EventType * nat)) :=
  match es with
  | [] => Ok (t, [])
  | e :: es => r1 ← topo_step e t; r2 ← topo_run es r1.1; Ok (r2.1, r1.2 ++ r2.2)
  end.

(** The links after the events: those between two switches that were discovered
    since a link between these switches broke. *)
Definition links_after (ls : list (switch_and_port * switch_and_port)) (e : topo_event) : list (switch_and_port * switch_and_port) :=
  match e with
  | ev_discovered from to _ => ls ++ (if dpid from =? dpid to then [] else [(from, to)])
  | ev_broken from to => List.filter (fun l => negb (between (dpid from) (dpid to) l)) ls
  | ev_route _ _ => ls
  end.

Lemma topo_run_ok es t :
  dijkstra_ok dijkstra -> topo_ok t ->
  exists t' out, topo_run es t = Ok (t', out) /\ topo_ok t' /\ links t' = fold_left links_after es (links t).
Proof.
  intros Hd. revert t. induction es as [|e es IH]; intros t Ht; [by exists t, []|].
  assert (Hs : exists t1 o1, topo_step e t = Ok (t1, o1) /\ topo_ok t1 /\ links t1 = links_after (links t) e).
  { destruct e as [from to r|from to|d e]; cbn.
    - destruct (linkDiscovered_ok from to r t Ht) as (t1 & o & E & Ht1 & Hl & _). eauto.
    - destruct (linkBroken_ok from to t Ht) as (t1 & o & E & Ht1 & Hl & _). eauto.
    - destruct (computeRoute_ok dijkstra d e t Hd Ht) as (r & t1 & E & Ht1 & Hl & _). rewrite E. cbn. eauto. }
  destruct Hs as (t1 & o1 & E & Ht1 & Hl). destruct (IH t1 Ht1) as (t2 & o2 & E2 & Ht2 & Hl2).
  exists t2, (o1 ++ o2). cbn. rewrite E, res_bind_Ok. cbn [fst]. rewrite E2, res_bind_Ok. split; [done|]. split; [done|].
  cbn. by rewrite Hl2, Hl.
Qed.
End topology.

(** C11: Routes are shortest routes in the links that are known.  Let Boost's
    shortest-path tree be as documented.  Any sequence of discovered and broken
    links and of route computations runs without a failed assertion; afterwards a
    route computation ends, changes no link, and returns a route that goes from
    switch to switch over links discovered and not broken, each passed from the
    port it leaves to the port it enters, from the first switch to the second,
    with the least number of hops; it is empty when there is none, or when the
    switches are the same. *)
Theorem route_shortest dijkstra es from to :
  dijkstra_ok dijkstra ->
  exists t out r t', topo_run dijkstra es new_topology = Ok (t, out)
    /\ links t = fold_left links_after es []
    /\ computeRoute dijkstra from to t = Ok (r, t') /\ links t' = links t
    /\ (shortest_route (links t) from to r \/ r = [] /\ forall r', ~ chain (links t) from to r').
Proof.
  intros Hd. destruct (topo_run_ok dijkstra es new_topology Hd new_topology_ok) as (t & out & E & Ht & Hl).
  destruct (computeRoute_ok dijkstra from to t Hd Ht) as (r & t' & E' & _ & Hl' & Hr). by exists t, out, r, t'.
Qed.

Definition sp (d p : Z) : switch_and_port := SwitchAndPort d p.

(** A ring of four switches with a chord. *)
Definition sample_links : list topo_event :=
  [ev_discovered (sp 1 1) (sp 2 1) 0; ev_discovered (sp 2 2) (sp 3 1) 0; ev_discovered (sp 3 2) (sp 4 1) 0;
   ev_discovered (sp 1 2) (sp 4 2) 0; ev_broken (sp 1 2) (sp 4 2); ev_discovered (sp 2 3) (sp 4 3) 0].

Lemma route_shortest_witness :
  exists t out t', topo_run bfs sample_links new_topology = Ok (t, out)
    /\ computeRoute bfs 1 4 t = Ok ([sp 1 1; sp 2 1; sp 2 3; sp 4 3], t')
    /\ shortest_route (links t) 1 4 [sp 1 1; sp 2 1; sp 2 3; sp 4 3].
Proof.
  destruct (route_shortest bfs sample_links 1 4 bfs_ok) as (t & out & r & t' & E & _ & Er & _ & Hr).
  exists t, out, t'. split; [exact E|]. vm_compute in E. injection E as <- _. vm_compute in Er. injection Er as <- <-.
  split; [reflexivity|]. destruct Hr as [Hr|[Hr _]]; [exact Hr|discriminate].
Defined.

(** What the topology loses and what it cannot take.  When one of two links
    between a pair of switches breaks, both are removed from the graph, and no
    route is found although the other link is still listed.  When a link between
    two ports of one switch breaks, which the topology had ignored, a Delete event
    of the null pointer is reported, and the event list dereferences it. *)
Theorem parallel_and_loop_links :
  (exists t out t', topo_run bfs [ev_discovered (sp 1 1) (sp 2 1) 0; ev_discovered (sp 1 2) (sp 2 2) 0; ev_broken (sp 1 1) (sp 2 1)]
                      new_topology = Ok (t, out)
     /\ map (fun x => (l_source x.2, l_target x.2)) (topo t) = [(sp 1 2, sp 2 2)]
     /\ computeRoute bfs 1 2 t = Ok ([], t'))
  /\ (exists t, topo_run bfs [ev_discovered (sp 1 1) (sp 1 2) 0; ev_broken (sp 1 1) (sp 1 2)] new_topology = Ok (t, [(Delete, O)])
     /\ add_to_event_list 0 Delete 0%nat 1 "topology" (Manager 0 []) = Throw null_brother).
Proof.
  split; [do 3 eexists; split; [vm_compute; reflexivity|]; split; vm_compute; reflexivity|].
  eexists. split; vm_compute; reflexivity.
Qed.
