(* ===== verification/Forwarding.v ===== *)
(** * The forwarding applications (src/LearningSwitch.cc, src/SimpleLearningSwitch.cc)

    Handlers that learn where hosts are from the sources of packets and decide by
    the destination: LearningSwitch over the routes of the topology, with one
    database for all switches, SimpleLearningSwitch for each switch on its own. *)

From S2P Require Import Prelude Bits OxmField OpenflowBasic Packet PacketParser Addresses Decision Handlers LinkDiscovery Topology.
Local Open Scope Z_scope.

Inductive fwd_error := fe_packet (e : error) | fe_decision (e : decision_error) | fe_topology (e : topo_fault).

Definition of_packet {A} (r : res error A) : res fwd_error A :=
  match r with Ok a => Ok a | Throw e => Throw (fe_packet e) end.
Definition of_decision {A} (r : res decision_error A) : res fwd_error A :=
  match r with Ok a => Ok a | Throw e => Throw (fe_decision e) end.
Definition of_topology {A} (r : res topo_fault A) : res fwd_error A :=
  match r with Ok a => Ok a | Throw e => Throw (fe_topology e) end.

(** An address is the number of its 48 bits. *)
Definition mac_is_broadcast (mac : Z) : bool := ethaddr_is_broadcast (Bits 48 mac).

(** ** LearningSwitch *)

(** [HostsDatabase::learn]: [emplace] keeps the entry that is there. *)
Definition db_learn (d in_port_no mac : Z) (db : gmap Z switch_and_port) : gmap Z switch_and_port :=
  if mac_is_broadcast mac then db
  else if decide (is_Some (db !! mac)) then db else <[mac := SwitchAndPort d in_port_no]> db.

(** [HostsDatabase::query] *)
Definition db_query (mac : Z) (db : gmap Z switch_and_port) : option switch_and_port := db !! mac.

Record forwarding := Forwarding { fw_db : gmap Z switch_and_port; fw_topology : topology }.

Definition set_db (db : gmap Z switch_and_port) (s : forwarding) : forwarding := Forwarding db (fw_topology s).
Definition set_topology (t : topology) (s : forwarding) : forwarding := Forwarding (fw_db s) t.

Section learning.
Context {P : Type} `{Packet P}.
Variable dijkstra : nat -> list edge -> nat -> nat -> nat.

(** The handler on switch [here]. *)
Definition learning_handler (here : Z) (p : P) (d : decision) : st fwd_error forwarding decision :=
  dst_mac ← st_lift (of_packet (load_num p eth_dst));
  in_port_no ← st_lift (of_packet (load_num p in_port));
  src_mac ← st_lift (of_packet (watch_num p eth_src));
  st_update (fun s => set_db (db_learn here in_port_no src_mac (fw_db s)) s) ;;
  s ← st_get;
  match db_query dst_mac (fw_db s) with
  | Some target =>
      r ← st_lift (of_topology (computeRoute dijkstra here (dpid target) (fw_topology s)));
      st_update (set_topology r.2) ;;
      match r.1 with
      | first :: _ =>
          u ← st_lift (of_decision (d_unicast (port first) d));
          mret (d_hard_timeout 1800 (d_idle_timeout 60 u))
      | [] =>
          if here =? dpid target then
            u ← st_lift (of_decision (d_unicast (port target) d));
            mret (d_hard_timeout 1800 (d_idle_timeout 60 u))
          else mret (d_return (d_hard_timeout 60 (d_idle_timeout 30 (d_drop d))))
      end
  | None =>
      b ← st_lift (of_decision (d_broadcast d));
      mret (if mac_is_broadcast dst_mac then b else d_idle_timeout 0 b)
  end.

(** ** SimpleLearningSwitch *)

(** The handler of one switch, with its map from addresses to ports.  The result
    of [ret.hard_timeout(zero)] is discarded. *)
Definition simple_handler (p : P) (d : decision) : st fwd_error (gmap Z Z) decision :=
  src_mac ← st_lift (of_packet (load_num p eth_src));
  dst_mac ← st_lift (of_packet (load_num p eth_dst));
  if mac_is_broadcast src_mac then mret (d_return (d_drop d))
  else
    in_port_no ← st_lift (of_packet (watch_num p in_port));
    st_update (<[src_mac := in_port_no]>) ;;
    seen_port ← st_get;
    match seen_port !! dst_mac with
    | Some o =>
        u ← st_lift (of_decision (d_unicast o d));
        mret (d_hard_timeout 1800 (d_idle_timeout 60 u))
    | None => st_lift (of_decision (d_broadcast d))
    end.

(** ** CBench: a port by the last octet of the destination *)
Definition cbench_handler (p : P) (d : decision) : res fwd_error decision :=
  dst ← of_packet (load_num p eth_dst);
  u ← of_decision (d_unicast (dst mod 256 mod 3) d);
  Ok (d_return u).
End learning.

(** ** A packet on its way

    A frame that enters switch [here] on port [q] is parsed, handled, and sent out
    of the port of a unicast decision: over a link it enters the next switch, and
    otherwise it has left the network. *)

Definition link_from (a : switch_and_port) (ls : list (switch_and_port * switch_and_port)) : option switch_and_port :=
  match List.find (fun l => bool_decide (l.1 = a) || bool_decide (l.2 = a)) ls with
  | Some l => Some (if bool_decide (l.1 = a) then l.2 else l.1)
  | None => None
  end.

Section travel.
Variable dijkstra : nat -> list edge -> nat -> nat -> nat.
(** The bytes of the frame, and those before its buffers. *)
Variables (data : list Z) (bd bp : Z).

Definition receive (q : Z) : res fwd_error parser := of_packet (packet_parser (Some data) q bd bp).

Fixpoint travel (fuel : nat) (at_ : switch_and_port) : st fwd_error forwarding (option switch_and_port) :=
  match fuel with
  | O => mret None
  | S fuel =>
      p ← st_lift (receive (port at_));
      d ← learning_handler dijkstra (dpid at_) p decision_default;
      s ← st_get;
      match d_data d with
      | Unicast o =>
          let out := SwitchAndPort (dpid at_) o in
          match link_from out (links (fw_topology s)) with
          | Some next => travel fuel next
          | None => mret (Some out)
          end
      | _ => mret None
      end
  end.
End travel.

(** ** What the handlers decide *)

(** The frame has these addresses, on whatever port it arrives. *)
Definition carries (data : list Z) (bd bp src dst : Z) : Prop :=
  forall q, exists p i, packet_parser (Some data) q bd bp = Ok p
    /\ load_num p eth_dst = Ok dst /\ load_num p eth_src = Ok src /\ load_num p in_port = Ok i.

Lemma db_learn_kept here i src db mac a : db !! mac = Some a -> db_learn here i src db !! mac = Some a.
Proof.
  intros Hm. unfold db_learn. destruct (mac_is_broadcast src); [done|]. case_decide as Hs; [done|].
  rewrite lookup_insert_ne; [done|]. intros ->. apply Hs. eauto.
Qed.

Lemma chain_empty ls d e : chain ls d e [] -> d = e.
Proof. by inversion 1. Qed.

(** All shortest routes have the same length. *)
Lemma shortest_length ls d e r1 r2 : shortest_route ls d e r1 -> shortest_route ls d e r2 -> length r1 = length r2.
Proof. intros [C1 M1] [C2 M2]. apply M1 in C2. apply M2 in C1. lia. Qed.

Lemma shortest_tail ls a b e r : (a, b) ∈ ls \/ (b, a) ∈ ls -> shortest_route ls (dpid a) e (a :: b :: r) -> shortest_route ls (dpid b) e r.
Proof.
  intros Hab [Hc Hmin]. inversion Hc; subst. split; [done|]. intros r' Hr'.
  specialize (Hmin (a :: b :: r') (chain_hop _ a b e r' Hab Hr')). cbn in Hmin. lia.
Qed.

Section delivery.
Variable dijkstra : nat -> list edge -> nat -> nat -> nat.
Hypothesis dijkstra_spec : dijkstra_ok dijkstra.

(** The known destination of a frame, at a switch that has a route to it. *)
Lemma learning_unicast here p i src dst host d s r :
  load_num p eth_dst = Ok dst -> load_num p eth_src = Ok src -> load_num p in_port = Ok i ->
  topo_ok (fw_topology s) -> fw_db s !! dst = Some host -> d_data d = Undefined ->
  shortest_route (links (fw_topology s)) here (dpid host) r ->
  exists s' d' r', learning_handler dijkstra here p d s = (s', Ok d')
    /\ fw_db s' = db_learn here i src (fw_db s) /\ topo_ok (fw_topology s') /\ links (fw_topology s') = links (fw_topology s)
    /\ shortest_route (links (fw_topology s)) here (dpid host) r'
    /\ d_data d' = Unicast (match r' with a :: _ => port a | [] => port host end)
    /\ d_base d' = Base (return_ (d_base d)) (Z.min 60 (idle_timeout (d_base d)) `min` 1800) (Z.min 1800 (hard_timeout (d_base d))).
Proof.
  intros Hdst Hsrc Hport Ht Hdb Hund Hr. destruct s as [db t]. cbn [fw_db fw_topology] in *.
  destruct (computeRoute_ok dijkstra here (dpid host) t dijkstra_spec Ht) as (r' & t' & E & Ht' & Hl & Hr').
  destruct Hr' as [Hr'|[_ Hno]]; [|by destruct Hr as [Hc _]; apply Hno in Hc].
  unfold learning_handler, watch_num. rewrite Hdst, Hport, Hsrc. unfold mbind, st_bind, st_lift, st_update, st_get, mret, st_ret, of_packet.
  cbn [set_db fw_db fw_topology]. unfold db_query. rewrite (db_learn_kept _ _ _ _ _ _ Hdb), E. unfold of_topology. cbn [fst snd].
  unfold d_unicast, refine. rewrite Hund. exists (Forwarding (db_learn here i src db) t'). destruct r' as [|a r'].
  - destruct Hr' as [Hc _]. apply chain_empty in Hc as Eh. rewrite Eh, Z.eqb_refl. eexists _, []. split; [reflexivity|].
    cbn. split_and!; try done; [split; [rewrite <- Eh; constructor|]; cbn; lia|]. f_equal; lia.
  - eexists _, (a :: r'). split; [reflexivity|]. cbn. split_and!; try done. f_equal; lia.
Qed.

(** Every port is at one end of at most one link. *)
Definition wired (ls : list (switch_and_port * switch_and_port)) : Prop :=
  forall a b c, (a, b) ∈ ls \/ (b, a) ∈ ls -> (a, c) ∈ ls \/ (c, a) ∈ ls -> b = c.

Lemma link_from_wired ls a b : wired ls -> (a, b) ∈ ls \/ (b, a) ∈ ls -> link_from a ls = Some b.
Proof.
  intros Hw Hab. unfold link_from. destruct (List.find _ ls) as [[x y]|] eqn:E.
  - apply List.find_some in E as [Hin%list_elem_of_In Hor]. cbn in *. f_equal. destruct (bool_decide (x = a)) eqn:Ea.
    + apply bool_decide_eq_true in Ea as ->. symmetry. by apply (Hw a); [|left].
    + apply orb_true_iff in Hor as [|Hy%bool_decide_eq_true]; [done|]. subst y. symmetry. by apply (Hw a); [|right].
  - exfalso. destruct Hab as [Hin|Hin]; apply list_elem_of_In in Hin; apply (List.find_none _ _ E) in Hin; cbn in Hin;
      rewrite (bool_decide_true (a = a)) in Hin by done; by rewrite ?orb_true_r in Hin.
Qed.

Lemma link_from_none ls a : (forall b, ~ ((a, b) ∈ ls \/ (b, a) ∈ ls)) -> link_from a ls = None.
Proof.
  intros Hno. unfold link_from. destruct (List.find _ ls) as [[x y]|] eqn:E; [|done]. exfalso.
  apply List.find_some in E as [Hin%list_elem_of_In Hor]. cbn in Hor.
  apply orb_true_iff in Hor as [->%bool_decide_eq_true | ->%bool_decide_eq_true]; [apply (Hno y)|apply (Hno x)]; auto.
Qed.

Lemma travel_ok data bd bp src dst host n at_ s r :
  carries data bd bp src dst -> topo_ok (fw_topology s) -> fw_db s !! dst = Some host ->
  wired (links (fw_topology s)) -> (forall b, ~ ((host, b) ∈ links (fw_topology s) \/ (b, host) ∈ links (fw_topology s))) ->
  shortest_route (links (fw_topology s)) (dpid at_) (dpid host) r -> length r = (2 * n)%nat ->
  exists s', travel dijkstra data bd bp (S n) at_ s = (s', Ok (Some host)).
Proof.
  intros Hdata. revert at_ s r. induction n as [|n IH]; intros at_ s r Ht Hdb Hw Hhost Hr Hlen.
  all: destruct (Hdata (port at_)) as (p & i & Hp & Hdst & Hsrc & Hport).
  all: destruct (learning_unicast (dpid at_) p i src dst host decision_default s r) as (s' & d' & r' & E & Edb & Ht' & El & Hr' & Ed & _);
    try done.
  all: pose proof (shortest_length _ _ _ _ _ Hr Hr') as Hlen'; rewrite Hlen in Hlen'.
  all: cbn [travel]; unfold receive; rewrite Hp; unfold mbind, st_bind, st_lift, of_packet; rewrite E; unfold st_get; rewrite Ed, El.
  - destruct r' as [|a r']; [|done]. destruct Hr' as [Hc _]. apply chain_empty in Hc as Eh. rewrite Eh.
    destruct host as [hd hp]. cbn [port dpid]. rewrite link_from_none by done. by eexists.
  - destruct r' as [|a r']; [done|]. destruct Hr' as [Hc Hmin]. inversion Hc as [|? b ? rest Hab Hc']; subst.
    cbv zeta iota beta. replace (SwitchAndPort _ (port a)) with a by (destruct a; cbn in *; congruence).
    rewrite (link_from_wired _ a b Hw Hab).
    apply (IH b s' rest); [done|rewrite Edb; by apply db_learn_kept|by rewrite El..| |cbn in Hlen'; lia].
    rewrite El. replace (dpid at_) with (dpid a) in * by done. by apply (shortest_tail _ a b _ rest Hab).
Qed.
End delivery.

(** Both can be checked. *)
Definition wired_check (ls : list (switch_and_port * switch_and_port)) : bool :=
  forallb (fun l1 => forallb (fun l2 =>
    implb (bool_decide (l1.1 = l2.1)) (bool_decide (l1.2 = l2.2)) && implb (bool_decide (l1.2 = l2.2)) (bool_decide (l1.1 = l2.1))
    && implb (bool_decide (l1.1 = l2.2)) (bool_decide (l1.2 = l2.1))) ls) ls.

Definition unplugged_check (a : switch_and_port) (ls : list (switch_and_port * switch_and_port)) : bool :=
  forallb (fun l => negb (bool_decide (l.1 = a)) && negb (bool_decide (l.2 = a))) ls.

Lemma wired_by_check ls : wired_check ls = true -> wired ls.
Proof.
  intros Hc. assert (H : forall l1 l2, l1 ∈ ls -> l2 ∈ ls ->
    (l1.1 = l2.1 -> l1.2 = l2.2) /\ (l1.2 = l2.2 -> l1.1 = l2.1) /\ (l1.1 = l2.2 -> l1.2 = l2.1)).
  { intros l1 l2 H1%list_elem_of_In H2%list_elem_of_In. unfold wired_check in Hc. rewrite forallb_forall in Hc. specialize (Hc l1 H1).
    rewrite forallb_forall in Hc. specialize (Hc l2 H2). apply andb_true_iff in Hc as [[A B]%andb_true_iff C].
    split_and!; intros E; [rewrite (bool_decide_true _ E) in A|rewrite (bool_decide_true _ E) in B|rewrite (bool_decide_true _ E) in C];
      [by apply bool_decide_eq_true in A|by apply bool_decide_eq_true in B|by apply bool_decide_eq_true in C]. }
  intros a b c [Hab|Hab] [Hac|Hac].
  - by apply (H _ _ Hab Hac).
  - by apply (H _ _ Hab Hac).
  - symmetry. by apply (H _ _ Hac Hab).
  - by apply (H _ _ Hab Hac).
Qed.

Lemma unplugged_by_check a ls : unplugged_check a ls = true -> forall b, ~ ((a, b) ∈ ls \/ (b, a) ∈ ls).
Proof.
  unfold unplugged_check. rewrite forallb_forall. intros Hc b Hb.
  destruct Hb as [Hb|Hb]; apply list_elem_of_In, Hc in Hb; cbn in Hb; rewrite (bool_decide_true (a = a) eq_refl) in Hb; by rewrite ?andb_false_r in Hb.
Qed.

(** C14: The learning switch delivers to every host it has seen.  Let the topology
    be what any sequence of link signals and route computations has made of it,
    with every port at the end of at most one link, and let the database hold the
    host of the destination at a port that is not on a link.  From every switch
    that has a route to the host, following the decisions of the handler from
    switch to switch, with the database and the topology they change on the way,
    the frame leaves at the host's port after the least number of hops. *)
Theorem learning_switch_delivers dijkstra es t out db data bd bp src dst host at_ r :
  dijkstra_ok dijkstra -> topo_run dijkstra es new_topology = Ok (t, out) ->
  wired (links t) -> (forall b, ~ ((host, b) ∈ links t \/ (b, host) ∈ links t)) ->
  carries data bd bp src dst -> db !! dst = Some host -> shortest_route (links t) (dpid at_) (dpid host) r ->
  exists n s', length r = (2 * n)%nat
    /\ travel dijkstra data bd bp (S n) at_ (Forwarding db t) = (s', Ok (Some host)).
Proof.
  intros Hd Hrun Hw Hhost Hdata Hdb Hr. destruct (topo_run_ok dijkstra es new_topology Hd new_topology_ok) as (t' & o' & E & Ht & _).
  rewrite Hrun in E. injection E as <- <-.
  assert (Heven : forall d e r, chain (links t) d e r -> exists n, length r = (2 * n)%nat).
  { induction 1 as [|a b e r0 _ _ [n Hn]]; [by exists 0%nat|]. exists (S n). cbn. lia. }
  destruct (Heven _ _ _ (proj1 Hr)) as [n Hn]. exists n.
  destruct (travel_ok dijkstra Hd data bd bp src dst host n at_ (Forwarding db t) r) as [s' Hs']; try done. by exists s'.
Qed.

(** ** Examples *)

(** A 60-byte frame from host 2:..:7 to host 2:..:9 that is neither IP nor ARP. *)
Definition sample_frame : list Z := [2; 0; 0; 0; 0; 9; 2; 0; 0; 0; 0; 7; 0x08; 0x99] ++ replicate 46 0.

Lemma sample_frame_carries bd bp : carries sample_frame bd bp 0x020000000007 0x020000000009.
Proof.
  intros q. assert (Hp : exists b, packet_parser (Some sample_frame) q bd bp = Ok (Parser sample_frame (be_bytes 4 q) bd bp b)
      /\ bound b eth_dst = Some (data_ptr 0) /\ bound b eth_src = Some (data_ptr 6) /\ bound b in_port = Some in_port_ptr).
  { unfold packet_parser. rewrite port_bound, res_bind_Ok. eexists. split; [reflexivity|]. split_and!; reflexivity. }
  destruct Hp as (b & E & B1 & B2 & B3). set (p := Parser sample_frame (be_bytes 4 q) bd bp b) in *.
  assert (Hw : parser_wf p) by by eapply packet_parser_wf.
  assert (Hv : parser_val p eth_dst = Some 0x020000000009 /\ parser_val p eth_src = Some 0x020000000007
               /\ parser_val p in_port = Some (wrap 32 (be_val (field_bytes p in_port in_port_ptr)))).
  { unfold parser_val. cbn [pp_bindings p]. rewrite B1, B2, B3. split_and!; reflexivity. }
  destruct Hv as (V1 & V2 & V3). exists p. eexists. split; [exact E|].
  rewrite (load_num_present p eth_dst 0x020000000009), (load_num_present p eth_src 0x020000000007),
    (load_num_present p in_port (wrap 32 (be_val (field_bytes p in_port in_port_ptr)))) by (done || by apply known_by_check).
  split_and!; reflexivity.
Qed.

Definition to_host : Z := 0x020000000009.
Definition seen_at (a : switch_and_port) : gmap Z switch_and_port := {[to_host := a]}.

(** The sample topology: 1 - 2 - 3 - 4 and 2 - 4; the host is at port 9 of switch 4. *)
Lemma learning_switch_delivers_witness :
  exists t out s', topo_run bfs sample_links new_topology = Ok (t, out)
    /\ travel bfs sample_frame 0 0 3 (sp 1 7) (Forwarding (seen_at (sp 4 9)) t) = (s', Ok (Some (sp 4 9))).
Proof.
  assert (Hrun : exists t out, topo_run bfs sample_links new_topology = Ok (t, out)) by (do 2 eexists; vm_compute; reflexivity).
  destruct Hrun as (t & out & Hrun).
  assert (Hlinks : links t = [(sp 1 1, sp 2 1); (sp 2 2, sp 3 1); (sp 3 2, sp 4 1); (sp 2 3, sp 4 3)]).
  { vm_compute in Hrun. injection Hrun as <- _. reflexivity. }
  assert (Hr : shortest_route (links t) 1 4 [sp 1 1; sp 2 1; sp 2 3; sp 4 3]).
  { destruct (computeRoute_ok bfs 1 4 t bfs_ok) as (r & t' & E & _ & _ & Hr).
    - destruct (topo_run_ok bfs sample_links new_topology bfs_ok new_topology_ok) as (t1 & o1 & E1 & Ht1 & _). congruence.
    - vm_compute in Hrun. injection Hrun as <- _. vm_compute in E. injection E as <- _. destruct Hr as [Hr|[Hr _]]; [exact Hr|discriminate]. }
  destruct (learning_switch_delivers bfs sample_links t out (seen_at (sp 4 9)) sample_frame 0 0 0x020000000007 to_host (sp 4 9)
              (sp 1 7) [sp 1 1; sp 2 1; sp 2 3; sp 4 3]) as (n & s' & Hn & Ht).
  - exact bfs_ok.
  - exact Hrun.
  - rewrite Hlinks. apply wired_by_check. vm_compute. reflexivity.
  - rewrite Hlinks. apply unplugged_by_check. vm_compute. reflexivity.
  - apply sample_frame_carries.
  - reflexivity.
  - exact Hr.
  - exists t, out, s'. split; [exact Hrun|]. assert (n = 2)%nat as -> by (cbn in Hn; lia). exact Ht.
Defined.

(** A host that moves is not found again.  The database keeps the first port at
    which an address was seen: after the host has sent from port 5 of switch 1 and
    then from port 6 of switch 2, frames for it are still sent to port 5 of
    switch 1, with timeouts as for a fresh decision. *)
Theorem moved_host_not_followed :
  let db := db_learn 2 6 to_host (db_learn 1 5 to_host ∅) in
  db !! to_host = Some (sp 1 5)
  /\ exists p s', packet_parser (Some sample_frame) 3 0 0 = Ok p
      /\ learning_handler bfs 1 p decision_default (Forwarding db new_topology)
         = (s', Ok (Decision (Base false 60 1800) (Unicast 5))).
Proof. cbn. split; [reflexivity|]. eexists _, _. split; [vm_compute; reflexivity|vm_compute; reflexivity]. Qed.

(** What the simple learning switch decides.  On a packet with its addresses and
    its port, and a decision that is still open: a broadcast source is dropped and
    nothing is learned; otherwise the source is learned at the port of this packet,
    also when it was seen elsewhere before, and the packet goes to the port where
    its destination was seen last, for 60 seconds of idleness and half an hour at
    most, or is flooded.  The flood keeps the timeouts of the decision it was given,
    for any destination: from a fresh decision it makes a rule that never expires,
    since the limit the handler asks for is discarded. *)
Theorem simple_switch_decides p q src dst d m :
  load_num p eth_src = Ok src -> load_num p eth_dst = Ok dst -> load_num p in_port = Ok q -> d_data d = Undefined ->
  let m' := <[src := q]> m in
  simple_handler p d m
  = if mac_is_broadcast src then (m, Ok (d_return (d_drop d)))
    else match m' !! dst with
         | Some o => (m', Ok (d_hard_timeout 1800 (d_idle_timeout 60 (Decision (d_base d) (Unicast o)))))
         | None => (m', Ok (Decision (d_base d) Broadcast))
         end.
Proof.
  intros Hs Hd Hq Hu m'. unfold simple_handler, watch_num. rewrite Hs, Hd, Hq.
  unfold mbind, st_bind, st_lift, of_packet, st_update, st_get, mret, st_ret. destruct (mac_is_broadcast src); [done|].
  fold m'. destruct (m' !! dst) as [o|]; unfold d_unicast, d_broadcast, refine; by rewrite Hu.
Qed.

Lemma simple_switch_decides_witness :
  exists p, packet_parser (Some sample_frame) 3 0 0 = Ok p
    /\ simple_handler p decision_default ∅ = ({[0x020000000007 := 3]}, Ok (Decision base_default Broadcast))
    /\ simple_handler p decision_default {[to_host := 8]}
       = (<[0x020000000007 := 3]> {[to_host := 8]}, Ok (Decision (Base false 60 1800) (Unicast 8))).
Proof.
  eexists. split; [vm_compute; reflexivity|]. split.
  - rewrite (simple_switch_decides _ 3 0x020000000007 0x020000000009); [reflexivity|vm_compute; reflexivity..].
  - rewrite (simple_switch_decides _ 3 0x020000000007 0x020000000009); [reflexivity|vm_compute; reflexivity..].
Defined.
