(* ===== verification/Stp.v ===== *)
(** * The spanning tree (src/STP.cc, STP.hh)

    Flooding goes to the ports of a group on every switch.  The application keeps
    the switches with their ports, takes the ports between switches out of the
    groups when their link is discovered, and puts those on a spanning tree of the
    topology back when a timer ticks.  The spanning tree is Boost's Kruskal, a
    parameter. *)

From S2P Require Import Prelude Switch LinkDiscovery Topology.
Local Open Scope Z_scope.

(** ** struct Port, class SwitchSTP *)

Record stp_port := StpPort { st_broadcast : bool; st_to_switch : bool; st_next : option Z }.

(** [Port(port_no)] *)
Definition new_port : stp_port := StpPort true false None.

(** The ports of a [SwitchSTP], by number. *)
Abbreviation stp_ports := (gmap Z stp_port).

Inductive group_command := OFPGC_ADD | OFPGC_MODIFY | OFPGC_DELETE.

(** A GroupMod of the flood group: the ports of its buckets. *)
Record group_mod := GroupMod { gm_command : group_command; gm_dpid : Z; gm_ports : list Z }.

Inductive stp_fault := null_switch | port_out_of_range.

Definition existsPort (n : Z) (ps : stp_ports) : bool := bool_decide (is_Some (ps !! n)).

(** [unsetBroadcast], [setBroadcast]: [ports.at(port_no)]. *)
Definition setBroadcast (b : bool) (n : Z) (ps : stp_ports) : res stp_fault stp_ports :=
  match ps !! n with
  | Some p => Ok (<[n := StpPort b (st_to_switch p) (st_next p)]> ps)
  | None => Throw port_out_of_range
  end.

Definition setSwitchPort (n d : Z) (ps : stp_ports) : res stp_fault stp_ports :=
  match ps !! n with
  | Some p => Ok (<[n := StpPort (st_broadcast p) true (Some d)]> ps)
  | None => Throw port_out_of_range
  end.

Definition resetBroadcast (ps : stp_ports) : stp_ports :=
  (fun p => if st_to_switch p then StpPort false true (st_next p) else p) <$> ps.

Definition getEnabledPorts (ps : stp_ports) : list Z := map fst (filter (fun e => st_broadcast e.2 = true) (map_to_list ps)).

Definition updateGroup (d : Z) (ps : stp_ports) : list group_mod := [GroupMod OFPGC_MODIFY d (getEnabledPorts ps)].
Definition clearGroup (d : Z) : list group_mod := [GroupMod OFPGC_DELETE d []].
Definition installGroup (d : Z) (ps : stp_ports) : list group_mod := [GroupMod OFPGC_ADD d (getEnabledPorts ps)].

(** [SwitchSTP::SwitchSTP] *)
Definition new_switch_stp (d : Z) : stp_ports * list group_mod := (∅, clearGroup d ++ installGroup d ∅).

(** ** class STP

    [switch_list] holds pointers: [None] is a null one, which [operator[]] makes
    for a switch that is not there. *)

Record stp := STP { switch_list : gmap Z (option stp_ports); spanning_tree : gmap Z (list Z); computed : bool }.

Definition new_stp : stp := STP ∅ ∅ false.

Definition set_list (l : gmap Z (option stp_ports)) (s : stp) : stp := STP l (spanning_tree s) (computed s).
Definition set_computed (b : bool) (s : stp) : stp := STP (switch_list s) (spanning_tree s) b.

(** A switch that is in the list, dereferenced. *)
Definition get_switch (d : Z) (s : stp) : res stp_fault stp_ports :=
  match switch_list s !! d with Some (Some ps) => Ok ps | _ => Throw null_switch end.

Definition stp_known (d : Z) (s : stp) : bool := bool_decide (is_Some (switch_list s !! d)).

Definition getSTP (d : Z) (s : stp) : res stp_fault (list Z) :=
  if negb (stp_known d s) || negb (computed s) then Ok []
  else ps ← get_switch d s; Ok (getEnabledPorts ps).

(** One end of [onLinkDiscovered]. *)
Definition link_end (a : switch_and_port) (other : Z) (s : stp) : res stp_fault (stp * list group_mod) :=
  ps ← get_switch (dpid a) s;
  let ps := if existsPort (port a) ps then ps else <[port a := new_port]> ps in
  ps ← setBroadcast false (port a) ps;
  let out := updateGroup (dpid a) ps in
  ps ← setSwitchPort (port a) other ps;
  Ok (set_list (<[dpid a := Some ps]> (switch_list s)) s, out).

Definition stp_onLinkDiscovered (from to : switch_and_port) (s : stp) : res stp_fault (stp * list group_mod) :=
  if negb (stp_known (dpid from) s) || negb (stp_known (dpid to) s) then Ok (s, [])
  else
    r1 ← link_end from (dpid to) s;
    r2 ← link_end to (dpid from) r1.1;
    Ok (set_computed false r2.1, r1.2 ++ r2.2).

Definition stp_onLinkBroken (s : stp) : stp := set_computed false s.

Definition stp_onSwitchDiscovered (d : Z) (s : stp) : stp * list group_mod :=
  let '(ps, out) := new_switch_stp d in (set_list (<[d := Some ps]> (switch_list s)) s, out).

Definition stp_onSwitchDown (d : Z) (s : stp) : stp := set_list (delete d (switch_list s)) s.

Definition stp_onSwitchUp (d : Z) (s : stp) : stp * list group_mod :=
  if stp_known d s then (s, []) else stp_onSwitchDiscovered d s.

Definition stp_onPortUp (d n : Z) (s : stp) : res stp_fault (stp * list group_mod) :=
  if stp_known d s then
    ps ← get_switch d s;
    let ps := if negb (existsPort n ps) && (n <? OFPP_MAX) then <[n := new_port]> ps else ps in
    Ok (set_list (<[d := Some ps]> (switch_list s)) s, updateGroup d ps)
  else Ok (s, []).

(** [spanning_tree[dpid].push_back(port)] *)
Definition push_port (a : switch_and_port) (tree : gmap Z (list Z)) : gmap Z (list Z) :=
  <[dpid a := default [] (tree !! dpid a) ++ [port a]]> tree.

Definition tree_ports (edges : list edge) : gmap Z (list Z) :=
  fold_left (fun tree e => push_port (lp_target (e_prop e)) (push_port (lp_source (e_prop e)) tree)) edges ∅.

(** [sw->setBroadcast(p)] for the ports of the tree that exist. *)
Fixpoint set_tree_ports (ns : list Z) (ps : stp_ports) : res stp_fault stp_ports :=
  match ns with
  | [] => Ok ps
  | n :: ns => ps ← (if existsPort n ps then setBroadcast true n ps else Ok ps); set_tree_ports ns ps
  end.

(** The loop over the switches of the tree. *)
Fixpoint set_tree (tree : list (Z * list Z)) (s : stp) : res stp_fault (stp * list group_mod) :=
  match tree with
  | [] => Ok (s, [])
  | (d, ns) :: tree =>
      ps ← get_switch d s;
      ps ← set_tree_ports ns ps;
      r ← set_tree tree (set_list (<[d := Some ps]> (switch_list s)) s);
      Ok (r.1, updateGroup d ps ++ r.2)
  end.

(** Resetting dereferences every pointer of the list. *)
Definition reset_all (s : stp) : res stp_fault stp :=
  if bool_decide (map_Forall (fun _ x => x <> None) (switch_list s))
  then Ok (set_list (option_map resetBroadcast <$> switch_list s) s)
  else Throw null_switch.

Section spanning.
(** [kruskal_minimum_spanning_tree]: the edges of the tree. *)
Variable kruskal : nat -> list edge -> list edge.

Definition computeSpanningTree (t : topology) (s : stp) : res stp_fault (stp * list group_mod) :=
  if computed s then Ok (s, [])
  else
    s ← reset_all s;
    let tree := tree_ports (kruskal (length (g_vertices t)) (g_edges t)) in
    r ← set_tree (map_to_list tree) (STP (switch_list s) tree (computed s));
    Ok (set_computed true r.1, r.2).
End spanning.
