(* ===== verification/Forest.v ===== *)
(** * Walks in a forest

    Kruskal's algorithm promises a spanning forest.  A walk in a forest that never
    turns back along the edge it came by visits no vertex twice, and between two
    connected vertices there is one. *)

From S2P Require Import Prelude Topology.
Local Open Scope nat_scope.

(** The ends of an edge are not connected by the other edges. *)
Definition forest (T : list edge) : Prop :=
  forall T1 e T2 k, T = T1 ++ e :: T2 -> ~ walk (T1 ++ T2) (e_src e) (e_dst e) k.

(** What Boost documents of [kruskal_minimum_spanning_tree], on a graph whose edges
    all have weight 1. *)
Definition kruskal_ok (kruskal : nat -> list edge -> list edge) : Prop :=
  forall n es, unit_graph n es ->
    (forall e, e ∈ kruskal n es -> e ∈ es) /\ forest (kruskal n es)
    /\ forall u v k, walk es u v k -> exists k', walk (kruskal n es) u v k'.

Lemma walk_app es u v w m n : walk es u v m -> walk es v w n -> walk es u w (m + n).
Proof. induction 1; [done|]. intros. eapply walk_cons; eauto. Qed.

Lemma walk_sym es u v n : walk es u v n -> walk es v u n.
Proof.
  induction 1 as [u|u v w n e He Hj _ IH]; [constructor|].
  replace (S n) with (n + 1) by lia. eapply walk_app; [exact IH|]. eapply walk_cons; [exact He|by rewrite joins_sym|constructor].
Qed.

(** The edges of a walk, with the vertices they lead to. *)
Inductive path (T : list edge) : nat -> list (edge * nat) -> Prop :=
| path_nil u : path T u []
| path_cons u e v l : e ∈ T -> joins u v e = true -> path T v l -> path T u ((e, v) :: l).

Fixpoint path_end (u : nat) (l : list (edge * nat)) : nat :=
  match l with [] => u | x :: l => path_end x.2 l end.

(** No edge is followed by itself. *)
Fixpoint onward (l : list (edge * nat)) : Prop :=
  match l with
  | x :: l' => match l' with y :: _ => x.1 <> y.1 | [] => True end /\ onward l'
  | [] => True
  end.

Lemma path_app_inv T u l1 l2 : path T u (l1 ++ l2) -> path T u l1 /\ path T (path_end u l1) l2.
Proof.
  revert u. induction l1 as [|[e v] l1 IH]; intros u; cbn; [split; [constructor|done]|].
  inversion 1 as [|? ? ? ? He Hj Hp]; subst. destruct (IH _ Hp). split; [by constructor|done].
Qed.

Lemma path_end_in u l : path_end u l ∈ u :: map snd l.
Proof. revert u. induction l as [|[e v] l IH]; intros u; cbn; [by left|]. right. apply IH. Qed.

Lemma joins_ends e u v u' v' : joins u v e = true -> joins u' v' e = true -> (u' = u /\ v' = v) \/ (u' = v /\ v' = u).
Proof. intros [[] | []]%joins_cases [[] | []]%joins_cases; subst; auto. Qed.

(** An edge whose end a path avoids is not on the path. *)
Lemma path_avoids T u l e x y :
  path T u l -> joins x y e = true -> x ∉ u :: map snd l -> e ∉ map fst l.
Proof.
  induction 1 as [u|u e' v l He Hj Hp IH]; intros Hxy Hx; cbn; [apply not_elem_of_nil|].
  cbn in Hx. apply not_elem_of_cons in Hx as [Hxu Hx]. apply not_elem_of_cons. split; [|by apply IH].
  intros ->. apply not_elem_of_cons in Hx as [Hxv _]. by destruct (joins_ends _ _ _ _ _ Hj Hxy) as [[? _]|[? _]].
Qed.

Lemma path_walk_without T1 e T2 u l :
  path (T1 ++ e :: T2) u l -> e ∉ map fst l -> walk (T1 ++ T2) u (path_end u l) (length l).
Proof.
  induction l as [|[e' v] l IH] in u |- *; cbn; [constructor|]. inversion 1 as [|? ? ? ? He Hj Hp]; subst.
  intros [Hne Hnin]%not_elem_of_cons. eapply walk_cons; [|exact Hj|by apply IH].
  apply elem_of_app in He as [He|[He|He]%elem_of_cons]; [by apply elem_of_app; left|done|by apply elem_of_app; right].
Qed.

Lemma path_end_app u l1 e v : path_end u (l1 ++ [(e, v)]) = v.
Proof. revert u. induction l1 as [|x l1 IH]; intros u; cbn; [done|apply IH]. Qed.

Lemma forest_path_simple T u l : forest T -> path T u l -> onward l -> NoDup (u :: map snd l).
Proof.
  intros Hf Hp. induction Hp as [u|u e v l He Hj Hp IH]; intros Hon; [apply NoDup_singleton|].
  destruct Hon as [Hhead Hon]. specialize (IH Hon). cbn. constructor; [|done].
  destruct (list_elem_of_split _ _ He) as (T1 & T2 & ->).
  assert (Hcyc : forall k, ~ walk (T1 ++ T2) v u k).
  { intros k Hk. pose proof (Hf T1 e T2 k eq_refl) as Hn. apply joins_cases in Hj as [[<- <-]|[<- <-]]; [by apply walk_sym in Hk|done]. }
  intros [->|Hin]%elem_of_cons; [by apply (Hcyc 0), walk_nil|].
  apply list_elem_of_fmap in Hin as ([e' u'] & Eu & Hin). cbn in Eu. subst u'.
  destruct (list_elem_of_split _ _ Hin) as (l1 & l2 & ->). rewrite (cons_middle (e', u)), app_assoc in Hp, IH.
  apply path_app_inv in Hp as [Hp _]. rewrite map_app in IH. apply (NoDup_app (v :: map snd (l1 ++ [(e', u)]))) in IH as [IH _].
  rewrite map_app in IH. cbn in IH.
  assert (Hu : u ∉ v :: map snd l1). { apply (NoDup_app (v :: map snd l1)) in IH as (_ & IH & _). intros Hx. by apply (IH u Hx), list_elem_of_here. }
  pose proof (path_app_inv _ _ _ _ Hp) as [Hp1 Hp2].
  pose proof (path_walk_without T1 e T2 v _ Hp) as Hwalk. rewrite path_end_app in Hwalk. apply (Hcyc (length (l1 ++ [(e', u)]))), Hwalk.
  rewrite map_app. intros [Hin1|Hin1]%elem_of_app; [by apply (path_avoids _ _ _ _ _ _ Hp1 Hj Hu)|].
  apply list_elem_of_singleton in Hin1. cbn in Hin1. subst e'.
  inversion Hp2 as [|? ? ? ? _ Hj2 _]; subst. destruct (joins_ends _ _ _ _ _ Hj Hj2) as [[E _]|[E _]].
  - apply Hu. rewrite <- E. apply path_end_in.
  - destruct l1 as [|[e1 v1] l1]; [by cbn in Hhead|]. apply NoDup_cons in IH as [IH _]. apply IH. cbn in E. rewrite <- E.
    cbn. apply (elem_of_app (v1 :: map snd l1)). left. apply path_end_in.
Qed.

Lemma path_walk T u l : path T u l -> walk T u (path_end u l) (length l).
Proof. induction 1 as [u|u e v l He Hj _ IH]; [constructor|]. by eapply walk_cons. Qed.

(** A shortest walk goes onward. *)
Lemma distance_path T u v k : distance T u v k -> exists l, path T u l /\ path_end u l = v /\ length l = k /\ onward l.
Proof.
  revert u. induction k as [|k IH]; intros u [Hw Hmin]; inversion Hw as [|? w ? ? e He Hj Hw']; subst.
  - exists []. split; [constructor|done].
  - assert (Hd : distance T w v k).
    { split; [done|]. intros m Hm. assert (S k <= S m); [|lia]. apply Hmin. by eapply walk_cons. }
    destruct (IH w Hd) as (l & Hp & He' & Hl & Hon). exists ((e, w) :: l). split; [by constructor|]. split; [done|].
    split; [cbn; lia|]. split; [|done]. destruct l as [|[e2 x] l]; [done|]. cbn. intros <-.
    inversion Hp as [|? ? ? ? _ Hj2 Hp']; subst. cbn in *.
    assert (x = u) as -> by (destruct (joins_ends _ _ _ _ _ Hj Hj2) as [[? ?]|[_ ?]]; congruence).
    apply path_walk, Hmin in Hp'. lia.
Qed.

(** ** A spanning forest that can be computed *)

Definition greedy_step (n : nat) (T : list edge) (e : edge) : list edge :=
  if within T (e_dst e) n (e_src e) then T else T ++ [e].
Definition greedy (n : nat) (es : list edge) : list edge := fold_left (greedy_step n) es [].

Lemma walk_mono T T' u v k : (forall e, e ∈ T -> e ∈ T') -> walk T u v k -> walk T' u v k.
Proof. intros Hs. induction 1; [constructor|]. eapply walk_cons; eauto. Qed.

(** A walk with one more edge avoids it, or goes to one of its ends and on from
    the other. *)
Lemma walk_extra S e u v k :
  walk (S ++ [e]) u v k ->
  (exists j, walk S u v j)
  \/ (exists i j, walk S u (e_src e) i /\ walk S (e_dst e) v j) \/ (exists i j, walk S u (e_dst e) i /\ walk S (e_src e) v j).
Proof.
  induction 1 as [u|u w v n x Hx Hj _ IH]; [left; exists 0; constructor|].
  apply elem_of_app in Hx as [Hx|Hx%list_elem_of_singleton].
  - destruct IH as [[j Hw]|[(i & j & Hi & Hw)|(i & j & Hi & Hw)]].
    + left. exists (Datatypes.S j). by eapply walk_cons.
    + right; left. exists (Datatypes.S i), j. split; [by eapply walk_cons|done].
    + right; right. exists (Datatypes.S i), j. split; [by eapply walk_cons|done].
  - subst x. apply joins_cases in Hj as [[<- <-]|[<- <-]].
    + destruct IH as [[j Hw]|[(i & j & Hi & Hw)|(i & j & Hi & Hw)]].
      * right; left. exists 0, j. split; [constructor|done].
      * right; left. exists 0, j. split; [constructor|done].
      * left. by exists j.
    + destruct IH as [[j Hw]|[(i & j & Hi & Hw)|(i & j & Hi & Hw)]].
      * right; right. exists 0, j. split; [constructor|done].
      * left. by exists j.
      * right; right. exists 0, j. split; [constructor|done].
Qed.

Lemma forest_snoc T e : forest T -> (forall k, ~ walk T (e_src e) (e_dst e) k) -> forest (T ++ [e]).
Proof.
  intros Hf He T1 x T2 k Heq Hk. destruct T2 as [|y T2 _] using rev_ind.
  - apply app_inj_tail in Heq as [-> ->]. rewrite app_nil_r in Hk. by apply (He k).
  - rewrite app_comm_cons, app_assoc in Heq. apply app_inj_tail in Heq as [-> ->]. rewrite app_assoc in Hk.
    assert (Hsub : forall z, z ∈ T1 ++ T2 -> z ∈ T1 ++ x :: T2) by (intros z; rewrite !elem_of_app, elem_of_cons; tauto).
    assert (Hx : x ∈ T1 ++ x :: T2) by (apply elem_of_app; right; by left).
    assert (Hstep : walk (T1 ++ x :: T2) (e_src x) (e_dst x) 1 /\ walk (T1 ++ x :: T2) (e_dst x) (e_src x) 1).
    { split; (eapply walk_cons; [exact Hx|apply joins_cases; auto|constructor]). }
    apply walk_extra in Hk as [[j Hw]|[(i & j & Hi & Hw)|(i & j & Hi & Hw)]].
    + by apply (Hf T1 x T2 j eq_refl).
    + apply (walk_mono _ _ _ _ _ Hsub) in Hi, Hw. apply walk_sym in Hi, Hw.
      apply (He (i + (1 + j))). eapply walk_app; [exact Hi|]. eapply walk_app; [apply Hstep|exact Hw].
    + apply (walk_mono _ _ _ _ _ Hsub) in Hi, Hw.
      apply (He (j + (1 + i))). eapply walk_app; [exact Hw|]. eapply walk_app; [apply Hstep|exact Hi].
Qed.

Lemma within_complete n T s v k : unit_graph n T -> v < n -> walk T v s k -> within T s n v = true.
Proof.
  intros Hg Hv Hk. destruct (walk_distance T s v k Hk) as [d Hd]. pose proof (distance_bound n T s v d Hg Hv Hd) as Hb.
  apply within_walk. exists d. split; [lia|apply Hd].
Qed.

Lemma greedy_ok : kruskal_ok greedy.
Proof.
  intros n es Hg.
  assert (H : forall es' T, (forall e, e ∈ T -> e ∈ es) -> (forall e, e ∈ es' -> e ∈ es) -> forest T ->
            let T' := fold_left (greedy_step n) es' T in
            (forall e, e ∈ T' -> e ∈ es) /\ forest T' /\ (forall e, e ∈ T -> e ∈ T')
            /\ forall e, e ∈ es' -> exists k, walk T' (e_src e) (e_dst e) k).
  { induction es' as [|e es' IH]; intros T HT Hes Hf; cbn.
    { split_and!; try done. intros e He. by apply not_elem_of_nil in He. }
    assert (He : e ∈ es) by (apply Hes; by left). destruct (Hg e He) as (Hs & Hd & _).
    assert (HgT : unit_graph n T) by (intros x Hx; by apply Hg, HT).
    assert (Hstep : (forall x, x ∈ greedy_step n T e -> x ∈ es) /\ forest (greedy_step n T e) /\ (forall x, x ∈ T -> x ∈ greedy_step n T e)
                    /\ exists k, walk (greedy_step n T e) (e_src e) (e_dst e) k).
    { unfold greedy_step. destruct (within T (e_dst e) n (e_src e)) eqn:E.
      - split_and!; try done. apply within_walk in E as (j & _ & Hj). by exists j.
      - split_and!.
        + intros x [Hx|Hx%list_elem_of_singleton]%elem_of_app; [by apply HT|by subst].
        + apply forest_snoc; [done|]. intros k Hk. by rewrite (within_complete n T _ _ k HgT Hs Hk) in E.
        + intros x Hx. apply elem_of_app. by left.
        + exists 1. eapply walk_cons; [apply elem_of_app; right; by left|apply joins_cases; auto|constructor]. }
    destruct Hstep as (H1 & H2 & H3 & k & Hk).
    destruct (IH (greedy_step n T e) H1 (fun x Hx => Hes x (list_elem_of_further _ _ _ Hx)) H2) as (I1 & I2 & I3 & I4).
    split_and!; [done|done|intros x Hx; by apply I3, H3|]. intros x [->|Hx]%elem_of_cons; [|by apply I4].
    exists k. by apply (walk_mono (greedy_step n T e)). }
  destruct (H es []) as (H1 & H2 & _ & H4).
  { intros e He. by apply not_elem_of_nil in He. }
  { done. }
  { intros T1 e T2 k E. by destruct T1. }
  split_and!; [done|done|]. intros u v k. induction 1 as [u|u w v m e He Hj _ [k' IH]]; [exists 0; constructor|].
  destruct (H4 e He) as [j Hw]. apply joins_cases in Hj as [[<- <-]|[<- <-]].
  - exists (j + k'). by eapply walk_app.
  - exists (j + k'). eapply walk_app; [by apply walk_sym|done].
Qed.
