(* ===== verification/StpTheorems.v ===== *)
(** * Flooding over the spanning tree

    The spanning tree application and the topology hear the same signals.  When
    the timer has computed a tree, a packet flooded by the groups reaches every
    connected switch and none twice. *)

From S2P Require Import Prelude Switch LinkDiscovery Topology Forest Stp Forwarding.
Local Open Scope Z_scope.

(** ** Ports of the groups *)

Lemma elem_of_enabled n ps : n ∈ getEnabledPorts ps <-> exists p, ps !! n = Some p /\ st_broadcast p = true.
Proof.
  unfold getEnabledPorts. rewrite list_elem_of_fmap. split.
  - intros ([n' p] & -> & Hin). apply list_elem_of_filter in Hin as [Hb Hin]. apply elem_of_map_to_list in Hin. by exists p.
  - intros (p & Hp & Hb). exists (n, p). split; [done|]. apply list_elem_of_filter. split; [done|]. by apply elem_of_map_to_list.
Qed.

Definition on_tree (T : list edge) (a : switch_and_port) : Prop :=
  exists e, e ∈ T /\ (a = lp_source (e_prop e) \/ a = lp_target (e_prop e)).

Lemma push_port_elem a tree d n :
  n ∈ default [] (push_port a tree !! d) <-> n ∈ default [] (tree !! d) \/ SwitchAndPort d n = a.
Proof.
  unfold push_port. destruct a as [da pa]. cbn. destruct (decide (da = d)) as [->|Hne].
  - rewrite lookup_insert_eq. cbn. rewrite elem_of_app, list_elem_of_singleton. split; (intros [?|E]; [by left|right; congruence]).
  - rewrite lookup_insert_ne by done. split; [by left|]. intros [?|E]; [done|congruence].
Qed.

Lemma tree_ports_elem T d n : n ∈ default [] (tree_ports T !! d) <-> on_tree T (SwitchAndPort d n).
Proof.
  assert (H : forall tree, n ∈ default [] (fold_left (fun tree e => push_port (lp_target (e_prop e)) (push_port (lp_source (e_prop e)) tree)) T tree !! d)
            <-> n ∈ default [] (tree !! d) \/ on_tree T (SwitchAndPort d n)).
  { induction T as [|e T IH]; intros tree; cbn.
    - split; [by left|]. intros [?|(e & He & _)]; [done|by apply not_elem_of_nil in He].
    - rewrite IH, !push_port_elem. unfold on_tree. setoid_rewrite elem_of_cons. split.
      + intros [[[?|?]|?]|(x & Hx & ?)]; [by left|right; exists e; auto|right; exists e; auto|right; exists x; auto].
      + intros [?|(x & [->|Hx] & [?|?])]; eauto 6. }
  unfold tree_ports. rewrite H, lookup_empty. cbn. split; [|by right]. intros [Hn|?]; [by apply not_elem_of_nil in Hn|done].
Qed.

(** The buckets a switch has, after it was sent the messages. *)
Definition last_group (d : Z) (out : list group_mod) : option (list Z) :=
  gm_ports <$> last (filter (fun g => gm_dpid g = d) out).

(** ** Marked ports *)

Definition marked (s : stp) (a : switch_and_port) : Prop :=
  exists ps p, switch_list s !! dpid a = Some (Some ps) /\ ps !! port a = Some p /\ st_to_switch p = true.

Definition no_null (s : stp) : Prop := map_Forall (fun _ x => x <> None) (switch_list s).

(** The same switches, none of them null, and no mark lost. *)
Record keeps (s s' : stp) : Prop := {
  kp_null : no_null s -> no_null s';
  kp_marked a : marked s a -> marked s' a;
  kp_known d : stp_known d s' = stp_known d s;
}.

Lemma keeps_refl s : keeps s s.
Proof. by split. Qed.

Lemma keeps_trans s1 s2 s3 : keeps s1 s2 -> keeps s2 s3 -> keeps s1 s3.
Proof. intros [A1 B1 C1] [A2 B2 C2]. split; auto. intros d. by rewrite C2. Qed.

(** Replacing the ports of one switch. *)
Lemma keeps_insert s d ps ps' :
  switch_list s !! d = Some (Some ps) ->
  (forall n p, ps !! n = Some p -> st_to_switch p = true -> exists p', ps' !! n = Some p' /\ st_to_switch p' = true) ->
  keeps s (set_list (<[d := Some ps']> (switch_list s)) s).
Proof.
  intros Hd Hp. split.
  - intros Hn d' x. cbn. rewrite lookup_insert_Some. intros [[_ <-]|[_ Hx]]; [done|by apply (Hn d')].
  - intros a (qs & p & Hq & Hqa & Hm). unfold marked. cbn. destruct (decide (dpid a = d)) as [E|E].
    + rewrite E in *. assert (qs = ps) as -> by congruence. destruct (Hp _ _ Hqa Hm) as (p' & Hp' & Hm').
      exists ps', p'. by rewrite lookup_insert_eq.
    + exists qs, p. by rewrite lookup_insert_ne.
  - intros d'. unfold stp_known. cbn. apply bool_decide_ext. destruct (decide (d' = d)) as [->|E].
    + rewrite lookup_insert_eq, Hd. split; eauto.
    + by rewrite lookup_insert_ne.
Qed.

Lemma get_known d s : no_null s -> stp_known d s = true -> exists ps, switch_list s !! d = Some (Some ps) /\ get_switch d s = Ok ps.
Proof.
  intros Hn Hk%bool_decide_eq_true. unfold get_switch. destruct Hk as [[ps|] Hd]; [exists ps; by rewrite Hd|by apply Hn in Hd].
Qed.

Lemma link_end_ok a o s :
  no_null s -> stp_known (dpid a) s = true ->
  exists s' out, link_end a o s = Ok (s', out) /\ keeps s s' /\ marked s' a /\ computed s' = computed s.
Proof.
  intros Hn Hk. destruct (get_known _ _ Hn Hk) as (ps & Hd & Hg). unfold link_end. rewrite Hg, res_bind_Ok.
  set (ps1 := if existsPort (port a) ps then ps else <[port a := new_port]> ps).
  assert (Hp1 : exists p, ps1 !! port a = Some p /\ forall n, n <> port a -> ps1 !! n = ps !! n).
  { unfold ps1, existsPort. case_bool_decide as E; [destruct E as [p E]; by exists p|]. exists new_port.
    rewrite lookup_insert_eq. split; [done|]. intros n Hne. by rewrite lookup_insert_ne. }
  destruct Hp1 as (p & Hp & Hrest). unfold setBroadcast. rewrite Hp, res_bind_Ok. unfold setSwitchPort.
  rewrite lookup_insert_eq, res_bind_Ok. do 2 eexists. split; [reflexivity|]. split; [|split; [|done]].
  - apply keeps_insert with ps; [done|]. intros n q Hq Hm. destruct (decide (n = port a)) as [->|Hne].
    + eexists. rewrite lookup_insert_eq. done.
    + exists q. rewrite !lookup_insert_ne by done. by rewrite Hrest.
  - unfold marked. cbn. rewrite lookup_insert_eq. do 2 eexists. split; [reflexivity|]. by rewrite lookup_insert_eq.
Qed.

Lemma stp_linkDiscovered_ok from to s :
  no_null s -> stp_known (dpid from) s = true -> stp_known (dpid to) s = true ->
  exists s' out, stp_onLinkDiscovered from to s = Ok (s', out) /\ keeps s s' /\ marked s' from /\ marked s' to.
Proof.
  intros Hn Hf Ht. unfold stp_onLinkDiscovered. rewrite Hf, Ht. cbn [negb orb].
  destruct (link_end_ok from (dpid to) s Hn Hf) as (s1 & o1 & E1 & K1 & M1 & _). rewrite E1, res_bind_Ok. cbn [fst].
  destruct (link_end_ok to (dpid from) s1) as (s2 & o2 & E2 & K2 & M2 & _).
  { by apply (kp_null _ _ K1). }
  { by rewrite (kp_known _ _ K1). }
  rewrite E2, res_bind_Ok. do 2 eexists. split; [reflexivity|]. cbn.
  assert (K : keeps s s2) by by eapply keeps_trans.
  split; [by destruct K; split|]. split; [|exact M2]. apply (kp_marked _ _ K2) in M1. exact M1.
Qed.

Lemma stp_portUp_ok d n s : no_null s -> exists s' out, stp_onPortUp d n s = Ok (s', out) /\ keeps s s'.
Proof.
  intros Hn. unfold stp_onPortUp. destruct (stp_known d s) eqn:Hk; [|eexists _, _; split; [reflexivity|apply keeps_refl]].
  destruct (get_known _ _ Hn Hk) as (ps & Hd & Hg). rewrite Hg, res_bind_Ok. do 2 eexists. split; [reflexivity|].
  apply keeps_insert with ps; [done|]. intros m p Hp Hm. unfold existsPort. case_bool_decide as E; cbn; [by exists p|].
  destruct (n <? OFPP_MAX); [|by exists p]. exists p. rewrite lookup_insert_ne; [done|]. intros ->. apply E. by exists p.
Qed.

Lemma stp_switchUp_ok d s :
  exists s' out, stp_onSwitchUp d s = (s', out) /\ (no_null s -> no_null s') /\ (forall a, marked s a -> marked s' a)
    /\ stp_known d s' = true /\ forall d', stp_known d' s = true -> stp_known d' s' = true.
Proof.
  unfold stp_onSwitchUp. destruct (stp_known d s) eqn:Hk; [by eexists _, _|]. do 2 eexists. split; [reflexivity|]. split_and!.
  - intros Hn d' x. cbn. rewrite lookup_insert_Some. intros [[_ <-]|[_ Hx]]; [done|by apply (Hn d')].
  - intros a (ps & p & Ha & ?). exists ps, p. cbn. rewrite lookup_insert_ne; [done|]. intros ->. unfold stp_known in Hk.
    apply bool_decide_eq_false in Hk. apply Hk. by eexists.
  - unfold stp_known. cbn. rewrite lookup_insert_eq. by apply bool_decide_eq_true.
  - intros d' Hd'%bool_decide_eq_true. apply bool_decide_eq_true. cbn. destruct (decide (d' = d)) as [->|E];
      [rewrite lookup_insert_eq; by eexists|by rewrite lookup_insert_ne].
Qed.

(** ** Computing the tree *)

Lemma set_tree_ports_ok ns ps :
  exists ps', set_tree_ports ns ps = Ok ps'
    /\ forall n, ps' !! n = (fun p => if decide (n ∈ ns) then StpPort true (st_to_switch p) (st_next p) else p) <$> ps !! n.
Proof.
  revert ps. induction ns as [|m ns IH]; intros ps; cbn.
  - exists ps. split; [done|]. intros n. destruct (ps !! n) as [p|]; [|done]. cbn. by rewrite decide_False by apply not_elem_of_nil.
  - assert (H : exists ps1, (if existsPort m ps then setBroadcast true m ps else Ok ps) = Ok ps1
              /\ forall n, ps1 !! n = (fun p => if decide (n = m) then StpPort true (st_to_switch p) (st_next p) else p) <$> ps !! n).
    { unfold existsPort, setBroadcast. case_bool_decide as E.
      - destruct E as [p E]. rewrite E. eexists. split; [reflexivity|]. intros n. case_decide as Hn.
        + subst. by rewrite lookup_insert_eq, E.
        + rewrite lookup_insert_ne by done. by destruct (ps !! n).
      - exists ps. split; [done|]. intros n. case_decide as Hn; [|by destruct (ps !! n)]. subst. destruct (ps !! m); [|done]. by destruct E. }
    destruct H as (ps1 & -> & H1). rewrite res_bind_Ok. destruct (IH ps1) as (ps' & E & H2). exists ps'. split; [done|].
    intros n. rewrite H2, H1. destruct (ps !! n) as [p|]; [|done]. cbn. f_equal.
    destruct (decide (n = m)) as [->|Hn].
    + rewrite (decide_True (P := m ∈ m :: ns)) by by left. by destruct (decide (m ∈ ns)).
    + destruct (decide (n ∈ ns)); [rewrite decide_True by by right|rewrite decide_False by (intros [?|?]%elem_of_cons; done)]; done.
Qed.

Lemma filter_none d (out : list group_mod) : (forall g, g ∈ out -> gm_dpid g <> d) -> filter (fun g => gm_dpid g = d) out = [].
Proof.
  induction out as [|g out IH]; intros H; [done|]. rewrite filter_cons, decide_False by (apply H; by left). apply IH. intros x Hx. apply H. by right.
Qed.

Lemma set_tree_ok tree s :
  NoDup (map fst tree) -> (forall d, d ∈ map fst tree -> exists ps, switch_list s !! d = Some (Some ps)) ->
  exists s' out, set_tree tree s = Ok (s', out) /\ keeps s s' /\ computed s' = computed s /\ spanning_tree s' = spanning_tree s
    /\ (forall d, d ∉ map fst tree -> switch_list s' !! d = switch_list s !! d)
    /\ (forall g, g ∈ out -> gm_dpid g ∈ map fst tree)
    /\ forall d ns ps, (d, ns) ∈ tree -> switch_list s !! d = Some (Some ps) ->
         exists ps', switch_list s' !! d = Some (Some ps') /\ last_group d out = Some (getEnabledPorts ps')
           /\ forall n, ps' !! n = (fun p => if decide (n ∈ ns) then StpPort true (st_to_switch p) (st_next p) else p) <$> ps !! n.
Proof.
  revert s. induction tree as [|[d ns] tree IH]; intros s Hnd Hin.
  { exists s, []. split; [done|]. split; [apply keeps_refl|]. split_and!; try done.
    - intros g Hg. by apply not_elem_of_nil in Hg.
    - intros d ns ps Hg. by apply not_elem_of_nil in Hg. }
  cbn in Hnd. apply NoDup_cons in Hnd as [Hd Hnd]. destruct (Hin d) as [ps Hps]; [by left|].
  cbn [set_tree]. unfold get_switch at 1. rewrite Hps, res_bind_Ok. destruct (set_tree_ports_ok ns ps) as (ps' & -> & Hps').
  rewrite res_bind_Ok. set (s1 := set_list (<[d := Some ps']> (switch_list s)) s).
  assert (K1 : keeps s s1). { apply keeps_insert with ps; [done|]. intros n p Hp Hm. rewrite Hps', Hp. cbn. case_decide; eauto. }
  destruct (IH s1 Hnd) as (s' & out & E & K & Hc & Ht & Hother & Hout & Hall).
  { intros d' Hd'. destruct (Hin d') as [qs Hqs]; [by right|]. exists qs. unfold s1. cbn. rewrite lookup_insert_ne; [done|]. by intros ->. }
  rewrite E, res_bind_Ok. exists s', (updateGroup d ps' ++ out). split; [reflexivity|]. split; [by eapply keeps_trans|].
  split; [done|]. split; [done|]. split; [|split].
  - intros d' Hd'. cbn in Hd'. apply not_elem_of_cons in Hd' as [? ?]. rewrite Hother by done. unfold s1. cbn. by rewrite lookup_insert_ne.
  - intros g [->|Hg]%elem_of_cons; [by left|right; by apply Hout].
  - assert (Hs1d : switch_list s' !! d = Some (Some ps')) by (rewrite Hother by done; unfold s1; cbn; by rewrite lookup_insert_eq).
    intros d' ns' qs [[= -> ->]|Hin']%elem_of_cons Hqs.
    + assert (qs = ps) as -> by congruence. exists ps'. split; [done|]. split; [|done].
      unfold last_group. rewrite filter_app, (filter_none d out), app_nil_r by (intros g Hg E'; apply Hd; rewrite <- E'; by apply Hout).
      unfold updateGroup. by rewrite filter_cons, decide_True.
    + assert (Hne : d' <> d). { intros ->. apply Hd. apply list_elem_of_fmap. by exists (d, ns'). }
      destruct (Hall d' ns' qs Hin') as (qs' & H1 & H2 & H3). { unfold s1. cbn. by rewrite lookup_insert_ne. }
      exists qs'. split; [done|]. split; [|done]. unfold last_group in *. rewrite filter_app.
      unfold updateGroup. by rewrite filter_cons, decide_False, filter_nil by done.
Qed.

Lemma reset_all_ok s :
  no_null s -> exists s', reset_all s = Ok s' /\ keeps s s' /\ computed s' = computed s
    /\ forall d, switch_list s' !! d = option_map resetBroadcast <$> switch_list s !! d.
Proof.
  intros Hn. unfold reset_all. rewrite bool_decide_true by done. eexists. split; [reflexivity|].
  assert (Hl : forall d, switch_list (set_list (option_map resetBroadcast <$> switch_list s) s) !! d = option_map resetBroadcast <$> switch_list s !! d)
    by (intros d; apply lookup_fmap).
  split; [|split; [done|exact Hl]]. split.
  - intros _ d x. rewrite Hl. destruct (switch_list s !! d) as [y|] eqn:E; [|done]. cbn. intros [= <-]. pose proof (Hn d y E). by destruct y.
  - intros a (ps & p & Ha & Hp & Hm). unfold marked. rewrite Hl, Ha. cbn. exists (resetBroadcast ps). eexists. split; [done|].
    unfold resetBroadcast. rewrite lookup_fmap, Hp. cbn. rewrite Hm. done.
  - intros d. unfold stp_known. apply bool_decide_ext. rewrite Hl. destruct (switch_list s !! d); cbn; split; intros [? ?]; by eexists.
Qed.

(** ** The topology and the spanning tree together *)

Record network := Network { nw_topology : topology; nw_stp : stp }.

Inductive nw_event :=
| nw_link (from to : switch_and_port) (random : Z)
| nw_broken (from to : switch_and_port)
| nw_switch_up (d : Z)
| nw_switch_down (d : Z)
| nw_port_up (d n : Z)
| nw_tick.

Inductive nw_fault := nf_topology (e : topo_fault) | nf_stp (e : stp_fault).

Definition in_topology {A} (r : res topo_fault A) : res nw_fault A :=
  match r with Ok a => Ok a | Throw e => Throw (nf_topology e) end.
Definition in_stp {A} (r : res stp_fault A) : res nw_fault A :=
  match r with Ok a => Ok a | Throw e => Throw (nf_stp e) end.

Section network.
Variable kruskal : nat -> list edge -> list edge.

Definition nw_step (e : nw_event) (w : network) : res nw_fault network :=
  match e with
  | nw_link from to r =>
      t ← in_topology (topo_linkDiscovered from to r (nw_topology w));
      s ← in_stp (stp_onLinkDiscovered from to (nw_stp w));
      Ok (Network t.1 s.1)
  | nw_broken from to =>
      t ← in_topology (topo_linkBroken from to (nw_topology w)); Ok (Network t.1 (stp_onLinkBroken (nw_stp w)))
  | nw_switch_up d => Ok (Network (nw_topology w) (stp_onSwitchUp d (nw_stp w)).1)
  | nw_switch_down d => Ok (Network (nw_topology w) (stp_onSwitchDown d (nw_stp w)))
  | nw_port_up d n => s ← in_stp (stp_onPortUp d n (nw_stp w)); Ok (Network (nw_topology w) s.1)
  | nw_tick => s ← in_stp (computeSpanningTree kruskal (nw_topology w) (nw_stp w)); Ok (Network (nw_topology w) s.1)
  end.

Fixpoint nw_run (es : list nw_event) (w : network) : res nw_fault network :=
  match es with [] => Ok w | e :: es => w ← nw_step e w; nw_run es w end.

(** Links are discovered between switches that are up, and a switch goes down
    after its links have broken. *)
Definition nw_allowed (e : nw_event) (w : network) : Prop :=
  match e with
  | nw_link from to _ => stp_known (dpid from) (nw_stp w) = true /\ stp_known (dpid to) (nw_stp w) = true
  | nw_switch_down d => forall l, l ∈ links (nw_topology w) -> dpid l.1 <> d /\ dpid l.2 <> d
  | _ => True
  end.

Fixpoint nw_orderly (es : list nw_event) (w : network) : Prop :=
  match es with
  | [] => True
  | e :: es => nw_allowed e w /\ match nw_step e w with Ok w' => nw_orderly es w' | Throw _ => True end
  end.

Record nw_ok (w : network) : Prop := {
  no_topo : topo_ok (nw_topology w);
  no_nulls : no_null (nw_stp w);
  no_links l : l ∈ links (nw_topology w) -> marked (nw_stp w) l.1 /\ marked (nw_stp w) l.2;
}.

Lemma links_on_graph t e : e ∈ g_edges t -> (lp_source (e_prop e), lp_target (e_prop e)) ∈ links t.
Proof. intros He. by apply list_elem_of_fmap_2 with (f := fun e => (lp_source (e_prop e), lp_target (e_prop e))). Qed.

Hypothesis kruskal_spec : kruskal_ok kruskal.

Definition tree_of (t : topology) : list edge := kruskal (length (g_vertices t)) (g_edges t).

Lemma marked_known s a : marked s a -> stp_known (dpid a) s = true.
Proof. intros (ps & p & Ha & _). apply bool_decide_eq_true. by eexists. Qed.

Lemma tree_port_marked w d : nw_ok w -> d ∈ map fst (map_to_list (tree_ports (tree_of (nw_topology w)))) ->
  stp_known d (nw_stp w) = true.
Proof.
  intros [Ht Hn Hl] Hd. apply list_elem_of_fmap in Hd as ([d' ns] & -> & Hin%elem_of_map_to_list). cbn.
  destruct (kruskal_spec _ _ (graph_unit _ Ht)) as (Hsub & _ & _).
  assert (Hne : exists n, n ∈ ns).
  { unfold tree_ports in Hin. revert Hin. assert (H0 : forall d ns, (∅ : gmap Z (list Z)) !! d = Some ns -> exists n : Z, n ∈ ns) by (intros ? ?; by rewrite lookup_empty).
    revert H0. generalize (∅ : gmap Z (list Z)) as tree. generalize (tree_of (nw_topology w)) as T.
    assert (Hpush : forall a (tree : gmap Z (list Z)), (forall d ns, tree !! d = Some ns -> exists n : Z, n ∈ ns) ->
              forall d ns, push_port a tree !! d = Some ns -> exists n : Z, n ∈ ns).
    { intros a tree Htr d0 ns0. unfold push_port. rewrite lookup_insert_Some. intros [[_ <-]|[_ ?]]; [|by eapply Htr].
      exists (port a). apply elem_of_app. right. by left. }
    induction T as [|e T IH]; intros tree Htr; cbn; [apply Htr|]. apply IH. by apply Hpush, Hpush. }
  destruct Hne as [n Hn']. assert (Hin' : n ∈ default [] (tree_ports (tree_of (nw_topology w)) !! d')) by by rewrite Hin.
  apply tree_ports_elem in Hin' as (e & He & Ha). apply Hsub, links_on_graph, Hl in He as [M1 M2]. cbn in M1, M2.
  destruct Ha as [Ha|Ha]; rewrite <- Ha in *; [exact (marked_known _ _ M1)|exact (marked_known _ _ M2)].
Qed.

(** A tick that computes: every switch on the tree is sent a group, and a port
    between switches is in it when it is on the tree. *)
Lemma compute_ok w :
  nw_ok w -> computed (nw_stp w) = false ->
  exists s' out, computeSpanningTree kruskal (nw_topology w) (nw_stp w) = Ok (s', out) /\ keeps (nw_stp w) s' /\ computed s' = true
    /\ forall a, marked (nw_stp w) a -> (exists n, on_tree (tree_of (nw_topology w)) (SwitchAndPort (dpid a) n)) ->
         port a ∈ default [] (last_group (dpid a) out) <-> on_tree (tree_of (nw_topology w)) a.
Proof.
  intros Hw Hc. pose proof Hw as [Ht Hn Hl]. unfold computeSpanningTree. rewrite Hc.
  destruct (reset_all_ok _ Hn) as (s1 & -> & K1 & Hc1 & Hr). rewrite res_bind_Ok. fold (tree_of (nw_topology w)).
  set (tree := tree_ports (tree_of (nw_topology w))).
  assert (Hknown : forall d, d ∈ map fst (map_to_list tree) -> exists ps, switch_list (nw_stp w) !! d = Some (Some ps)).
  { intros d Hd. destruct (get_known d _ Hn (tree_port_marked w d Hw Hd)) as (ps & Hps & _). by exists ps. }
  destruct (set_tree_ok (map_to_list tree) (STP (switch_list s1) tree (computed s1))) as (s2 & out & E & K2 & Hc2 & _ & _ & _ & Hall).
  { apply NoDup_fst_map_to_list. }
  { intros d Hd. destruct (Hknown d Hd) as [ps Hps]. exists (resetBroadcast ps). cbn. by rewrite Hr, Hps. }
  rewrite E, res_bind_Ok. do 2 eexists. split; [reflexivity|]. split; [|split; [done|]].
  { eapply keeps_trans; [exact K1|]. destruct K2 as [A B C]. split; [exact A|exact B|exact C]. }
  intros a (ps & p & Ha & Hp & Hm) [n0 Htree]. rewrite <- tree_ports_elem in Htree. fold tree in Htree.
  destruct (tree !! dpid a) as [ns|] eqn:Ens; [|cbn in Htree; by apply not_elem_of_nil in Htree].
  destruct (Hall (dpid a) ns (resetBroadcast ps)) as (ps' & Hps' & Hgroup & Hports).
  { by apply elem_of_map_to_list. }
  { cbn. by rewrite Hr, Ha. }
  cbn [snd]. rewrite Hgroup. cbn [default from_option id]. rewrite elem_of_enabled, Hports. unfold resetBroadcast. rewrite lookup_fmap, Hp. cbn. rewrite Hm.
  pose proof (tree_ports_elem (tree_of (nw_topology w)) (dpid a) (port a)) as Hel. fold tree in Hel. rewrite Ens in Hel. cbn in Hel.
  replace (SwitchAndPort (dpid a) (port a)) with a in Hel by by destruct a. rewrite <- Hel. split.
  - intros (q & [= <-] & Hb). by case_decide.
  - intros Hin. eexists. split; [reflexivity|]. by rewrite decide_True.
Qed.

Lemma nw_keeps t s s' : nw_ok (Network t s) -> keeps s s' -> nw_ok (Network t s').
Proof.
  intros [Ht Hn Hl] K. split; cbn in *; [done|by apply (kp_null _ _ K)|].
  intros l Hin. destruct (Hl l Hin). split; by apply (kp_marked _ _ K).
Qed.

Lemma nw_step_ok e w : nw_ok w -> nw_allowed e w -> exists w', nw_step e w = Ok w' /\ nw_ok w'.
Proof.
  intros Hw Ha. pose proof Hw as [Ht Hn Hl]. destruct w as [t s]. destruct e as [from to r|from to|d|d|d n|]; cbn in *.
  - destruct Ha as [Hf Hto]. destruct (linkDiscovered_ok from to r t Ht) as (t' & o & -> & Ht' & Hlinks & _). cbn.
    destruct (stp_linkDiscovered_ok from to s Hn Hf Hto) as (s' & o' & -> & K & M1 & M2). cbn. eexists. split; [reflexivity|].
    split; cbn; [done|by apply (kp_null _ _ K)|]. intros l. rewrite Hlinks. intros [Hin|Hin]%elem_of_app.
    + destruct (Hl l Hin). split; by apply (kp_marked _ _ K).
    + destruct (dpid from =? dpid to); [by apply not_elem_of_nil in Hin|]. by apply list_elem_of_singleton in Hin as ->.
  - destruct (linkBroken_ok from to t Ht) as (t' & o & -> & Ht' & Hlinks & _). cbn. eexists. split; [reflexivity|].
    split; cbn; [done|done|]. intros l. rewrite Hlinks. intros [Hin _]%list_elem_of_In%filter_In. by apply Hl, list_elem_of_In.
  - destruct (stp_switchUp_ok d s) as (s' & o & -> & H1 & H2 & _). cbn. eexists. split; [reflexivity|]. split; cbn; [done|auto|].
    intros l Hin. destruct (Hl l Hin). auto.
  - eexists. split; [reflexivity|]. split; cbn; [done| |].
    + intros d' x. cbn. rewrite lookup_delete_Some. intros [_ Hx]. by apply (Hn d').
    + intros l Hin. destruct (Ha l Hin) as [N1 N2], (Hl l Hin) as [(ps & p & L1 & ?) (qs & q & L2 & ?)].
      split; [exists ps, p|exists qs, q]; cbn; rewrite lookup_delete_ne; first [done|by intros E; apply N1|by intros E; apply N2].
  - destruct (stp_portUp_ok d n s Hn) as (s' & o & -> & K). cbn. eexists. split; [reflexivity|]. by eapply nw_keeps.
  - destruct (computed s) eqn:Hc.
    + unfold computeSpanningTree. rewrite Hc. cbn. by eexists.
    + destruct (compute_ok (Network t s) Hw Hc) as (s' & o & E & K & _). cbn in E. rewrite E. cbn. eexists. split; [reflexivity|]. by eapply nw_keeps.
Qed.

Lemma nw_run_ok es w : nw_ok w -> nw_orderly es w -> exists w', nw_run es w = Ok w' /\ nw_ok w'.
Proof.
  revert w. induction es as [|e es IH]; intros w Hw Ho; [by exists w|]. destruct Ho as [Ha Ho].
  destruct (nw_step_ok e w Hw Ha) as (w1 & E & Hw1). rewrite E in Ho. cbn. rewrite E, res_bind_Ok. by apply IH.
Qed.
End network.

Definition new_network : network := Network new_topology new_stp.

Lemma new_network_ok : nw_ok new_network.
Proof. split; cbn; [apply new_topology_ok|apply map_Forall_empty|intros l Hl; by apply not_elem_of_nil in Hl]. Qed.

(** ** Flooding *)

(** A copy of a flooded packet: it enters a switch at a port, is sent out of the
    ports of the group but never back where it came from, and where a link is
    plugged in it enters the next switch.  The list has the ports of entry. *)
Inductive flood (group : Z -> list Z) (ls : list (switch_and_port * switch_and_port)) : switch_and_port -> list switch_and_port -> Prop :=
| flood_here a : flood group ls a [a]
| flood_hop a o b l :
    o ∈ group (dpid a) -> o <> port a -> link_from (SwitchAndPort (dpid a) o) ls = Some b -> flood group ls b l ->
    flood group ls a (a :: l).

Section flooding.
Variables (t : topology) (T : list edge) (group : Z -> list Z).
Hypothesis t_ok : topo_ok t.
Hypothesis t_wired : wired (links t).
Hypothesis T_edges : forall e, e ∈ T -> e ∈ g_edges t.
Hypothesis T_forest : forest T.
Hypothesis T_spans : forall u v k, walk (g_edges t) u v k -> exists k', walk T u v k'.
(** The port of a link is in the group of its switch when it is on the tree. *)
Hypothesis group_tree : forall a b, (a, b) ∈ links t \/ (b, a) ∈ links t ->
  (exists n, on_tree T (SwitchAndPort (dpid a) n)) -> port a ∈ group (dpid a) <-> on_tree T a.

(** An edge with its ends in a given order. *)
Definition plugged (a b : switch_and_port) (e : edge) : Prop :=
  (lp_source (e_prop e), lp_target (e_prop e)) = (a, b) \/ (lp_source (e_prop e), lp_target (e_prop e)) = (b, a).

Lemma plugged_link a b e : e ∈ g_edges t -> plugged a b e -> (a, b) ∈ links t \/ (b, a) ∈ links t.
Proof. intros He%links_on_graph [E|E]; rewrite E in He; auto. Qed.

Lemma plugged_joins a b e u v :
  e ∈ g_edges t -> plugged a b e -> g_vertices t !! u = Some (dpid a) -> g_vertices t !! v = Some (dpid b) -> joins u v e = true.
Proof.
  intros He Hp Hu Hv. destruct (to_edges t t_ok e He) as (Hs & Hd & _). apply joins_cases.
  destruct Hp as [[= Ea Eb]|[= Ea Eb]]; rewrite Ea in Hs; rewrite Eb in Hd; [left|right]; split; by eapply vertices_inj.
Qed.

Lemma plugged_dpids a b e : e ∈ g_edges t -> plugged a b e -> dpid a <> dpid b.
Proof. intros He Hp. destruct (to_edges t t_ok e He) as (_ & _ & _ & Hne). by destruct Hp as [[= <- <-]|[= <- <-]]. Qed.

(** Two edges of the forest that are plugged into one port are the same. *)
Lemma plugged_unique a b c e e' : e ∈ T -> e' ∈ T -> plugged a b e -> plugged a c e' -> e = e'.
Proof.
  intros He He' Hp Hp'. assert (b = c) as <-.
  { apply (t_wired a); [apply (plugged_link _ _ e)|apply (plugged_link _ _ e')]; auto. }
  destruct (to_edges t t_ok e (T_edges e He)) as (Hs & Hd & _), (to_edges t t_ok e' (T_edges e' He')) as (Hs' & Hd' & _).
  destruct (list_elem_of_split _ _ He) as (T1 & T2 & ET). rewrite ET in He'.
  apply elem_of_app in He' as [He'|[->|He']%elem_of_cons]; [| done |].
  all: exfalso; apply (T_forest T1 e T2 1%nat ET); eapply walk_cons with (e := e'); [apply elem_of_app; auto| |constructor].
  all: apply joins_cases; destruct Hp as [[= Ea Eb]|[= Ea Eb]], Hp' as [[= Ea' Eb']|[= Ea' Eb']];
    rewrite ?Ea, ?Eb in *; rewrite ?Ea', ?Eb' in *; [left|right|right|left]; split; by eapply vertices_inj.
Qed.

Lemma link_from_plugged a b : link_from a (links t) = Some b -> (a, b) ∈ links t \/ (b, a) ∈ links t.
Proof.
  unfold link_from. destruct (List.find _ (links t)) as [[x y]|] eqn:E; [|done].
  apply List.find_some in E as [Hin%list_elem_of_In Hor]. cbn in *. case_bool_decide as Ex; intros [= <-]; subst; [by left|].
  right. apply orb_true_iff in Hor as [?|Hy%bool_decide_eq_true]; [done|by subst].
Qed.

(** A copy leaves along an edge of the tree. *)
Lemma flood_edge a o b :
  o ∈ group (dpid a) -> link_from (SwitchAndPort (dpid a) o) (links t) = Some b ->
  exists e, e ∈ T /\ plugged (SwitchAndPort (dpid a) o) b e.
Proof.
  intros Ho Hl. apply link_from_plugged in Hl. remember (SwitchAndPort (dpid a) o) as x eqn:Ex.
  assert (Ho' : port x ∈ group (dpid x)) by by rewrite Ex. clear Ho Ex.
  assert (Hx : exists e, e ∈ g_edges t /\ plugged x b e).
  { destruct Hl as [Hl|Hl]; unfold links in Hl; apply list_elem_of_fmap in Hl as (e & E & He); exists e; (split; [done|]);
      [by left|by right]. }
  destruct Hx as (e0 & He0 & Hp0). destruct (to_edges t t_ok e0 He0) as (Hs & Hd & _ & Hne).
  (* the switch has some port on the tree, since the ends of the link are connected *)
  assert (Htree : exists n, on_tree T (SwitchAndPort (dpid x) n)).
  { destruct (T_spans (e_src e0) (e_dst e0) 1%nat) as [k Hk].
    { eapply walk_cons; [exact He0|apply joins_cases; auto|constructor]. }
    assert (Hends : exists u v k', g_vertices t !! u = Some (dpid x) /\ u <> v /\ walk T u v k').
    { destruct Hp0 as [[= E1 E2]|[= E1 E2]]; rewrite E1, E2 in *.
      - exists (e_src e0), (e_dst e0), k. split_and!; [done| |done]. intros E. rewrite E in Hs. congruence.
      - exists (e_dst e0), (e_src e0), k. split_and!; [done| |by apply walk_sym]. intros E. rewrite E in Hd. congruence. }
    destruct Hends as (u & v & k' & Hu & Huv & Hw). inversion Hw as [|? w ? ? e He Hj _]; subst; [done|].
    destruct (to_edges t t_ok e (T_edges e He)) as (Hs' & Hd' & _).
    apply joins_cases in Hj as [[<- _]|[_ <-]].
    - exists (port (lp_source (e_prop e))), e. split; [done|]. left. rewrite Hu in Hs'. destruct (lp_source (e_prop e)); cbn in *; congruence.
    - exists (port (lp_target (e_prop e))), e. split; [done|]. right. rewrite Hu in Hd'. destruct (lp_target (e_prop e)); cbn in *; congruence. }
  apply (group_tree x b Hl Htree) in Ho' as (e & He & Hxe). exists e. split; [done|].
  assert (Hp : exists c, plugged x c e) by (unfold plugged; destruct Hxe as [-> | ->]; eexists; [by left|by right]).
  destruct Hp as [c Hp]. assert (b = c) as ->; [|done]. apply (t_wired x); [done|]. by apply (plugged_link _ _ e); [apply T_edges|].
Qed.

(** A copy follows an onward path of the forest. *)
Lemma flood_path a l u :
  flood group (links t) a l -> g_vertices t !! u = Some (dpid a) ->
  exists p, path T u p /\ onward p /\ Forall2 (fun z v => g_vertices t !! v = Some (dpid z)) l (u :: map snd p)
    /\ match p with (e, _) :: _ => exists o b, o <> port a /\ plugged (SwitchAndPort (dpid a) o) b e | [] => True end.
Proof.
  intros Hf. revert u. induction Hf as [a|a o b l Ho Hne Hl Hf IH]; intros u Hu.
  { exists []. split; [constructor|]. split; [done|]. split; [|done]. by repeat constructor. }
  destruct (flood_edge a o b Ho Hl) as (e & He & Hp). pose proof (T_edges e He) as Heg.
  assert (Hb : exists v, g_vertices t !! v = Some (dpid b)).
  { destruct (to_edges t t_ok e Heg) as (Hs & Hd & _). destruct Hp as [[= E1 E2]|[= E1 E2]]; rewrite E1, E2 in *; eauto. }
  destruct Hb as [v Hv]. destruct (IH v Hv) as (p & Hpath & Hon & Hall & Hhead). exists ((e, v) :: p).
  split; [constructor; [done| |done]|]. { apply (plugged_joins (SwitchAndPort (dpid a) o) b); done. }
  split; [|split; [by constructor|by exists o, b]].
  split; [|done]. destruct p as [|[e' w] p]; [done|]. destruct Hhead as (o' & c & Hne' & Hp'). cbn. intros <-.
  (* the same edge at both switches: its port there is the one the copy came by *)
  apply Hne'. pose proof (plugged_dpids _ _ _ Heg Hp) as Hd. pose proof (plugged_dpids _ _ _ Heg Hp') as Hd'. cbn in Hd, Hd'.
  destruct Hp as [[= E1 E2]|[= E1 E2]], Hp' as [[= E3 E4]|[= E3 E4]]; rewrite E1 in E3; rewrite E2 in E4;
    try (by apply (f_equal port) in E4); try (by apply (f_equal port) in E3); apply (f_equal dpid) in E3, E4; cbn in *; congruence.
Qed.

(** No copy visits a switch twice. *)
Lemma flood_once a l : flood group (links t) a l -> (exists u, g_vertices t !! u = Some (dpid a)) -> NoDup (map dpid l).
Proof.
  intros Hf [u Hu]. destruct (flood_path a l u Hf Hu) as (p & Hp & Hon & Hall & _).
  pose proof (forest_path_simple T u p T_forest Hp Hon) as Hnd. revert Hnd. clear -Hall t_ok. induction Hall as [|z v l vs Hz Hall IH]; intros Hnd; cbn.
  - constructor.
  - apply NoDup_cons in Hnd as [Hv Hnd]. constructor; [|by apply IH]. intros (z' & E & Hin)%list_elem_of_fmap.
    apply list_elem_of_lookup in Hin as [i Hi]. destruct (Forall2_lookup_l _ _ _ _ _ Hall Hi) as (v' & Hv' & Hz').
    apply Hv. apply list_elem_of_lookup. exists i. rewrite Hv'. f_equal. apply (vertices_inj t v' v (dpid z') t_ok Hz'). by rewrite <- E.
Qed.

(** An onward path of the forest that does not leave by the port of entry is
    followed by a copy. *)
Lemma path_flood p u a :
  path T u p -> onward p -> g_vertices t !! u = Some (dpid a) ->
  match p with (e, _) :: _ => forall c, ~ plugged a c e | [] => True end ->
  exists l z, flood group (links t) a l /\ last l = Some z /\ g_vertices t !! path_end u p = Some (dpid z).
Proof.
  intros Hp. revert a. induction Hp as [u|u e v p He Hj Hp IH]; intros a Hon Hu Hhead.
  { exists [a], a. split; [constructor|done]. }
  destruct Hon as [Hnext Hon]. pose proof (T_edges e He) as Heg. destruct (to_edges t t_ok e Heg) as (Hs & Hd & _).
  assert (Hx : exists x b, plugged x b e /\ dpid x = dpid a /\ g_vertices t !! v = Some (dpid b)).
  { apply joins_cases in Hj as [[<- <-]|[<- <-]].
    - exists (lp_source (e_prop e)), (lp_target (e_prop e)). split; [by left|]. split; [congruence|done].
    - exists (lp_target (e_prop e)), (lp_source (e_prop e)). split; [by right|]. split; [congruence|done]. }
  destruct Hx as (x & b & Hxb & Ex & Hv). assert (Exa : SwitchAndPort (dpid a) (port x) = x) by (destruct x; cbn in *; congruence).
  destruct (IH b Hon Hv) as (l & z & Hf & Hl & Hz).
  { destruct p as [|[e' w] p]; [done|]. intros c Hc. apply Hnext. cbn. inversion Hp; subst.
    apply (plugged_unique b x c e e'); [done|done| |done]. destruct Hxb as [E|E]; [by right|by left]. }
  exists (a :: l), z. split; [|split; [|done]].
  - apply flood_hop with (o := port x) (b := b); [| |rewrite Exa; apply (link_from_wired _ x b t_wired)|done].
    + rewrite <- Ex. assert (Hon' : on_tree T x) by (exists e; split; [done|]; destruct Hxb as [[= -> _]|[= _ ->]]; auto).
      apply (group_tree x b); [by apply (plugged_link _ _ e)|exists (port x); by rewrite Ex, Exa|done].
    + intros Eo. apply (Hhead b). replace a with x; [done|]. rewrite <- Exa, Eo. by destruct a.
    + by apply (plugged_link _ _ e).
  - cbn. by destruct l.
Qed.

Lemma flood_reaches a e r :
  (forall b, ~ ((a, b) ∈ links t \/ (b, a) ∈ links t)) -> chain (links t) (dpid a) e r ->
  exists l z, flood group (links t) a l /\ last l = Some z /\ dpid z = e.
Proof.
  intros Hhost Hc. destruct (decide (r = [])) as [->|Hne].
  { apply chain_empty in Hc as <-. exists [a], a. split; [constructor|done]. }
  assert (Hv : forall d e r, chain (links t) d e r -> r <> [] ->
            (exists u, g_vertices t !! u = Some d) /\ exists v, g_vertices t !! v = Some e).
  { clear -t_ok. intros d e r Hc. assert (Hend : forall a b, (a, b) ∈ links t \/ (b, a) ∈ links t ->
        (exists u, g_vertices t !! u = Some (dpid a)) /\ exists v, g_vertices t !! v = Some (dpid b)).
    { intros x y Hxy. assert (H : exists e, e ∈ g_edges t /\ plugged x y e).
      { destruct Hxy as [H|H]; unfold links in H; apply list_elem_of_fmap in H as (g & E & Hg); exists g; (split; [done|]); [by left|by right]. }
      destruct H as (g & Hg & Hp). destruct (to_edges t t_ok g Hg) as (Hs & Hd & _).
      destruct Hp as [[= E1 E2]|[= E1 E2]]; rewrite E1, E2 in *; eauto. }
    induction Hc as [d|x y e r Hxy Hc IH]; intros Hr; [done|]. destruct (Hend x y Hxy) as [Hx Hy]. split; [done|].
    destruct r as [|z r]; [apply chain_empty in Hc as <-; done|by apply IH]. }
  destruct (Hv _ _ _ Hc Hne) as [[u Hu] [v Hv']]. destruct (chain_walk t _ _ _ u v t_ok Hc Hu Hv') as (k & Hk & _).
  apply T_spans in Hk as [k' Hk]. apply walk_distance in Hk as [d Hd]. apply distance_path in Hd as (p & Hp & Hend & _ & Hon).
  destruct (path_flood p u a Hp Hon Hu) as (l & z & Hf & Hl & Hz).
  { destruct p as [|[g w] p]; [done|]. intros c Hc'. apply (Hhost c). inversion Hp; subst. apply (plugged_link _ _ g); auto. }
  exists l, z. split; [done|]. split; [done|]. rewrite Hend in Hz. congruence.
Qed.
End flooding.

(** C13: A flooded packet reaches every switch, and none twice.  Let Boost's Kruskal
    give a spanning forest.  In any orderly run (links are discovered between
    switches that are up, a switch goes down after its links), the topology and
    the spanning tree application fail no assertion and dereference no null
    pointer.  When the timer ticks after a change, with every port at one link at
    most, the groups it sends to the switches are such that no copy of a flooded
    packet visits a switch twice, so none circulates, and a packet that enters at a
    port without a link reaches every switch that is connected to its own. *)
Theorem flood_spans kruskal es :
  kruskal_ok kruskal -> nw_orderly kruskal es new_network ->
  exists w, nw_run kruskal es new_network = Ok w
    /\ (computed (nw_stp w) = false -> wired (links (nw_topology w)) ->
        exists s' out, computeSpanningTree kruskal (nw_topology w) (nw_stp w) = Ok (s', out)
          /\ let group d := default [] (last_group d out) in
             (forall a l, flood group (links (nw_topology w)) a l -> NoDup (map dpid l))
             /\ forall a e r, (forall b, ~ ((a, b) ∈ links (nw_topology w) \/ (b, a) ∈ links (nw_topology w))) ->
                  chain (links (nw_topology w)) (dpid a) e r ->
                  exists l z, flood group (links (nw_topology w)) a l /\ last l = Some z /\ dpid z = e).
Proof.
  intros Hk Ho. destruct (nw_run_ok kruskal Hk es new_network new_network_ok Ho) as (w & E & Hw). exists w. split; [done|].
  intros Hc Hwired. destruct (compute_ok kruskal Hk w Hw Hc) as (s' & out & Ec & _ & _ & Hgroup). exists s', out. split; [done|].
  intros group. pose proof Hw as [Ht _ Hl]. destruct (Hk _ _ (graph_unit _ Ht)) as (Hsub & Hforest & Hspan).
  fold (tree_of kruskal (nw_topology w)) in Hsub, Hforest, Hspan.
  assert (Hgt : forall a b, (a, b) ∈ links (nw_topology w) \/ (b, a) ∈ links (nw_topology w) ->
            (exists n, on_tree (tree_of kruskal (nw_topology w)) (SwitchAndPort (dpid a) n)) ->
            port a ∈ group (dpid a) <-> on_tree (tree_of kruskal (nw_topology w)) a).
  { intros a b Hab. apply Hgroup. by destruct Hab as [H|H]; apply Hl in H as [? ?]. }
  split.
  - intros a l Hf. inversion Hf as [|? o b l' Ho' Hne Hlink Hf']; subst; [apply NoDup_singleton|].
    apply (flood_once (nw_topology w) (tree_of kruskal (nw_topology w)) group Ht Hwired Hsub Hforest Hspan Hgt a); [done|].
    apply link_from_plugged in Hlink. destruct Hlink as [H|H]; unfold links in H; apply list_elem_of_fmap in H as (g & Eg & Hg);
      destruct (to_edges _ Ht g Hg) as (Hs & Hd & _); injection Eg as E1 E2.
    + exists (e_src g). by rewrite Hs, <- E1.
    + exists (e_dst g). by rewrite Hd, <- E2.
  - intros a e r Hhost Hchain.
    by apply (flood_reaches (nw_topology w) (tree_of kruskal (nw_topology w)) group Ht Hwired Hsub Hforest Hspan Hgt a e r).
Qed.

(** ** A ring *)

Definition ring_links : list (switch_and_port * switch_and_port) := [(sp 1 1, sp 2 1); (sp 2 2, sp 3 1); (sp 1 2, sp 3 2)].

Definition ring : list nw_event :=
  [nw_switch_up 1; nw_switch_up 2; nw_switch_up 3; nw_port_up 1 7; nw_port_up 3 8]
  ++ map (fun l => nw_link l.1 l.2 0) ring_links.

Definition ring_network : network :=
  match nw_run greedy ring new_network with Ok w => w | Throw _ => new_network end.

Lemma ring_orderly : nw_orderly greedy ring new_network.
Proof. vm_compute. tauto. Qed.

Lemma flood_spans_witness :
  nw_run greedy ring new_network = Ok ring_network
  /\ exists out s', computeSpanningTree greedy (nw_topology ring_network) (nw_stp ring_network) = Ok (s', out)
       /\ (forall a l, flood (fun d => default [] (last_group d out)) ring_links a l -> NoDup (map dpid l))
       /\ exists l z, flood (fun d => default [] (last_group d out)) ring_links (sp 1 7) l /\ last l = Some z /\ dpid z = 3.
Proof.
  destruct (flood_spans greedy ring greedy_ok ring_orderly) as (w & E & H).
  assert (Ew : w = ring_network) by (unfold ring_network; rewrite E; reflexivity). subst w.
  assert (El : links (nw_topology ring_network) = ring_links) by (vm_compute; reflexivity).
  assert (Ec : computed (nw_stp ring_network) = false) by (vm_compute; reflexivity).
  rewrite El in H. destruct (H Ec) as (s' & out & Eo & Hnd & Hreach).
  - apply wired_by_check. vm_compute. reflexivity.
  - split; [exact E|]. exists out, s'. split; [exact Eo|]. split; [exact Hnd|].
    apply (Hreach (sp 1 7) 3 [sp 1 2; sp 3 2]).
    + apply unplugged_by_check. vm_compute. reflexivity.
    + apply (chain_hop ring_links (sp 1 2) (sp 3 2) 3 []).
      * left. right. right. left.
      * constructor.
Defined.

(** What flooding loses.  A link heard of after its switch went down, which a
    beacon still queued can cause, makes the next computation dereference a null
    pointer.  And a port that once had a link is never flooded to again after the
    link broke, also when a host is plugged into it. *)
Theorem spanning_tree_hazards :
  (let events := [nw_switch_up 1; nw_switch_up 2; nw_switch_up 3; nw_switch_down 3; nw_link (sp 2 2) (sp 3 1) 0; nw_link (sp 1 1) (sp 2 1) 0] in
   nw_run greedy (events ++ [nw_tick]) new_network = Throw (nf_stp null_switch))
  /\ exists w, nw_run greedy [nw_switch_up 1; nw_switch_up 2; nw_port_up 1 1; nw_port_up 1 7; nw_link (sp 1 1) (sp 2 1) 0; nw_tick;
                nw_broken (sp 1 1) (sp 2 1); nw_tick; nw_port_up 1 1] new_network = Ok w
       /\ getSTP 1 (nw_stp w) = Ok [7].
Proof. split; [vm_compute; reflexivity|]. eexists. split; vm_compute; reflexivity. Qed.
