(* ===== verification/Flow.v ===== *)
(** * Flows (src/Flow.cc, Flow.hh, and FlowImpl and MapleBackend of src/Controller.cc)

    A flow is what the controller knows of a rule it installs: its decision, its
    last match and priority, its state on the switch, and the packet-in it has
    yet to answer. *)

From S2P Require Import Prelude Bits OxmField Packet TraceTree Decision.
Local Open Scope Z_scope.

(** ** OpenFlow messages (of13 of libfluid), with the members the code sets *)

Definition OFP_NO_BUFFER : Z := 0xffffffff.
Definition OFPP_CONTROLLER : Z := 0xfffffffd.
Definition OFPTT_ALL : Z := 0xff.

(** The flood action comes from the flood implementation: an output or a group. *)
Inductive of_action :=
| SetFieldAction (f : field)
| OutputAction (port max_len : Z)
| GroupAction (group : Z).

#[export] Instance of_action_dec : EqDecision of_action.
Proof. solve_decision. Defined.

Inductive instruction := ApplyActions (l : list of_action) | GoToTable (table : Z).

#[export] Instance instruction_dec : EqDecision instruction.
Proof. solve_decision. Defined.

(** The data of a packet-out points into a packet-in message, which is known by
    its number. *)
Inductive msg :=
| FlowMod_add (xid table_id priority cookie idle_timeout hard_timeout buffer_id : Z) (match_ : field_set) (ins : instruction)
| FlowMod_delete (table_id cookie cookie_mask : Z) (match_ : field_set)
| FlowMod_delete_strict (table_id cookie cookie_mask priority : Z) (match_ : field_set)
| PacketOut (xid buffer_id in_port : Z) (actions : list of_action) (data : option nat)
| BarrierRequest.

#[export] Instance msg_dec : EqDecision msg.
Proof. solve_decision. Defined.

Inductive fault :=
| unhandled_packet
| packet_fault (e : error)
| assertion_failed.

#[export] Instance fault_dec : EqDecision fault.
Proof. solve_decision. Defined.

(** ** class Flow *)

Inductive State := Egg | Active | Evicted | Idle | Expired.

#[export] Instance State_dec : EqDecision State.
Proof. solve_decision. Defined.

Definition COOKIE_BASE : Z := 2 ^ 63.
Definition COOKIE_MASK : Z := 2 ^ 63.
Definition FIRST_COOKIE : Z := 2 ^ 63.

(** [Flow::Flow]: the next cookie, and the counter after it. *)
Definition take_cookie (next : Z) : res fault (Z * Z) :=
  guard_or (FIRST_COOKIE <=? next) assertion_failed ≫= fun _ => Ok (next, u64 (next + 1)).

Definition cookie_space : Z * Z := (COOKIE_BASE, COOKIE_MASK).

(** ** class FlowImpl

    [f_priority] and [f_in_port] are not initialised by the constructor; nothing
    reads them before [packet_out] and [packet_in] have set them. *)
Record flow := FlowImpl {
  f_cookie : Z;
  f_state : State;
  f_priority : Z;
  f_match : field_set;
  f_table : Z;
  f_in_port : Z;
  f_decision : decision;
  f_mods : field_set;
  f_packet_in : bool;
  f_expect_removed : Z;
  f_xid : Z;
  f_buffer_id : Z;
  f_packet_data : option nat;
}.

#[export] Instance flow_dec : EqDecision flow.
Proof. solve_decision. Defined.

Definition new_flow (cookie table : Z) : flow :=
  FlowImpl cookie Egg 0 fs_empty table 0 decision_default fs_empty false 0 0 OFP_NO_BUFFER None.

Definition set_state (st : State) (f : flow) : flow :=
  FlowImpl (f_cookie f) st (f_priority f) (f_match f) (f_table f) (f_in_port f) (f_decision f) (f_mods f) (f_packet_in f)
    (f_expect_removed f) (f_xid f) (f_buffer_id f) (f_packet_data f).

Definition set_expect (n : Z) (f : flow) : flow :=
  FlowImpl (f_cookie f) (f_state f) (f_priority f) (f_match f) (f_table f) (f_in_port f) (f_decision f) (f_mods f)
    (f_packet_in f) n (f_xid f) (f_buffer_id f) (f_packet_data f).

Definition set_mods (ms : field_set) (f : flow) : flow :=
  FlowImpl (f_cookie f) (f_state f) (f_priority f) (f_match f) (f_table f) (f_in_port f) (f_decision f) ms (f_packet_in f)
    (f_expect_removed f) (f_xid f) (f_buffer_id f) (f_packet_data f).

(** [decision] *)
Definition set_decision (d : decision) (f : flow) : flow :=
  FlowImpl (f_cookie f) (f_state f) (f_priority f) (f_match f) (f_table f) (f_in_port f) d (f_mods f) (f_packet_in f)
    (f_expect_removed f) (f_xid f) (f_buffer_id f) (f_packet_data f).

Definition set_rule (priority : Z) (m : field_set) (f : flow) : flow :=
  FlowImpl (f_cookie f) (f_state f) priority m (f_table f) (f_in_port f) (f_decision f) (f_mods f) (f_packet_in f)
    (f_expect_removed f) (f_xid f) (f_buffer_id f) (f_packet_data f).

(** [mods], with its assertion. *)
Definition flow_mods (ms : field_set) (f : flow) : res fault flow :=
  guard_or (negb (bool_decide (f_state f = Active))) assertion_failed ≫= fun _ => Ok (set_mods ms f).

Definition flow_disposable (d : decision) : bool := idle_timeout (d_base d) <=? 0.

(** The packet-in message of a switch: [pi_data] is the message's number when it
    carries data. *)
Inductive pi_reason_t := OFPR_NO_MATCH | OFPR_ACTION | OFPR_INVALID_TTL.

#[export] Instance pi_reason_dec : EqDecision pi_reason_t.
Proof. solve_decision. Defined.

Record packet_in := PacketIn {
  pi_xid : Z;
  pi_buffer_id : Z;
  pi_in_port : Z;
  pi_reason : pi_reason_t;
  pi_cookie : Z;
  pi_data : option nat;
}.

Definition flow_packet_in (pi : packet_in) (f : flow) : flow :=
  FlowImpl (f_cookie f) (f_state f) (f_priority f) (f_match f) (f_table f) (pi_in_port pi) (f_decision f) (f_mods f) true
    (f_expect_removed f) (pi_xid pi) (pi_buffer_id pi) (pi_data pi).

Inductive fr_reason := OFPRR_IDLE_TIMEOUT | OFPRR_HARD_TIMEOUT | OFPRR_DELETE | OFPRR_GROUP_DELETE | OFPRR_METER_DELETE.

(** [case OFPRR_DELETE] falls through to eviction. *)
Definition flow_removed (reason : fr_reason) (f : flow) : flow :=
  match reason with
  | OFPRR_DELETE =>
      if f_expect_removed f =? 1 then set_expect 0 f else set_state Evicted (set_expect (-1) f)
  | OFPRR_METER_DELETE => set_state Evicted f
  | OFPRR_IDLE_TIMEOUT => set_state Idle f
  | OFPRR_HARD_TIMEOUT => set_state Expired f
  | OFPRR_GROUP_DELETE => f
  end.

Section flow.
(** The action of the flood implementation on this switch. *)
Variable flood : of_action.

(** [DecisionCompiler] *)
Definition compile_decision (t : target) : res fault (list of_action) :=
  match t with
  | Undefined => Throw unhandled_packet
  | Drop => Ok []
  | Unicast port => Ok [OutputAction port 0]
  | Multicast ports => Ok (map (fun port => OutputAction port 0) (elements ports))
  | Broadcast => Ok [flood]
  | Inspect n => Ok [OutputAction OFPP_CONTROLLER n]
  end.

Definition actions (ms : field_set) (d : decision) : res fault (list of_action) :=
  acts ← compile_decision (d_data d);
  Ok (map (fun e => SetFieldAction e.2) (map_to_list (entries ms)) ++ acts).

(** A timeout as a FlowMod carries it: 0 is for ever. *)
Definition fm_timeout (t : Z) : Z := if t =? duration_max then 0 else Z.min t 65535.

Definition flow_packet_out (f : flow) (buffer_id : Z) (data : option nat) : res fault msg :=
  acts ← actions (f_mods f) (f_decision f);
  Ok (PacketOut (f_xid f) buffer_id (f_in_port f) acts data).

Definition flow_mod_add (f : flow) : res fault msg :=
  acts ← actions (f_mods f) (f_decision f);
  Ok (FlowMod_add (f_xid f) (f_table f) (f_priority f) (f_cookie f) (fm_timeout (idle_timeout (d_base (f_decision f))))
        (fm_timeout (hard_timeout (d_base (f_decision f)))) (f_buffer_id f) (f_match f) (ApplyActions acts)).

(** The message carries data when the switch does not buffer the packet. *)
Definition unbuffered (f : flow) : bool := (f_buffer_id f =? OFP_NO_BUFFER) && bool_decide (f_packet_data f <> None).

(** What [install] sends. *)
Definition install_msgs (f : flow) : res fault (list msg) :=
  if flow_disposable (f_decision f) then
    if f_packet_in f then
      po ← flow_packet_out f (f_buffer_id f) (if unbuffered f then f_packet_data f else None);
      Ok [po]
    else Ok []
  else
    pos ← (if f_packet_in f && unbuffered f then
             po ← flow_packet_out f OFP_NO_BUFFER (f_packet_data f); Ok [po]
           else Ok []);
    fm ← flow_mod_add f;
    Ok (pos ++ [fm]).

Definition installed (f : flow) : flow :=
  FlowImpl (f_cookie f) Active (f_priority f) (f_match f) (f_table f) OFPP_CONTROLLER (f_decision f) (f_mods f) false
    (f_expect_removed f) 0 OFP_NO_BUFFER None.

(** [install]: the flow after it, what it sent, and how it ended.  The actions
    are computed before anything is sent. *)
Definition flow_install (f : flow) : flow * list msg * res fault unit :=
  if bool_decide (f_state f = Evicted) && negb (f_packet_in f) then (f, [], Ok tt)
  else if negb (bool_decide (f_state f = Active)) && negb (f_packet_in f) then (f, [], Ok tt)
  else
    let f := if bool_decide (f_state f = Egg) then f else set_expect (f_expect_removed f + 1) f in
    match install_msgs f with
    | Throw e => (f, [], Throw e)
    | Ok ms => (installed f, ms, Ok tt)
    end.

(** [packet_out] *)
Definition flow_rule (priority : Z) (m : field_set) (f : flow) : flow * list msg * res fault unit :=
  flow_install (set_rule (u16 priority) m f).

(** [wakeup] *)
Definition flow_wakeup : flow -> flow * list msg * res fault unit := flow_install.
End flow.

(** ** class MapleBackend: the messages of its calls; [install] is in Controller.v *)

Definition backend_remove_match (table : Z) (m : field_set) : msg :=
  FlowMod_delete table cookie_space.1 cookie_space.2 m.
Definition backend_remove_rule (table priority : Z) (m : field_set) : msg :=
  FlowMod_delete_strict table cookie_space.1 cookie_space.2 priority m.
Definition backend_remove_flow (table : Z) (f : flow) : msg :=
  FlowMod_delete table (f_cookie f) (2 ^ 64 - 1) fs_empty.
Definition backend_barrier : msg := BarrierRequest.

(** ** The timeouts of a rule *)

Lemma fm_timeout_bounds t : 0 < t <= duration_max -> 0 <= fm_timeout t <= 65535 /\ (fm_timeout t = 0 <-> t = duration_max).
Proof. unfold fm_timeout, duration_max. intros Ht. destruct (Z.eqb_spec t (2 ^ 32 - 1)); lia. Qed.

Lemma fm_timeout_order i h : 0 < i <= h -> h <= duration_max -> fm_timeout h <> 0 -> 0 < fm_timeout i <= fm_timeout h.
Proof. unfold fm_timeout, duration_max. intros Hi Hh. destruct (Z.eqb_spec i (2 ^ 32 - 1)), (Z.eqb_spec h (2 ^ 32 - 1)); lia. Qed.

(** C35: No rule lives longer than the handlers asked.  When a flow's decision was
    made by refining the default one, every rule that is sent for it has timeouts
    of 16 bits; the one that stands for ever, 0, is sent only for a timeout that
    no handler has limited; a rule with a hard timeout has an idle timeout at most
    as long; and a decision with a zero timeout, which a rule could only carry as
    for ever, is never made a rule. *)
Theorem rule_timeouts flood os f out xid t prio c idle hard buf m ins :
  forallb op_ok os = true -> apply_ops os decision_default = Ok (f_decision f) ->
  install_msgs flood f = Ok out -> FlowMod_add xid t prio c idle hard buf m ins ∈ out ->
  0 <= idle <= 65535 /\ 0 <= hard <= 65535
  /\ (idle = 0 <-> idle_timeout (d_base (f_decision f)) = duration_max)
  /\ (hard = 0 <-> hard_timeout (d_base (f_decision f)) = duration_max)
  /\ (hard <> 0 -> 0 < idle <= hard)
  /\ 0 < idle_timeout (d_base (f_decision f)) /\ 0 < hard_timeout (d_base (f_decision f)).
Proof.
  intros Hos Hd Hi Hin. destruct (apply_ops_ok os _ _ decision_default_ok Hos Hd) as [H1 H2].
  unfold install_msgs in Hi. destruct (flow_disposable (f_decision f)) eqn:Edisp.
  { destruct (f_packet_in f); [|injection Hi as <-; set_solver]. apply res_bind_inv in Hi as (po & Hpo & [= <-]).
    apply res_bind_inv in Hpo as (? & _ & [= <-]). by apply list_elem_of_singleton in Hin. }
  unfold flow_disposable in Edisp. apply Z.leb_gt in Edisp.
  assert (idle = fm_timeout (idle_timeout (d_base (f_decision f))) /\ hard = fm_timeout (hard_timeout (d_base (f_decision f)))) as [-> ->].
  { apply res_bind_inv in Hi as (pos & Hpos & Hi). apply res_bind_inv in Hi as (fm & Hfm & [= <-]).
    apply elem_of_app in Hin as [Hin|Hin].
    - destruct (f_packet_in f && unbuffered f); [|injection Hpos as <-; set_solver].
      apply res_bind_inv in Hpos as (po & Hpo & [= <-]). apply res_bind_inv in Hpo as (? & _ & [= <-]).
      by apply list_elem_of_singleton in Hin.
    - apply list_elem_of_singleton in Hin as <-. unfold flow_mod_add in Hfm. apply res_bind_inv in Hfm as (? & _ & Hfm). by injection Hfm. }
  destruct (fm_timeout_bounds (idle_timeout (d_base (f_decision f)))) as [? ?]; [lia|].
  destruct (fm_timeout_bounds (hard_timeout (d_base (f_decision f)))) as [? ?]; [lia|].
  split_and!; try done; try lia; intros Hh; apply (fm_timeout_order (idle_timeout (d_base (f_decision f))) (hard_timeout (d_base (f_decision f)))); lia.
Qed.

Definition sample_limited : flow :=
  set_decision (Decision (Base false 60 1800) (Unicast 7)) (new_flow FIRST_COOKIE 0).

Lemma rule_timeouts_witness :
  apply_ops [op_unicast 7; op_idle 60; op_hard 1800] decision_default = Ok (f_decision sample_limited)
  /\ exists xid t prio c buf m ins, install_msgs (OutputAction 0 0) sample_limited = Ok [FlowMod_add xid t prio c 60 1800 buf m ins]
       /\ (60 <> 0 -> 0 < 60 <= 1800) /\ 0 <= 1800 <= 65535.
Proof.
  split; [reflexivity|]. do 7 eexists. split; [reflexivity|].
  edestruct (rule_timeouts (OutputAction 0 0) [op_unicast 7; op_idle 60; op_hard 1800] sample_limited) as (_ & H2 & _ & _ & H5 & _);
    [reflexivity|reflexivity|reflexivity|apply list_elem_of_here|].
  split; [intros _; apply H5; discriminate|exact H2].
Defined.
