(* ===== verification/Controller.v ===== *)
(** * The controller (src/Controller.cc: SwitchScope and ControllerImpl)

    A [SwitchScope] serves one switch: it answers packet-ins from the trace
    tree, runs the pipeline of handlers on the others, and keeps the flow table
    of the switch in step.  [ControllerImpl] dispatches the messages of all
    connections to the scopes of their switches. *)

From S2P Require Import Prelude Bits OxmField Packet PacketParser TraceTree Tracing Decision Flow.
Local Open Scope Z_scope.

(** ** ModTrackingPacket *)

Record mod_packet (P : Type) := ModTrackingPacket { mp_pkt : P; mp_mods : field_set }.
Arguments ModTrackingPacket {P} _ _.
Arguments mp_pkt {P} _.
Arguments mp_mods {P} _.

#[export] Instance mod_packet_packet {P} `{Packet P} : Packet (mod_packet P) := {|
  load mp m := load (mp_pkt mp) m;
  modify mp patch :=
    modify (mp_pkt mp) patch ≫= fun p => lift (fs_modify (mp_mods mp) patch) ≫= fun ms => Ok (ModTrackingPacket p ms);
|}.

(** ** The pipeline

    A handler gets the packet and the decision so far.  [process] runs the
    handlers in order until one returns [return_]. *)

Fixpoint p_bind {A B} (m : policy A) (k : A -> policy B) : policy B :=
  match m with
  | p_return a => k a
  | p_load mask k' => p_load mask (fun f => p_bind (k' f) k)
  | p_test need k' => p_test need (fun b => p_bind (k' b) k)
  | p_modify patch k' => p_modify patch (p_bind k' k)
  end.

Fixpoint run_handlers (pipeline : list (decision -> policy decision)) (ret : decision) : policy decision :=
  match pipeline with
  | [] => p_return ret
  | handler :: rest => p_bind (handler ret) (fun ret => if return_ (d_base ret) then p_return ret else run_handlers rest ret)
  end.

Definition process (pipeline : list (decision -> policy decision)) : policy decision := run_handlers pipeline decision_default.

(** ** struct SwitchScope

    [sc_conn] is the connection of the [SwitchConnection]; [sc_flows] owns the
    flows, so a flow that is not in it is gone.  [sc_next] is the counter of
    cookies, which all scopes share, and [sc_sent] what was sent, and where. *)
Record scope := SwitchScope {
  sc_conn : option nat;
  sc_miss : flow;
  sc_tree : node;
  sc_flows : gmap Z flow;
  sc_table : Z;
  sc_next : Z;
  sc_sent : list (nat * msg);
}.

Abbreviation M := (st fault scope).

Definition set_conn (c : option nat) (s : scope) : scope :=
  SwitchScope c (sc_miss s) (sc_tree s) (sc_flows s) (sc_table s) (sc_next s) (sc_sent s).
Definition set_miss (f : flow) (s : scope) : scope :=
  SwitchScope (sc_conn s) f (sc_tree s) (sc_flows s) (sc_table s) (sc_next s) (sc_sent s).
Definition set_tree (n : node) (s : scope) : scope :=
  SwitchScope (sc_conn s) (sc_miss s) n (sc_flows s) (sc_table s) (sc_next s) (sc_sent s).
Definition set_flows (fs : gmap Z flow) (s : scope) : scope :=
  SwitchScope (sc_conn s) (sc_miss s) (sc_tree s) fs (sc_table s) (sc_next s) (sc_sent s).
Definition set_next (n : Z) (s : scope) : scope :=
  SwitchScope (sc_conn s) (sc_miss s) (sc_tree s) (sc_flows s) (sc_table s) n (sc_sent s).

(** [SwitchConnection::send]: nothing without a connection. *)
Definition add_sent (ms : list msg) (s : scope) : scope :=
  SwitchScope (sc_conn s) (sc_miss s) (sc_tree s) (sc_flows s) (sc_table s) (sc_next s)
    (sc_sent s ++ match sc_conn s with Some c => map (fun m => (c, m)) ms | None => [] end).
Definition send (m : msg) : M unit := st_update (add_sent [m]).

Definition flow_alive (s : scope) (c : flow_ref) : bool := bool_decide (is_Some (sc_flows s !! c)).

(** A call on a flow, the barrier flow ([None]) or one the scope owns. *)
Definition get_flow (ref : option flow_ref) (s : scope) : option flow :=
  match ref with None => Some (sc_miss s) | Some c => sc_flows s !! c end.
Definition put_flow (ref : option flow_ref) (f : flow) (s : scope) : scope :=
  match ref with None => set_miss f s | Some c => set_flows (<[c := f]> (sc_flows s)) s end.

Definition on_flow (ref : option flow_ref) (call : flow -> flow * list msg * res fault unit) : M unit := fun s =>
  match get_flow ref s with
  | None => (s, Throw assertion_failed)
  | Some f => let '(f', ms, r) := call f in (add_sent ms (put_flow ref f' s), r)
  end.

(** A call that sends nothing and does not throw. *)
Definition update_flow (ref : flow_ref) (g : flow -> flow) : M unit := on_flow (Some ref) (fun f => (g f, [], Ok tt)).

Section scope.
Context {P : Type} `{Packet P}.
Variable flood : of_action.
Variable pol : policy decision.

(** [MapleBackend] and [TraceTree::commit] *)
Definition backend (call : backend_call) : M unit :=
  match call with
  | bc_remove_all => fun s => send (backend_remove_match (sc_table s) fs_empty) s
  | bc_barrier => send backend_barrier
  | bc_install r => on_flow (r_flow r) (flow_rule flood (r_priority r) (r_match r))
  end.

Fixpoint backend_all (calls : list backend_call) : M unit :=
  match calls with [] => mret tt | c :: calls => backend c ;; backend_all calls end.

Definition oxm_fault {A} (r : res oxm_error A) : res fault A :=
  match r with Ok a => Ok a | Throw e => Throw (packet_fault (E_oxm e)) end.
Definition fault_of {A} (r : res error A) : res fault A :=
  match r with Ok a => Ok a | Throw e => Throw (packet_fault e) end.

(** [runtime.commit()] *)
Definition scope_commit : M unit :=
  s ← st_get;
  calls ← st_lift (oxm_fault (commit (flow_alive s) (sc_tree s)));
  backend_all calls.

(** [runtime.augment(mpkt, flow)]: the modifications the policy made. *)
Definition scope_augment (c : flow_ref) (p : P) : M field_set :=
  s ← st_get;
  let '(tp, r) := run_traced_st pol (TPacket (ModTrackingPacket p fs_empty) fs_empty (augment_tracer (sc_tree s))) in
  st_update (set_tree (tr_root (tp_tracer tp))) ;;
  d ← st_lift (fault_of r);
  update_flow c (set_decision d) ;;
  (if flow_disposable d then mret tt
   else tr ← st_lift (fault_of (tracer_finish (tp_tracer tp) c)); st_update (set_tree (tr_root tr))) ;;
  mret (mp_mods (tp_pkt tp)).

Definition isTableMiss (pi : packet_in) (s : scope) : bool :=
  match pi_reason pi with
  | OFPR_NO_MATCH => true
  | OFPR_ACTION => pi_cookie pi =? f_cookie (sc_miss s)
  | _ => false
  end.

(** [std::make_shared<FlowImpl>(...)] and [flows[flow->cookie()] = flow]. *)
Definition make_flow : M flow_ref :=
  s ← st_get;
  r ← st_lift (take_cookie (sc_next s));
  st_update (fun s => set_flows (<[r.1 := new_flow r.1 (sc_table s)]> (sc_flows s)) (set_next r.2 s)) ;;
  mret r.1.

(** The flow that answers the packet: the one of the trace tree, unless it is
    the barrier or has expired. *)
Definition find_flow (p : P) : M flow_ref :=
  s ← st_get;
  found ← st_lift (fault_of (lookup_node (flow_alive s) (sc_tree s) p));
  match found ≫= fun c => f ← sc_flows s !! c; if decide (f_state f = Expired) then None else Some c with
  | Some c => mret c
  | None => make_flow
  end.

(** What [processPacketIn] does with the flow it has found. *)
Definition answer_packet (pi : packet_in) (p : P) (c : flow_ref) : M unit :=
  update_flow c (flow_packet_in pi) ;;
  s ← st_get;
  match sc_flows s !! c with
  | None => st_lift (Throw assertion_failed)
  | Some f =>
      match f_state f with
      | Egg | Idle =>
          ms ← scope_augment c p;
          on_flow (Some c) (fun f => match flow_mods ms f with Ok f' => (f', [], Ok tt) | Throw e => (f, [], Throw e) end) ;;
          s ← st_get;
          match sc_flows s !! c with
          | None => st_lift (Throw assertion_failed)
          | Some f =>
              if flow_disposable (f_decision f) then
                on_flow (Some c) (flow_rule flood 1 ms) ;;
                st_update (fun s => set_flows (delete c (sc_flows s)) s)
              else scope_commit
          end
      | Evicted => on_flow (Some c) (flow_wakeup flood)
      | Expired => st_lift (Throw assertion_failed)
      | Active =>
          if negb (isTableMiss pi s) then
            r ← st_lift (fault_of (run pol p));
            update_flow c (set_decision r.1)
          else on_flow (Some c) (flow_wakeup flood)
      end
  end.

Definition process_packet_in (pi : packet_in) (p : P) : M unit := find_flow p ≫= answer_packet pi p.

Definition process_flow_removed (cookie : Z) (reason : fr_reason) (s : scope) : scope :=
  match sc_flows s !! cookie with
  | None => s
  | Some f =>
      let f := flow_removed reason f in
      set_flows (if decide (f_state f = Expired) then delete cookie (sc_flows s) else <[cookie := f]> (sc_flows s)) s
  end.

(** ** Setting up the tables of the switch *)

Definition clearTables : M unit := send backend_barrier ;; send (FlowMod_delete OFPTT_ALL 0 0 fs_empty).

(** The xid of a message that sets none is 0. *)
Definition installGoto (table : Z) : M unit :=
  send backend_barrier ;; send (FlowMod_add 0 table 0 0 0 0 OFP_NO_BUFFER fs_empty (GoToTable (table + 1))).

Definition installTableMissRule : M unit :=
  s ← st_get;
  send (backend_remove_match (sc_table s) fs_empty) ;; send backend_barrier ;;
  send (FlowMod_add 0 (sc_table s) 0 0 0 0 OFP_NO_BUFFER fs_empty (ApplyActions [OutputAction OFPP_CONTROLLER 128])).

Fixpoint install_gotos (tables : list Z) : M unit :=
  match tables with [] => mret tt | t :: tables => installGoto t ;; install_gotos tables end.

Definition scope_reinit : M unit :=
  clearTables ;;
  s ← st_get;
  install_gotos (seqZ 0 (sc_table s)) ;; installTableMissRule.

(** [SwitchScope::SwitchScope]; the pipeline's factories run in between and
    send nothing. *)
Definition scope_create (conn : nat) (table next : Z) : res fault scope :=
  '(cookie, next) ← take_cookie next;
  d ← (match d_inspect 128 decision_default with Ok d => Ok d | Throw _ => Throw assertion_failed end);
  let s := SwitchScope (Some conn) (set_decision d (new_flow cookie table)) unexplored ∅ table next [] in
  let '(s, r) := scope_reinit s in
  _ ← r; Ok s.

(** [replace(ofconn)] and [reinit] of a switch that connects again. *)
Definition scope_reconnect (conn : nat) (s : scope) : scope * res fault unit := scope_reinit (set_conn (Some conn) s).

(** [EVENT_CLOSED] and [EVENT_DEAD] *)
Definition scope_closed (s : scope) : scope := set_flows ∅ (set_tree unexplored (set_conn None s)).

(** [invalidateTraceTree], on one switch. *)
Definition scope_invalidate (s : scope) : scope :=
  (send (backend_remove_match (sc_table s) fs_empty) (set_tree unexplored s)).1.
End scope.
