(* ===== verification/ControllerProofs.v ===== *)
(** * What the controller sends to a switch

    The rules that a [SwitchScope] installs do to every packet what the policy
    does, as long as the policy only loads fields: the barrier rules that
    separate the branches of a test are never sent. *)

From S2P Require Import Prelude Bits OxmField Packet TraceTree Tracing TracingProofs LoadTrees Decision Flow Controller.
Local Open Scope Z_scope.

(** ** The modifications a policy makes are part of its result *)

(** The policy that also returns the fields it has set. *)
Fixpoint with_mods {D} (pol : policy D) (ms : field_set) : policy (D * field_set) :=
  match pol with
  | p_return d => p_return (d, ms)
  | p_load m k => p_load m (fun f => with_mods (k f) ms)
  | p_test need k => p_test need (fun b => with_mods (k b) ms)
  | p_modify patch k =>
      p_modify patch (with_mods k (match fs_modify ms patch with Ok ms' => ms' | Throw _ => ms end))
  end.

Lemma with_mods_loads {D} (pol : policy D) ms : loads_only pol -> loads_only (with_mods pol ms).
Proof. intros Hp. revert ms. induction Hp; intros ms; constructor; auto. Qed.

Section mods.
Context {P : Type} `{PacketLaws P} {D : Type}.

Lemma with_mods_wf (pol : policy D) ms : policy_wf pol -> policy_wf (with_mods pol ms).
Proof. intros Hp. revert ms. induction Hp; intros ms; constructor; auto. Qed.

(** The traced packet inside the tracking of modifications. *)
Definition tracking (ms : field_set) (tp : tpacket P) : tpacket (mod_packet P) :=
  TPacket (ModTrackingPacket (tp_pkt tp) ms) (tp_cache tp) (tp_tracer tp).

Lemma tracking_load ms tp m :
  tp_load (tracking ms tp) m = tp_load tp m ≫= fun r => Ok (r.1, tracking ms r.2).
Proof.
  unfold tp_load, tracking; cbn. destruct (load (tp_pkt tp) m) as [read|]; [|done]. rewrite !res_bind_Ok.
  destruct (lift (fs_load (tp_cache tp) m)) as [e|]; [|done]. rewrite !res_bind_Ok.
  destruct (lift (unexplored_part e read)) as [u|]; [|done]. rewrite !res_bind_Ok.
  destruct (wildcard (f_mask u)); [done|]. destruct (tracer_load _ u); [|done]. rewrite !res_bind_Ok.
  by destruct (lift (fs_modify _ u)).
Qed.

Lemma tracking_test ms tp need :
  tp_test (tracking ms tp) need = tp_test tp need ≫= fun r => Ok (r.1, tracking ms r.2).
Proof.
  unfold tp_test, tracking; cbn. destruct (lift (mask_of_field need)) as [nm|]; [|done]. rewrite !res_bind_Ok.
  destruct (load (tp_pkt tp) nm) as [read|]; [|done]. rewrite !res_bind_Ok.
  destruct (lift (fs_load (tp_cache tp) nm)) as [e|]; [|done]. rewrite !res_bind_Ok.
  destruct (lift (unexplored_part e read)) as [u|]; [|done]. rewrite !res_bind_Ok.
  destruct (lift (field_match e need)) as [[]|]; [|done|done]. rewrite !res_bind_Ok. cbn [negb].
  destruct (wildcard (f_mask u)); [done|]. destruct (lift (field_match u need)) as [ret|]; [|done]. rewrite !res_bind_Ok.
  destruct (lift (mask_of_field u)) as [um|]; [|done]. rewrite !res_bind_Ok.
  destruct (lift (field_and_mask need um)) as [pred|]; [|done]. rewrite !res_bind_Ok.
  destruct (tracer_test _ pred ret) as [tr|]; [|done]. rewrite !res_bind_Ok. destruct ret; [|done].
  by destruct (lift (fs_modify _ u)).
Qed.

Lemma fs_modify_wf ms patch :
  fs_wf ms -> field_wf patch -> wildcard (f_mask patch) = false -> exists ms', fs_modify ms patch = Ok ms' /\ fs_wf ms'.
Proof. intros Hm Hp Hn. destruct (fs_modify_ok ms patch Hm Hp Hn) as (ms' & ? & ? & _). by exists ms'. Qed.

Lemma tracking_modify ms ms' tp patch :
  fs_modify ms patch = Ok ms' ->
  tp_modify (tracking ms tp) patch = tp_modify tp patch ≫= fun tp' => Ok (tracking ms' tp').
Proof.
  intros Hm. unfold tp_modify, tracking; cbn. destruct (modify (tp_pkt tp) patch) as [p|]; [|done].
  rewrite !res_bind_Ok, Hm, lift_Ok, res_bind_Ok, res_bind_Ok. by destruct (lift (fs_modify (tp_cache tp) patch)).
Qed.

(** Running through the tracking packet is running the policy that returns its
    modifications. *)
Lemma tracking_run orig (pol : policy D) ms tp :
  policy_wf pol -> fs_wf ms -> tracks orig (tp_pkt tp) (tp_cache tp) ->
  run_traced pol (tracking ms tp)
  = run_traced (with_mods pol ms) tp ≫= fun r => Ok (r.1.1, tracking r.1.2 r.2).
Proof.
  intros Hp. revert ms tp. induction Hp as [d|m k Wm Nm Hk IH|need k Wn Nn Hk IH|patch k Wp Np Hk IH]; intros ms tp Wms T.
  - done.
  - cbn [run_traced with_mods]. rewrite tracking_load. destruct (tp_load tp m) as [[f tp']|] eqn:E; [|done].
    rewrite !res_bind_Ok. destruct tp as [p c tr].
    destruct (traced_load _ _ _ _ _ _ _ T Wm E) as (_ & Wf & Tf & c' & tr' & -> & T'). by apply IH.
  - cbn [run_traced with_mods]. rewrite tracking_test. destruct (tp_test tp need) as [[b tp']|] eqn:E; [|done].
    rewrite !res_bind_Ok. destruct tp as [p c tr]. destruct (traced_test _ _ _ _ _ _ _ T Wn E) as (_ & c' & tr' & -> & T').
    by apply IH.
  - cbn [run_traced with_mods]. destruct (fs_modify_wf ms patch Wms Wp Np) as (ms' & Hm & Wms').
    rewrite (tracking_modify _ _ _ _ Hm), Hm. destruct (tp_modify tp patch) as [tp'|] eqn:E; [|done].
    rewrite !res_bind_Ok. destruct tp as [p c tr]. unfold tp_modify in E. cbn in E.
    apply res_bind_inv in E as (p' & Hmod & E). apply res_bind_inv in E as (c' & Hc & [= <-]).
    destruct (fs_modify_wf c patch (tr_cache _ _ _ T) Wp Np) as (c1 & Hc1 & _). rewrite Hc1 in Hc. injection Hc as <-.
    apply IH; [done|]. by eapply tracks_modify.
Qed.

(** The bare run and the one that also returns the modifications. *)
Lemma with_mods_run (pol : policy D) ms p d p' :
  run pol p = Ok (d, p') <-> exists ms', run (with_mods pol ms) p = Ok ((d, ms'), p').
Proof.
  revert ms p. induction pol as [d0|m k IH|need k IH|patch k IH]; intros ms p; cbn [run with_mods].
  - split; [intros [= -> ->]; by eexists|by intros (ms' & [= -> _ ->])].
  - destruct (load p m); [rewrite !res_bind_Ok; apply IH|split; [done|by intros (? & ?)]].
  - destruct (test p need); [rewrite !res_bind_Ok; apply IH|split; [done|by intros (? & ?)]].
  - destruct (modify p patch); [rewrite !res_bind_Ok; apply IH|split; [done|by intros (? & ?)]].
Qed.

(** The packet that tracks its modifications ends with those the policy made. *)
Lemma mod_tracking_run (pol : policy D) ms p :
  policy_wf pol -> fs_wf ms -> pkt_wf p ->
  run pol (ModTrackingPacket p ms)
  = run (with_mods pol ms) p ≫= fun r => Ok (r.1.1, ModTrackingPacket r.2 r.1.2).
Proof.
  intros Hp. revert ms p. induction Hp as [d|m k Wm Nm Hk IH|need k Wn Nn Hk IH|patch k Wp Np Hk IH]; intros ms p Wms Hw.
  - done.
  - cbn [run with_mods]. unfold load at 1. cbn [mod_packet_packet mp_pkt]. destruct (load p m) as [f|] eqn:E; [|done].
    rewrite !res_bind_Ok. destruct (load_inv p m f Hw Wm E) as (v & _ & Wf & Tf & _). by apply IH.
  - cbn [run with_mods]. unfold test at 1, load at 1. cbn [mod_packet_packet mp_pkt]. fold (test p need).
    destruct (test p need) as [b|] eqn:E; [|done]. rewrite !res_bind_Ok. by apply IH.
  - cbn [run with_mods]. unfold modify at 1. cbn [mod_packet_packet mp_pkt mp_mods].
    destruct (fs_modify_wf ms patch Wms Wp Np) as (ms' & Hm & Wms'). rewrite Hm. destruct (modify p patch) as [p'|] eqn:E; [|done].
    rewrite !res_bind_Ok. rewrite lift_Ok, res_bind_Ok. apply IH; [done|].
    destruct (pval p (f_type patch)) as [v|] eqn:Hv; [|by rewrite modify_absent in E].
    destruct (modify_present p patch v Hw Wp Hv) as (p1 & v' & E1 & Hw1 & _). rewrite E in E1. by injection E1 as <-.
Qed.
End mods.

(** ** Policies made of handlers *)

Section pipeline.
Context {R : TypeRegistry}.

Lemma p_bind_wf {A B} (m : policy A) (k : A -> policy B) :
  policy_wf m -> (forall a, policy_wf (k a)) -> policy_wf (p_bind m k).
Proof. intros Hm Hk. induction Hm; cbn; [done|constructor; auto..]. Qed.

Lemma p_bind_loads {A B} (m : policy A) (k : A -> policy B) :
  loads_only m -> (forall a, loads_only (k a)) -> loads_only (p_bind m k).
Proof. intros Hm Hk. induction Hm; cbn; [done|constructor; auto..]. Qed.

Lemma process_wf pipeline : Forall (fun h => forall d, policy_wf (h d)) pipeline -> policy_wf (process pipeline).
Proof.
  unfold process. generalize decision_default. intros d Hp. revert d. induction Hp as [|h hs Hh _ IH]; intros d; cbn; [constructor|].
  apply p_bind_wf; [apply Hh|]. intros a. destruct (return_ _); [constructor|apply IH].
Qed.

Lemma process_loads pipeline : Forall (fun h => forall d, loads_only (h d)) pipeline -> loads_only (process pipeline).
Proof.
  unfold process. generalize decision_default. intros d Hp. revert d. induction Hp as [|h hs Hh _ IH]; intros d; cbn; [constructor|].
  apply p_bind_loads; [apply Hh|]. intros a. destruct (return_ _); [constructor|apply IH].
Qed.
End pipeline.
