(* ===== verification/ScopeInv.v ===== *)
(** * The invariant of a switch scope

    What every event handler of a [SwitchScope] preserves, for a policy that
    only loads fields: the trace tree records the policy, the flows carry its
    decisions, and each rule sent does to the packets it matches what the policy
    does. *)

From S2P Require Import Prelude Bits OxmField Packet TraceTree Tracing TracingProofs LoadTrees Decision Flow Controller ControllerProofs.
Local Open Scope Z_scope.

Section scope.
Context {P : Type} `{PacketLaws P}.
Variables (flood : of_action) (pol : policy decision).

(** ** Executions

    A scope is created when its switch first connects, after the controller has
    given out [n] cookies.  A packet-in carries a packet the policy handles; a
    switch reports the removal of a flow only if it was sent the flow; the
    other scopes take cookies; what a handler throws is caught and logged. *)

Definition handled (p : P) : Prop := pkt_wf p /\ exists d p', run pol p = Ok (d, p').

Definition flow_sent (c : Z) (s : scope) : Prop :=
  exists conn xid t prio idle hard buf m ins, (conn, FlowMod_add xid t prio c idle hard buf m ins) ∈ sc_sent s.

Inductive scope_reaches : nat -> scope -> Prop :=
| sr_create n conn table s :
    scope_create conn table (FIRST_COOKIE + Z.of_nat n) = Ok s -> scope_reaches (S n) s
| sr_packet_in n s pi p s' r :
    scope_reaches n s -> handled p -> process_packet_in flood pol pi p s = (s', r) -> scope_reaches (S n) s'
| sr_flow_removed n s c reason :
    scope_reaches n s -> flow_sent c s -> scope_reaches (S n) (process_flow_removed c reason s)
| sr_other n s : scope_reaches n s -> scope_reaches (S n) (set_next (u64 (sc_next s + 1)) s)
| sr_closed n s : scope_reaches n s -> scope_reaches (S n) (scope_closed s)
| sr_reconnect n s conn s' r :
    scope_reaches n s -> scope_reconnect conn s = (s', r) -> scope_reaches (S n) s'
| sr_invalidate n s : scope_reaches n s -> scope_reaches (S n) (scope_invalidate s).

(** ** The invariant *)

Abbreviation pol_mods := (with_mods pol fs_empty).

(** What the policy does to the packets that match is what the flow does. *)
Definition match_ok (m : field_set) (x : decision * field_set) : Prop :=
  fs_wf m /\ forall p y p', pkt_wf p -> run pol_mods p = Ok (y, p') -> fs_sat m p -> y = x.

Definition msg_sound (m : msg) : Prop :=
  match m with
  | FlowMod_add _ _ _ c idle hard _ fs ins =>
      c = 0 \/ exists d ms acts, match_ok fs (d, ms) /\ actions flood ms d = Ok acts /\ ins = ApplyActions acts
        /\ idle = fm_timeout (idle_timeout (d_base d)) /\ hard = fm_timeout (hard_timeout (d_base d))
        /\ flow_disposable d = false
  | _ => True
  end.

Definition sent_ok (s : scope) (cm : nat * msg) : Prop :=
  msg_sound cm.2
  /\ match cm.2 with
     | FlowMod_add _ _ _ c _ _ _ _ _ =>
         c < sc_next s /\ (forall f, sc_flows s !! c = Some f -> f_state f <> Egg)
     | _ => True
     end.

(** [G] gives the flows that have been put in the trees the decision and the
    modifications they were put in with. *)
Record flow_ok (G : gmap Z (decision * field_set)) (c : Z) (f : flow) : Prop := {
  fk_cookie : f_cookie f = c;
  fk_ghost : forall x, G !! c = Some x -> (f_decision f, f_mods f) = x;
  fk_match : f_state f <> Egg -> match_ok (f_match f) (f_decision f, f_mods f) /\ flow_disposable (f_decision f) = false;
}.

Record scope_ok (G : gmap Z (decision * field_set)) (s : scope) : Prop := {
  so_tree : consistent (fun f => G !! f) (sc_tree s) pol_mods fs_empty;
  so_flows : forall c f, sc_flows s !! c = Some f -> FIRST_COOKIE <= c < sc_next s /\ flow_ok G c f;
  so_ghost : forall c x, G !! c = Some x -> c < sc_next s /\ flow_disposable x.1 = false
    /\ exists p p', pkt_wf p /\ run pol_mods p = Ok (x, p');
  so_sent : Forall (sent_ok s) (sc_sent s);
}.

(** *** What the calls do not change *)

(** A call on a flow that keeps its cookie and sends nothing. *)
Definition quiet (call : flow -> flow * list msg * res fault unit) : Prop :=
  forall f, match call f with (f', ms, _) => f_cookie f' = f_cookie f /\ ms = [] end.

Section preserved.
Variable I : scope -> Prop.
Hypothesis I_rule : forall ref prio m, preserves I (on_flow ref (flow_rule flood prio m)).
Hypothesis I_wakeup : forall c, preserves I (on_flow (Some c) (flow_wakeup flood)).
Hypothesis I_quiet : forall c call, quiet call -> preserves I (on_flow (Some c) call).
Hypothesis I_remove : forall t m s, I s -> I (add_sent [backend_remove_match t m] s).
Hypothesis I_barrier : forall s, I s -> I (add_sent [backend_barrier] s).
Hypothesis I_tree : forall n s, I s -> I (set_tree n s).
Hypothesis I_delete : forall c s, I s -> I (set_flows (delete c (sc_flows s)) s).

Lemma backend_all_preserves calls : preserves I (backend_all flood calls).
Proof.
  induction calls as [|[| |r] calls IH]; cbn; [apply preserves_ret|apply preserves_bind; [|auto]..].
  - intros s. apply I_remove.
  - intros s. apply I_barrier.
  - apply I_rule.
Qed.

Lemma scope_commit_preserves : preserves I (scope_commit flood).
Proof. unfold scope_commit. eauto using backend_all_preserves with preserves. Qed.

Lemma update_flow_preserves c h : (forall f, f_cookie (h f) = f_cookie f) -> preserves I (update_flow c h).
Proof. intros Hh. apply I_quiet. by intros f. Qed.

Lemma scope_augment_preserves c (p : P) : preserves I (scope_augment pol c p).
Proof.
  unfold scope_augment. apply preserves_bind; [apply preserves_get|]. intros s. destruct (run_traced_st _ _) as [tp r].
  apply preserves_bind; [by apply preserves_update; intros; apply I_tree|]. intros _.
  apply preserves_bind; [apply preserves_lift|]. intros d. apply preserves_bind; [by apply update_flow_preserves|]. intros _.
  apply preserves_bind; [destruct (flow_disposable d); eauto with preserves|]. intros _. apply preserves_ret.
Qed.

Lemma quiet_mods ms : quiet (fun f => match flow_mods ms f with Ok f' => (f', [], Ok tt) | Throw e => (f, [], Throw e) end).
Proof. intros f. unfold flow_mods, guard_or. by destruct (negb _). Qed.

Lemma answer_packet_preserves pi (p : P) c : preserves I (answer_packet flood pol pi p c).
Proof.
  unfold answer_packet. apply preserves_bind; [by apply update_flow_preserves|]. intros _.
  apply preserves_bind; [apply preserves_get|]. intros s. destruct (sc_flows s !! c) as [f|]; [|apply preserves_lift].
  assert (Hnew : preserves I (ms ← scope_augment pol c p;
    on_flow (Some c) (fun f => match flow_mods ms f with Ok f' => (f', [], Ok tt) | Throw e => (f, [], Throw e) end) ;;
    s ← st_get;
    match sc_flows s !! c with
    | None => st_lift (Throw assertion_failed)
    | Some f => if flow_disposable (f_decision f)
        then on_flow (Some c) (flow_rule flood 1 ms) ;; st_update (fun s => set_flows (delete c (sc_flows s)) s)
        else scope_commit flood
    end)).
  { apply preserves_bind; [apply scope_augment_preserves|]. intros ms.
    apply preserves_bind; [apply I_quiet, quiet_mods|]. intros _.
    apply preserves_bind; [apply preserves_get|]. intros s'. destruct (sc_flows s' !! c); [|apply preserves_lift].
    destruct (flow_disposable _); [|apply scope_commit_preserves].
    apply preserves_bind; [apply I_rule|]. intros _. apply preserves_update. intros. by apply I_delete. }
  destruct (f_state f); [exact Hnew| |apply I_wakeup|exact Hnew|apply preserves_lift].
  destruct (negb _); [|apply I_wakeup]. apply preserves_bind; [apply preserves_lift|]. intros r. by apply update_flow_preserves.
Qed.
End preserved.

Lemma on_flow_next n ref call : preserves (fun s => sc_next s = n) (on_flow ref call).
Proof.
  intros s. unfold on_flow. destruct (get_flow ref s) as [f|]; [|done]. destruct (call f) as [[f' ms] r]. by destruct ref.
Qed.

Lemma answer_packet_next pi (p : P) c s : sc_next (answer_packet flood pol pi p c s).1 = sc_next s.
Proof. apply (answer_packet_preserves (fun s' => sc_next s' = sc_next s)); auto using on_flow_next. Qed.

(** *** Changing one flow *)

Lemma scope_ok_flow G s c f :
  scope_ok G s -> FIRST_COOKIE <= c < sc_next s -> flow_ok G c f ->
  (f_state f = Egg -> forall f0, sc_flows s !! c = Some f0 -> f_state f0 = Egg) ->
  (f_state f = Egg -> sc_flows s !! c = None -> ~ flow_sent c s) ->
  scope_ok G (set_flows (<[c := f]> (sc_flows s)) s).
Proof.
  intros [Ht Hf Hg Hs] Hc Hfk Hegg Hnew. split; cbn; [done| |done|].
  - intros c' f'. rewrite lookup_insert. case_decide as E; [subst c'; by intros [= <-]|apply Hf].
  - eapply Forall_impl_in; [exact Hs|]. intros [conn m] Hin [Hm Hst]. split; [done|]. cbn in *. destruct m; try done.
    destruct Hst as [Hlt Hst]. split; [done|]. intros f'. rewrite lookup_insert. case_decide as E; [|apply Hst].
    subst. intros [= <-] Hegg'. destruct (sc_flows s !! cookie) as [f0|] eqn:E0.
    + by apply (Hst f0), Hegg.
    + apply (Hnew Hegg' eq_refl). do 9 eexists. exact Hin.
Qed.

Lemma scope_ok_send G s ms : scope_ok G s -> Forall (fun m => sent_ok s (0%nat, m)) ms -> scope_ok G (add_sent ms s).
Proof.
  intros [Ht Hf Hg Hs] Hms. split; cbn; [done..|]. apply Forall_app. split; [exact Hs|].
  destruct (sc_conn s) as [conn|]; [|done]. apply Forall_map. exact Hms.
Qed.

(** *** Installing a flow *)

Lemma install_msgs_sound f ms :
  flow_disposable (f_decision f) = false -> match_ok (f_match f) (f_decision f, f_mods f) ->
  install_msgs flood f = Ok ms ->
  Forall (fun m => msg_sound m /\ match m with FlowMod_add _ _ _ c _ _ _ _ _ => c = f_cookie f | _ => True end) ms.
Proof.
  intros Hd Hm. unfold install_msgs. rewrite Hd. intros (pos & Hpos & Hrest)%res_bind_inv.
  apply res_bind_inv in Hrest as (fm & Hfm & [= <-]). unfold flow_mod_add in Hfm.
  apply res_bind_inv in Hfm as (acts & Hacts & [= <-]). apply Forall_app. split.
  - destruct (f_packet_in f && unbuffered f); [|by injection Hpos as <-].
    apply res_bind_inv in Hpos as (po & Hpo & [= <-]). apply res_bind_inv in Hpo as (? & _ & [= <-]). by apply Forall_singleton.
  - apply Forall_singleton. split; [|done]. right. exists (f_decision f), (f_mods f), acts. done.
Qed.

(** The flow after [install]: its rule, decision and modifications are the same. *)
Definition same_rule (f f' : flow) : Prop :=
  f_cookie f' = f_cookie f /\ f_match f' = f_match f /\ f_decision f' = f_decision f /\ f_mods f' = f_mods f.

Lemma flow_install_ok f f' ms r :
  flow_disposable (f_decision f) = false -> match_ok (f_match f) (f_decision f, f_mods f) ->
  flow_install flood f = (f', ms, r) ->
  same_rule f f' /\ (f_state f' = f_state f \/ f_state f' = Active)
  /\ Forall (fun m => msg_sound m
       /\ match m with FlowMod_add _ _ _ c _ _ _ _ _ => c = f_cookie f /\ f_state f' = Active | _ => True end) ms.
Proof.
  intros Hd Hm. unfold flow_install. destruct (_ && _); [intros [= <- <- <-]; split_and!; [done|by left|done]|].
  destruct (_ && _); [intros [= <- <- <-]; split_and!; [done|by left|done]|].
  set (g := if bool_decide (f_state f = Egg) then f else _).
  assert (Hg : same_rule f g /\ f_state g = f_state f) by (unfold g; by case_match).
  destruct Hg as [(Hg1 & Hg2 & Hg3 & Hg4) Hg5]. destruct (install_msgs flood g) as [ms0|e] eqn:E.
  - intros [= <- <- <-]. split_and!; [by split_and!|by right|].
    apply install_msgs_sound in E; [|by rewrite Hg3|by rewrite Hg2, Hg3, Hg4]. eapply Forall_impl; [exact E|]. cbn. intros m [? Hc].
    split; [done|]. destruct m; try done. split; [congruence|done].
  - intros [= <- <- <-]. split_and!; [by split_and!|by left|done].
Qed.

(** What a call on a flow leaves alone. *)
Definition frame (c : Z) (s s' : scope) : Prop :=
  sc_conn s' = sc_conn s /\ sc_tree s' = sc_tree s /\ sc_next s' = sc_next s /\ sc_table s' = sc_table s
  /\ sc_miss s' = sc_miss s /\ (forall c', c' <> c -> sc_flows s' !! c' = sc_flows s !! c').

Lemma install_scope_ok G s c f priority m s' r :
  scope_ok G s -> sc_flows s !! c = Some f -> flow_disposable (f_decision f) = false ->
  match_ok m (f_decision f, f_mods f) ->
  on_flow (Some c) (fun f => flow_install flood (set_rule priority m f)) s = (s', r) ->
  scope_ok G s' /\ frame c s s'
  /\ exists f', sc_flows s' !! c = Some f' /\ f_decision f' = f_decision f /\ f_mods f' = f_mods f.
Proof.
  intros Hok Hf Hd Hm. unfold on_flow. cbn [get_flow put_flow]. rewrite Hf.
  destruct (flow_install flood (set_rule priority m f)) as [[f' ms] r'] eqn:E. intros [= <- <-].
  destruct (flow_install_ok (set_rule priority m f) f' ms r' Hd Hm E) as ((R1 & R2 & R3 & R4) & Hst & Hms). cbn in *.
  destruct (so_flows _ _ Hok c f Hf) as [Hc Hfk]. split_and!.
  - apply scope_ok_send.
    + apply scope_ok_flow; [done|done| |intros E0 f0 Hf0; rewrite Hf in Hf0; injection Hf0 as <-; destruct Hst; congruence|congruence].
      split; [rewrite R1; apply Hfk|rewrite R3, R4; apply Hfk|]. intros _. by rewrite R2, R3, R4.
    + eapply Forall_impl; [exact Hms|]. intros m0 [Hs0 Hc0]. split; [done|]. cbn. destruct m0; try done.
      destruct Hc0 as [-> Hact]. destruct Hfk as [<- _ _]. split; [lia|]. rewrite lookup_insert_eq. intros g [= <-]. congruence.
  - split_and!; try done. cbn. intros c' Hne. by rewrite lookup_insert_ne.
  - exists f'. cbn. by rewrite lookup_insert_eq.
Qed.

Lemma wakeup_scope_ok G s c f s' r :
  scope_ok G s -> sc_flows s !! c = Some f -> f_state f <> Egg -> on_flow (Some c) (flow_wakeup flood) s = (s', r) -> scope_ok G s'.
Proof.
  intros Hok Hf Hst Ho. destruct (so_flows _ _ Hok c f Hf) as [_ [_ _ Hm]]. destruct (Hm Hst) as [Hma Hd].
  eapply (install_scope_ok G s c f (f_priority f) (f_match f) s' r Hok Hf Hd Hma).
  rewrite <- Ho. unfold on_flow. cbn [get_flow]. rewrite Hf. by destruct f.
Qed.

(** *** Committing the tree *)

Definition rule_ok (s : scope) (r : rule) : Prop :=
  exists c f, r_flow r = Some c /\ sc_flows s !! c = Some f /\ flow_disposable (f_decision f) = false
    /\ match_ok (r_match r) (f_decision f, f_mods f).

Lemma send_scope_ok G m s :
  scope_ok G s -> sent_ok s (0%nat, m) -> scope_ok G (send m s).1 /\ (send m s).2 = Ok tt.
Proof. intros Hok Hm. split; [|done]. apply scope_ok_send; [done|]. by apply Forall_singleton. Qed.

Lemma rules_scope_ok G rs (k : unit -> M unit) s :
  scope_ok G s -> Forall (rule_ok s) rs -> (forall s, scope_ok G s -> scope_ok G (k tt s).1) ->
  scope_ok G ((_ ← backend_all flood (map bc_install rs); k tt) s).1.
Proof.
  revert s. induction rs as [|r rs IH]; intros s Hok Hrs Hk; [by apply Hk|].
  apply Forall_cons in Hrs as [(c & f & Hc & Hf & Hd & Hm) Hrs]. cbn [map backend_all backend].
  unfold mbind, st_bind. rewrite Hc. destruct (on_flow (Some c) _ s) as [s1 r1] eqn:E.
  destruct (install_scope_ok G s c f (u16 (r_priority r)) (r_match r) s1 r1 Hok Hf Hd Hm E) as (Hok1 & Hfr & f' & Hf' & E1 & E2).
  destruct r1 as [[]|e]; [|exact Hok1]. apply (IH s1 Hok1); [|exact Hk]. eapply Forall_impl; [exact Hrs|].
  intros r' (c' & g & Hc' & Hg & Hdg & Hmg). destruct (decide (c' = c)) as [->|Hne].
  - rewrite Hf in Hg. injection Hg as <-. exists c, f'. by rewrite E1, E2.
  - exists c', g. split_and!; try done. destruct Hfr as (_ & _ & _ & _ & _ & Hfr). by rewrite Hfr.
Qed.

Lemma lookup_match_ok G s c f :
  policy_wf pol -> scope_ok G s -> sc_flows s !! c = Some f ->
  forall p y p', pkt_wf p -> run pol_mods p = Ok (y, p') ->
    lookup_node (flow_alive s) (sc_tree s) p = Ok (Some c) -> y = (f_decision f, f_mods f).
Proof.
  intros Hp Hok Hf p y p' Hw Hrun Hl.
  destruct (consistent_lookup (flow_alive s) _ (sc_tree s) pol_mods fs_empty p p y p' (so_tree _ _ Hok)
    (with_mods_wf pol fs_empty Hp) (tracks_init p Hw) Hrun) as (t & Ht & Hdec).
  rewrite Hl in Ht. injection Ht as <-. destruct (so_flows _ _ Hok c f Hf) as [_ Hfk]. symmetry.
  apply (fk_ghost _ _ _ Hfk). by apply Hdec.
Qed.

Lemma backend_all_app cs ds s :
  backend_all flood (cs ++ ds) s = (_ ← backend_all flood cs; backend_all flood ds) s.
Proof.
  revert s. induction cs as [|c cs IH]; intros s; [done|]. cbn [app backend_all]. unfold mbind, st_bind.
  destruct (backend flood c s) as [s' [[]|]]; [|done]. rewrite IH. done.
Qed.

(** The scope once the old rules have been asked away. *)
Definition cleared (s : scope) : scope := add_sent [backend_barrier] (add_sent [backend_remove_match (sc_table s) fs_empty] s).

Lemma commit_eq G s :
  policy_wf pol -> loads_only pol -> scope_ok G s ->
  exists rs, scope_commit flood s = backend_all flood (map bc_install rs ++ [bc_barrier]) (cleared s)
    /\ scope_ok G (cleared s) /\ Forall (rule_ok (cleared s)) rs
    /\ rules_for (P := P) (flow_alive s) (sc_tree s) fs_empty rs.
Proof.
  intros Hp Hl Hok. pose proof (so_tree _ _ Hok) as Hcons.
  pose proof (with_mods_loads pol fs_empty Hl) as Hl'. pose proof (with_mods_wf pol fs_empty Hp) as Hp'.
  destruct (commit_for (P := P) (flow_alive s) (sc_tree s)) as (rs & E & Hrs).
  { exact (consistent_loads _ _ _ _ Hcons Hl'). }
  { apply (consistent_tree_wf _ _ _ fs_empty _ Hcons Hp' fs_empty_wf). by intros t i _ _ []. }
  exists rs. split_and!; [| | |done].
  - unfold scope_commit. unfold mbind at 1, st_bind at 1. cbn [st_get]. unfold mbind at 1, st_bind at 1, st_lift. by rewrite E.
  - repeat (apply scope_ok_send; [|by apply Forall_singleton]). exact Hok.
  - eapply Forall_impl; [exact (proj1 Hrs)|]. intros r (c & Hc & Ha & Hin & Wr & Hr). unfold flow_alive in Ha.
    apply bool_decide_eq_true in Ha as [f Hf]. exists c, f.
    destruct (consistent_in_tree _ _ _ _ _ Hin Hcons) as [y Hy]. destruct (so_flows _ _ Hok c f Hf) as [_ Hfk].
    pose proof (fk_ghost _ _ _ Hfk y Hy) as Ey. destruct (so_ghost _ _ Hok c y Hy) as (_ & Hd & _). rewrite <- Ey in Hd.
    split_and!; [done|done|done|]. split; [done|]. intros p z p' Hw Hrun Hs. destruct (Hr p Hw Hs) as [_ Hlook].
    by apply (lookup_match_ok G s c f Hp Hok Hf p z p').
Qed.

Lemma commit_scope_ok G s :
  policy_wf pol -> loads_only pol -> scope_ok G s -> scope_ok G (scope_commit flood s).1.
Proof.
  intros Hp Hl Hok. destruct (commit_eq G s Hp Hl Hok) as (rs & -> & Hok1 & Hrs & _). rewrite backend_all_app.
  apply (rules_scope_ok G rs (fun _ => backend_all flood [bc_barrier])); [done..|].
  intros s2 Hok2. cbn. apply scope_ok_send; [done|]. by apply Forall_singleton.
Qed.

(** *** Augmenting the tree *)

Lemma add_sent_nil s : add_sent [] s = s.
Proof. destruct s as [[c|] ? ? ? ? ? ?]; cbn; unfold add_sent; cbn; by rewrite app_nil_r. Qed.

Lemma update_flow_eq c g s f :
  sc_flows s !! c = Some f -> update_flow c g s = (set_flows (<[c := g f]> (sc_flows s)) s, Ok tt).
Proof. intros Hf. unfold update_flow, on_flow. cbn. by rewrite Hf, add_sent_nil. Qed.

(** The ghost entry of a flow that gets a decision. *)
Definition ghost_add (d : decision) (ms : field_set) (c : Z) (G : gmap Z (decision * field_set)) :=
  if flow_disposable d then G else <[c := (d, ms)]> G.

Lemma augment_eq G s c f p d ms p' :
  policy_wf pol -> scope_ok G s -> sc_flows s !! c = Some f -> pkt_wf p -> run pol_mods p = Ok ((d, ms), p') ->
  (forall x, G !! c = Some x -> x = (d, ms)) ->
  exists tree, scope_augment pol c p s = (set_flows (<[c := set_decision d f]> (sc_flows s)) (set_tree tree s), Ok ms)
    /\ consistent (fun f => ghost_add d ms c G !! f) tree pol_mods fs_empty
    /\ (flow_disposable d = false -> forall alive, lookup_node alive tree p = Ok (lock alive c)).
Proof.
  intros Hp Hok Hf Hw Hrun HG. pose proof (with_mods_wf pol fs_empty Hp) as Hp'.
  assert (Hext : extends (fun f => G !! f) (fun f => ghost_add d ms c G !! f)).
  { unfold ghost_add. intros g x Hg. destruct (flow_disposable d); [done|]. destruct (decide (g = c)) as [->|].
    - rewrite lookup_insert_eq. f_equal. symmetry. by apply HG.
    - by rewrite lookup_insert_ne. }
  destruct (traced_ok _ _ _ p pol_mods Hp' (sc_tree s) [] fs_empty p (d, ms) p' (focus_init _ _ p _ (so_tree _ _ Hok))
    (tracks_init p Hw) Hrun) as (cache & root & path & E & Hc & Hfin).
  pose proof (tracking_run p pol fs_empty (TPacket p fs_empty (augment_tracer (sc_tree s))) Hp fs_empty_wf (tracks_init p Hw)) as Etr.
  unfold augment_tracer in Etr. rewrite E, res_bind_Ok in Etr. cbn [fst snd] in Etr. apply run_traced_st_ok in Etr.
  unfold scope_augment. unfold mbind, st_bind, st_get.
  change (TPacket (ModTrackingPacket p fs_empty) fs_empty (augment_tracer (sc_tree s)))
    with (tracking fs_empty (TPacket p fs_empty (Tracer (sc_tree s) (Some [])))).
  rewrite Etr. cbn [tp_tracer tp_pkt tracking tr_root st_update st_lift fault_of mp_mods].
  rewrite (update_flow_eq c _ _ f) by exact Hf.
  destruct (flow_disposable d) eqn:Ed.
  - exists root. split; [done|]. split; [|done]. unfold ghost_add. by rewrite Ed.
  - destruct (Hfin c) as (root' & -> & Hcons & Hlook). cbn. exists root'. split; [done|]. split; [|done].
    apply Hcons; [exact Hext|]. unfold ghost_add. by rewrite Ed, lookup_insert_eq.
Qed.

(** The state after the decision and the modifications are recorded. *)
Lemma augment_scope_ok G s c f tree p d ms p' :
  pkt_wf p -> run pol_mods p = Ok ((d, ms), p') -> scope_ok G s -> sc_flows s !! c = Some f -> f_state f = Egg \/ (f_decision f, f_mods f) = (d, ms) /\ flow_disposable d = false ->
  (forall x, G !! c = Some x -> x = (d, ms)) ->
  consistent (fun f => ghost_add d ms c G !! f) tree pol_mods fs_empty ->
  scope_ok (ghost_add d ms c G) (set_flows (<[c := set_mods ms (set_decision d f)]> (sc_flows s)) (set_tree tree s)).
Proof.
  intros Hw Hrun Hok Hf Hst HG Hc. destruct (so_flows _ _ Hok c f Hf) as [Hlt Hfk].
  assert (Hgh : forall g x, ghost_add d ms c G !! g = Some x -> G !! g = Some x \/ g = c /\ x = (d, ms) /\ flow_disposable d = false).
  { intros g x. unfold ghost_add. destruct (flow_disposable d) eqn:Ed; [by left|]. rewrite lookup_insert.
    case_decide as E; [intros [= <-]; by right|by left]. }
  split; cbn; [exact Hc| | |].
  - intros c' g. rewrite lookup_insert. case_decide as E.
    + subst c'. intros [= <-]. split; [done|]. split; cbn; [apply Hfk| |].
      * intros x [Hx|(_ & -> & _)]%Hgh; [|done]. symmetry. by apply HG.
      * intros Hne. destruct Hst as [|[Heq Hd]]; [done|]. injection Heq as <- <-. by apply Hfk.
    + intros Hg. destruct (so_flows _ _ Hok c' g Hg) as [Hl [F1 F2 F3]]. split; [done|]. split; try done.
      intros x [Hx|(-> & _)]%Hgh; [by apply F2|done].
  - intros g x [Hx|(-> & -> & Ed)]%Hgh; [by apply (so_ghost _ _ Hok)|]. split_and!; [lia|done|by exists p, p'].
  - eapply Forall_impl; [apply (so_sent _ _ Hok)|]. intros [conn m] [Hm Hs]. split; [done|]. cbn in *. destruct m; try done.
    destruct Hs as [Hlt' Hs]. split; [done|]. intros g. rewrite lookup_insert. case_decide as E; [|apply Hs].
    intros [= <-]. cbn. subst. by apply (Hs f).
Qed.

(** *** A packet-in *)

Lemma scope_ok_next G s n : scope_ok G s -> sc_next s <= n -> scope_ok G (set_next n s).
Proof.
  intros [Ht Hf Hg Hs] Hn. split; cbn; [done| | |].
  - intros c f Hc. destruct (Hf c f Hc). split; [lia|done].
  - intros c x Hx. destruct (Hg c x Hx). split; [lia|done].
  - eapply Forall_impl; [exact Hs|]. intros [conn m] [Hm Hst]. split; [done|]. cbn in *. destruct m; try done.
    split; [lia|apply Hst].
Qed.

Lemma make_flow_ok G s :
  scope_ok G s -> FIRST_COOKIE <= sc_next s < 2 ^ 64 - 1 ->
  let c := sc_next s in let f := new_flow c (sc_table s) in
  let s' := set_flows (<[c := f]> (sc_flows s)) (set_next (c + 1) s) in
  make_flow s = (s', Ok c) /\ scope_ok G s' /\ G !! c = None.
Proof.
  intros Hok Hn c f s'. assert (HGc : G !! c = None).
  { destruct (G !! c) as [x|] eqn:E; [|done]. destruct (so_ghost _ _ Hok c x E) as [? _]. unfold c in *. lia. }
  assert (Hnew : scope_ok G (set_next (c + 1) s)) by (apply scope_ok_next; [done|unfold c; lia]).
  split_and!; [| |done].
  - unfold make_flow, mbind, st_bind, st_get, st_lift, take_cookie. rewrite (proj2 (Z.leb_le _ _)) by lia. cbn.
    rewrite wrap_small by (unfold in_width, FIRST_COOKIE in *; lia). done.
  - apply (scope_ok_flow G (set_next (c + 1) s) c f Hnew); cbn; [unfold c; lia| |intros _ f0 Hf0; destruct (so_flows _ _ Hok c f0 Hf0); unfold c in *; lia|].
    + split; [done|by rewrite HGc|done].
    + intros _ _ (conn & xid & t & prio & idle & hard & buf & m & ins & Hin). cbn in Hin.
      pose proof (so_sent _ _ Hok) as Hs. rewrite Forall_forall in Hs. specialize (Hs _ Hin).
      destruct Hs as [_ [? _]]. unfold c in *. cbn in *. lia.
Qed.

(** The flow that answers a packet is new, or the tree's, and then it carries
    what the policy decides. *)
Definition answers (G : gmap Z (decision * field_set)) (s s' : scope) (p : P) (x : decision * field_set) (c : Z) (f : flow) : Prop :=
  f = new_flow c (sc_table s)
  \/ lookup_node (flow_alive s) (sc_tree s) p = Ok (Some c) /\ s' = s /\ f_state f <> Expired /\ G !! c = Some x.

Lemma find_flow_ok G s p d ms p' :
  policy_wf pol -> scope_ok G s -> FIRST_COOKIE <= sc_next s < 2 ^ 64 - 1 -> pkt_wf p -> run pol_mods p = Ok ((d, ms), p') ->
  exists s' c f, find_flow p s = (s', Ok c) /\ scope_ok G s' /\ sc_flows s' !! c = Some f
    /\ (forall x, G !! c = Some x -> x = (d, ms)) /\ answers G s s' p (d, ms) c f
    /\ sc_next s <= sc_next s' <= sc_next s + 1 /\ sc_table s' = sc_table s /\ sc_conn s' = sc_conn s /\ sc_sent s' = sc_sent s.
Proof.
  intros Hp Hok Hn Hw Hrun.
  destruct (consistent_lookup (flow_alive s) _ (sc_tree s) pol_mods fs_empty p p (d, ms) p' (so_tree _ _ Hok)
    (with_mods_wf pol fs_empty Hp) (tracks_init p Hw) Hrun) as (t & Hl & Hdec).
  destruct (make_flow_ok G s Hok Hn) as (Em & Hok' & HGc).
  assert (Ef : find_flow p s = match t ≫= fun c => f ← sc_flows s !! c; if decide (f_state f = Expired) then None else Some c with
    | Some c => (s, Ok c) | None => make_flow s end).
  { unfold find_flow, mbind at 1, st_bind at 1. cbn [st_get]. unfold mbind at 1, st_bind at 1, st_lift. rewrite Hl. cbn [fault_of].
    by destruct (t ≫= _). }
  destruct (t ≫= _) as [c|] eqn:Et.
  - destruct t as [c'|]; [|done]. cbn in Et. destruct (sc_flows s !! c') as [f|] eqn:Hf; [|done]. cbn in Et.
    case_decide as Ex; [done|]. injection Et as ->. specialize (Hdec c eq_refl).
    exists s, c, f. split_and!; try done; try lia; [intros x; rewrite Hdec; by intros [= <-]|by right].
  - exists (set_flows (<[sc_next s := new_flow (sc_next s) (sc_table s)]> (sc_flows s)) (set_next (sc_next s + 1) s)),
      (sc_next s), (new_flow (sc_next s) (sc_table s)). rewrite Ef, Em. split; [done|]. split; [exact Hok'|]. cbn.
    rewrite lookup_insert_eq, HGc. split_and!; try done; try lia. by left.
Qed.

Lemma scope_ok_delete G s c : scope_ok G s -> scope_ok G (set_flows (delete c (sc_flows s)) s).
Proof.
  intros [Ht Hf Hg Hs]. split; cbn; [done| |done|].
  - intros c' f. rewrite lookup_delete. case_decide; [done|apply Hf].
  - eapply Forall_impl; [exact Hs|]. intros [conn m] [Hm Hst]. split; [done|]. cbn in *. destruct m; try done.
    destruct Hst as [? Hst]. split; [done|]. intros f. rewrite lookup_delete. case_decide; [done|apply Hst].
Qed.

(** A change of a flow that keeps what the invariant says of it. *)
Lemma scope_ok_update G s c f f' :
  scope_ok G s -> sc_flows s !! c = Some f -> same_rule f f' -> (f_state f' = f_state f \/ f_state f <> Egg /\ f_state f' <> Egg) ->
  scope_ok G (set_flows (<[c := f']> (sc_flows s)) s).
Proof.
  intros Hok Hf (R1 & R2 & R3 & R4) Hst. destruct (so_flows _ _ Hok c f Hf) as [Hc [F1 F2 F3]].
  apply scope_ok_flow; [done|done| |intros Hegg f0 Hf0|congruence].
  - split; [congruence|intros x Hx; rewrite R3, R4; by apply F2|]. intros Hne. rewrite R2, R3, R4. apply F3.
    destruct Hst as [<-|[? _]]; done.
  - rewrite Hf in Hf0. injection Hf0 as <-. destruct Hst as [<-|[_ ?]]; done.
Qed.

Lemma disposable_out f f' msgs r :
  flow_disposable (f_decision f) = true -> f_state f = Egg -> flow_install flood f = (f', msgs, r) ->
  same_rule f f' /\ (r <> Ok tt -> f_state f' = Egg)
  /\ Forall (fun m => match m with FlowMod_add _ _ _ _ _ _ _ _ _ => False | _ => True end) msgs.
Proof.
  intros Hd Hs. unfold flow_install. rewrite Hs. cbn [bool_decide]. destruct (_ && _); [by intros [= <- <- <-]|].
  destruct (_ && _); [by intros [= <- <- <-]|]. rewrite bool_decide_eq_true_2 by done.
  destruct (install_msgs flood f) as [ms|e] eqn:E; intros [= <- <- <-]; [|done]. split_and!; [done|done|].
  unfold install_msgs in E. rewrite Hd in E. destruct (f_packet_in f); [|by injection E as <-].
  apply res_bind_inv in E as (po & Hpo & [= <-]). unfold flow_packet_out in Hpo.
  apply res_bind_inv in Hpo as (? & _ & [= <-]). by apply Forall_singleton.
Qed.

(** The tree has just been augmented for the flow, which is then put out. *)
Lemma dispose_scope_ok G s c f ms :
  scope_ok G s -> sc_flows s !! c = Some f -> flow_disposable (f_decision f) = true -> f_state f = Egg ->
  scope_ok G ((_ ← on_flow (Some c) (flow_rule flood 1 ms); st_update (fun s => set_flows (delete c (sc_flows s)) s)) s).1.
Proof.
  intros Hok Hf Hd Hst. unfold mbind, st_bind, on_flow, flow_rule. cbn [get_flow put_flow]. rewrite Hf.
  destruct (flow_install flood (set_rule (u16 1) ms f)) as [[f' out] r] eqn:E.
  destruct (disposable_out (set_rule (u16 1) ms f) f' out r Hd Hst E) as ((R1 & _ & R3 & R4) & Hthrow & Hout). cbn in *.
  assert (Hquiet : Forall (fun m => sent_ok s (0%nat, m)) out).
  { eapply Forall_impl; [exact Hout|]. intros m Hm. by destruct m. }
  destruct (so_flows _ _ Hok c f Hf) as [Hc [F1 F2 F3]]. destruct r as [[]|e].
  - cbn. rewrite delete_insert_eq. apply (scope_ok_delete G (add_sent out s) c). by apply scope_ok_send.
  - apply scope_ok_send.
    + apply scope_ok_flow; [done|done| |intros _ f0 Hf0; congruence|congruence].
      split; [congruence|intros x Hx; rewrite R3, R4; by apply F2|]. intros Hne. by destruct Hne, Hthrow.
    + eapply Forall_impl; [exact Hout|]. intros m Hm. by destruct m.
Qed.

(** What follows the augmentation. *)
Definition put_out (c : Z) (ms : field_set) (d : decision) : M unit :=
  if flow_disposable d
  then on_flow (Some c) (flow_rule flood 1 ms) ;; st_update (fun s => set_flows (delete c (sc_flows s)) s)
  else scope_commit flood.

Section answer.
Variables (G : gmap Z (decision * field_set)) (s : scope) (c : Z) (f : flow) (pi : packet_in) (p : P) (d : decision) (ms : field_set) (p' : P).
Hypotheses (Hp : policy_wf pol) (Hok : scope_ok G s) (Hf : sc_flows s !! c = Some f) (Hw : pkt_wf p).
Hypotheses (Hrun : run pol_mods p = Ok ((d, ms), p')) (HG : forall x, G !! c = Some x -> x = (d, ms)).
Hypothesis Hnew : f = new_flow c (sc_table s) \/ G !! c = Some (d, ms).

Let f1 := flow_packet_in pi f.
Let s1 := set_flows (<[c := f1]> (sc_flows s)) s.

Lemma answer_ok1 : scope_ok G s1 /\ sc_flows s1 !! c = Some f1.
Proof. split; [by apply (scope_ok_update G s c f f1); [..|left]|]. cbn. by rewrite lookup_insert_eq. Qed.

Lemma answer_same : f_state f <> Egg -> (f_decision f, f_mods f) = (d, ms) /\ flow_disposable d = false.
Proof.
  intros Hne. destruct Hnew as [Ef|Hx]; [by rewrite Ef in Hne|]. destruct (so_flows _ _ Hok c f Hf) as [_ [_ F2 _]].
  split; [by apply F2|]. by destruct (so_ghost _ _ Hok c (d, ms) Hx) as (_ & ? & _).
Qed.

(** A new or an idle flow gets the decision and goes out. *)
Lemma answer_new :
  f_state f = Egg \/ f_state f = Idle ->
  exists tree, let s2 := set_flows (<[c := set_mods ms (set_decision d f1)]> (sc_flows s)) (set_tree tree s) in
    answer_packet flood pol pi p c s = put_out c ms d s2 /\ scope_ok (ghost_add d ms c G) s2
    /\ (flow_disposable d = true -> f_state f = Egg)
    /\ (flow_disposable d = false -> lookup_node (flow_alive s2) tree p = Ok (Some c)).
Proof.
  intros Hst. destruct answer_ok1 as [Hok1 Hf1].
  destruct (augment_eq G s1 c f1 p d ms p' Hp Hok1 Hf1 Hw Hrun HG) as (tree & E & Hcons & Hlook).
  assert (Hor : f_state f1 = Egg \/ (f_decision f1, f_mods f1) = (d, ms) /\ flow_disposable d = false).
  { destruct Hst as [|Hi]; [by left|right]. apply answer_same. congruence. }
  pose proof (augment_scope_ok G s1 c f1 tree p d ms p' Hw Hrun Hok1 Hf1 Hor HG Hcons) as Hok2.
  cbn [sc_flows set_flows s1] in Hok2. rewrite insert_insert_eq in Hok2.
  exists tree. set (s2 := set_flows _ _). split_and!; [| exact Hok2 | |].
  - unfold answer_packet. unfold mbind at 1, st_bind at 1. rewrite (update_flow_eq _ _ _ _ Hf). fold f1 s1.
    unfold mbind at 1, st_bind at 1. cbn [st_get]. rewrite Hf1. change (f_state f1) with (f_state f).
    assert (Hgo : forall A (a b e h : A), match f_state f with Egg | Idle => a | Active => b | Evicted => e | Expired => h end = a)
      by (intros; by destruct Hst as [-> | ->]).
    rewrite Hgo. unfold mbind at 1, st_bind at 1. rewrite E.
    unfold mbind at 1, st_bind at 1, on_flow at 1. cbn [get_flow put_flow sc_flows set_flows]. rewrite lookup_insert_eq.
    unfold flow_mods, guard_or. cbn [f_state set_decision].
    rewrite (bool_decide_eq_false_2 (f_state f1 = Active)) by (destruct Hst; cbn; congruence). cbn [negb].
    rewrite res_bind_Ok. cbn [fst snd]. rewrite add_sent_nil, insert_insert_eq. cbn [sc_flows set_flows s1 set_tree]. rewrite insert_insert_eq.
    match goal with |- mbind _ _ ?x = _ => change x with s2 end.
    unfold mbind at 1, st_bind at 1. cbn [st_get]. unfold s2 at 1. cbn [sc_flows set_flows]. rewrite lookup_insert_eq. done.
  - intros Hd. destruct Hor as [|[_ ?]]; [done|congruence].
  - intros Hd. rewrite Hlook by done. unfold lock, flow_alive, s2. cbn. by rewrite lookup_insert_eq.
Qed.

Lemma answer_scope_ok : loads_only pol -> exists G', scope_ok G' (answer_packet flood pol pi p c s).1.
Proof.
  intros Hl. destruct answer_ok1 as [Hok1 Hf1]. destruct (decide (f_state f = Egg \/ f_state f = Idle)) as [Hst|Hst].
  - destruct (answer_new Hst) as (tree & -> & Hok2 & Hd & _). exists (ghost_add d ms c G). unfold put_out.
    destruct (flow_disposable d) eqn:Ed; [|by apply commit_scope_ok].
    eapply dispose_scope_ok; [exact Hok2|cbn; by rewrite lookup_insert_eq|done|]. cbn. by apply Hd.
  - exists G. unfold answer_packet. unfold mbind at 1, st_bind at 1. rewrite (update_flow_eq _ _ _ _ Hf). fold f1 s1.
    unfold mbind at 1, st_bind at 1. cbn [st_get]. rewrite Hf1. change (f_state f1) with (f_state f).
    destruct answer_same as [Hds _]; [tauto|].
    assert (Hwake : f_state f <> Egg -> scope_ok G (on_flow (Some c) (flow_wakeup flood) s1).1).
    { intros Hne. destruct (on_flow (Some c) (flow_wakeup flood) s1) as [s' r] eqn:E. by eapply wakeup_scope_ok. }
    destruct (f_state f) eqn:Est; [by destruct Hst; left| |by apply Hwake|by destruct Hst; right|exact Hok1].
    destruct (negb _); [|by apply Hwake].
    assert (Hr : run pol p = Ok (d, p')) by (apply (with_mods_run pol fs_empty p d p'); by exists ms).
    unfold mbind, st_bind, st_lift. rewrite Hr. cbn [fault_of]. rewrite (update_flow_eq _ _ _ _ Hf1).
    injection Hds as Hdd _. apply (scope_ok_update G s1 c f1); [done|done| |by left]. by split_and!.
Qed.
End answer.

(** *** The other events *)

Lemma setup_sent G s xid t prio idle hard buf m ins :
  scope_ok G s -> FIRST_COOKIE <= sc_next s -> sent_ok s (0%nat, FlowMod_add xid t prio 0 idle hard buf m ins).
Proof.
  intros Hok Hn. split; [by left|]. cbn. unfold FIRST_COOKIE in *. split; [lia|]. intros f Hf.
  destruct (so_flows _ _ Hok 0 f Hf) as [? _]. unfold FIRST_COOKIE in *. lia.
Qed.

Lemma send_preserves G k m :
  (forall s, scope_ok G s -> sc_next s = k -> sent_ok s (0%nat, m)) ->
  preserves (fun s => scope_ok G s /\ sc_next s = k) (send m).
Proof.
  intros Hm s [Hok Hk]. split; [|done]. apply scope_ok_send; [done|]. apply Forall_singleton. by apply Hm.
Qed.

Lemma reinit_preserves G k : FIRST_COOKIE <= k -> preserves (fun s => scope_ok G s /\ sc_next s = k) scope_reinit.
Proof.
  intros Hk. assert (Hadd : forall xid t prio idle hard buf m ins s, scope_ok G s -> sc_next s = k ->
    sent_ok s (0%nat, FlowMod_add xid t prio 0 idle hard buf m ins)) by (intros; eapply setup_sent; [done|lia]).
  assert (Hgo : forall ts, preserves (fun s => scope_ok G s /\ sc_next s = k) (install_gotos ts)).
  { induction ts as [|t ts IH]; cbn; [apply preserves_ret|]. apply preserves_bind; [|done].
    apply preserves_bind; [by apply send_preserves|]. intros _. apply send_preserves. intros s Hok Hs. by apply Hadd. }
  unfold scope_reinit, clearTables, installTableMissRule. apply preserves_bind.
  - apply preserves_bind; [by apply send_preserves|]. intros _. by apply send_preserves.
  - intros _. apply preserves_bind; [apply preserves_get|]. intros s0. apply preserves_bind; [apply Hgo|]. intros _.
    apply preserves_bind; [apply preserves_get|]. intros s1. apply preserves_bind; [by apply send_preserves|]. intros _.
    apply preserves_bind; [by apply send_preserves|]. intros _. apply send_preserves. intros s Hok Hs. by apply Hadd.
Qed.

Lemma scope_ok_start conn miss table next : scope_ok ∅ (SwitchScope conn miss unexplored ∅ table next []).
Proof. by split; [constructor|..]. Qed.

Lemma create_ok conn table next s :
  FIRST_COOKIE <= next < 2 ^ 64 - 1 -> scope_create conn table next = Ok s -> scope_ok ∅ s /\ sc_next s = next + 1.
Proof.
  intros Hn. unfold scope_create, take_cookie. rewrite (proj2 (Z.leb_le _ _)) by lia. cbn [guard_or]. rewrite !res_bind_Ok.
  intros Hs. apply res_bind_inv in Hs as (d & _ & Hs).
  rewrite wrap_small in Hs by (unfold in_width, FIRST_COOKIE in *; lia).
  set (s0 := SwitchScope _ _ _ _ _ _ _) in Hs.
  pose proof (reinit_preserves ∅ (next + 1) ltac:(lia) s0 (conj (scope_ok_start _ _ _ _) eq_refl)) as Hr.
  destruct (scope_reinit s0) as [s1 [[]|]]; [|done]. by injection Hs as <-.
Qed.

Lemma removed_scope_ok G s c reason :
  scope_ok G s -> flow_sent c s -> scope_ok G (process_flow_removed c reason s).
Proof.
  intros Hok (conn & xid & t & prio & idle & hard & buf & m & ins & Hin). unfold process_flow_removed.
  destruct (sc_flows s !! c) as [f|] eqn:Hf; [|done].
  pose proof (so_sent _ _ Hok) as Hs. rewrite Forall_forall in Hs. destruct (Hs _ Hin) as [_ [_ Hst]]. cbn in Hst. specialize (Hst f Hf).
  case_decide; [by apply scope_ok_delete|]. apply (scope_ok_update G s c f); [done|done| |].
  - unfold flow_removed. destruct reason; try done. by destruct (_ =? _).
  - unfold flow_removed. destruct reason; try (by right); try (by left). destruct (_ =? _); [by left|by right].
Qed.

Lemma scope_ok_closed G s : scope_ok G s -> scope_ok G (scope_closed s).
Proof.
  intros [Ht Hf Hg Hs]. split; cbn; [constructor|done|done|]. eapply Forall_impl; [exact Hs|].
  intros [conn m] [Hm Hst]. split; [done|]. cbn in *. destruct m; try done. by destruct Hst.
Qed.

Lemma scope_ok_invalidate G s : scope_ok G s -> scope_ok G (scope_invalidate s).
Proof.
  intros [Ht Hf Hg Hs]. apply (scope_ok_send G (set_tree unexplored s) [backend_remove_match (sc_table s) fs_empty]); [|by apply Forall_singleton].
  split; cbn; [constructor|done..].
Qed.

Lemma scope_reaches_ok n s :
  policy_wf pol -> loads_only pol -> scope_reaches n s -> Z.of_nat n < 2 ^ 63 - 1 ->
  exists G, scope_ok G s /\ FIRST_COOKIE <= sc_next s <= FIRST_COOKIE + Z.of_nat n.
Proof.
  intros Hp Hl Hr. induction Hr as [n conn table s Hs|n s pi p s' r Hr IH Hh Hs|n s c reason Hr IH Hsent|n s Hr IH|n s Hr IH
    |n s conn s' r Hr IH Hs|n s Hr IH]; intros Hn; [|destruct IH as (G & Hok & Hb); [lia|]..].
  - assert (FIRST_COOKIE = 2 ^ 63) by done. destruct (create_ok conn table (FIRST_COOKIE + Z.of_nat n) s ltac:(lia) Hs) as [Hok Hnext]. exists ∅. split; [done|lia].
  - assert (FIRST_COOKIE = 2 ^ 63) by done. destruct Hh as (Hw & d & p' & Hrun).
    apply (with_mods_run pol fs_empty) in Hrun as (ms & Hrun).
    destruct (find_flow_ok G s p d ms p' Hp Hok ltac:(lia) Hw Hrun) as (s1 & c & f & E & Hok1 & Hf & HG & Hc & Hb1 & Ht & _).
    unfold process_packet_in, mbind, st_bind in Hs. rewrite E in Hs.
    destruct (answer_scope_ok G s1 c f pi p d ms p' Hp Hok1 Hf Hw Hrun HG) as (G' & Hok'); [|done|].
    { destruct Hc as [->|(_ & _ & _ & ?)]; [left; by rewrite Ht|by right]. }
    pose proof (answer_packet_next pi p c s1) as Hnx. rewrite Hs in Hok', Hnx. cbn in *. exists G'. split; [done|lia].
  - exists G. split; [by apply removed_scope_ok|]. unfold process_flow_removed. destruct (sc_flows s !! c); cbn; lia.
  - assert (FIRST_COOKIE = 2 ^ 63) by done. exists G. rewrite wrap_small by (unfold in_width; lia).
    split; [apply scope_ok_next; [done|lia]|cbn; lia].
  - exists G. split; [by apply scope_ok_closed|cbn; lia].
  - assert (Hok' : scope_ok G (set_conn (Some conn) s)) by (by destruct Hok).
    pose proof (reinit_preserves G (sc_next s) ltac:(lia) _ (conj Hok' eq_refl)) as [Hok1 Hn1].
    unfold scope_reconnect in Hs. rewrite Hs in Hok1, Hn1. cbn in *. exists G. split; [done|lia].
  - exists G. split; [by apply scope_ok_invalidate|cbn; lia].
Qed.
End scope.
