(* ===== verification/ControllerTheorems.v ===== *)
(** * The properties of a switch scope (src/Controller.cc) *)

From S2P Require Import Prelude Bits OxmField OpenflowBasic Packet PacketParser TraceTree Tracing TracingProofs LoadTrees MapleRuntime.
From S2P Require Import Decision Flow Controller ControllerProofs ScopeInv.
Local Open Scope Z_scope.

(** ** What a commit sends *)

Section answers.
Context {P : Type} `{PacketLaws P}.
Variables (flood : of_action) (pol : policy decision).

Lemma actions_decided ms d : d_data d <> Undefined -> exists acts, actions flood ms d = Ok acts.
Proof. intros Hd. unfold actions. destruct (d_data d); [done|by eexists..]. Qed.

(** The messages that put the flow's rule on the switch and the waiting packet out. *)
Definition rule_sent (f : flow) (m : field_set) (acts : list of_action) (out : list msg) : Prop :=
  exists xid t prio buf, FlowMod_add xid t prio (f_cookie f) (fm_timeout (idle_timeout (d_base (f_decision f))))
    (fm_timeout (hard_timeout (d_base (f_decision f)))) buf m (ApplyActions acts) ∈ out.

Definition released (f : flow) (acts : list of_action) (out : list msg) : Prop :=
  (exists t prio c idle hard m, FlowMod_add (f_xid f) t prio c idle hard (f_buffer_id f) m (ApplyActions acts) ∈ out)
  /\ (unbuffered f = true -> PacketOut (f_xid f) OFP_NO_BUFFER (f_in_port f) acts (f_packet_data f) ∈ out).

Lemma rule_sent_app f m acts out out' :
  rule_sent f m acts out \/ rule_sent f m acts out' -> rule_sent f m acts (out ++ out').
Proof.
  intros [(xid & t & prio & buf & Hin)|(xid & t & prio & buf & Hin)]; exists xid, t, prio, buf; apply elem_of_app; auto.
Qed.

Lemma released_app f acts out out' : released f acts out \/ released f acts out' -> released f acts (out ++ out').
Proof.
  intros [[(t & prio & c & idle & hard & m & Hin) Hpo]|[(t & prio & c & idle & hard & m & Hin) Hpo]];
    (split; [exists t, prio, c, idle, hard, m|intros Hu; specialize (Hpo Hu)]; apply elem_of_app; auto).
Qed.

Definition sends (f : flow) : bool := f_packet_in f || bool_decide (f_state f = Active).

Lemma install_eq f :
  flow_install flood f =
    if sends f then
      let g := if bool_decide (f_state f = Egg) then f else set_expect (f_expect_removed f + 1) f in
      match install_msgs flood f with Ok out => (installed g, out, Ok tt) | Throw e => (g, [], Throw e) end
    else (f, [], Ok tt).
Proof.
  unfold flow_install, sends. assert (E : forall n, install_msgs flood (set_expect n f) = install_msgs flood f) by done.
  destruct (f_packet_in f); [|by destruct (f_state f)]. cbn [orb negb]. rewrite !andb_false_r.
  destruct (bool_decide (f_state f = Egg)); [done|]. by rewrite E.
Qed.

Lemma install_msgs_eq f acts :
  flow_disposable (f_decision f) = false -> actions flood (f_mods f) (f_decision f) = Ok acts ->
  install_msgs flood f = Ok ((if f_packet_in f && unbuffered f
      then [PacketOut (f_xid f) OFP_NO_BUFFER (f_in_port f) acts (f_packet_data f)] else [])
    ++ [FlowMod_add (f_xid f) (f_table f) (f_priority f) (f_cookie f) (fm_timeout (idle_timeout (d_base (f_decision f))))
          (fm_timeout (hard_timeout (d_base (f_decision f)))) (f_buffer_id f) (f_match f) (ApplyActions acts)]).
Proof.
  intros Hd Ha. unfold install_msgs, flow_packet_out, flow_mod_add. rewrite Hd, Ha. by destruct (f_packet_in f && unbuffered f).
Qed.

Lemma install_decided f acts :
  flow_disposable (f_decision f) = false -> actions flood (f_mods f) (f_decision f) = Ok acts ->
  exists f' out, flow_install flood f = (f', out, Ok tt) /\ same_rule f f'
    /\ (sends f = true -> sends f' = true /\ rule_sent f (f_match f) acts out)
    /\ (f_packet_in f = true -> released f acts out).
Proof.
  intros Hd Ha. rewrite install_eq, (install_msgs_eq f acts) by done. destruct (sends f) eqn:Hs.
  - eexists _, _. split; [reflexivity|]. split; [|split].
    + unfold same_rule. by destruct (bool_decide _).
    + intros _. split; [done|]. exists (f_xid f), (f_table f), (f_priority f), (f_buffer_id f). apply elem_of_app. right.
      by apply list_elem_of_singleton.
    + intros Hpi. rewrite Hpi. split.
      * exists (f_table f), (f_priority f), (f_cookie f). do 3 eexists. apply elem_of_app. right. by apply list_elem_of_singleton.
      * intros Hu. rewrite Hu. apply elem_of_app. left. by apply list_elem_of_singleton.
  - exists f, []. split_and!; [done|done|done|]. intros Hpi. unfold sends in Hs. by rewrite Hpi in Hs.
Qed.

(** What the rules of a commit send: for each flow that is on the switch or has
    a packet waiting, all of its rules, and the waiting packet. *)
Lemma rules_run conn rs s :
  sc_conn s = Some conn -> Forall (rule_ok pol s) rs ->
  (forall c f, sc_flows s !! c = Some f -> (exists r, r ∈ rs /\ r_flow r = Some c) -> d_data (f_decision f) <> Undefined) ->
  exists s' out, backend_all flood (map bc_install rs) s = (s', Ok tt)
    /\ sc_conn s' = Some conn /\ sc_sent s' = sc_sent s ++ map (pair conn) out
    /\ forall c f acts, sc_flows s !! c = Some f -> actions flood (f_mods f) (f_decision f) = Ok acts -> sends f = true ->
         (forall r, r ∈ rs -> r_flow r = Some c -> rule_sent f (r_match r) acts out)
         /\ ((exists r, r ∈ rs /\ r_flow r = Some c) -> f_packet_in f = true -> released f acts out).
Proof.
  revert s. induction rs as [|r rs IH]; intros s Hconn Hrs Hdec.
  { exists s, []. cbn. rewrite app_nil_r. split_and!; try done. intros c f acts _ _ _. split; [set_solver|intros (r & ? & _); set_solver]. }
  apply Forall_cons in Hrs as [(c0 & f0 & Hc0 & Hf0 & Hd0 & Hm0) Hrs].
  assert (Hu0 : d_data (f_decision f0) <> Undefined) by (apply (Hdec c0); [done|]; exists r; split; [apply list_elem_of_here|done]).
  destruct (actions_decided (f_mods f0) (f_decision f0) Hu0) as [acts0 Ha0].
  destruct (install_decided (set_rule (u16 (r_priority r)) (r_match r) f0) acts0 Hd0 Ha0) as (f1 & out1 & E1 & (R1 & R2 & R3 & R4) & Hsent1 & Hrel1).
  set (s1 := add_sent out1 (set_flows (<[c0 := f1]> (sc_flows s)) s)).
  assert (Ebk : backend flood (bc_install r) s = (s1, Ok tt)).
  { cbn [backend]. rewrite Hc0. unfold on_flow. cbn [get_flow put_flow]. rewrite Hf0. unfold flow_rule. by rewrite E1. }
  destruct (IH s1) as (s' & out & E & Hconn' & Hsent' & Hall); [done| | |].
  { eapply Forall_impl; [exact Hrs|]. intros r' (c' & g & Hc' & Hg & Hdg & Hmg). cbn. destruct (decide (c' = c0)) as [->|Hne].
    - rewrite Hf0 in Hg. injection Hg as <-. exists c0, f1. cbn in R3, R4. rewrite R3, R4. cbn. by rewrite lookup_insert_eq.
    - exists c', g. cbn. by rewrite lookup_insert_ne. }
  { cbn. intros c f. rewrite lookup_insert. case_decide as Ec.
    - intros [= <-] _. cbn in R3. by rewrite R3.
    - intros Hf (r' & Hin & Hr'). apply (Hdec c f Hf). exists r'. split; [by apply list_elem_of_further|done]. }
  exists s', (out1 ++ out). cbn [map backend_all]. unfold mbind, st_bind. rewrite Ebk, E. split_and!; [done|done| |].
  { rewrite Hsent'. cbn. by rewrite Hconn, map_app, app_assoc. }
  intros c f acts Hf Ha Hs. destruct (decide (c = c0)) as [->|Hne].
  - rewrite Hf0 in Hf. injection Hf as <-. assert (acts0 = acts) as -> by congruence.
    destruct (Hsent1 Hs) as [Hs1 Hrule1]. cbn in R1, R3, R4.
    destruct (Hall c0 f1 acts) as [Hl _]; [cbn; by rewrite lookup_insert_eq|by rewrite R3, R4|done|].
    split; [|intros _ Hpi; apply released_app; left; by apply Hrel1].
    intros r' [->|Hin]%elem_of_cons Hr'; apply rule_sent_app; [by left|right].
    specialize (Hl r' Hin Hr'). unfold rule_sent in Hl. by rewrite R1, R3 in Hl.
  - destruct (Hall c f acts) as [Hl Hr]; [cbn; by rewrite lookup_insert_ne|done|done|]. split.
    + intros r' [->|Hin]%elem_of_cons Hr'; [congruence|]. apply rule_sent_app. right. by apply Hl.
    + intros (r' & [->|Hin]%elem_of_cons & Hr') Hpi; [congruence|]. apply released_app. right. apply Hr; [by exists r'|done].
Qed.

Lemma commit_run G s conn c f p acts :
  policy_wf pol -> loads_only pol -> scope_ok flood pol G s -> sc_conn s = Some conn ->
  (forall q e q', pkt_wf q -> run pol q = Ok (e, q') -> d_data e <> Undefined) ->
  sc_flows s !! c = Some f -> actions flood (f_mods f) (f_decision f) = Ok acts -> f_packet_in f = true ->
  pkt_wf p -> lookup_node (flow_alive s) (sc_tree s) p = Ok (Some c) ->
  exists s' out m, scope_commit flood s = (s', Ok tt) /\ sc_sent s' = sc_sent s ++ map (pair conn) out
    /\ fs_match m p = Ok true /\ rule_sent f m acts out /\ released f acts out.
Proof.
  intros Hp Hl Hok Hconn Hdec Hf Ha Hpi Hw Hlook.
  destruct (commit_eq flood pol G s Hp Hl Hok) as (rs & -> & Hok1 & Hrs & Hrules & Hfound).
  destruct (Hfound p c Hw) as (r & Hin & Hr & Hsat); [|exact Hlook|].
  { intros t i b _ _. unfold fs_bit, fs_find; cbn. by rewrite lookup_empty. }
  rewrite Forall_forall in Hrules. destruct (Hrules r Hin) as (g & Hg & _ & _ & Wr & _).
  destruct (rules_run conn rs (cleared s)) as (s' & out & E & Hconn' & Hsent & Hall); [done|done| |].
  { intros c' f' Hf' (r' & Hin' & Hr'). destruct (Hrules r' Hin') as (g' & Hg' & _ & Hit & _).
    assert (g' = c') as -> by congruence. destruct (consistent_in_tree _ _ _ _ _ Hit (so_tree _ _ _ _ Hok)) as [y Hy].
    destruct (so_flows _ _ _ _ Hok c' f' Hf') as [_ [_ F2 _]]. specialize (F2 y Hy).
    destruct (so_ghost _ _ _ _ Hok c' y Hy) as (_ & _ & q & q' & Hq & Hrun). destruct y as [e ms]. injection F2 as <- <-.
    apply (Hdec q (f_decision f') q' Hq). apply (with_mods_run pol fs_empty). by exists (f_mods f'). }
  destruct (Hall c f acts) as [Hrule Hrel]; [exact Hf|done|by unfold sends; rewrite Hpi|].
  rewrite backend_all_app. unfold mbind, st_bind. rewrite E. eexists _, ([backend_remove_match (sc_table s) fs_empty; backend_barrier] ++ out ++ [backend_barrier]), (r_match r).
  split; [reflexivity|]. split_and!.
  - cbn. rewrite Hsent, Hconn'. unfold cleared, add_sent. cbn. rewrite Hconn, !map_app, <- !app_assoc. done.
  - by apply (fs_match_true (r_match r) p Hw Wr).
  - apply rule_sent_app. right. apply rule_sent_app. left. by apply Hrule.
  - apply released_app. right. apply released_app. left. apply Hrel; [by exists r|done].
Qed.

End answers.

Section theorems.
Context {P : Type} `{PacketLaws P}.
Variables (flood : of_action) (pol : policy decision).

(** C4: The rules that the controller sends do what the policy does.  For a
    pipeline that only loads and writes fields, after any sequence of
    packet-ins, removals, timeouts, reconnections and invalidations, each rule
    for a flow, that is with a cookie other than 0, that was ever sent to the switch
    rewrites and outputs every packet that it matches and the policy handles exactly
    as the policy does on this packet, and has the timeouts the policy chose.  So the switch may apply any of the rules it has
    kept. *)
Theorem flow_mods_sound n s conn xid t prio c idle hard buf m ins p d p' :
  policy_wf pol -> loads_only pol -> scope_reaches flood pol n s -> Z.of_nat n < 2 ^ 63 - 1 ->
  (conn, FlowMod_add xid t prio c idle hard buf m ins) ∈ sc_sent s -> c <> 0 ->
  pkt_wf p -> fs_match m p = Ok true -> run pol p = Ok (d, p') ->
  exists ms acts, run pol (ModTrackingPacket p fs_empty) = Ok (d, ModTrackingPacket p' ms)
    /\ actions flood ms d = Ok acts /\ ins = ApplyActions acts
    /\ idle = fm_timeout (idle_timeout (d_base d)) /\ hard = fm_timeout (hard_timeout (d_base d)).
Proof.
  intros Hp Hl Hr Hn Hin Hc Hw Hm Hrun. destruct (scope_reaches_ok flood pol n s Hp Hl Hr Hn) as (G & Hok & _).
  pose proof (so_sent _ _ _ _ Hok) as Hs. rewrite Forall_forall in Hs. destruct (Hs _ Hin) as [Hsound _]. cbn in Hsound.
  destruct Hsound as [|(d0 & ms & acts & [Wm Hmatch] & Hacts & -> & -> & -> & _)]; [done|].
  apply (fs_match_true m p Hw Wm) in Hm. apply (with_mods_run pol fs_empty) in Hrun as (ms' & Hrun).
  pose proof (Hmatch p (d, ms') p' Hw Hrun Hm) as E. injection E as -> ->.
  exists ms, acts. split_and!; try done. by rewrite (mod_tracking_run pol fs_empty p Hp fs_empty_wf Hw), Hrun.
Qed.

(** C5: Every packet that misses is answered.  Let the pipeline only load and
    write fields and always decide.  In any reachable state of a connected
    switch, a packet whose flow is not in the tree, is idle or has expired, is
    processed without an exception, and what is sent contains: when the decision
    is disposable, just the packet, with the policy's actions; otherwise a rule
    that matches the packet, with the policy's actions and timeouts, a rule that
    releases the packet from the switch's buffer, and the packet itself when it
    was not buffered. *)
Theorem packet_in_answered n s conn pi p d p' :
  policy_wf pol -> loads_only pol -> scope_reaches flood pol n s -> Z.of_nat n < 2 ^ 63 - 1 -> sc_conn s = Some conn ->
  (forall q e q', pkt_wf q -> run pol q = Ok (e, q') -> d_data e <> Undefined) ->
  (forall c f, lookup_node (flow_alive s) (sc_tree s) p = Ok (Some c) -> sc_flows s !! c = Some f ->
     f_state f = Idle \/ f_state f = Expired) ->
  pkt_wf p -> run pol p = Ok (d, p') ->
  exists s' out ms acts, process_packet_in flood pol pi p s = (s', Ok tt)
    /\ sc_sent s' = sc_sent s ++ map (pair conn) out
    /\ run pol (ModTrackingPacket p fs_empty) = Ok (d, ModTrackingPacket p' ms) /\ actions flood ms d = Ok acts
    /\ if flow_disposable d
       then out = [PacketOut (pi_xid pi) (pi_buffer_id pi) (pi_in_port pi) acts
                     (if pi_buffer_id pi =? OFP_NO_BUFFER then pi_data pi else None)]
       else (exists xid t prio c buf m,
               FlowMod_add xid t prio c (fm_timeout (idle_timeout (d_base d))) (fm_timeout (hard_timeout (d_base d))) buf m
                 (ApplyActions acts) ∈ out /\ fs_match m p = Ok true)
            /\ (exists t prio c idle hard m,
                  FlowMod_add (pi_xid pi) t prio c idle hard (pi_buffer_id pi) m (ApplyActions acts) ∈ out)
            /\ (pi_buffer_id pi = OFP_NO_BUFFER -> pi_data pi <> None ->
                  PacketOut (pi_xid pi) OFP_NO_BUFFER (pi_in_port pi) acts (pi_data pi) ∈ out).
Proof.
  intros Hp Hl Hr Hn Hconn Hdec Hstate Hw Hrun.
  destruct (scope_reaches_ok flood pol n s Hp Hl Hr Hn) as (G & Hok & Hb). unfold FIRST_COOKIE in Hb.
  pose proof Hrun as Hrun'. apply (with_mods_run pol fs_empty) in Hrun' as (ms & Hrun').
  destruct (find_flow_ok flood pol G s p d ms p' Hp Hok) as (s1 & c & f & E & Hok1 & Hf & HG & Hc & _ & Htab & Hconn1 & Hsent1);
    [unfold FIRST_COOKIE; lia|done|done|].
  assert (Hst : f_state f = Egg \/ f_state f = Idle).
  { destruct Hc as [->|(Hlk & -> & Hne & _)]; [by left|right]. by destruct (Hstate c f Hlk Hf). }
  assert (Hnew : f = new_flow c (sc_table s1) \/ G !! c = Some (d, ms)).
  { rewrite Htab. destruct Hc as [->|(_ & _ & _ & ?)]; [by left|by right]. }
  destruct (answer_new flood pol G s1 c f pi p d ms p' Hp Hok1 Hf Hw Hrun' HG Hnew Hst) as (tree & Eans & Hok2 & Hegg & Hlook2).
  destruct (actions_decided flood ms d (Hdec p d p' Hw Hrun)) as [acts Hacts].
  set (f2 := set_mods ms (set_decision d (flow_packet_in pi f))) in *. set (s2 := set_flows _ _) in *.
  assert (Hf2 : sc_flows s2 !! c = Some f2) by (cbn; by rewrite lookup_insert_eq).
  assert (Eproc : process_packet_in flood pol pi p s = put_out flood c ms d s2).
  { unfold process_packet_in, mbind, st_bind. by rewrite E. }
  rewrite Eproc, <- Hsent1. change (sc_sent s1) with (sc_sent s2). unfold put_out.
  rewrite (mod_tracking_run pol fs_empty p Hp fs_empty_wf Hw), Hrun'. destruct (flow_disposable d) eqn:Ed.
  - assert (Ei : flow_install flood (set_rule (u16 1) ms f2)
      = (installed (let g := set_rule (u16 1) ms f2 in if bool_decide (f_state f = Egg) then g else set_expect (f_expect_removed f + 1) g),
         [PacketOut (pi_xid pi) (pi_buffer_id pi) (pi_in_port pi) acts (if pi_buffer_id pi =? OFP_NO_BUFFER then pi_data pi else None)], Ok tt)).
    { rewrite install_eq. unfold sends, install_msgs, flow_packet_out. cbn. rewrite Ed, Hacts. cbn. unfold unbuffered. cbn.
      destruct (pi_buffer_id pi =? OFP_NO_BUFFER); [|done]. by destruct (pi_data pi). }
    unfold mbind at 1, st_bind at 1, on_flow, flow_rule. cbn [get_flow]. rewrite Hf2, Ei.
    eexists _, _, ms, acts. split; [reflexivity|]. split_and!; [|done|done|reflexivity]. cbn. by rewrite Hconn1, Hconn.
  - destruct (commit_run flood pol _ s2 conn c f2 p acts Hp Hl Hok2) as (s' & out & m & Ec & Hsent & Hm & Hrule & Hrel & Hpo);
      [cbn; congruence|done|done|done|done|done|by apply Hlook2|].
    exists s', out, ms, acts. split_and!; try done.
    + destruct Hrule as (xid & t & prio & buf & Hin). exists xid, t, prio, (f_cookie f2), buf, m. done.
    + intros Hbuf Hdata. apply Hpo. unfold unbuffered. cbn. rewrite Hbuf, Z.eqb_refl. cbn. by apply bool_decide_eq_true.
Qed.
End theorems.

(** ** The barrier flow *)

Section barrier.
Context {P : Type} `{PacketLaws P}.
Variables (flood : of_action) (pol : policy decision).

(** [c0] is the cookie of the barrier flow, which is in its first state. *)
Record barrier_ok (c0 : Z) (s : scope) : Prop := {
  bo_miss : f_state (sc_miss s) = Egg /\ f_packet_in (sc_miss s) = false /\ f_cookie (sc_miss s) = c0;
  bo_flows : forall c f, sc_flows s !! c = Some f -> f_cookie f <> c0;
  bo_sent : Forall (fun cm => match cm.2 with FlowMod_add _ _ _ c _ _ _ _ _ => c <> c0 | _ => True end) (sc_sent s);
}.

Lemma barrier_ok_send c0 s ms :
  barrier_ok c0 s -> Forall (fun m => match m with FlowMod_add _ _ _ c _ _ _ _ _ => c <> c0 | _ => True end) ms ->
  barrier_ok c0 (add_sent ms s).
Proof.
  intros [Hm Hf Hs] Hms. split; cbn; [done..|]. apply Forall_app. split; [done|]. destruct (sc_conn s); [|done]. by apply Forall_map.
Qed.

Lemma barrier_ok_put c0 s c f : barrier_ok c0 s -> f_cookie f <> c0 -> barrier_ok c0 (set_flows (<[c := f]> (sc_flows s)) s).
Proof.
  intros [Hm Hf Hs] Hne. split; cbn; [done| |done]. intros c' f'. rewrite lookup_insert. case_decide; [by intros [= <-]|apply Hf].
Qed.

(** Whatever a flow sends carries its own cookie. *)
Lemma install_cookie f f' ms r :
  flow_install flood f = (f', ms, r) ->
  f_cookie f' = f_cookie f /\ Forall (fun m => match m with FlowMod_add _ _ _ c _ _ _ _ _ => c = f_cookie f | _ => True end) ms.
Proof.
  rewrite install_eq. destruct (sends f); [|by intros [= <- <- <-]]. cbn. destruct (install_msgs flood f) as [out|e] eqn:E.
  - intros [= <- <- <-]. split; [by destruct (bool_decide _)|]. unfold install_msgs, flow_packet_out, flow_mod_add in E.
    destruct (actions flood (f_mods f) (f_decision f)) as [acts|].
    + destruct (flow_disposable _), (f_packet_in f), (unbuffered f); cbn in E; injection E as <-; repeat constructor.
    + destruct (flow_disposable _), (f_packet_in f), (unbuffered f); cbn in E; try done; injection E as <-; done.
  - intros [= <- <- <-]. split; [by destruct (bool_decide _)|done].
Qed.

Lemma barrier_on_flow c0 c call :
  (forall f f' ms r, call f = (f', ms, r) -> f_cookie f' = f_cookie f
     /\ Forall (fun m => match m with FlowMod_add _ _ _ c _ _ _ _ _ => c = f_cookie f | _ => True end) ms) ->
  preserves (barrier_ok c0) (on_flow (Some c) call).
Proof.
  intros Hcall s Hok. unfold on_flow. cbn [get_flow put_flow]. destruct (sc_flows s !! c) as [f|] eqn:Hf; [|done].
  destruct (call f) as [[f' ms] r] eqn:E. destruct (Hcall _ _ _ _ E) as [Hc Hms]. pose proof (bo_flows _ _ Hok c f Hf).
  apply barrier_ok_send; [apply barrier_ok_put; [done|congruence]|]. eapply Forall_impl; [exact Hms|]. intros m. destruct m; congruence || done.
Qed.

Lemma answer_barrier c0 pi (p : P) c : preserves (barrier_ok c0) (answer_packet flood pol pi p c).
Proof.
  apply answer_packet_preserves.
  - intros [c'|] prio m; [apply barrier_on_flow; intros f f' ms r E; exact (install_cookie _ _ _ _ E)|].
    intros s Hok. pose proof Hok as [(H1' & H2' & H3') _ _]. unfold on_flow, flow_rule. cbn [get_flow put_flow].
    assert (E : flow_install flood (set_rule (u16 prio) m (sc_miss s)) = (set_rule (u16 prio) m (sc_miss s), [], Ok tt)).
    { rewrite install_eq. unfold sends. cbn. by rewrite H1', H2'. }
    rewrite E. cbn [fst]. rewrite add_sent_nil. destruct Hok. by split.
  - intros c'. apply barrier_on_flow. intros f f' ms r E. exact (install_cookie _ _ _ _ E).
  - intros c' call Hq. apply barrier_on_flow. intros f f' ms r E. specialize (Hq f). rewrite E in Hq. by destruct Hq as [? ->].
  - intros t m s Hok. apply barrier_ok_send; [done|]. by apply Forall_singleton.
  - intros s Hok. apply barrier_ok_send; [done|]. by apply Forall_singleton.
  - intros n s []. by split.
  - intros c' s [Hm Hf Hs]. split; cbn; [done| |done]. intros c'' f. rewrite lookup_delete. case_decide; [done|apply Hf].
Qed.

Lemma find_flow_barrier c0 (p : P) s s' r :
  barrier_ok c0 s -> c0 < sc_next s < 2 ^ 64 - 1 -> 0 <= c0 -> find_flow p s = (s', r) ->
  barrier_ok c0 s' /\ sc_next s <= sc_next s' <= sc_next s + 1.
Proof.
  intros Hok Hn H0'. unfold find_flow, mbind at 1, st_bind at 1. cbn [st_get]. unfold mbind at 1, st_bind at 1, st_lift at 1.
  assert (Hmake : forall s' r, make_flow s = (s', r) -> barrier_ok c0 s' /\ sc_next s <= sc_next s' <= sc_next s + 1).
  { intros s2 r2. unfold make_flow, mbind, st_bind, st_get, st_lift, take_cookie, guard_or, mret, st_ret, st_update.
    destruct (FIRST_COOKIE <=? sc_next s); cbn; [|intros [= <- _]; split; [done|lia]]. intros [= <- _]. split.
    - destruct Hok as [Hm Hf Hs]. split; cbn; [done| |done]. intros c f. rewrite lookup_insert.
      case_decide; [intros [= <-]; cbn; lia|apply Hf].
    - cbn. rewrite wrap_small by (unfold in_width; lia). lia. }
  destruct (fault_of (lookup_node (flow_alive s) (sc_tree s) p)) as [t|e]; [|intros [= <- _]; split; [done|lia]].
  destruct (t ≫= _); [intros [= <- _]; split; [done|lia]|]. apply Hmake.
Qed.

Lemma setup_barrier c0 k : c0 <> 0 -> preserves (fun s => barrier_ok c0 s /\ sc_next s = k) scope_reinit.
Proof.
  intros Hne. assert (Hsend : forall m, match m with FlowMod_add _ _ _ c _ _ _ _ _ => c <> c0 | _ => True end ->
    preserves (fun s => barrier_ok c0 s /\ sc_next s = k) (send m)).
  { intros m Hm s [Hok Hk]. split; [|done]. apply barrier_ok_send; [done|]. by apply Forall_singleton. }
  assert (Hgo : forall ts, preserves (fun s => barrier_ok c0 s /\ sc_next s = k) (install_gotos ts)).
  { induction ts as [|t ts IH]; cbn; [apply preserves_ret|]. apply preserves_bind; [|done].
    apply preserves_bind; [by apply Hsend|]. intros _. apply Hsend. cbn. done. }
  unfold scope_reinit, clearTables, installTableMissRule. apply preserves_bind.
  - apply preserves_bind; [by apply Hsend|]. intros _. by apply Hsend.
  - intros _. apply preserves_bind; [apply preserves_get|]. intros s0. apply preserves_bind; [apply Hgo|]. intros _.
    apply preserves_bind; [apply preserves_get|]. intros s1. apply preserves_bind; [by apply Hsend|]. intros _.
    apply preserves_bind; [by apply Hsend|]. intros _. apply Hsend. cbn. done.
Qed.

Lemma create_barrier conn table next s :
  FIRST_COOKIE <= next < 2 ^ 64 - 1 -> scope_create conn table next = Ok s -> barrier_ok next s /\ sc_next s = next + 1.
Proof.
  intros Hn. unfold scope_create, take_cookie. rewrite (proj2 (Z.leb_le _ _)) by lia. cbn [guard_or]. rewrite !res_bind_Ok.
  intros Hs. apply res_bind_inv in Hs as (d & _ & Hs). unfold FIRST_COOKIE in *.
  rewrite wrap_small in Hs by (unfold in_width; lia). set (s0 := SwitchScope _ _ _ _ _ _ _) in Hs.
  pose proof (setup_barrier next (next + 1) ltac:(lia) s0) as Hr. destruct (scope_reinit s0) as [s1 [[]|]]; [|done].
  injection Hs as <-. by apply Hr.
Qed.

Lemma reaches_barrier n s :
  scope_reaches flood pol n s -> Z.of_nat n < 2 ^ 63 - 1 ->
  exists c0, FIRST_COOKIE <= c0 < sc_next s /\ sc_next s <= FIRST_COOKIE + Z.of_nat n /\ barrier_ok c0 s.
Proof.
  intros Hr. assert (Hf : FIRST_COOKIE = 2 ^ 63) by done.
  induction Hr as [n conn table s Hs|n s pi p s' r Hr IH Hh Hs|n s c reason Hr IH Hsent|n s Hr IH|n s Hr IH
    |n s conn s' r Hr IH Hs|n s Hr IH]; intros Hn; [|destruct IH as (c0 & Hc & Hb & Hok); [lia|]; exists c0..].
  - destruct (create_barrier conn table (FIRST_COOKIE + Z.of_nat n) s ltac:(lia) Hs) as [Hok Hnext].
    exists (FIRST_COOKIE + Z.of_nat n). split_and!; [lia|lia|lia|done].
  - unfold process_packet_in, mbind, st_bind in Hs. destruct (find_flow p s) as [s1 r1] eqn:E.
    destruct (find_flow_barrier c0 p s s1 r1 Hok ltac:(lia) ltac:(lia) E) as [Hok1 Hb1].
    destruct r1 as [c|e]; [|injection Hs as <- _; split_and!; [lia|lia|lia|done]].
    pose proof (answer_barrier c0 pi p c s1 Hok1) as Hok2. pose proof (answer_packet_next flood pol pi p c s1) as Hnx.
    rewrite Hs in Hok2, Hnx. cbn in *. split_and!; [lia|lia|lia|done].
  - unfold process_flow_removed. destruct (sc_flows s !! c) as [f|] eqn:Hfl; cbn; split_and!; try lia; [|done].
    assert (Hck : f_cookie (flow_removed reason f) <> c0).
    { pose proof (bo_flows _ _ Hok c f Hfl). unfold flow_removed. destruct reason; try done. by destruct (_ =? _). }
    destruct Hok as [Hm Hfs Hs]. split; cbn; [done| |done]. intros c' f'. case_decide.
    + rewrite lookup_delete. case_decide; [done|apply Hfs].
    + rewrite lookup_insert. case_decide; [by intros [= <-]|apply Hfs].
  - cbn. rewrite wrap_small by (unfold in_width; lia). split_and!; [lia|lia|lia|]. destruct Hok. by split.
  - cbn. split_and!; [lia|lia|lia|]. destruct Hok. by split.
  - assert (Hok' : barrier_ok c0 (set_conn (Some conn) s)) by (destruct Hok; by split).
    pose proof (setup_barrier c0 (sc_next s) ltac:(lia) _ (conj Hok' eq_refl)) as [Hok1 Hn1].
    unfold scope_reconnect in Hs. rewrite Hs in Hok1, Hn1. cbn in *. split_and!; [lia|lia|lia|done].
  - cbn. split_and!; [lia|lia|lia|]. apply (barrier_ok_send c0 (set_tree unexplored s)); [destruct Hok; by split|]. by apply Forall_singleton.
Qed.

(** No barrier rule ever reaches a switch.  Whatever the policy and the
    events, the flow that the controller uses for barriers stays in its first
    state without a packet, so installing it does nothing, and no message that was
    ever sent adds a rule with its cookie. *)
Theorem barrier_never_sent n s :
  scope_reaches flood pol n s -> Z.of_nat n < 2 ^ 63 - 1 ->
  f_state (sc_miss s) = Egg
  /\ (forall prio m, flow_rule flood prio m (sc_miss s) = (set_rule (u16 prio) m (sc_miss s), [], Ok tt))
  /\ forall conn xid t prio c idle hard buf m ins,
       (conn, FlowMod_add xid t prio c idle hard buf m ins) ∈ sc_sent s -> c <> f_cookie (sc_miss s).
Proof.
  intros Hr Hn. destruct (reaches_barrier n s Hr Hn) as (c0 & _ & _ & [(H1' & H2' & H3') _ Hs]). split_and!; [done| |].
  - intros prio m. unfold flow_rule. rewrite install_eq. unfold sends. cbn. by rewrite H1', H2'.
  - intros conn xid t prio c idle hard buf m ins Hin. rewrite Forall_forall in Hs. rewrite H3'. exact (Hs _ Hin).
Qed.
End barrier.

(** ** Concrete runs *)

Definition sample_flood : of_action := OutputAction 0xfffffffb 0.

(** An ARP request on port 3, and a frame of another type on port 5. *)
Definition arp_packet : parser := sample_parser.
(** A handler that loads the Ethernet type, and one that tests it. *)
Definition type_mask : mask := Mask eth_type (bits_set (bits_zero 16)).
Definition loading_handler (arp other : decision -> decision) (d : decision) : policy decision :=
  p_load type_mask (fun f => p_return (if bval (f_value f) =? 0x0806 then arp d else other d)).
Definition testing_handler (arp other : decision -> decision) (d : decision) : policy decision :=
  p_test sample_need (fun b : bool => p_return (if b then arp d else other d)).

Definition to_port (port : Z) (d : decision) : decision := Decision (d_base d) (Unicast port).
Definition to_controller (d : decision) : decision := Decision (d_base d) (Inspect 64).

Definition loading : policy decision := process [loading_handler (to_port 7) d_drop].

Lemma loading_wf arp other : policy_wf (process [loading_handler arp other]).
Proof.
  apply process_wf. apply Forall_singleton. intros d. constructor; [|done|intros; constructor].
  split; [by apply known_by_check|]. by apply (mask_ok_set eth_type).
Qed.

Lemma loading_loads arp other : loads_only (process [loading_handler arp other]).
Proof. apply process_loads. apply Forall_singleton. intros d. constructor. intros. constructor. Qed.

Definition scope0 : scope :=
  match scope_create 1 0 FIRST_COOKIE with Ok s => s | Throw _ => SwitchScope None (new_flow 0 0) unexplored ∅ 0 0 [] end.

(** The scope after some packets. *)
Fixpoint after (pol : policy decision) (pis : list (packet_in * parser)) (s : scope) : scope :=
  match pis with [] => s | (pi, p) :: pis => after pol pis (process_packet_in sample_flood pol pi p s).1 end.

Lemma after_reaches pol pis n s :
  scope_reaches sample_flood pol n s -> Forall (fun x => handled pol x.2) pis ->
  scope_reaches sample_flood pol (length pis + n) (after pol pis s).
Proof.
  intros Hr Hpis. revert n s Hr. induction Hpis as [|[pi p] pis Hp _ IH]; intros n s Hr; [done|].
  cbn [length after]. rewrite Nat.add_succ_comm. apply IH. eapply sr_packet_in; [exact Hr|exact Hp|]. apply surjective_pairing.
Qed.

Lemma scope0_reaches pol : scope_reaches sample_flood pol 1 scope0.
Proof. apply (sr_create sample_flood pol 0 1 0). vm_compute. reflexivity. Qed.

(** The [n]-th packet-in, unbuffered. *)
Definition miss_pi (n : nat) (port : Z) : packet_in := PacketIn (Z.of_nat n) OFP_NO_BUFFER port OFPR_NO_MATCH 0 (Some n).

Definition loading_scope : scope := after loading [(miss_pi 1 3, arp_packet); (miss_pi 2 5, other_packet)] scope0.


Definition messages (s : scope) : list msg := map snd (sc_sent s).

(** The rule of the [i]-th message. *)
Definition rule_at (i : nat) (s : scope) : option (Z * field_set * instruction) :=
  match messages s !! i with Some (FlowMod_add _ _ _ c _ _ _ m ins) => Some (c, m, ins) | _ => None end.

Lemma loading_reaches : scope_reaches sample_flood loading 3 loading_scope.
Proof.
  apply (after_reaches loading [(miss_pi 1 3, arp_packet); (miss_pi 2 5, other_packet)] 1 scope0); [apply scope0_reaches|].
  repeat (apply Forall_cons; split); [| |done].
  - split; [apply sample_parser_wf|]. eexists _, _. vm_compute. reflexivity.
  - split; [apply other_packet_wf|]. eexists _, _. vm_compute. reflexivity.
Qed.

Lemma flow_mods_sound_witness :
  exists m, rule_at 12 loading_scope = Some (FIRST_COOKIE + 1, m, ApplyActions [OutputAction 7 0])
    /\ fs_match m arp_packet = Ok true
    /\ exists ms acts, run loading (ModTrackingPacket arp_packet fs_empty) = Ok (to_port 7 decision_default, ModTrackingPacket arp_packet ms)
      /\ actions sample_flood ms (to_port 7 decision_default) = Ok acts /\ ApplyActions [OutputAction 7 0] = ApplyActions acts.
Proof.
  eexists. split; [vm_compute; reflexivity|]. split; [vm_compute; reflexivity|].
  edestruct (flow_mods_sound sample_flood loading 3 loading_scope 1%nat) as (ms & acts & E1 & E2 & E3 & _);
    [apply loading_wf|apply loading_loads|exact loading_reaches|lia|
     apply (list_elem_of_lookup_2 _ 12); vm_compute; reflexivity|discriminate|apply sample_parser_wf|vm_compute; reflexivity
     |vm_compute; reflexivity|].
  exists ms, acts. split; [exact E1|]. split; [exact E2|exact E3].
Defined.

Lemma packet_in_answered_witness :
  exists s' out, process_packet_in sample_flood loading (miss_pi 1 3) arp_packet scope0 = (s', Ok tt)
    /\ sc_sent s' = sc_sent scope0 ++ map (pair 1%nat) out
    /\ PacketOut 1 OFP_NO_BUFFER 3 [OutputAction 7 0] (Some 1%nat) ∈ out.
Proof.
  destruct (packet_in_answered sample_flood loading 1 scope0 1 (miss_pi 1 3) arp_packet (to_port 7 decision_default) arp_packet)
    as (s' & out & ms & acts & E1 & E2 & E3 & E4 & _ & _ & E5).
  - apply loading_wf.
  - apply loading_loads.
  - apply scope0_reaches.
  - lia.
  - reflexivity.
  - intros q e q' _ Hrun. unfold loading, process in Hrun. cbn in Hrun. apply res_bind_inv in Hrun as (f & _ & Hrun).
    destruct (bval (f_value f) =? 0x0806); by injection Hrun as <- _.
  - intros c f Hl. exfalso. by vm_compute in Hl.
  - apply sample_parser_wf.
  - vm_compute. reflexivity.
  - exists s', out. split; [exact E1|]. split; [exact E2|].
    assert (H : run loading (ModTrackingPacket arp_packet fs_empty) = Ok (to_port 7 decision_default, ModTrackingPacket arp_packet fs_empty))
      by (vm_compute; reflexivity).
    assert (ms = fs_empty) as -> by congruence. assert (Ha : actions sample_flood fs_empty (to_port 7 decision_default) = Ok [OutputAction 7 0]) by reflexivity.
    assert (acts = [OutputAction 7 0]) as -> by congruence.
    apply E5; [reflexivity|discriminate].
Defined.

(** ** What the code does not ensure *)

Definition testing : policy decision := process [testing_handler d_drop (to_port 7)].
Definition testing_scope : scope := after testing [(miss_pi 2 5, other_packet)] scope0.

(** C38: Without the barrier, a switch forwards packets the policy drops.  The
    policy tests for ARP: ARP packets are dropped, others go to port 7.  After one
    other packet, the last commit has left one rule on the switch, which matches
    every packet and outputs it on port 7, ARP packets included; the barrier rule
    of higher priority that the trace tree asks for was not sent. *)
Theorem missing_barrier_misforwards :
  scope_reaches sample_flood testing 2 testing_scope
  /\ drop 5 (messages testing_scope)
     = [backend_remove_match 0 fs_empty; BarrierRequest;
        PacketOut 2 OFP_NO_BUFFER 5 [OutputAction 7 0] (Some 2%nat);
        FlowMod_add 2 0 1 (FIRST_COOKIE + 1) 0 0 OFP_NO_BUFFER fs_empty (ApplyActions [OutputAction 7 0]);
        BarrierRequest]
  /\ (exists r, commit (fun _ => true) (sc_tree testing_scope)
        = Ok [bc_remove_all; bc_barrier; bc_install (Rule 1 fs_empty (Some (FIRST_COOKIE + 1))); bc_install r; bc_barrier]
        /\ r_flow r = None /\ r_priority r = 2 /\ fs_match (r_match r) arp_packet = Ok true)
  /\ fs_match fs_empty arp_packet = Ok true
  /\ run testing arp_packet = Ok (d_drop decision_default, arp_packet).
Proof.
  split_and!; [|vm_compute; reflexivity|eexists; split; [vm_compute; reflexivity|vm_compute; done]|vm_compute; reflexivity..].
  apply (after_reaches testing [(miss_pi 2 5, other_packet)] 1 scope0); [apply scope0_reaches|]. apply Forall_singleton.
  split; [apply other_packet_wf|]. eexists _, _. vm_compute. reflexivity.
Qed.

Lemma barrier_never_sent_witness :
  f_cookie (sc_miss testing_scope) = FIRST_COOKIE
  /\ flow_rule sample_flood 2 fs_empty (sc_miss testing_scope) = (set_rule 2 fs_empty (sc_miss testing_scope), [], Ok tt).
Proof.
  split; [vm_compute; reflexivity|].
  apply (barrier_never_sent (P := parser) sample_flood testing 2 testing_scope); [|lia].
  apply (after_reaches testing [(miss_pi 2 5, other_packet)] 1 scope0); [apply scope0_reaches|]. apply Forall_singleton.
  split; [apply other_packet_wf|]. eexists _, _. vm_compute. reflexivity.
Defined.

Definition undecided : policy decision := process [loading_handler (to_port 7) (fun d => d)].

(** One packet that no handler decides blocks the switch.  Other packets than
    ARP are left undecided: the first one throws [unhandled_packet], and its flow
    stays in the tree, so the commit for the next ARP packet throws as well; all
    rules have been removed, and neither a rule for the ARP packet nor the packet
    itself is ever sent. *)
Theorem unhandled_packet_blocks :
  let r1 := process_packet_in sample_flood undecided (miss_pi 1 5) other_packet scope0 in
  let r2 := process_packet_in sample_flood undecided (miss_pi 2 3) arp_packet r1.1 in
  r1.2 = Throw unhandled_packet /\ r2.2 = Throw unhandled_packet
  /\ run undecided arp_packet = Ok (to_port 7 decision_default, arp_packet)
  /\ drop 5 (messages r2.1) = [backend_remove_match 0 fs_empty; BarrierRequest; backend_remove_match 0 fs_empty; BarrierRequest].
Proof. vm_compute. split_and!; reflexivity. Qed.

Definition inspecting : policy decision := process [loading_handler to_controller d_drop].

(** The data of a finished packet-in is sent.  ARP packets are inspected.
    The second ARP packet comes from the flow's own rule, so it only renews the
    decision and leaves its data in the flow; when a third packet makes the tree
    commit, the flow is installed again with a packet-out that carries the data
    of the second message, which is gone, and that sends it to the controller
    once more. *)
Theorem finished_packet_data_sent :
  let s := after inspecting [(miss_pi 1 3, arp_packet); (PacketIn 2 OFP_NO_BUFFER 3 OFPR_ACTION (FIRST_COOKIE + 1) (Some 2%nat), arp_packet)] scope0 in
  let r := process_packet_in sample_flood inspecting (miss_pi 3 5) other_packet s in
  r.2 = Ok tt /\ PacketOut 2 OFP_NO_BUFFER 3 [OutputAction OFPP_CONTROLLER 64] (Some 2%nat) ∈ drop (length (messages s)) (messages r.1).
Proof.
  split; [vm_compute; reflexivity|]. apply (list_elem_of_lookup_2 _ 2). vm_compute. reflexivity.
Qed.
