(* ===== verification/Dispatch.v ===== *)
(** * Dispatching the messages of all switches (src/Controller.cc: ControllerImpl, and
      src/OFTransaction.cc, SwitchConnection.cc)

    The controller keeps a scope per switch and, in each connection, a pointer
    to the scope it speaks for.  Messages go to the scope or to the transaction
    that asked for them. *)

From S2P Require Import Prelude Bits OxmField Packet PacketParser TraceTree Tracing Decision Flow Controller ScopeInv.
Local Open Scope Z_scope.

Definition min_xid : Z := 0xfff.

(** What the controller tells the applications. *)
Inductive emission :=
| switchUp (dpid : Z)
| switchDown (dpid : Z)
| portStatus (dpid : Z)
| flowRemoved (dpid cookie : Z) (reason : fr_reason)
| response (transaction : nat) (dpid xid : Z)
| error_response (transaction : nat) (dpid xid : Z).

(** [set_application_data]: the scope of a connection is known by the dpid;
    [None] is the null pointer.  The transactions are numbered. *)
Record controller := ControllerImpl {
  switches : gmap Z scope;
  app_data : gmap nat (option Z);
  next_cookie : Z;
  handler_table : Z;
  started : bool;
  static_ofresponse : list (option nat);
  min_session_xid : Z;
  emitted : list emission;
}.

Inductive dispatch_error := null_context | out_of_bounds_write.

Definition set_switches (sw : gmap Z scope) (next : Z) (c : controller) : controller :=
  ControllerImpl sw (app_data c) next (handler_table c) (started c) (static_ofresponse c) (min_session_xid c) (emitted c).
Definition set_app_data (conn : nat) (d : option Z) (c : controller) : controller :=
  ControllerImpl (switches c) (<[conn := d]> (app_data c)) (next_cookie c) (handler_table c) (started c) (static_ofresponse c)
    (min_session_xid c) (emitted c).
Definition emit (e : emission) (c : controller) : controller :=
  ControllerImpl (switches c) (app_data c) (next_cookie c) (handler_table c) (started c) (static_ofresponse c)
    (min_session_xid c) (emitted c ++ [e]).
Definition set_transactions (l : list (option nat)) (xid : Z) (c : controller) : controller :=
  ControllerImpl (switches c) (app_data c) (next_cookie c) (handler_table c) (started c) l xid (emitted c).

(** A call on the scope of a switch; all scopes share the counter of cookies. *)
Definition on_scope (dpid : Z) (m : M unit) (c : controller) : controller :=
  match switches c !! dpid with
  | None => c
  | Some s => let s' := (m (set_next (next_cookie c) s)).1 in set_switches (<[dpid := s']> (switches c)) (sc_next s') c
  end.

Section dispatch.
Context {P : Type} `{Packet P}.
Variables (flood : Z -> of_action) (pol : Z -> policy decision).

(** [createSwitchScope] *)
Definition createSwitchScope (conn : nat) (dpid : Z) (c : controller) : res fault controller :=
  match switches c !! dpid with
  | None =>
      s ← scope_create conn (handler_table c) (next_cookie c);
      Ok (set_switches (<[dpid := s]> (switches c)) (sc_next s) c)
  | Some _ => Ok (on_scope dpid (fun s => scope_reconnect conn s) c)
  end.

(** The messages of a switch.  The other types are the answers and errors that
    transactions wait for. *)
Inductive of_msg :=
| of_packet_in (pi : packet_in) (packet : res error P)
| of_features_reply (dpid : Z)
| of_port_status
| of_flow_removed (cookie : Z) (reason : fr_reason)
| of_other (is_error : bool) (xid : Z).

(** [static_ofresponse[xid - min_xid]] when the xid was given to a transaction. *)
Definition find_transaction (xid : Z) (c : controller) : option nat :=
  if xid <? min_xid then None
  else if xid <? min_session_xid c then mjoin (static_ofresponse c !! Z.to_nat (xid - min_xid))
  else None.

(** [message_callback] without the benchmark; exceptions are caught and logged.
    The features reply of a connection without a scope is the only message that
    does not need one. *)
Definition message_callback (conn : nat) (m : of_msg) (c : controller) : controller :=
  match m, mjoin (app_data c !! conn) with
  | of_features_reply dpid, _ =>
      match createSwitchScope conn dpid c with
      | Ok c => emit (switchUp dpid) (set_app_data conn (Some dpid) c)
      | Throw _ => c
      end
  | _, None => c
  | of_packet_in pi (Ok p), Some dpid => on_scope dpid (process_packet_in (flood dpid) (pol dpid) pi p) c
  | of_packet_in _ (Throw _), Some _ => c
  | of_port_status, Some dpid => emit (portStatus dpid) c
  | of_flow_removed cookie reason, Some dpid =>
      emit (flowRemoved dpid cookie reason) (on_scope dpid (fun s => (process_flow_removed cookie reason s, Ok tt)) c)
  | of_other is_error xid, Some dpid =>
      match find_transaction xid c with
      | Some t => emit (if is_error then error_response t dpid xid else response t dpid xid) c
      | None => c
      end
  end.

(** The start of [message_callback]: in the mode for benchmarks a packet-in gets an empty
    PacketOut with its xid, and nothing else is done.  [cbench] has no value until
    [Controller::startUp] sets it, which is after the server accepts connections; [None]
    is a read of it before. *)
Definition message_callback_cbench (cbench : option bool) (conn : nat) (xid : Z) (m : of_msg) (c : controller) : option (controller * option (nat * Z)) :=
  match cbench, m with
  | None, _ => None
  | Some true, of_packet_in _ _ => Some (c, Some (conn, xid))
  | Some _, _ => Some (message_callback conn m c, None)
  end.

Inductive conn_event := EVENT_STARTED | EVENT_ESTABLISHED | EVENT_FAILED_NEGOTIATION | EVENT_CLOSED | EVENT_DEAD.

Definition connection_callback (conn : nat) (e : conn_event) (c : controller) : controller :=
  match e with
  | EVENT_STARTED => set_app_data conn None c
  | EVENT_CLOSED | EVENT_DEAD =>
      match mjoin (app_data c !! conn) with
      | None => c
      | Some dpid => on_scope dpid (fun s => (scope_closed s, Ok tt)) (emit (switchDown dpid) (set_app_data conn None c))
      end
  | _ => c
  end.

(** [invalidateTraceTree]: every scope. *)
Definition invalidateTraceTree (c : controller) : controller :=
  set_switches (scope_invalidate <$> switches c) (next_cookie c) c.

(** [Controller::reserveTable] *)
Definition reserveTable (c : controller) : Z * controller :=
  (handler_table c,
   ControllerImpl (switches c) (app_data c) (next_cookie c) (u8 (handler_table c + 1)) (started c) (static_ofresponse c)
     (min_session_xid c) (emitted c)).

(** ** Transactions *)

(** [registerStaticTransaction]: the xid and the slot of a transaction. *)
Definition registerStaticTransaction (t : nat) (c : controller) : option Z * controller :=
  if started c then (None, c)
  else (Some (min_session_xid c), set_transactions (static_ofresponse c ++ [Some t]) (u32 (min_session_xid c + 1)) c).

(** The slot [QObject::destroyed] clears is that of the xid itself. *)
Definition transaction_destroyed (xid : Z) (c : controller) : res dispatch_error controller :=
  if Nat.ltb (Z.to_nat xid) (length (static_ofresponse c)) then
    Ok (set_transactions (<[Z.to_nat xid := None]> (static_ofresponse c)) (min_session_xid c) c)
  else Throw out_of_bounds_write.
End dispatch.

Definition controller_start (table next : Z) : controller := ControllerImpl ∅ ∅ next table false [] min_xid [].

(** ** Registering transactions *)

Fixpoint register_all (ts : list nat) (c : controller) : controller :=
  match ts with [] => c | t :: ts => register_all ts (registerStaticTransaction t c).2 end.

Lemma register_all_ok ts c :
  started c = false -> min_session_xid c + Z.of_nat (length ts) < 2 ^ 32 -> 0 <= min_session_xid c ->
  let c' := register_all ts c in
  static_ofresponse c' = static_ofresponse c ++ map Some ts
  /\ min_session_xid c' = min_session_xid c + Z.of_nat (length ts) /\ started c' = false.
Proof.
  revert c. induction ts as [|t ts IH]; intros c Hs Hb H0; cbn; [rewrite app_nil_r; split_and!; [done|lia|done]|].
  unfold registerStaticTransaction. rewrite Hs. cbn [snd]. cbn [length] in Hb.
  set (c1 := set_transactions _ _ c). assert (Ex : min_session_xid c1 = min_session_xid c + 1).
  { cbn. apply wrap_small. unfold in_width. lia. }
  destruct (IH c1) as (E1 & E2 & E3); [done|lia|lia|]. rewrite E1, E2, Ex. cbn. rewrite <- app_assoc. split_and!; [done|lia|done].
Qed.

(** C37: Answers go to the transaction that asked, and destroying a transaction
    writes out of bounds.  When fewer than 2^32 - 4096 transactions are registered
    before the controller starts, the [i]-th gets the xid [0xfff + i], and a
    message with some xid is delivered to that transaction and to no other; but
    the handler of the transaction's destruction clears the slot [xid] instead of
    [xid - 0xfff], which is outside the vector unless more than 4095 transactions
    were registered. *)
Theorem transactions_dispatch ts table next :
  min_xid + Z.of_nat (length ts) < 2 ^ 32 ->
  let c := register_all ts (controller_start table next) in
  (forall xid t, 0 <= xid -> find_transaction xid c = Some t <-> exists i, xid = min_xid + Z.of_nat i /\ ts !! i = Some t)
  /\ (forall i, (i < length ts)%nat -> (length ts <= 4095)%nat ->
        transaction_destroyed (min_xid + Z.of_nat i) c = Throw out_of_bounds_write).
Proof.
  intros Hb c. destruct (register_all_ok ts (controller_start table next)) as (E1 & E2 & _); [done|exact Hb|done|].
  fold c in E1, E2. cbn [static_ofresponse min_session_xid controller_start app] in E1, E2. unfold min_xid in *. split.
  - intros xid t Hx. unfold find_transaction, min_xid. destruct (Z.ltb_spec xid 0xfff) as [Hlt|Hge].
    { split; [done|]. intros (i & -> & _). lia. }
    rewrite E2. destruct (Z.ltb_spec xid (0xfff + Z.of_nat (length ts))) as [Hlt|Hge'].
    + rewrite E1, list_lookup_fmap. split.
      * intros Ht. exists (Z.to_nat (xid - 0xfff)). split; [lia|]. by destruct (ts !! _).
      * intros (i & -> & Hi). replace (Z.to_nat (0xfff + Z.of_nat i - 0xfff)) with i by lia. by rewrite Hi.
    + split; [done|]. intros (i & -> & Hi). apply lookup_lt_Some in Hi. lia.
  - intros i Hi Hl. unfold transaction_destroyed. rewrite E1, length_map.
    destruct (Nat.ltb_spec (Z.to_nat (0xfff + Z.of_nat i)) (length ts)); [lia|done].
Qed.

Lemma transactions_dispatch_witness :
  find_transaction 0x1000 (register_all [7; 8]%nat (controller_start 0 FIRST_COOKIE)) = Some 8%nat
  /\ transaction_destroyed 0x1000 (register_all [7; 8]%nat (controller_start 0 FIRST_COOKIE)) = Throw out_of_bounds_write.
Proof.
  destruct (transactions_dispatch [7; 8]%nat 0 FIRST_COOKIE) as [H1 H2]; [reflexivity|]. split.
  - apply (H1 0x1000 8%nat); [lia|]. exists 1%nat. split; reflexivity.
  - apply (H2 1%nat); [cbn; lia|cbn; lia].
Defined.

(** ** Connections and scopes *)

Section connections.
Context {P : Type} `{Packet P}.
Variables (flood : Z -> of_action) (pol : Z -> policy decision).

Lemma on_scope_other dpid dpid' m c : dpid' <> dpid -> switches (on_scope dpid m c) !! dpid' = switches c !! dpid'.
Proof. intros Hne. unfold on_scope. destruct (switches c !! dpid); [|done]. cbn. by rewrite lookup_insert_ne. Qed.

Lemma on_scope_app dpid m c : app_data (on_scope dpid m c) = app_data c.
Proof. unfold on_scope. by destruct (switches c !! dpid). Qed.

(** The switch that a message concerns. *)
Definition concerns (conn : nat) (m : of_msg (P := P)) (c : controller) : option Z :=
  match m with of_features_reply dpid => Some dpid | _ => mjoin (app_data c !! conn) end.

(** Switches do not interfere.  A message on a connection leaves the scopes of
    all switches but the one the connection speaks for as they were, and the
    application data of all other connections. *)
Theorem switches_isolated conn m c dpid :
  concerns conn m c <> Some dpid ->
  switches (message_callback flood pol conn m c) !! dpid = switches c !! dpid
  /\ forall conn', conn' <> conn -> app_data (message_callback flood pol conn m c) !! conn' = app_data c !! conn'.
Proof.
  intros Hc. destruct m as [pi pk|d| |ck rs|e x]; cbn in Hc |- *.
  2:{ destruct (createSwitchScope conn d c) as [c'|] eqn:E; [|done]. cbn.
      assert (Hne : dpid <> d) by congruence. unfold createSwitchScope in E. destruct (switches c !! d) as [s|] eqn:Es.
      - injection E as <-. rewrite on_scope_other, on_scope_app by done. split; [done|]. intros conn' Hn. by rewrite lookup_insert_ne.
      - apply res_bind_inv in E as (s & _ & [= <-]). cbn. rewrite lookup_insert_ne by done. split; [done|].
        intros conn' Hn. by rewrite lookup_insert_ne. }
  all: destruct (mjoin (app_data c !! conn)) as [d0|]; [|try done; by destruct pk].
  all: assert (Hne : dpid <> d0) by congruence.
  - destruct pk; [|done]. by rewrite on_scope_other, on_scope_app by done.
  - done.
  - cbn. by rewrite on_scope_other, on_scope_app by done.
  - by destruct (find_transaction x c).
Qed.

(** Nothing is sent to a switch without a connection. *)
Lemma on_flow_mute out ref call :
  preserves (fun s => sc_conn s = None /\ sc_sent s = out) (on_flow ref call).
Proof.
  intros s [Hc Hs]. unfold on_flow. destruct (get_flow ref s) as [f|]; [|done]. destruct (call f) as [[f' ms] r].
  destruct ref; cbn; by rewrite Hc, Hs, app_nil_r.
Qed.

Lemma add_sent_mute out ms s : sc_conn s = None /\ sc_sent s = out -> sc_conn (add_sent ms s) = None /\ sc_sent (add_sent ms s) = out.
Proof. intros [Hc Hs]. cbn. by rewrite Hc, Hs, app_nil_r. Qed.

Lemma packet_in_mute fl po pi (p : P) out :
  preserves (fun s => sc_conn s = None /\ sc_sent s = out) (process_packet_in fl po pi p).
Proof.
  unfold process_packet_in. apply preserves_bind.
  - unfold find_flow. apply preserves_bind; [apply preserves_get|]. intros s. apply preserves_bind; [apply preserves_lift|].
    intros t. destruct (t ≫= _); [apply preserves_ret|]. unfold make_flow.
    repeat (apply preserves_bind; [eauto with preserves|intros ?]). apply preserves_ret.
  - intros c. apply answer_packet_preserves; auto using on_flow_mute, add_sent_mute.
Qed.

(** Closing an old connection cuts the new one off.  When a switch has
    connected again before its old connection was reported closed, the report
    takes the scope's connection away, although it is the new one; until the
    switch connects a third time, none of its packet-ins over the connection it
    has is answered: nothing is sent. *)
Theorem stale_close_mutes old new dpid s c e :
  app_data c !! old = Some (Some dpid) -> app_data c !! new = Some (Some dpid) -> old <> new ->
  switches c !! dpid = Some s -> sc_conn s = Some new -> e = EVENT_CLOSED \/ e = EVENT_DEAD ->
  let c' := connection_callback old e c in
  app_data c' !! new = Some (Some dpid)
  /\ exists s', switches c' !! dpid = Some s' /\ sc_conn s' = None
      /\ forall pi p, exists s2, switches (message_callback flood pol new (of_packet_in pi (Ok p)) c') !! dpid = Some s2
           /\ sc_sent s2 = sc_sent s.
Proof.
  intros Ho Hn Hne Hs Hconn He c'. assert (Ec : c' = on_scope dpid (fun s => (scope_closed s, Ok tt)) (emit (switchDown dpid) (set_app_data old None c))).
  { unfold c', connection_callback. rewrite Ho. by destruct He as [-> | ->]. }
  assert (Es : switches c' !! dpid = Some (scope_closed (set_next (next_cookie c) s))).
  { rewrite Ec. unfold on_scope. cbn. rewrite Hs. cbn. by rewrite lookup_insert_eq. }
  assert (Ea : app_data c' !! new = Some (Some dpid)).
  { rewrite Ec. unfold on_scope. cbn. rewrite Hs. cbn. by rewrite lookup_insert_ne. }
  split; [exact Ea|]. eexists. split; [exact Es|]. split; [done|]. intros pi p. cbn. rewrite Ea. cbn.
  unfold on_scope at 1. rewrite Es. cbn. rewrite lookup_insert_eq. eexists. split; [reflexivity|].
  by apply (packet_in_mute (flood dpid) (pol dpid) pi p (sc_sent s)).
Qed.
End connections.

(** ** A switch that connects twice *)

Definition sample_flood_of (dpid : Z) : of_action := OutputAction 0xfffffffb 0.
Definition drop_all (dpid : Z) : policy decision := p_return (d_drop decision_default).

Definition connected_twice : controller :=
  message_callback (P := parser) sample_flood_of drop_all 2 (of_features_reply 5)
    (message_callback (P := parser) sample_flood_of drop_all 1 (of_features_reply 5) (controller_start 0 FIRST_COOKIE)).

Lemma stale_close_mutes_witness :
  let c' := connection_callback 1 EVENT_CLOSED connected_twice in
  app_data c' !! 2%nat = Some (Some 5) /\ exists s', switches c' !! 5 = Some s' /\ sc_conn s' = None.
Proof.
  assert (Hs : exists s, switches connected_twice !! 5 = Some s /\ sc_conn s = Some 2%nat).
  { eexists. split; [vm_compute; reflexivity|reflexivity]. }
  destruct Hs as (s & Hs & Hconn).
  destruct (stale_close_mutes (P := parser) sample_flood_of drop_all 1 2 5 s connected_twice EVENT_CLOSED) as (H1 & s' & H2 & H3 & _);
    [vm_compute; reflexivity|vm_compute; reflexivity|discriminate|exact Hs|exact Hconn|left; reflexivity|].
  split; [exact H1|]. exists s'. split; [exact H2|exact H3].
Defined.

Lemma switches_isolated_witness :
  switches (message_callback (P := parser) sample_flood_of drop_all 3 (of_features_reply 9) connected_twice) !! 5
  = switches connected_twice !! 5.
Proof.
  apply (switches_isolated (P := parser) sample_flood_of drop_all 3 (of_features_reply 9) connected_twice 5). discriminate.
Defined.
