(* ===== verification/Hosts.v ===== *)
(** * Hosts and ARP (src/HostManager.cc, src/ArpHandler.cc)

    The host manager notices the hosts of the network by the source addresses of
    the packets that reach the controller, and tells the web interface of them;
    the ARP handler answers requests for their addresses. *)

From S2P Require Import Prelude Bits OxmField OpenflowBasic Packet TraceTree PacketParser Addresses AddressTheorems Events Handlers Switch Decision Flow LinkDiscovery.
Local Open Scope Z_scope.

(** ** HostManager *)

(** [HostImpl] *)
Record host := Host {
  h_id : Z;
  h_mac : list ascii;
  h_ip : bits;
  h_switchID : Z;
  h_switchPort : Z;
}.

(** The hosts by the text of their MAC address, each an object with a pointer; the
    MAC addresses of switches; the events reported; and the next free pointer. *)
Record hosts_state := Hosts {
  hm_hosts : gmap (list ascii) (nat * host);
  switch_macs : list (list ascii);
  hm_events : list (EventType * nat);
  hm_next : nat;
}.

Definition new_hosts : hosts_state := Hosts ∅ [] [] 1.

Definition set_hosts (hs : gmap (list ascii) (nat * host)) (s : hosts_state) : hosts_state :=
  Hosts hs (switch_macs s) (hm_events s) (hm_next s).
Definition set_macs (ms : list (list ascii)) (s : hosts_state) : hosts_state := Hosts (hm_hosts s) ms (hm_events s) (hm_next s).
Definition addEvent (ty : EventType) (obj : nat) (s : hosts_state) : hosts_state :=
  Hosts (hm_hosts s) (switch_macs s) (hm_events s ++ [(ty, obj)]) (hm_next s).

Inductive hm_fault := hm_packet (e : error) | hm_address (e : addr_error) | hm_null_switch | hm_null_host.

Definition hm_of_packet {A} (r : res error A) : res hm_fault A := match r with Ok a => Ok a | Throw e => Throw (hm_packet e) end.
Definition hm_of_address {A} (r : res addr_error A) : res hm_fault A := match r with Ok a => Ok a | Throw e => Throw (hm_address e) end.

(** [createHost]; the switch and port of the new object are not set yet. *)
Definition createHost (rand : Z) (mac : list ascii) (ip : bits) (s : hosts_state) : hosts_state :=
  Hosts (<[mac := (hm_next s, Host (rand mod 1000 + 1000) mac ip 0 0)]> (hm_hosts s)) (switch_macs s) (hm_events s) (S (hm_next s)).

Definition findMac (mac : list ascii) (s : hosts_state) : bool := bool_decide (is_Some (hm_hosts s !! mac)).

Definition isSwitch (mac : list ascii) (s : hosts_state) : bool := existsb (fun sw_mac => bool_decide (sw_mac = mac)) (switch_macs s).

(** [m->hosts[mac]->...]: a missing entry would be made, a null pointer. *)
Definition on_host (mac : list ascii) (f : host -> host) (s : hosts_state) : res hm_fault hosts_state :=
  match hm_hosts s !! mac with
  | Some (o, h) => Ok (set_hosts (<[mac := (o, f h)]> (hm_hosts s)) s)
  | None => Throw hm_null_host
  end.

Definition attachHost (mac : list ascii) (id port : Z) : hosts_state -> res hm_fault hosts_state :=
  on_host mac (fun h => Host (h_id h) (h_mac h) (h_ip h) id port).
Definition set_ip (mac : list ascii) (ip : bits) : hosts_state -> res hm_fault hosts_state :=
  on_host mac (fun h => Host (h_id h) (h_mac h) ip (h_switchID h) (h_switchPort h)).

(** [addHost], with the switch the manager knows, which may be null. *)
Definition addHost (rand : Z) (sw : option switch) (ip : bits) (mac : list ascii) (port : Z) (s : hosts_state) : res hm_fault hosts_state :=
  let dev := hm_next s in
  let s := createHost rand mac ip s in
  match sw with
  | None => Throw hm_null_switch
  | Some sw => s ← attachHost mac (sw_id sw) port s; Ok (addEvent Add dev s)
  end.

Definition getHost (mac : list ascii) (s : hosts_state) : option host := snd <$> hm_hosts s !! mac.

(** [getHost(IPv4Addr)], in the order of the hash table. *)
Definition getHost_ip (ip : bits) (s : hosts_state) : option host :=
  List.find (fun h => bool_decide (ipv4_print (h_ip h) = ipv4_print ip)) (map (fun e => e.2.2) (map_to_list (hm_hosts s))).

(** The loop of [delHostForSwitch]. *)
Fixpoint del_hosts (l : list (list ascii * (nat * host))) (dp : Z) (s : hosts_state) : hosts_state :=
  match l with
  | [] => s
  | (mac, (o, h)) :: l =>
      del_hosts l dp (if h_switchID h =? dp then
                        let s := addEvent Delete o s in set_hosts (delete mac (hm_hosts s)) s
                      else s)
  end.
Definition delHostForSwitch (dp : Z) (s : hosts_state) : hosts_state := del_hosts (map_to_list (hm_hosts s)) dp s.

Section host_manager.
(** [EthAddress::to_string] of libfluid. *)
Variable hw_to_string : list Z -> list ascii.

Definition newPort (port : of_port) (s : hosts_state) : hosts_state := set_macs (switch_macs s ++ [hw_to_string (hw_addr port)]) s.

(** [std::find] and [erase]: the first occurrence. *)
Fixpoint erase_first (mac : list ascii) (l : list (list ascii)) : list (list ascii) :=
  match l with [] => [] | m :: l => if bool_decide (m = mac) then l else m :: erase_first mac l end.

(** [onSwitchDown], with the switch as it is when the slot is called. *)
Definition hm_onSwitchDown (dp : switch) (s : hosts_state) : hosts_state :=
  let s := delHostForSwitch (sw_id dp) s in
  set_macs (fold_left (fun ms p => erase_first (hw_to_string (hw_addr p)) ms) (sw_ports dp) (switch_macs s)) s.

(** What the slots hear of the switch manager, whose state is [m]. *)
Definition hm_slot (m : switch_map) (x : signal) (s : hosts_state) : hosts_state :=
  match x with
  | portUp _ p => newPort p s
  | switchDown d => match getSwitch d m with Some sw => hm_onSwitchDown sw s | None => s end
  | _ => s
  end.
End host_manager.

Section handlers.
Context {P : Type} `{Packet P}.

(** The handler on switch [here]; [m] are the switches of the manager and [rand]
    the next random number. *)
Definition host_handler (m : switch_map) (rand here : Z) (p : P) (d : decision) : st hm_fault hosts_state decision :=
  src ← st_lift (hm_of_packet (load_num p eth_src));
  let host_mac := ethaddr_print (Bits 48 src) in
  none ← st_lift (hm_of_address (ipv4_of_string (list_ascii_of_string "0.0.0.0")));
  is_ip ← st_lift (hm_of_packet (test_num p eth_type 0x0800));
  host_ip ← (if is_ip : bool then ip ← st_lift (hm_of_packet (watch_num p ipv4_src)); mret (Bits 32 ip)
             else is_arp ← st_lift (hm_of_packet (test_num p eth_type 0x0806));
                  if is_arp : bool then ip ← st_lift (hm_of_packet (watch_num p arp_spa)); mret (Bits 32 ip)
                  else mret none);
  s ← st_get;
  if isSwitch host_mac s then mret d
  else
    in_port_no ← st_lift (hm_of_packet (watch_num p in_port));
    if OFPP_MAX <? in_port_no then mret d
    else if negb (findMac host_mac s) then
      s ← st_lift (addHost rand (getSwitch here m) host_ip host_mac in_port_no s);
      st_update (fun _ => s) ;; mret d
    else if negb (bits_eqb host_ip none) then
      s ← st_lift (set_ip host_mac host_ip s);
      st_update (fun _ => s) ;; mret d
    else mret d.
End handlers.

(** ** ArpHandler *)

(** [Reply], with the constants of its initialisers. *)
Record reply := Reply { r_dst : Z; r_src : Z; r_sha : Z; r_spa : Z; r_tha : Z; r_tpa : Z }.

Definition reply_bytes (r : reply) : list Z :=
  be_bytes 6 (r_dst r) ++ be_bytes 6 (r_src r) ++ be_bytes 2 0x0806
  ++ be_bytes 2 0x0001 ++ be_bytes 2 0x0800 ++ be_bytes 1 6 ++ be_bytes 1 4 ++ be_bytes 2 0x0002
  ++ be_bytes 6 (r_sha r) ++ be_bytes 4 (r_spa r) ++ be_bytes 6 (r_tha r) ++ be_bytes 4 (r_tpa r).

Definition ARP_ETH_TYPE : Z := 0x0806.
Definition ARP_REQUEST : Z := 1.
Definition ARP_REPLY : Z := 2.

(** The packet-out that is sent: its buffer, the port and length of its action, its data. *)
Record sent_reply := SentReply { sr_buffer_id : Z; sr_port : Z; sr_max_len : Z; sr_data : list Z }.

Section arp.
Context {P : Type} `{Packet P}.

(** The handler, with the state of the host manager: the decision and what is sent. *)
Definition arp_handler (s : hosts_state) (p : P) (d : decision) : res hm_fault (decision * list sent_reply) :=
  is_arp ← hm_of_packet (test_num p eth_type ARP_ETH_TYPE);
  is_request ← (if is_arp : bool then hm_of_packet (test_num p arp_op ARP_REQUEST) else Ok false);
  if is_request : bool then
    tpa ← hm_of_packet (watch_num p arp_tpa);
    match getHost_ip (Bits 32 tpa) s with
    | Some target =>
        tha ← hm_of_address (ethaddr_of_string (h_mac target));
        sha ← hm_of_packet (watch_num p arp_sha);
        spa ← hm_of_packet (watch_num p arp_spa);
        let r := Reply sha (bval tha) (bval tha) tpa sha spa in
        in_port_no ← hm_of_packet (watch_num p in_port);
        Ok (d_return (d_drop (d_idle_timeout 0 d)), [SentReply OFP_NO_BUFFER in_port_no 0 (reply_bytes r)])
    | None => Ok (d_idle_timeout 0 d, [])
    end
  else Ok (d, []).
End arp.

(** ** What the host manager promises

    A sighting is a packet that the handler can read: its source, the address it
    gives for it (0 for none), and the port.  The abstract state is where each
    address was first seen, and the last network address it used. *)

Section sightings.
Context {P : Type} `{Packet P}.

Record sighted (p : P) (mac ip q : Z) : Prop := Sighted {
  si_src : load_num p eth_src = Ok mac;
  si_mac : in_width 48 mac;
  si_ip : exists is_ip, test_num p eth_type 0x0800 = Ok is_ip
    /\ if is_ip : bool then load_num p ipv4_src = Ok ip
       else exists is_arp, test_num p eth_type 0x0806 = Ok is_arp
         /\ if is_arp : bool then load_num p arp_spa = Ok ip else ip = 0;
  si_ip_width : in_width 32 ip;
  si_port : load_num p in_port = Ok q;
}.
End sightings.

Record place := Place { pl_switch : Z; pl_port : Z; pl_ip : Z }.

(** What can happen to the host manager: a packet at a switch, a port of a switch
    that comes up, a switch that goes down. *)
Inductive hm_op {P : Type} :=
| hm_packet_in (m : switch_map) (rand here : Z) (p : P)
| hm_port_up (port : of_port)
| hm_switch_down (sw : switch).
Arguments hm_op : clear implicits.

Section runs.
Context {P : Type} `{Packet P}.
Variable hw_to_string : list Z -> list ascii.

Definition hm_step (op : hm_op P) (s : hosts_state) : res hm_fault hosts_state :=
  match op with
  | hm_packet_in m rand here p => match host_handler m rand here p decision_default s with (s', Ok _) => Ok s' | (_, Throw e) => Throw e end
  | hm_port_up port => Ok (newPort hw_to_string port s)
  | hm_switch_down sw => Ok (hm_onSwitchDown hw_to_string sw s)
  end.

Fixpoint hm_run (ops : list (hm_op P)) (s : hosts_state) : res hm_fault hosts_state :=
  match ops with [] => Ok s | op :: ops => s ← hm_step op s; hm_run ops s end.

(** The address table and the addresses that belong to switches. *)
Inductive spec_step : hm_op P -> gmap Z place * list (list ascii) -> gmap Z place * list (list ascii) -> Prop :=
| spec_switch_port m rand here p mac ip q A ms :
    sighted p mac ip q -> ethaddr_print (Bits 48 mac) ∈ ms \/ OFPP_MAX < q -> spec_step (hm_packet_in m rand here p) (A, ms) (A, ms)
| spec_new m rand here sw p mac ip q A ms :
    sighted p mac ip q -> ethaddr_print (Bits 48 mac) ∉ ms -> q <= OFPP_MAX -> A !! mac = None ->
    m !! here = Some sw -> sw_id sw = here ->
    spec_step (hm_packet_in m rand here p) (A, ms) (<[mac := Place here q ip]> A, ms)
| spec_known m rand here p mac ip q A ms w :
    sighted p mac ip q -> ethaddr_print (Bits 48 mac) ∉ ms -> q <= OFPP_MAX -> A !! mac = Some w ->
    spec_step (hm_packet_in m rand here p) (A, ms)
      (<[mac := Place (pl_switch w) (pl_port w) (if ip =? 0 then pl_ip w else ip)]> A, ms)
| spec_port_up port A ms : spec_step (hm_port_up port) (A, ms) (A, ms ++ [hw_to_string (hw_addr port)])
| spec_switch_down sw A ms :
    spec_step (hm_switch_down sw) (A, ms)
      (filter (fun e => pl_switch e.2 <> sw_id sw) A,
       fold_left (fun ms p => erase_first (hw_to_string (hw_addr p)) ms) (sw_ports sw) ms).

Inductive spec_run : list (hm_op P) -> gmap Z place * list (list ascii) -> gmap Z place * list (list ascii) -> Prop :=
| spec_done A : spec_run [] A A
| spec_cons op ops A B C : spec_step op A B -> spec_run ops B C -> spec_run (op :: ops) A C.
End runs.

Lemma mac_bits mac : in_width 48 mac -> bits_wf (Bits 48 mac).
Proof. by split. Qed.

Lemma mac_print_inj a b : in_width 48 a -> in_width 48 b -> ethaddr_print (Bits 48 a) = ethaddr_print (Bits 48 b) -> a = b.
Proof.
  intros Ha Hb E. apply (f_equal ethaddr_of_string) in E. rewrite !ethaddr_print_parse in E by (done || by apply mac_bits). by injection E.
Qed.

Lemma ip_print_inj a b : in_width 32 a -> in_width 32 b -> ipv4_print (Bits 32 a) = ipv4_print (Bits 32 b) -> a = b.
Proof.
  intros Ha Hb E. apply (f_equal ipv4_of_string) in E. rewrite !ipv4_print_parse in E by (done || by split). by injection E.
Qed.

(** ** The table and its abstraction *)

(** The objects of the table are those that the events have told of. *)
Record objects_ok (s : hosts_state) : Prop := {
  oo_fresh : forall k o h, hm_hosts s !! k = Some (o, h) -> (o < hm_next s)%nat;
  oo_distinct : forall k k' o h h', hm_hosts s !! k = Some (o, h) -> hm_hosts s !! k' = Some (o, h') -> k = k';
  oo_heard : exists K, hear_objects (hm_events s) ∅ = Some K /\ forall o, o ∈ K <-> exists k h, hm_hosts s !! k = Some (o, h);
}.

Record entry_ok (mac : Z) (w : place) (h : host) : Prop := {
  eo_mac : h_mac h = ethaddr_print (Bits 48 mac);
  eo_switch : h_switchID h = pl_switch w;
  eo_port : h_switchPort h = pl_port w;
  eo_ip : h_ip h = Bits 32 (pl_ip w);
  eo_width : in_width 32 (pl_ip w);
}.

Record table_ok (hs : gmap (list ascii) (nat * host)) (A : gmap Z place) : Prop := {
  to_abs : forall k o h, hs !! k = Some (o, h) -> exists mac, in_width 48 mac /\ k = ethaddr_print (Bits 48 mac) /\ is_Some (A !! mac);
  to_conc : forall mac w, A !! mac = Some w -> in_width 48 mac /\ exists o h, hs !! ethaddr_print (Bits 48 mac) = Some (o, h) /\ entry_ok mac w h;
}.

Lemma table_entry hs A k o h : table_ok hs A -> hs !! k = Some (o, h) ->
  exists mac w, in_width 48 mac /\ k = ethaddr_print (Bits 48 mac) /\ A !! mac = Some w /\ entry_ok mac w h.
Proof.
  intros [Ha Hc] E. destruct (Ha k o h E) as (mac & Hm & -> & [w Hw]). destruct (Hc mac w Hw) as (_ & o' & h' & E' & He).
  rewrite E in E'. injection E' as <- <-. by exists mac, w.
Qed.

Lemma table_none hs A mac : table_ok hs A -> in_width 48 mac -> A !! mac = None -> hs !! ethaddr_print (Bits 48 mac) = None.
Proof.
  intros Ht Hm Hn. destruct (hs !! _) as [[o h]|] eqn:E; [|done].
  destruct (table_entry _ _ _ _ _ Ht E) as (mac' & w & Hm' & Ek & Hw & _). apply mac_print_inj in Ek as ->; [congruence|done|done].
Qed.

(** Writing one entry. *)
Lemma table_insert hs A mac w o h :
  table_ok hs A -> in_width 48 mac -> entry_ok mac w h -> table_ok (<[ethaddr_print (Bits 48 mac) := (o, h)]> hs) (<[mac := w]> A).
Proof.
  intros Ht Hm He. split.
  - intros k o' h' [[<- _]|[Hk Hl]]%lookup_insert_Some; [by exists mac; rewrite lookup_insert_eq|].
    destruct (table_entry _ _ _ _ _ Ht Hl) as (mac' & w' & Hm' & -> & Hw' & _). exists mac'. split_and!; try done.
    destruct (decide (mac = mac')) as [->|Hne]; [by rewrite lookup_insert_eq|]. rewrite lookup_insert_ne by done. eauto.
  - intros mac' w' [[<- <-]|[Hne Hl]]%lookup_insert_Some; [split; [done|]; exists o, h; by rewrite lookup_insert_eq|].
    destruct (to_conc _ _ Ht mac' w' Hl) as (Hm' & o' & h' & E & He'). split; [done|]. exists o', h'.
    rewrite lookup_insert_ne; [done|]. intros Ep. by apply mac_print_inj in Ep.
Qed.

Lemma objects_insert_known s k o h h' :
  objects_ok s -> hm_hosts s !! k = Some (o, h) -> objects_ok (set_hosts (<[k := (o, h')]> (hm_hosts s)) s).
Proof.
  intros [Hf Hd (K & HK & Hin)] E. split; cbn.
  - intros k' o' h0 [[_ [= <- <-]]|[_ Hl]]%lookup_insert_Some; [by apply (Hf k o h)|by apply (Hf k' o' h0)].
  - intros k1 k2 o' h1 h2 [[<- [= <- <-]]|[Hn1 H1]]%lookup_insert_Some [[<- Hx]|[Hn2 H2]]%lookup_insert_Some; [done| | |].
    + by apply (Hd _ _ o h h2).
    + injection Hx as <- <-. by apply (Hd _ _ o h1 h).
    + by apply (Hd _ _ o' h1 h2).
  - exists K. split; [done|]. intros o'. rewrite Hin. split; intros (k' & h0 & Hl).
    + destruct (decide (k = k')) as [<-|Hne].
      * exists k, h'. rewrite E in Hl. injection Hl as <- <-. by rewrite lookup_insert_eq.
      * exists k', h0. by rewrite lookup_insert_ne.
    + apply lookup_insert_Some in Hl as [[<- [= <- <-]]|[_ Hl]]; eauto.
Qed.

Lemma objects_add s k h : objects_ok s -> hm_hosts s !! k = None ->
  objects_ok (Hosts (<[k := (hm_next s, h)]> (hm_hosts s)) (switch_macs s) (hm_events s ++ [(Add, hm_next s)]) (S (hm_next s))).
Proof.
  intros [Hf Hd (K & HK & Hin)] E. split; cbn.
  - intros k' o' h0 [[_ [= <- <-]]|[_ Hl]]%lookup_insert_Some; [lia|]. specialize (Hf _ _ _ Hl). lia.
  - intros k1 k2 o' h1 h2 [[<- [= <- <-]]|[Hn1 H1]]%lookup_insert_Some [[<- Hx]|[Hn2 H2]]%lookup_insert_Some; [done| | |].
    + specialize (Hf _ _ _ H2). lia.
    + injection Hx as <- <-. specialize (Hf _ _ _ H1). lia.
    + by apply (Hd _ _ o' h1 h2).
  - exists ({[hm_next s]} ∪ K). rewrite hear_objects_snoc, HK. cbn. rewrite option_guard_True.
    2:{ intros (k' & h0 & Hl)%Hin. specialize (Hf _ _ _ Hl). lia. }
    split; [done|]. intros o'. rewrite elem_of_union, elem_of_singleton, Hin. split.
    + intros [->|(k' & h0 & Hl)]; [exists k, h; by rewrite lookup_insert_eq|]. exists k', h0.
      rewrite lookup_insert_ne; [done|]. intros ->. congruence.
    + intros (k' & h0 & [[_ [= <- <-]]|[_ Hl]]%lookup_insert_Some); eauto.
Qed.

Lemma objects_delete s k o h : objects_ok s -> hm_hosts s !! k = Some (o, h) ->
  objects_ok (set_hosts (delete k (hm_hosts s)) (addEvent Delete o s)).
Proof.
  intros [Hf Hd (K & HK & Hin)] E. split; cbn.
  - intros k' o' h0 [_ Hl]%lookup_delete_Some. by apply (Hf k' o' h0).
  - intros k1 k2 o' h1 h2 [_ H1]%lookup_delete_Some [_ H2]%lookup_delete_Some. by apply (Hd _ _ o' h1 h2).
  - exists (K ∖ {[o]}). rewrite hear_objects_snoc, HK. cbn. rewrite option_guard_True by (apply Hin; eauto).
    split; [done|]. intros o'. rewrite elem_of_difference, elem_of_singleton, Hin. split.
    + intros [(k' & h0 & Hl) Hne]. exists k', h0. rewrite lookup_delete_ne; [done|]. intros ->. congruence.
    + intros (k' & h0 & [Hk Hl]%lookup_delete_Some). split; [eauto|]. intros ->. apply Hk. by apply (Hd _ _ o h h0).
Qed.

Lemma objects_other s ms : objects_ok s -> objects_ok (set_macs ms s).
Proof. by intros [? ? ?]. Qed.

(** Deleting the hosts of a switch. *)
Lemma del_hosts_ok dp l s :
  objects_ok s -> NoDup (map fst l) -> (forall k o h, (k, (o, h)) ∈ l -> hm_hosts s !! k = Some (o, h)) ->
  let s' := del_hosts l dp s in
  objects_ok s' /\ switch_macs s' = switch_macs s
  /\ forall k, hm_hosts s' !! k = match hm_hosts s !! k with
                                  | Some (o, h) => if decide (k ∈ map fst l /\ h_switchID h = dp) then None else Some (o, h)
                                  | None => None
                                  end.
Proof.
  cbv zeta. revert s. induction l as [|[k [o h]] l IH]; intros s Hs Hnd Hl; cbn.
  - split_and!; [done..|]. intros k. destruct (hm_hosts s !! k) as [[o h]|]; [|done].
    destruct (decide (k ∈ [] /\ h_switchID h = dp)) as [[Hk _]|]; [|done]. by apply not_elem_of_nil in Hk.
  - apply NoDup_cons in Hnd as [Hk Hnd]. pose proof (Hl k o h (list_elem_of_here _ _)) as E.
    assert (Hl' : forall k' o' h', (k', (o', h')) ∈ l -> hm_hosts s !! k' = Some (o', h')) by (intros; apply Hl; by right).
    destruct (Z.eqb_spec (h_switchID h) dp) as [Hdp|Hdp].
    + destruct (IH (set_hosts (delete k (hm_hosts s)) (addEvent Delete o s))) as (H1 & H2 & H3).
      * by apply (objects_delete s k o h).
      * done.
      * intros k' o' h' Hin. cbn. rewrite lookup_delete_ne; [by apply Hl'|]. intros ->. apply Hk.
        apply list_elem_of_fmap. by exists (k', (o', h')).
      * split; [exact H1|]. split; [exact H2|]. intros k'. unfold addEvent in *. rewrite H3. cbn. destruct (decide (k = k')) as [<-|Hne].
        { rewrite lookup_delete_eq, E. by rewrite decide_True by (split; [by left|done]). }
        rewrite lookup_delete_ne by done. destruct (hm_hosts s !! k') as [[o' h']|]; [|done].
        apply decide_ext. rewrite elem_of_cons. naive_solver.
    + destruct (IH s Hs Hnd Hl') as (H1 & H2 & H3). split_and!; [done..|]. intros k'. rewrite H3.
      destruct (hm_hosts s !! k') as [[o' h']|] eqn:E'; [|done]. apply decide_ext. rewrite elem_of_cons.
      split; [naive_solver|]. intros [[->|Hin] Hd]; [|done]. congruence.
Qed.

Lemma delHostForSwitch_ok dp s A :
  objects_ok s -> table_ok (hm_hosts s) A ->
  let s' := delHostForSwitch dp s in
  objects_ok s' /\ switch_macs s' = switch_macs s /\ table_ok (hm_hosts s') (filter (fun e => pl_switch e.2 <> dp) A).
Proof.
  intros Ho Ht. cbv zeta. destruct (del_hosts_ok dp (map_to_list (hm_hosts s)) s Ho) as (H1 & H2 & H3).
  { apply NoDup_fst_map_to_list. }
  { intros k o h Hin. by apply elem_of_map_to_list. }
  assert (H4 : forall k, hm_hosts (delHostForSwitch dp s) !! k
    = match hm_hosts s !! k with Some (o, h) => if decide (h_switchID h = dp) then None else Some (o, h) | None => None end).
  { intros k. unfold delHostForSwitch. rewrite H3. destruct (hm_hosts s !! k) as [[o h]|] eqn:E; [|done].
    apply decide_ext. split; [tauto|]. intros Hd. split; [|done]. apply list_elem_of_fmap.
    exists (k, (o, h)). split; [done|]. by apply elem_of_map_to_list. }
  split; [exact H1|]. split; [exact H2|]. split.
  - intros k o h. rewrite H4. destruct (hm_hosts s !! k) as [[o' h']|] eqn:E; [|done]. case_decide as Hd; [done|]. intros [= <- <-].
    destruct (table_entry _ _ _ _ _ Ht E) as (mac & w & Hm & -> & Hw & He). exists mac. split_and!; try done.
    exists w. apply map_lookup_filter_Some. split; [done|]. cbn. by rewrite <- (eo_switch _ _ _ He).
  - intros mac w [Hw Hne]%map_lookup_filter_Some. destruct (to_conc _ _ Ht mac w Hw) as (Hm & o & h & E & He).
    split; [done|]. exists o, h. rewrite H4, E. split; [|done]. cbn in Hne. rewrite decide_False; [done|]. by rewrite (eo_switch _ _ _ He).
Qed.

Definition refines_hosts (s : hosts_state) (A : gmap Z place * list (list ascii)) : Prop :=
  objects_ok s /\ table_ok (hm_hosts s) A.1 /\ switch_macs s = A.2.

Lemma isSwitch_spec mac s : isSwitch mac s = bool_decide (mac ∈ switch_macs s).
Proof.
  unfold isSwitch. induction (switch_macs s) as [|m l IH]; cbn.
  - by rewrite bool_decide_eq_false_2 by apply not_elem_of_nil.
  - rewrite IH. apply eq_true_iff_eq. rewrite orb_true_iff, !bool_decide_eq_true, elem_of_cons. naive_solver.
Qed.

Lemma zero_address : ipv4_of_string (list_ascii_of_string "0.0.0.0") = Ok (Bits 32 0).
Proof. reflexivity. Qed.

Section refinement.
Context {P : Type} `{PacketLaws P}.
Variable hw_to_string : list Z -> list ascii.

(** What the handler does with a packet that can be read. *)
Lemma host_handler_sighted m rand here p mac ip q d s :
  sighted p mac ip q ->
  host_handler m rand here p d s
  = let host_mac := ethaddr_print (Bits 48 mac) in
    if isSwitch host_mac s then (s, Ok d)
    else if OFPP_MAX <? q then (s, Ok d)
    else if negb (findMac host_mac s) then
      match addHost rand (getSwitch here m) (Bits 32 ip) host_mac q s with Ok s' => (s', Ok d) | Throw e => (s, Throw e) end
    else if negb (bits_eqb (Bits 32 ip) (Bits 32 0)) then
      match set_ip host_mac (Bits 32 ip) s with Ok s' => (s', Ok d) | Throw e => (s, Throw e) end
    else (s, Ok d).
Proof.
  intros [Hsrc _ (is_ip & Ht1 & Hip) _ Hq]. unfold host_handler, watch_num.
  rewrite Hsrc, zero_address, Ht1, Hq. unfold mbind, st_bind, st_lift, st_get, st_update, mret, st_ret, hm_of_packet, hm_of_address.
  destruct is_ip; [rewrite Hip|destruct Hip as (is_arp & -> & Hip); destruct is_arp; rewrite Hip].
  all: cbv zeta; destruct (isSwitch _ s); [done|]; destruct (OFPP_MAX <? q); [done|]; destruct (negb (findMac _ s));
    [by destruct (addHost _ _ _ _ _ _)|]; destruct (negb (bits_eqb _ _)); [|done]; by destruct (set_ip _ _ _).
Qed.

Lemma findMac_none s mac : hm_hosts s !! mac = None -> findMac mac s = false.
Proof. intros E. unfold findMac. rewrite E. by apply bool_decide_eq_false_2; intros [? ?]. Qed.
Lemma findMac_some s mac o h : hm_hosts s !! mac = Some (o, h) -> findMac mac s = true.
Proof. intros E. unfold findMac. rewrite E. apply bool_decide_eq_true_2. by eexists. Qed.

Lemma hm_step_refines op s A B :
  spec_step hw_to_string op A B -> refines_hosts s A -> exists s', hm_step hw_to_string op s = Ok s' /\ refines_hosts s' B.
Proof.
  intros Hstep (Ho & Ht & Hms). destruct Hstep as [m rand here p mac ip q A ms Hsi Hsw|m rand here sw p mac ip q A ms Hsi Hsw Hq Hn Em Eid
      |m rand here p mac ip q A ms w Hsi Hsw Hq Hw|port A ms|sw A ms]; cbn [fst snd] in *.
  - exists s. unfold hm_step. rewrite (host_handler_sighted _ _ _ _ _ _ _ _ _ Hsi). cbv zeta. rewrite isSwitch_spec, Hms.
    split; [|by split_and!]. case_bool_decide; [done|]. destruct Hsw as [Hsw|Hsw]; [done|]. by rewrite (proj2 (Z.ltb_lt _ _) Hsw).
  - pose proof (si_mac _ _ _ _ Hsi) as Hm. pose proof (table_none _ _ _ Ht Hm Hn) as E.
    unfold hm_step. rewrite (host_handler_sighted _ _ _ _ _ _ _ _ _ Hsi). cbv zeta. rewrite isSwitch_spec, Hms, bool_decide_eq_false_2 by done.
    rewrite (proj2 (Z.ltb_ge _ _)) by done. rewrite (findMac_none _ _ E). cbn [negb]. unfold addHost, getSwitch. rewrite Em.
    unfold attachHost, on_host, createHost. cbn [hm_hosts]. rewrite lookup_insert_eq. cbn [mbind res_bind set_hosts hm_hosts].
    rewrite insert_insert_eq. unfold set_hosts. cbn [hm_hosts switch_macs hm_events hm_next]. eexists. split; [reflexivity|]. split; [|split; [|done]].
    + by apply (objects_add s).
    + unfold addEvent, set_hosts. cbn [hm_hosts fst]. apply table_insert; [done..|]. split; cbn; try done. by apply (si_ip_width _ _ _ _ Hsi).
  - pose proof (si_mac _ _ _ _ Hsi) as Hm. destruct (to_conc _ _ Ht mac w Hw) as (_ & o & h & E & [E1 E2 E3 E4 E5]).
    unfold hm_step. rewrite (host_handler_sighted _ _ _ _ _ _ _ _ _ Hsi). cbv zeta. rewrite isSwitch_spec, Hms, bool_decide_eq_false_2 by done.
    rewrite (proj2 (Z.ltb_ge _ _)) by done. rewrite (findMac_some _ _ _ _ E). cbn [negb].
    unfold bits_eqb. cbn [bval]. destruct (Z.eqb_spec ip 0) as [->|Hip]; cbn [negb].
    + exists s. split; [done|]. split_and!; try done. cbn. rewrite insert_id; [done|]. rewrite Hw. by destruct w.
    + unfold set_ip, on_host. rewrite E. eexists. split; [reflexivity|]. split_and!; [by apply (objects_insert_known _ _ _ h)| |done].
      cbn. apply table_insert; try done. split; cbn; try done. by apply (si_ip_width _ _ _ _ Hsi).
  - eexists. split; [reflexivity|]. split_and!; [by apply objects_other|done|]. cbn. by rewrite Hms.
  - eexists. split; [reflexivity|]. destruct (delHostForSwitch_ok (sw_id sw) s A Ho Ht) as (D1 & D2 & D3).
    split_and!; [by apply objects_other|done|]. cbn. by rewrite D2, Hms.
Qed.

Lemma hm_run_refines ops s A B :
  spec_run hw_to_string ops A B -> refines_hosts s A -> exists s', hm_run hw_to_string ops s = Ok s' /\ refines_hosts s' B.
Proof.
  intros Hr. revert s. induction Hr as [A|op ops A B C Hop _ IH]; intros s Hs; [by exists s|].
  destruct (hm_step_refines op s A B Hop Hs) as (s1 & E & Hs1). destruct (IH s1 Hs1) as (s' & E' & Hs').
  exists s'. cbn. by rewrite E.
Qed.

Lemma new_hosts_refines : refines_hosts new_hosts (∅, []).
Proof.
  split_and!; [|by split|done]. split; [done..|]. exists ∅. split; [done|]. intros o. split; [done|]. by intros (k & h & Hk).
Qed.
End refinement.

(** C16: The host manager implements its specification.  In any run of packets that
    can be read, ports and switches, no exception escapes and no null pointer is
    used when the switch of a new host is known; afterwards the table holds, under
    the text of the address, exactly the hosts of the abstract table: each where
    it was first seen since its switch last went down, on a port that exists, with
    the last network address it used; addresses of switches are not hosts.  A
    listener to the events, which would get stuck if a known object were added or
    an unknown one deleted, knows exactly the objects of the table. *)
Theorem host_table_refines {P} `{PacketLaws P} hw_to_string ops A ms :
  spec_run (P := P) hw_to_string ops (∅, []) (A, ms) ->
  exists s, hm_run hw_to_string ops new_hosts = Ok s
    /\ (forall mac, in_width 48 mac ->
          (fun e => Place (h_switchID e.2) (h_switchPort e.2) (bval (h_ip e.2))) <$> hm_hosts s !! ethaddr_print (Bits 48 mac) = A !! mac)
    /\ (forall k e, hm_hosts s !! k = Some e -> exists mac, in_width 48 mac /\ k = ethaddr_print (Bits 48 mac) /\ h_mac e.2 = k)
    /\ switch_macs s = ms
    /\ exists K, hear_objects (hm_events s) ∅ = Some K /\ forall o, o ∈ K <-> exists k h, hm_hosts s !! k = Some (o, h).
Proof.
  intros Hr. destruct (hm_run_refines hw_to_string ops new_hosts _ _ Hr new_hosts_refines) as (s & E & Ho & Ht & Hms).
  exists s. split; [done|]. split_and!; [| |done|apply Ho].
  - intros mac Hm. cbn in Ht. destruct (A !! mac) as [w|] eqn:Ew.
    + destruct (to_conc _ _ Ht mac w Ew) as (_ & o & h & -> & [E1 E2 E3 E4 E5]). cbn. rewrite E2, E3, E4. by destruct w.
    + by rewrite (table_none _ _ _ Ht Hm Ew).
  - intros k [o h] Ek. destruct (table_entry _ _ _ _ _ Ht Ek) as (mac & w & Hm & -> & _ & He). exists mac. split_and!; [done..|apply He].
Qed.

(** ** The reply *)

Lemma reply_parsed r q bd bp :
  exists p, packet_parser (Some (reply_bytes r)) q bd bp = Ok p /\ parser_wf p
    /\ parser_val p eth_dst = Some (wrap 48 (r_dst r)) /\ parser_val p eth_src = Some (wrap 48 (r_src r))
    /\ parser_val p eth_type = Some ARP_ETH_TYPE /\ parser_val p arp_op = Some ARP_REPLY
    /\ parser_val p arp_sha = Some (wrap 48 (r_sha r)) /\ parser_val p arp_spa = Some (wrap 32 (r_spa r))
    /\ parser_val p arp_tha = Some (wrap 48 (r_tha r)) /\ parser_val p arp_tpa = Some (wrap 32 (r_tpa r)).
Proof.
  assert (Hihl : ihl_ok (reply_bytes r)) by done.
  assert (Hp : exists b, packet_parser (Some (reply_bytes r)) q bd bp = Ok (Parser (reply_bytes r) (be_bytes 4 q) bd bp b)
     /\ bound b eth_dst = Some (data_ptr 0) /\ bound b eth_src = Some (data_ptr 6) /\ bound b eth_type = Some (data_ptr 12)
     /\ bound b arp_op = Some (data_ptr 20) /\ bound b arp_sha = Some (data_ptr 22) /\ bound b arp_spa = Some (data_ptr 28)
     /\ bound b arp_tha = Some (data_ptr 32) /\ bound b arp_tpa = Some (data_ptr 38)).
  { unfold packet_parser. rewrite port_bound, res_bind_Ok. change (Z.of_nat (length (reply_bytes r))) with 42. unfold parse_l2.
    change (read_be (reply_bytes r) 12 2) with 0x0806. eexists. split; [reflexivity|]. split_and!; reflexivity. }
  destruct Hp as (b & E & B1 & B2 & B3 & B4 & B5 & B6 & B7 & B8). eexists. split; [exact E|].
  split; [by eapply packet_parser_wf|]. unfold parser_val. cbn [pp_bindings].
  rewrite B1, B2, B3, B4, B5, B6, B7, B8. cbn [option_bind mbind].
  assert (Hf : forall t off n v, field_bytes (Parser (reply_bytes r) (be_bytes 4 q) bd bp b) t (data_ptr off) = be_bytes n v ->
    t_nbits t = 8 * Z.of_nat n ->
    Some (wrap (t_nbits t) (be_val (field_bytes (Parser (reply_bytes r) (be_bytes 4 q) bd bp b) t (data_ptr off)))) = Some (wrap (t_nbits t) v)).
  { intros t off n v -> Hn. rewrite be_val_bytes, pow256, <- Hn by lia.
    f_equal. apply wrap_small, wrap_in_width. lia. }
  split_and!.
  - by apply (Hf eth_dst 0 6%nat).
  - by apply (Hf eth_src 6 6%nat).
  - reflexivity.
  - reflexivity.
  - by apply (Hf arp_sha 22 6%nat).
  - by apply (Hf arp_spa 28 4%nat).
  - by apply (Hf arp_tha 32 6%nat).
  - by apply (Hf arp_tpa 38 4%nat).
Qed.

(** A request for the address [tpa], from [spa] at [sha], on port [q]. *)
Record arp_request {P} `{Packet P} (p : P) (tpa spa sha q : Z) : Prop := ArpRequest {
  ar_type : test_num p eth_type ARP_ETH_TYPE = Ok true;
  ar_op : test_num p arp_op ARP_REQUEST = Ok true;
  ar_tpa : load_num p arp_tpa = Ok tpa;
  ar_spa : load_num p arp_spa = Ok spa;
  ar_sha : load_num p arp_sha = Ok sha;
  ar_port : load_num p in_port = Ok q;
}.

(** A frame that says to [tha] at [tpa] that [spa] is at [sha], wherever it arrives. *)
Definition says_address (data : list Z) (sha spa tha tpa : Z) : Prop :=
  forall q bd bp, exists p, packet_parser (Some data) q bd bp = Ok p
    /\ map (load_num p) [eth_dst; eth_src; eth_type; arp_op; arp_sha; arp_spa; arp_tha; arp_tpa]
       = map Ok [tha; sha; ARP_ETH_TYPE; ARP_REPLY; sha; spa; tha; tpa].

Lemma reply_says r :
  r_dst r = r_tha r -> r_src r = r_sha r -> in_width 48 (r_sha r) -> in_width 32 (r_spa r) -> in_width 48 (r_tha r) -> in_width 32 (r_tpa r) ->
  says_address (reply_bytes r) (r_sha r) (r_spa r) (r_tha r) (r_tpa r).
Proof.
  intros Ed Es W1 W2 W3 W4 q bd bp. destruct (reply_parsed r q bd bp) as (p & E & Hw & V1 & V2 & V3 & V4 & V5 & V6 & V7 & V8).
  rewrite Ed, (wrap_small 48 (r_tha r)) in V1 by done. rewrite Es, (wrap_small 48 (r_sha r)) in V2 by done.
  rewrite wrap_small in V5, V6, V7, V8 by done. exists p. split; [exact E|]. cbn [map].
  assert (Hl : forall t v, bool_decide (t ∈ openflow_basic) = true -> in_width (t_nbits t) v -> parser_val p t = Some v -> load_num p t = Ok v).
  { intros t v Ht Hv Ev. rewrite (load_num_present p t v) by (done || by apply known_by_check). by rewrite wrap_small. }
  rewrite (Hl eth_dst (r_tha r)), (Hl eth_src (r_sha r)), (Hl eth_type ARP_ETH_TYPE), (Hl arp_op ARP_REPLY), (Hl arp_sha (r_sha r)),
    (Hl arp_spa (r_spa r)), (Hl arp_tha (r_tha r)), (Hl arp_tpa (r_tpa r)) by first [done | by vm_compute | by split; vm_compute]. done.
Qed.

(** [getHost] by network address, in the abstract table. *)
Lemma getHost_ip_spec s A tpa : table_ok (hm_hosts s) A -> in_width 32 tpa ->
  match getHost_ip (Bits 32 tpa) s with
  | Some h => exists mac w, A !! mac = Some w /\ pl_ip w = tpa /\ in_width 48 mac /\ h_mac h = ethaddr_print (Bits 48 mac)
  | None => forall mac w, A !! mac = Some w -> pl_ip w <> tpa
  end.
Proof.
  intros Ht Htpa. unfold getHost_ip. destruct (List.find _ _) as [h|] eqn:E.
  - apply List.find_some in E as [Hin Heq%bool_decide_eq_true]. apply in_map_iff in Hin as ([k [o h']] & Eh & Hin).
    cbn in Eh. subst h'. apply list_elem_of_In, elem_of_map_to_list in Hin.
    destruct (table_entry _ _ _ _ _ Ht Hin) as (mac & w & Hm & _ & Hw & [E1 _ _ E4 E5]). exists mac, w. split_and!; try done.
    rewrite E4 in Heq. by apply ip_print_inj in Heq.
  - intros mac w Hw Eip. destruct (to_conc _ _ Ht mac w Hw) as (_ & o & h & Eh & [_ _ _ E4 _]).
    assert (Hin : In h (map (fun e => e.2.2) (map_to_list (hm_hosts s)))).
    { apply in_map_iff. exists (ethaddr_print (Bits 48 mac), (o, h)). split; [done|]. by apply list_elem_of_In, elem_of_map_to_list. }
    apply (List.find_none _ _ E) in Hin. cbn in Hin. rewrite E4, Eip in Hin. by rewrite bool_decide_eq_true_2 in Hin.
Qed.

(** C17: Requests are answered with the address of a host.  After any run of the
    host manager, a request for an address that a host used last is answered to the
    port it came from, by a 42-byte frame that wherever it arrives parses as an ARP
    reply, from the host to the sender of the request, saying that the requested
    address is at the MAC address of that host; the request itself is dropped by a
    decision that makes no rule.  A request for any other address is left to the
    other handlers, and nothing is sent. *)
Theorem arp_answered {P} `{PacketLaws P} hw_to_string ops A ms (p : P) d tpa spa sha q :
  spec_run (P := P) hw_to_string ops (∅, []) (A, ms) -> arp_request p tpa spa sha q ->
  in_width 32 tpa -> in_width 32 spa -> in_width 48 sha ->
  exists s, hm_run hw_to_string ops new_hosts = Ok s
    /\ ((exists mac w data, A !! mac = Some w /\ pl_ip w = tpa
            /\ arp_handler s p d = Ok (d_return (d_drop (d_idle_timeout 0 d)), [SentReply OFP_NO_BUFFER q 0 data])
            /\ length data = 42%nat /\ says_address data mac tpa sha spa)
        \/ ((forall mac w, A !! mac = Some w -> pl_ip w <> tpa) /\ arp_handler s p d = Ok (d_idle_timeout 0 d, []))).
Proof.
  intros Hr [R1 R2 R3 R4 R5 R6] W1 W2 W3.
  destruct (hm_run_refines hw_to_string ops new_hosts _ _ Hr new_hosts_refines) as (s & E & _ & Ht & _).
  exists s. split; [exact E|]. pose proof (getHost_ip_spec s A tpa Ht W1) as Hh. unfold arp_handler, watch_num.
  rewrite R1, R3, R4, R5, R6. cbn [hm_of_packet mbind res_bind]. rewrite R2. cbn [hm_of_packet mbind res_bind].
  destruct (getHost_ip (Bits 32 tpa) s) as [h|]; [left|by right].
  destruct Hh as (mac & w & Hw & Eip & Wm & ->). rewrite ethaddr_print_parse by (done || by apply mac_bits).
  cbn [hm_of_address mbind res_bind bval]. exists mac, w. eexists. split_and!; [done|done|reflexivity|reflexivity|].
  by apply (reply_says (Reply sha mac mac tpa sha spa)).
Qed.

(** ** Examples *)

(** Host 2:..:9 at 10.0.0.2 asks for 10.0.0.1, the host that sent [sample_arp]. *)
Definition sample_request : list Z :=
  [255;255;255;255;255;255; 2;0;0;0;0;9; 8;6;
   0;1; 8;0; 6; 4; 0;1; 2;0;0;0;0;9; 10;0;0;2; 0;0;0;0;0;0; 10;0;0;1].
Definition request_parser : parser :=
  match packet_parser (Some sample_request) 8 0 0 with Ok p => p | Throw _ => Parser [] [] 0 0 [] end.

Definition colons (mac : list Z) : list ascii := ethaddr_print (Bits 48 (be_val mac)).
Definition one_switch : switch_map := {[1 := new_switch (FeaturesReply 1 0 0 0)]}.
Definition sample_hm_ops : list (hm_op parser) :=
  [hm_port_up (sample_port 1); hm_packet_in one_switch 5 1 sample_parser; hm_packet_in ∅ 5 2 sample_parser].

Lemma sample_sighted : sighted sample_parser 0x020000000007 0x0a000001 3.
Proof.
  split; [vm_compute; reflexivity|unfold in_width; lia| |unfold in_width; lia|vm_compute; reflexivity].
  exists false. split; [vm_compute; reflexivity|]. exists true. split; vm_compute; reflexivity.
Qed.

Lemma sample_hm_run :
  spec_run colons sample_hm_ops (∅, []) ({[0x020000000007 := Place 1 3 0x0a000001]}, [colons (hw_addr (sample_port 1))]).
Proof.
  assert (Hm : ethaddr_print (Bits 48 0x020000000007) ∉ [colons (hw_addr (sample_port 1))]) by by apply (bool_decide_unpack _).
  eapply spec_cons; [apply spec_port_up|]. eapply spec_cons.
  { by apply (spec_new colons one_switch 5 1 (new_switch (FeaturesReply 1 0 0 0)) sample_parser 0x020000000007 0x0a000001 3 ∅ _ sample_sighted). }
  pose proof (spec_known colons ∅ 5 2 sample_parser 0x020000000007 0x0a000001 3 {[0x020000000007 := Place 1 3 0x0a000001]} _
    (Place 1 3 0x0a000001) sample_sighted Hm) as Hk.
  rewrite insert_singleton_eq in Hk. eapply spec_cons; [|apply spec_done]. by apply Hk.
Qed.

(** The host stays where it was first seen, also when switch 2 reports it. *)
Lemma host_table_refines_witness :
  exists s, hm_run colons sample_hm_ops new_hosts = Ok s
    /\ (fun e => Place (h_switchID e.2) (h_switchPort e.2) (bval (h_ip e.2))) <$> hm_hosts s !! list_ascii_of_string "02:00:00:00:00:07"
       = Some (Place 1 3 0x0a000001).
Proof.
  destruct (host_table_refines colons sample_hm_ops _ _ sample_hm_run) as (s & E & Ht & _). exists s. split; [exact E|].
  apply (Ht 0x020000000007). unfold in_width; lia.
Defined.

Lemma arp_answered_witness :
  exists s data, hm_run colons sample_hm_ops new_hosts = Ok s
    /\ arp_handler s request_parser decision_default
       = Ok (d_return (d_drop (d_idle_timeout 0 decision_default)), [SentReply OFP_NO_BUFFER 8 0 data])
    /\ says_address data 0x020000000007 0x0a000001 0x020000000009 0x0a000002.
Proof.
  destruct (arp_answered colons sample_hm_ops _ _ request_parser decision_default 0x0a000001 0x0a000002 0x020000000009 8 sample_hm_run)
    as (s & E & [(mac & w & data & Hw & _ & Hh & _ & Hs)|[Hno _]]).
  - split; vm_compute; reflexivity.
  - unfold in_width; lia.
  - unfold in_width; lia.
  - unfold in_width; lia.
  - exists s, data. split; [exact E|]. split; [exact Hh|]. apply lookup_singleton_Some in Hw as [<- _]. exact Hs.
  - exfalso. apply (Hno 0x020000000007 (Place 1 3 0x0a000001)); reflexivity.
Defined.

(** What the host manager forgets and what it cannot take.  When a switch goes
    down its ports are gone before the signal is sent, so of the addresses of
    switches none is ever removed, and a host that later has one of them is never
    noticed.  And a packet of a new host from a switch that the switch manager does
    not know yet makes the handler dereference a null pointer. *)
Theorem host_manager_hazards :
  (forall hw_to_string dpid m m' out s, onSwitchDown dpid m = (m', out) ->
     switch_macs (fold_left (fun s x => hm_slot hw_to_string m' x s) out s) = switch_macs s)
  /\ (forall m rand here mac ip q s d, sighted sample_parser mac ip q -> ethaddr_print (Bits 48 mac) ∈ switch_macs s ->
       host_handler m rand here sample_parser d s = (s, Ok d))
  /\ hm_run colons [hm_packet_in ∅ 0 1 sample_parser] new_hosts = Throw hm_null_switch.
Proof.
  split_and!.
  - intros hw dpid m m' out s. unfold onSwitchDown. destruct (m !! dpid) as [sw|] eqn:E; [|by intros [= <- <-]].
    cbn. intros [= <- <-]. rewrite <- app_assoc. rewrite fold_left_app. cbn. unfold getSwitch. rewrite lookup_insert_eq.
    assert (Hd : forall s, switch_macs (hm_onSwitchDown hw (set_ports ∅ sw) s) = switch_macs s).
    { intros s0. unfold hm_onSwitchDown, sw_ports, delHostForSwitch. cbn. rewrite map_to_list_empty. cbn.
      generalize (map_to_list (hm_hosts s0)) at 1. intros l. revert s0. induction l as [|[k [o h]] l IH]; intros s0; cbn; [done|].
      rewrite IH. by destruct (h_switchID h =? sw_id sw). }
    rewrite Hd. generalize (map_to_list (sw_port sw)). intros l. revert s. by induction l as [|x l IH]; intros s; cbn.
  - intros m rand here mac ip q s d Hs Hm. rewrite (host_handler_sighted _ _ _ _ _ _ _ _ _ Hs). cbv zeta.
    by rewrite isSwitch_spec, bool_decide_eq_true_2.
  - vm_compute. reflexivity.
Qed.
