(* ===== verification/Messaging.v ===== *)
(** * Replication of network events over the log (src/Messaging.cc, src/Messaging.hh)

    Links and hosts that a controller discovers become requests to the Raft
    server; a thread looks at the log and applies its entries to the consistent
    topology, which all controllers should share. *)

From S2P Require Import Prelude Bits Regex RaftTypes RaftStorage RaftServer RaftInv Addresses AddressTheorems RaftWire Events Switch LinkDiscovery Topology Hosts.
Local Open Scope Z_scope.

(** ** Numbers in text *)

(** Exceptions that end the process, and undefined uses. *)
Inductive msg_fault :=
| no_such_token | invalid_argument | number_out_of_range
| bad_address (e : addr_error) | graph_fault (e : topo_fault)
| double_free | empty_queue | storage_fault (e : crash).

(** [std::stoull], and [std::stoul] where [long] has 64 bits. *)
Definition stoull (s : list ascii) : res msg_fault Z :=
  let '(negative, s) :=
    match skip_ws s with
    | "-"%char :: s => (true, s)
    | "+"%char :: s => (false, s)
    | s => (false, s)
    end in
  match (span is_digit s).1 with
  | [] => Throw invalid_argument
  | ds =>
      let n := stoi 10 ds in
      if 2 ^ 64 <=? n then Throw number_out_of_range else Ok (if negative : bool then u64 (- n) else n)
  end.

(** [tokens[i]] *)
Definition token (i : nat) (ts : list (list ascii)) : res msg_fault (list ascii) :=
  match ts !! i with Some t => Ok t | None => Throw no_such_token end.
Definition token_number (i : nat) (ts : list (list ascii)) : res msg_fault Z := token i ts ≫= stoull.

(** ** The consistent topology

    The graph is the one of Topology.v.  The elements of the vector of hosts are
    pointers to heap objects, which the copies of a [Host] share and each
    destructor deletes. *)

Record consistent := Consistent {
  ct_graph : topology;
  ct_hosts : list nat;
  ct_capacity : nat;
  ct_impls : gmap nat host;
  ct_next : nat;
}.

Definition new_consistent : consistent := Consistent new_topology [] 0 ∅ 1.

Definition set_graph (g : topology) (c : consistent) : consistent :=
  Consistent g (ct_hosts c) (ct_capacity c) (ct_impls c) (ct_next c).

(** [Host::Host] *)
Definition alloc_host (h : host) (c : consistent) : nat * consistent :=
  (ct_next c, Consistent (ct_graph c) (ct_hosts c) (ct_capacity c) (<[ct_next c := h]> (ct_impls c)) (S (ct_next c))).

(** [Host::~Host] *)
Definition destroy_host (p : nat) (c : consistent) : res msg_fault consistent :=
  match ct_impls c !! p with
  | Some _ => Ok (Consistent (ct_graph c) (ct_hosts c) (ct_capacity c) (delete p (ct_impls c)) (ct_next c))
  | None => Throw double_free
  end.

Fixpoint destroy_hosts (ps : list nat) (c : consistent) : res msg_fault consistent :=
  match ps with [] => Ok c | p :: ps => c ← destroy_host p c; destroy_hosts ps c end.

(** [hosts.push_back]: a full vector moves to twice the room: its elements are
    copied, and then destroyed. *)
Definition push_host (p : nat) (c : consistent) : res msg_fault consistent :=
  c ← (if Nat.eqb (length (ct_hosts c)) (ct_capacity c) then
         c ← destroy_hosts (ct_hosts c) c;
         Ok (Consistent (ct_graph c) (ct_hosts c) (Nat.max 1 (2 * ct_capacity c)) (ct_impls c) (ct_next c))
       else Ok c);
  Ok (Consistent (ct_graph c) (ct_hosts c ++ [p]) (ct_capacity c) (ct_impls c) (ct_next c)).

(** [process_host_discovered], with the random number of the new host. *)
Definition process_host_discovered (rand : Z) (tokens : list (list ascii)) (c : consistent) : res msg_fault consistent :=
  mac ← token 4 tokens;
  ip_text ← token 7 tokens;
  ip ← (match ipv4_of_string ip_text with Ok ip => Ok ip | Throw e => Throw (bad_address e) end);
  id ← token_number 5 tokens;
  port ← token_number 6 tokens;
  let '(newhost, c) := alloc_host (Host (rand mod 1000 + 1000) mac ip id (u32 port)) c in
  c ← push_host newhost c;
  destroy_host newhost c.

Definition link_tokens (tokens : list (list ascii)) : res msg_fault (switch_and_port * switch_and_port) :=
  d1 ← token_number 3 tokens; p1 ← token_number 4 tokens;
  d2 ← token_number 5 tokens; p2 ← token_number 6 tokens;
  Ok (SwitchAndPort d1 (u32 p1), SwitchAndPort d2 (u32 p2)).

Definition ct_vertex (d : Z) (g : topology) : res msg_fault (nat * topology) :=
  match vertex d g with Ok r => Ok r | Throw e => Throw (graph_fault e) end.

(** [process_link_discovered] *)
Definition add_link (from to : switch_and_port) (g : topology) : res msg_fault topology :=
  if dpid from =? dpid to then Ok g
  else
    u ← ct_vertex (dpid from) g;
    v ← ct_vertex (dpid to) u.2;
    let g := v.2 in
    let e := Edge u.1 v.1 (LinkProperty from to 1) in
    match find_edge u.1 v.1 (g_edges g) with
    | None => Ok (set_edges (g_edges g ++ [e]) g)
    | Some ed =>
        let lp := e_prop ed in
        if negb ((port from =? port (lp_source lp)) || (port to =? port (lp_target lp)))
        then Ok (set_edges (g_edges g ++ [e]) g) else Ok g
    end.
Definition process_link_discovered (tokens : list (list ascii)) (c : consistent) : res msg_fault consistent :=
  l ← link_tokens tokens; g ← add_link l.1 l.2 (ct_graph c); Ok (set_graph g c).

(** [process_link_broken] *)
Definition remove_link (from to : switch_and_port) (g : topology) : res msg_fault topology :=
  u ← ct_vertex (dpid from) g;
  v ← ct_vertex (dpid to) u.2;
  Ok (set_edges (remove_edges u.1 v.1 (g_edges v.2)) v.2).
Definition process_link_broken (tokens : list (list ascii)) (c : consistent) : res msg_fault consistent :=
  l ← link_tokens tokens; g ← remove_link l.1 l.2 (ct_graph c); Ok (set_graph g c).

(** ** class Messaging

    The counters are [int]s.  The times of the requests are left out. *)

Record messaging := Messaging {
  request_queue : list ClientRequest;
  message_id : Z;
  local_commited_idx : Z;
  ready_to_on : bool;
  m_consistent : consistent;
}.

Definition new_messaging : messaging := Messaging [] 0 0 false new_consistent.

Definition set_queue (q : list ClientRequest) (s : messaging) : messaging :=
  Messaging q (message_id s) (local_commited_idx s) (ready_to_on s) (m_consistent s).
Definition set_ready (b : bool) (s : messaging) : messaging :=
  Messaging (request_queue s) (message_id s) (local_commited_idx s) b (m_consistent s).
Definition set_local (i : Z) (s : messaging) : messaging :=
  Messaging (request_queue s) (message_id s) i (ready_to_on s) (m_consistent s).
Definition set_consistent (c : consistent) (s : messaging) : messaging :=
  Messaging (request_queue s) (message_id s) (local_commited_idx s) (ready_to_on s) c.

(** The conversion of a 64-bit number to [int]. *)
Definition to_int (z : Z) : Z := (z + 2 ^ 31) mod 2 ^ 32 - 2 ^ 31.

(** What is replicated. *)
Inductive net_event :=
| link_discovered (from to : switch_and_port)
| link_broken (from to : switch_and_port)
| host_discovered (h : host).

Definition event_tokens (ev : net_event) : list (list ascii) :=
  match ev with
  | link_discovered from to =>
      [chars "linkDiscovered"; print_uint (dpid from); print_uint (port from); print_uint (dpid to); print_uint (port to)]
  | link_broken from to =>
      [chars "linkBroken"; print_uint (dpid from); print_uint (port from); print_uint (dpid to); print_uint (port to)]
  | host_discovered h =>
      [chars "hostDiscovered"; print_uint (h_id h); h_mac h; print_uint (h_switchID h); print_uint (h_switchPort h); ipv4_print (h_ip h)]
  end.

Definition comma : ascii := ","%char.

Definition request_data (client mid : string) (ev : net_event) : string :=
  string_of_list_ascii (join comma (chars client :: chars mid :: event_tokens ev)).

(** The common part of the slots; [me] is [peers[myidx].id]. *)
Definition push_request (me : string) (ev : net_event) (s : messaging) : messaging :=
  let mid := string_of_list_ascii (print_uint (message_id s + 1)) in
  Messaging (request_queue s ++ [ClientReq me mid (request_data me mid ev)]) (message_id s + 1) (local_commited_idx s)
    (ready_to_on s) (m_consistent s).

Definition onLinkDiscovered (me : string) (from to : switch_and_port) : messaging -> messaging := push_request me (link_discovered from to).
Definition onLinkBroken (me : string) (from to : switch_and_port) : messaging -> messaging := push_request me (link_broken from to).
Definition onHostDiscovered (me : string) (dev : host) (s : messaging) : messaging :=
  if bool_decide (ipv4_print (h_ip dev) = chars "0.0.0.0") then s else push_request me (host_discovered dev) s.

Section processing.
(** [boost::algorithm::split] by commas, and the random numbers of new hosts. *)
Variable split : list ascii -> list (list ascii).
Variable rand : nat -> Z.

(** The event of an entry; an unknown one is ignored. *)
Definition process_tokens (tokens : list (list ascii)) (c : consistent) : res msg_fault consistent :=
  name ← token 2 tokens;
  if bool_decide (name = chars "hostDiscovered") then process_host_discovered (rand (ct_next c)) tokens c
  else if bool_decide (name = chars "linkDiscovered") then process_link_discovered tokens c
  else if bool_decide (name = chars "linkBroken") then process_link_broken tokens c
  else Ok c.

(** One round of [process_entries]: the request at the front of the queue is
    popped when the entry is its own.  The front of an empty queue is not defined. *)
Definition process_entry (e : Entry) (s : messaging) : res msg_fault messaging :=
  let tokens := split (chars (data e)) in
  c ← process_tokens tokens (m_consistent s);
  let s := set_consistent c s in
  t0 ← token 0 tokens;
  match request_queue s with
  | [] => Throw empty_queue
  | front :: rest =>
      own ← (if bool_decide (t0 = chars (client_id front)) then
               t1 ← token 1 tokens; Ok (bool_decide (t1 = chars (cr_message_id front)))
             else Ok false);
      Ok (if own : bool then set_ready true (set_queue rest s) else s)
  end.

Fixpoint process_entries (es : list Entry) (s : messaging) : res msg_fault messaging :=
  match es with [] => Ok s | e :: es => s ← process_entry e s; process_entries es s end.

Section storage.
Context {S : Type} `{Storage S}.

(** One round of [StorageCheckerThread]. *)
Definition check_storage (st : S) (s : messaging) : res msg_fault messaging :=
  let raft_log_commited_idx := to_int (index (commit (log_state st))) in
  if local_commited_idx s <? raft_log_commited_idx then
    es ← (match entries_since st (u64 (local_commited_idx s)) with Ok es => Ok es | Throw e => Throw (storage_fault e) end);
    s ← process_entries es s;
    Ok (set_local raft_log_commited_idx s)
  else Ok s.

(** One round of [RequestQueueProcessorThread]: the request at the front is handed
    to the Raft server, in every round until it is popped. *)
Definition process_request (srv : server S) (s : messaging) : res crash (messaging * (server S * list callback)) :=
  match find_peer (leader_id (state srv)) (state srv), request_queue s with
  | Some _, front :: _ => r ← on_client_request front srv; Ok (set_ready false s, r)
  | _, _ => Ok (s, (srv, []))
  end.
End storage.
End processing.

(** ** Text and numbers *)

(** What Boost documents of [split] by commas: the tokens are the parts between them. *)
Definition split_ok (split : list ascii -> list (list ascii)) : Prop :=
  forall s, join comma (split s) = s /\ split s <> [] /\ Forall (fun t => comma ∉ t) (split s).

(** One such function. *)
Fixpoint split_commas (s : list ascii) : list (list ascii) :=
  match s with
  | [] => [[]]
  | c :: s =>
      if bool_decide (c = comma) then [] :: split_commas s
      else match split_commas s with [] => [[c]] | t :: ts => (c :: t) :: ts end
  end.

Lemma join_cons t ts : ts <> [] -> join comma (t :: ts) = t ++ comma :: join comma ts.
Proof. by destruct ts. Qed.

Lemma split_commas_ok : split_ok split_commas.
Proof.
  intros s. induction s as [|c s (E & Hne & Hf)]; cbn.
  - split_and!; [done..|]. apply Forall_singleton. by apply not_elem_of_nil.
  - case_bool_decide as Hc.
    + subst c. split_and!; [|done|].
      * rewrite join_cons by done. by rewrite E.
      * constructor; [by apply not_elem_of_nil|done].
    + destruct (split_commas s) as [|t ts] eqn:Es; [done|]. split_and!; [|done|].
      * rewrite <- E. by destruct ts.
      * apply Forall_cons in Hf as [Ht Hts]. constructor; [|done]. apply not_elem_of_cons. by split; [intros <-|].
Qed.

(** A text has only one division into tokens without commas. *)
Lemma join_inj ts us :
  ts <> [] -> us <> [] -> Forall (fun t => comma ∉ t) ts -> Forall (fun t => comma ∉ t) us -> join comma ts = join comma us -> ts = us.
Proof.
  assert (Hcut : forall (t u : list ascii) a b, comma ∉ t -> comma ∉ u ->
    t ++ comma :: a = u ++ comma :: b -> t = u /\ a = b).
  { induction t as [|x t IH]; intros [|y u] a b Ht Hu E; cbn in E.
    - by injection E.
    - injection E as <- _. destruct Hu. by left.
    - injection E as -> _. destruct Ht. by left.
    - injection E as <- E. destruct (IH u a b) as [-> ->]; [|  |done|done].
      + intros Hin. apply Ht. by right.
      + intros Hin. apply Hu. by right. }
  revert us. induction ts as [|t ts IH]; intros us Ht Hu Ft Fu E; [done|]. destruct us as [|u us]; [done|].
  apply Forall_cons in Ft as [Ft1 Ft], Fu as [Fu1 Fu].
  destruct ts as [|t2 ts], us as [|u2 us].
  - cbn in E. by subst.
  - exfalso. apply Ft1. cbn [join] in E. rewrite E. apply elem_of_app. right. by left.
  - exfalso. apply Fu1. cbn [join] in E. rewrite <- E. apply elem_of_app. right. by left.
  - rewrite !join_cons in E by done. apply Hcut in E as [-> E]; [|done|done]. f_equal. by apply IH.
Qed.

Lemma split_join split ts : split_ok split -> ts <> [] -> Forall (fun t => comma ∉ t) ts -> split (join comma ts) = ts.
Proof. intros Hs Hne Hf. destruct (Hs (join comma ts)) as (E & Hn & Hfs). by apply join_inj. Qed.

Lemma digits_no_comma ds : Forall (fun c => is_digit c = true) ds -> comma ∉ ds.
Proof. intros Hf Hin. rewrite Forall_forall in Hf. by specialize (Hf _ Hin). Qed.

Lemma stoull_print n : in_width 64 n -> stoull (print_uint n) = Ok n.
Proof.
  intros Hn. destruct (print_digits n Hn) as (Hv & Hne & Hf). unfold stoull.
  destruct (print_uint n) as [|c ds] eqn:E; [done|]. apply Forall_cons in Hf as [Hc Hf].
  assert (Hws : skip_ws (c :: ds) = c :: ds) by (cbn [skip_ws]; by rewrite (proj1 (digit_not_space c Hc))).
  rewrite Hws. assert (Hd : span is_digit (c :: ds) = (c :: ds, [])).
  { rewrite <- (app_nil_r (c :: ds)) at 1. apply span_app; [by constructor|done]. }
  destruct Hn as [H1 H2].
  assert (Hm : match c :: ds with "-"%char :: s => (true, s) | "+"%char :: s => (false, s) | s => (false, s) end = (false, c :: ds)).
  { destruct c as [[] [] [] [] [] [] [] []]; done. }
  rewrite Hm, Hd. cbn [fst]. rewrite Hv. by rewrite (proj2 (Z.leb_gt _ _)).
Qed.

(** ** An event comes out as it went in *)

#[local] Arguments stoull : simpl never.
#[local] Arguments print_uint : simpl never.
#[local] Arguments ipv4_print : simpl never.
#[local] Arguments ipv4_of_string : simpl never.

Definition plain (s : list ascii) : Prop := Forall (fun c => is_space c = false /\ c <> comma) s.

Definition event_ok (ev : net_event) : Prop :=
  match ev with
  | link_discovered from to | link_broken from to =>
      in_width 64 (dpid from) /\ in_width 32 (port from) /\ in_width 64 (dpid to) /\ in_width 32 (port to)
  | host_discovered h =>
      in_width 64 (h_id h) /\ plain (h_mac h) /\ in_width 64 (h_switchID h) /\ in_width 32 (h_switchPort h)
      /\ bits_wf (h_ip h) /\ bsize (h_ip h) = 32
  end.

(** What an event does, without the text. *)
Definition apply_event (rand : nat -> Z) (ev : net_event) (c : consistent) : res msg_fault consistent :=
  match ev with
  | link_discovered from to => g ← add_link from to (ct_graph c); Ok (set_graph g c)
  | link_broken from to => g ← remove_link from to (ct_graph c); Ok (set_graph g c)
  | host_discovered h =>
      let '(newhost, c) := alloc_host (Host (rand (ct_next c) mod 1000 + 1000) (h_mac h) (h_ip h) (h_switchID h) (h_switchPort h)) c in
      c ← push_host newhost c; destroy_host newhost c
  end.

Lemma plain_no_comma s : plain s -> comma ∉ s.
Proof. intros Hp Hin. unfold plain in Hp. rewrite Forall_forall in Hp. by destruct (Hp _ Hin) as [_ []]. Qed.

Lemma plain_digits ds : Forall (fun c => is_digit c = true) ds -> plain ds.
Proof.
  intros Hf. eapply Forall_impl; [exact Hf|]. intros c Hc. split; [by apply digit_not_space|]. by intros ->.
Qed.

Lemma plain_number n : in_width 64 n -> plain (print_uint n).
Proof. intros Hn. by apply plain_digits, print_digits. Qed.

Lemma width_32_64 n : in_width 32 n -> in_width 64 n.
Proof. unfold in_width. lia. Qed.

Lemma plain_join c ts : Forall plain ts -> is_space c = false -> c <> comma -> plain (join c ts).
Proof.
  intros Hf Hc Hn. induction Hf as [|t ts Ht _ IH]; [constructor|]. destruct ts; [done|].
  apply Forall_app. split; [done|]. constructor; [done|exact IH].
Qed.

Lemma plain_ip a : plain (ipv4_print a).
Proof.
  unfold ipv4_print. apply plain_join; [|done|done]. rewrite ipv4_to_octets_be. pose proof (be_bytes_width 4 (bval a)) as Hf.
  apply Forall_map. eapply Forall_impl; [exact Hf|]. intros n Hn. apply plain_digits.
  destruct (show_octet n Hn) as [[Hd _] _]. rewrite forallb_forall in Hd. apply Forall_forall. intros c Hin. by apply Hd, list_elem_of_In.
Qed.

Lemma event_tokens_plain ev : event_ok ev -> Forall plain (event_tokens ev).
Proof.
  destruct ev as [from to|from to|h]; cbn; intros Hok; destruct Hok as (W1 & W2 & W3 & W4); [| |destruct W4 as (W4 & W5 & W6)];
    repeat (apply Forall_cons; split); try apply Forall_nil_2; try (apply plain_number; (done || by apply width_32_64)); try done; try apply plain_ip;
    by apply (bool_decide_unpack _).
Qed.

Lemma chars_of_list l : chars (string_of_list_ascii l) = l.
Proof. apply list_ascii_of_string_of_list_ascii. Qed.

Lemma request_tokens split client mid ev :
  split_ok split -> event_ok ev -> comma ∉ chars client -> comma ∉ chars mid ->
  split (chars (request_data client mid ev)) = chars client :: chars mid :: event_tokens ev.
Proof.
  intros Hs Hev Hc Hm. unfold request_data. rewrite chars_of_list. apply split_join; [done|done|].
  constructor; [done|]. constructor; [done|]. eapply Forall_impl; [by apply event_tokens_plain|]. apply plain_no_comma.
Qed.

Lemma process_event rand t0 t1 ev c : event_ok ev -> process_tokens rand (t0 :: t1 :: event_tokens ev) c = apply_event rand ev c.
Proof.
  destruct ev as [from to|from to|h]; cbn [event_ok]; intros Hok.
  - destruct Hok as (W1 & W2 & W3 & W4). unfold process_tokens, process_link_discovered, link_tokens, token_number, token. cbn.
    rewrite !stoull_print by (done || by apply width_32_64). cbn. rewrite (wrap_small 32 (port from)), (wrap_small 32 (port to)) by done.
    by destruct from, to.
  - destruct Hok as (W1 & W2 & W3 & W4). unfold process_tokens, process_link_broken, link_tokens, token_number, token. cbn.
    rewrite !stoull_print by (done || by apply width_32_64). cbn. rewrite (wrap_small 32 (port from)), (wrap_small 32 (port to)) by done.
    by destruct from, to.
  - destruct Hok as (W1 & W2 & W3 & W4 & W5 & W6). unfold process_tokens, process_host_discovered, token_number, token. cbn.
    rewrite ipv4_print_parse, !stoull_print by (done || by apply width_32_64). cbn. by rewrite (wrap_small 32 (h_switchPort h)).
Qed.

(** ** What the links become *)

Abbreviation link_list := (list (switch_and_port * switch_and_port)).

(** A link between switches that have one is added only if it shares no port
    number with the first of them. *)
Definition replicate_event (ls : link_list) (ev : net_event) : link_list :=
  match ev with
  | link_discovered from to =>
      if dpid from =? dpid to then ls
      else match List.find (between (dpid from) (dpid to)) ls with
           | None => ls ++ [(from, to)]
           | Some l => if (port from =? port l.1) || (port to =? port l.2) then ls else ls ++ [(from, to)]
           end
  | link_broken from to => List.filter (fun l => negb (between (dpid from) (dpid to) l)) ls
  | host_discovered _ => ls
  end.

Lemma find_edge_links t u v d e :
  topo_ok t -> g_vertices t !! u = Some d -> g_vertices t !! v = Some e ->
  List.find (between d e) (links t) = (fun x => (lp_source (e_prop x), lp_target (e_prop x))) <$> find_edge u v (g_edges t).
Proof.
  intros Ht Hu Hv. pose proof (joins_between t u v d e) as Hj. unfold links, find_edge.
  assert (Hsub : forall x, x ∈ g_edges t -> x ∈ g_edges t) by done. revert Hsub. generalize (g_edges t) at 1 3 4 as es.
  induction es as [|x es IH]; intros Hsub; cbn; [done|]. rewrite (Hj x) by (done || (apply Hsub; by left)).
  destruct (between _ _ _); [done|]. apply IH. intros y Hy. apply Hsub. by right.
Qed.

Lemma set_edges_add t u v from to :
  topo_ok t -> g_vertices t !! u = Some (dpid from) -> g_vertices t !! v = Some (dpid to) -> dpid from <> dpid to ->
  let t' := set_edges (g_edges t ++ [Edge u v (LinkProperty from to 1)]) t in
  topo_ok t' /\ links t' = links t ++ [(from, to)].
Proof.
  intros [H1 H2 H3 H4] Hu Hv Hne. cbv zeta. split; [|unfold links; cbn; by rewrite map_app].
  split; cbn; [done| |done|done]. intros e [Hin|Hin]%elem_of_app; [by apply H2|].
  apply list_elem_of_singleton in Hin as ->. by split_and!.
Qed.

Lemma ct_vertex_ok d t : topo_ok t ->
  exists v t', ct_vertex d t = Ok (v, t') /\ topo_ok t' /\ links t' = links t /\ g_vertices t' !! v = Some d
    /\ forall u x, g_vertices t !! u = Some x -> g_vertices t' !! u = Some x.
Proof.
  intros Ht. destruct (vertex_ok d t Ht) as (v & t' & E & Ht' & Hx & Hv). exists v, t'. unfold ct_vertex. rewrite E.
  split_and!; [done|done|by apply extends_links|done|apply Hx].
Qed.

Lemma add_link_ok from to t : topo_ok t ->
  exists t', add_link from to t = Ok t' /\ topo_ok t' /\ links t' = replicate_event (links t) (link_discovered from to).
Proof.
  intros Ht. unfold add_link, replicate_event. destruct (Z.eqb_spec (dpid from) (dpid to)) as [E|Hne]; [by exists t|].
  destruct (ct_vertex_ok (dpid from) t Ht) as (u & t1 & E1 & Ht1 & L1 & Hu & _). rewrite E1. cbn [mbind res_bind fst snd].
  destruct (ct_vertex_ok (dpid to) t1 Ht1) as (v & t2 & E2 & Ht2 & L2 & Hv & Hk). rewrite E2. cbn [mbind res_bind fst snd].
  apply Hk in Hu. rewrite <- L1, <- L2, (find_edge_links t2 u v _ _ Ht2 Hu Hv).
  destruct (set_edges_add t2 u v from to Ht2 Hu Hv Hne) as [Ht3 L3].
  destruct (find_edge u v (g_edges t2)) as [ed|]; cbn [fmap option_fmap option_map fst snd]; [|by eexists].
  destruct ((port from =? _) || _); cbn [negb]; by eexists.
Qed.

Lemma remove_link_ok from to t : topo_ok t ->
  exists t', remove_link from to t = Ok t' /\ topo_ok t' /\ links t' = replicate_event (links t) (link_broken from to).
Proof.
  intros Ht. unfold remove_link, replicate_event.
  destruct (ct_vertex_ok (dpid from) t Ht) as (u & t1 & E1 & Ht1 & L1 & Hu & _). rewrite E1. cbn [mbind res_bind fst snd].
  destruct (ct_vertex_ok (dpid to) t1 Ht1) as (v & t2 & E2 & Ht2 & L2 & Hv & Hk). rewrite E2. cbn [mbind res_bind fst snd].
  apply Hk in Hu. rewrite <- L1, <- L2. destruct (remove_edges_ok t2 u v _ _ Ht2 Hu Hv) as [Ht3 L3]. by eexists.
Qed.

(** ** Entries of the log *)

Record log_event := LogEvent { le_info : EntryInfo; le_client : string; le_id : string; le_event : net_event }.

Definition entry_of (x : log_event) : Entry := Ent (le_info x) (request_data (le_client x) (le_id x) (le_event x)).

Definition is_link_event (ev : net_event) : Prop := match ev with host_discovered _ => False | _ => True end.

Record log_event_ok (x : log_event) : Prop := {
  lo_client : comma ∉ chars (le_client x);
  lo_id : comma ∉ chars (le_id x);
  lo_event : event_ok (le_event x);
  lo_link : is_link_event (le_event x);
}.

(** The queue after the entries have been compared with its front; nothing when
    the queue was empty at one of them. *)
Fixpoint pop_own (xs : list log_event) (q : list ClientRequest) : option (list ClientRequest) :=
  match xs, q with
  | [], _ => Some q
  | _ :: _, [] => None
  | x :: xs, front :: rest =>
      pop_own xs (if bool_decide (le_client x = client_id front /\ le_id x = cr_message_id front) then rest else q)
  end.

Lemma pop_own_app xs ys q : pop_own (xs ++ ys) q = pop_own xs q ≫= pop_own ys.
Proof.
  revert q. induction xs as [|x xs IH]; intros q; [done|]. destruct q as [|f q]; [done|]. cbn. apply IH.
Qed.

Definition replicated (s : messaging) : link_list := links (ct_graph (m_consistent s)).

Section theorems.
Variable split : list ascii -> list (list ascii).
Hypothesis split_spec : split_ok split.
Variable rand : nat -> Z.

Lemma process_entry_ok x s :
  log_event_ok x -> topo_ok (ct_graph (m_consistent s)) ->
  match pop_own [x] (request_queue s) with
  | None => process_entry split rand (entry_of x) s = Throw empty_queue
  | Some q => exists s', process_entry split rand (entry_of x) s = Ok s' /\ request_queue s' = q
      /\ topo_ok (ct_graph (m_consistent s')) /\ replicated s' = replicate_event (replicated s) (le_event x)
      /\ local_commited_idx s' = local_commited_idx s /\ message_id s' = message_id s
  end.
Proof.
  intros [Hc Hi He Hl] Ht. unfold process_entry. cbn [data entry_of].
  rewrite (request_tokens split _ _ _ split_spec He Hc Hi), (process_event rand) by done.
  assert (Ha : exists c, apply_event rand (le_event x) (m_consistent s) = Ok c /\ topo_ok (ct_graph c)
    /\ links (ct_graph c) = replicate_event (replicated s) (le_event x)).
  { unfold replicated. destruct (le_event x) as [from to|from to|h]; [| |done]; cbn [apply_event].
    - destruct (add_link_ok from to _ Ht) as (g & -> & Hg & Lg). by eexists.
    - destruct (remove_link_ok from to _ Ht) as (g & -> & Hg & Lg). by eexists. }
  destruct Ha as (c & -> & Hc' & Lc). cbn [mbind res_bind token lookup list_lookup request_queue set_consistent].
  cbn [pop_own]. destruct (request_queue s) as [|front rest] eqn:Eq; [done|].
  assert (Hinj : forall a b : string, chars a = chars b <-> a = b).
  { intros a b. split; [|by intros ->]. intros E. rewrite <- (string_of_list_ascii_of_string a), <- (string_of_list_ascii_of_string b).
    unfold chars in E. by rewrite E. }
  rewrite (bool_decide_ext (chars (le_client x) = chars (client_id front)) (le_client x = client_id front)) by apply Hinj.
  destruct (decide (le_client x = client_id front)) as [E1|E1].
  - rewrite (bool_decide_true (le_client x = client_id front)) by done. cbn [mbind res_bind].
    rewrite (bool_decide_ext (chars (le_id x) = chars (cr_message_id front)) (le_id x = cr_message_id front)) by apply Hinj.
    destruct (decide (le_id x = cr_message_id front)) as [E2|E2].
    + rewrite (bool_decide_true (_ /\ _)), (bool_decide_true (le_id x = _)) by done. cbn. by eexists.
    + rewrite (bool_decide_false (_ /\ _)), (bool_decide_false (le_id x = _)) by tauto. cbn. by eexists.
  - rewrite (bool_decide_false (le_client x = client_id front)), (bool_decide_false (_ /\ _)) by tauto. cbn. by eexists.
Qed.

Lemma process_entries_ok xs s :
  Forall log_event_ok xs -> topo_ok (ct_graph (m_consistent s)) ->
  match pop_own xs (request_queue s) with
  | None => process_entries split rand (map entry_of xs) s = Throw empty_queue
  | Some q => exists s', process_entries split rand (map entry_of xs) s = Ok s' /\ request_queue s' = q
      /\ topo_ok (ct_graph (m_consistent s')) /\ replicated s' = fold_left replicate_event (map le_event xs) (replicated s)
      /\ local_commited_idx s' = local_commited_idx s /\ message_id s' = message_id s
  end.
Proof.
  intros Hxs. revert s. induction Hxs as [|x xs Hx _ IH]; intros s Ht.
  { cbn. exists s. by split_and!. }
  change (x :: xs) with ([x] ++ xs). rewrite pop_own_app.
  pose proof (process_entry_ok x s Hx Ht) as He. destruct (pop_own [x] (request_queue s)) as [q|].
  - destruct He as (s1 & E & Eq & Ht1 & El & Eloc & Emid). specialize (IH s1 Ht1). rewrite Eq in IH.
    cbn [option_bind mbind app map process_entries]. rewrite E. cbn [mbind res_bind].
    destruct (pop_own xs q) as [q'|]; [|done]. destruct IH as (s' & E' & Eq' & Ht' & El' & Eloc' & Emid').
    exists s'. cbn [fold_left]. rewrite <- El. split_and!; congruence.
  - cbn [option_bind mbind app map process_entries]. by rewrite He.
Qed.
End theorems.

(** ** The checker and the log *)

Lemma to_int_small z : 0 <= z < 2 ^ 31 -> to_int z = z.
Proof. intros Hz. unfold to_int. rewrite Z.mod_small by lia. lia. Qed.

Section checker.
Variable split : list ascii -> list (list ascii).
Hypothesis split_spec : split_ok split.
Variable rand : nat -> Z.
Context {S : Type} `{StorageLaws S}.

Fixpoint check_all (sts : list S) (s : messaging) : res msg_fault messaging :=
  match sts with [] => Ok s | st :: sts => s ← check_storage split rand st s; check_all sts s end.

(** Nothing in the log is waiting to be committed. *)
Definition quiescent (st : S) : Prop :=
  st_wf st /\ al_commit (st_log st) = al_size (st_log st) /\ al_size (st_log st) < 2 ^ 31.

(** The logs seen one after another, from [L] on: what was committed stays. *)
Fixpoint growing (L : alog) (sts : list S) : Prop :=
  match sts with [] => True | st :: sts => log_extends L (st_log st) /\ growing (st_log st) sts end.

Lemma extends_entries L L' : al_commit L = al_size L -> al_commit L' = al_size L' -> log_extends L L' ->
  al_entries L' = al_entries L ++ drop (length (al_entries L)) (al_entries L') /\ (length (al_entries L) <= length (al_entries L'))%nat.
Proof.
  intros HL HL' [Hc Ht]. rewrite HL in Ht, Hc. rewrite HL' in Hc. unfold al_size in *. rewrite Nat2Z.id in Ht. rewrite firstn_all in Ht.
  split; [|lia]. rewrite <- Ht at 1. by rewrite take_drop.
Qed.

Lemma growing_prefix L sts : al_commit L = al_size L -> Forall quiescent sts -> growing L sts ->
  exists es, al_entries (default L (st_log <$> last sts)) = al_entries L ++ es.
Proof.
  intros HL Hq. revert L HL. induction Hq as [|st sts (Hw & Hc & _) _ IH]; intros L HL Hg.
  { exists []. cbn. by rewrite app_nil_r. }
  destruct Hg as [Hx Hg]. destruct (IH _ Hc Hg) as [es Hes]. destruct (extends_entries _ _ HL Hc Hx) as [E _].
  exists (drop (length (al_entries L)) (al_entries (st_log st)) ++ es). rewrite app_assoc, <- E, <- Hes, last_cons. by destruct (last sts).
Qed.

(** One look at a quiescent log processes what is new in it. *)
Lemma check_new L st s xs :
  quiescent st -> log_extends L (st_log st) -> al_commit L = al_size L -> local_commited_idx s = al_size L ->
  Forall log_event_ok xs -> al_entries (st_log st) = al_entries L ++ map entry_of xs -> topo_ok (ct_graph (m_consistent s)) ->
  match pop_own xs (request_queue s) with
  | None => check_storage split rand st s = Throw empty_queue
  | Some q => exists s', check_storage split rand st s = Ok s' /\ request_queue s' = q /\ topo_ok (ct_graph (m_consistent s'))
      /\ replicated s' = fold_left replicate_event (map le_event xs) (replicated s) /\ local_commited_idx s' = al_size (st_log st)
  end.
Proof.
  intros (Hw & Hc & Hlt) Hx HL Hloc Hxs Hes Ht. unfold check_storage. rewrite (log_state_law st Hw). cbn [commit].
  pose proof (st_wf_log st Hw) as [Hnum Hrange]. rewrite info_at_index, Hc by (done || (unfold al_size in *; lia)).
  assert (Hsz : al_size (st_log st) = al_size L + Z.of_nat (length xs)) by (unfold al_size; rewrite Hes, length_app, length_map; lia).
  assert (Hpos : 0 <= al_size L) by (unfold al_size; lia).
  rewrite to_int_small by lia. rewrite Hloc. destruct (Z.ltb_spec (al_size L) (al_size (st_log st))) as [Hlt'|Hge].
  - rewrite (wrap_small 64) by (unfold in_width; lia). rewrite (entries_since_law st _ Hw Hpos), Hes. cbn [mbind res_bind].
    replace (Z.to_nat (al_size L)) with (length (al_entries L)) by (unfold al_size; lia). rewrite drop_app_length.
    pose proof (process_entries_ok split split_spec rand xs s Hxs Ht) as Hp. destruct (pop_own xs (request_queue s)) as [q|].
    + destruct Hp as (s' & E & Eq & Ht' & El & _). eexists. rewrite E. cbn [mbind res_bind]. split; [reflexivity|]. by split_and!.
    + by rewrite Hp.
  - assert (xs = []) as -> by (destruct xs; [done|cbn in *; lia]). cbn [pop_own]. exists s. split_and!; try done. rewrite Hloc. cbn in Hsz. lia.
Qed.

Lemma check_all_ok L sts s xs :
  Forall quiescent sts -> growing L sts -> al_commit L = al_size L -> local_commited_idx s = al_size L ->
  Forall log_event_ok xs -> al_entries (default L (st_log <$> last sts)) = al_entries L ++ map entry_of xs -> topo_ok (ct_graph (m_consistent s)) ->
  match pop_own xs (request_queue s) with
  | None => check_all sts s = Throw empty_queue
  | Some q => exists s', check_all sts s = Ok s' /\ request_queue s' = q
      /\ replicated s' = fold_left replicate_event (map le_event xs) (replicated s)
      /\ local_commited_idx s' = al_size (default L (st_log <$> last sts))
  end.
Proof.
  intros Hq. revert L s xs. induction Hq as [|st sts Hst Hsts IH]; intros L s xs Hg HL Hloc Hxs Hes Ht.
  { cbn in Hes. assert (xs = []) as ->.
    { apply (f_equal length) in Hes. rewrite length_app, length_map in Hes. destruct xs; [done|cbn in Hes; lia]. }
    cbn. by exists s. }
  destruct Hg as [Hx Hg]. pose proof Hst as (_ & Hc & _). destruct (growing_prefix _ sts Hc Hsts Hg) as [es Hes'].
  destruct (extends_entries _ _ HL Hc Hx) as [E _]. set (d := drop _ _) in E.
  assert (Hlast : default L (st_log <$> last (st :: sts)) = default (st_log st) (st_log <$> last sts)) by (rewrite last_cons; by destruct (last sts)).
  rewrite Hlast in Hes |- *. rewrite Hes', E, <- app_assoc in Hes. apply app_inv_head in Hes. symmetry in Hes.
  apply map_eq_app in Hes as (xs1 & xs2 & -> & E1 & E2). apply Forall_app in Hxs as [Hxs1 Hxs2]. rewrite <- E1 in E.
  pose proof (check_new L st s xs1 Hst Hx HL Hloc Hxs1 E Ht) as Hn. rewrite pop_own_app.
  destruct (pop_own xs1 (request_queue s)) as [q|]; cbn [option_bind mbind check_all]; [|by rewrite Hn].
  destruct Hn as (s1 & Es1 & Eq & Ht1 & El & Eloc). rewrite Es1. cbn [mbind res_bind].
  specialize (IH (st_log st) s1 xs2 Hg Hc Eloc Hxs2). rewrite Eq in IH. rewrite <- E2 in Hes'. specialize (IH Hes' Ht1).
  destruct (pop_own xs2 q) as [q'|]; [|done]. destruct IH as (s' & Es' & Eq' & El' & Eloc').
  exists s'. rewrite map_app, fold_left_app, <- El. by split_and!.
Qed.
End checker.

(** ** What is replicated *)

(** The slot of an event. *)
Definition report (me : string) (ev : net_event) : messaging -> messaging :=
  match ev with
  | link_discovered from to => onLinkDiscovered me from to
  | link_broken from to => onLinkBroken me from to
  | host_discovered h => onHostDiscovered me h
  end.

(** An event comes out of a log entry as it went in.  Whatever is discovered or
    broken is put at the end of the queue as a request of this node, whose data is
    one word, as the messages between nodes need it; and wherever an entry with
    this data is processed, with any splitting at commas as documented, it does
    what the event itself does to the consistent topology.  Only hosts at the
    address 0.0.0.0 are not reported. *)
Theorem request_roundtrip split rand me ev s :
  split_ok split -> event_ok ev -> plain (chars me) -> 0 <= message_id s < 2 ^ 31 - 1 ->
  (forall h, ev = host_discovered h -> ipv4_print (h_ip h) <> chars "0.0.0.0") ->
  exists r, request_queue (report me ev s) = request_queue s ++ [r] /\ client_id r = me /\ word (cr_data r)
    /\ forall c, process_tokens rand (split (chars (cr_data r))) c = apply_event rand ev c.
Proof.
  intros Hs Hev Hme Hid Hip.
  assert (Hr : report me ev s = push_request me ev s).
  { destruct ev as [from to|from to|h]; [done|done|]. cbn. unfold onHostDiscovered. by rewrite bool_decide_false by by apply Hip. }
  assert (Hmid : plain (print_uint (message_id s + 1))) by (apply plain_number; unfold in_width; lia).
  rewrite Hr. eexists. split; [reflexivity|]. split; [done|]. cbn [cr_data]. split.
  - unfold word, request_data. rewrite !chars_of_list. split; [by destruct (chars me)|].
    assert (Hts : Forall (Forall (fun c => is_space c = false)) (chars me :: print_uint (message_id s + 1) :: event_tokens ev)).
    { apply Forall_cons. split; [|apply Forall_cons; split; [|eapply Forall_impl; [by apply event_tokens_plain|]]];
        [|  |intros t Ht]; (eapply Forall_impl; [done|]); by intros c [Hc _]. }
    revert Hts. generalize (chars me :: print_uint (message_id s + 1) :: event_tokens ev). intros ts Hts.
    induction Hts as [|t ts Ht _ IH]; [constructor|]. destruct ts; [done|]. apply Forall_app. split; [done|]. by constructor.
  - intros c. rewrite request_tokens; [|done|done|by apply plain_no_comma|rewrite chars_of_list; by apply plain_no_comma].
    by apply process_event.
Qed.

Lemma request_roundtrip_witness :
  exists r, request_queue (onLinkDiscovered "node1" (sp 1 2) (sp 3 4) new_messaging) = [r]
    /\ cr_data r = "node1,1,linkDiscovered,1,2,3,4"%string
    /\ process_tokens (fun _ => 0) (split_commas (chars (cr_data r))) new_consistent
       = apply_event (fun _ => 0) (link_discovered (sp 1 2) (sp 3 4)) new_consistent.
Proof.
  destruct (request_roundtrip split_commas (fun _ => 0) "node1" (link_discovered (sp 1 2) (sp 3 4)) new_messaging split_commas_ok)
    as (r & E & _ & _ & Hp).
  - cbn. unfold in_width. cbn. lia.
  - by apply (bool_decide_unpack _).
  - cbn. lia.
  - done.
  - exists r. split; [exact E|]. split; [|apply Hp]. vm_compute in E. injection E as <-. reflexivity.
Defined.

(** C10: The topology follows the committed log.  Let the checker look at the log of
    any storage time and again, each time when nothing waits to be committed, while
    what is committed stays, as the handlers of the server ensure; let the log hold
    link events of any nodes.  If the queue of the node runs empty the next entry
    reads its front, which is not defined.  Otherwise all rounds succeed, and the
    links are those that the committed events make of none, each applied once and
    in order, so they are the same on all nodes with this log; and the queue has
    lost the requests whose entries were found at its front. *)
Theorem committed_log_replicated {S} `{StorageLaws S} split rand sts st xs q mid ready :
  split_ok split -> Forall quiescent sts -> growing (ALog [] 0 EmptyString 0) sts -> last sts = Some st ->
  al_entries (st_log st) = map entry_of xs -> Forall log_event_ok xs ->
  match pop_own xs q with
  | None => check_all (S := S) split rand sts (Messaging q mid 0 ready new_consistent) = Throw empty_queue
  | Some q' => exists s, check_all split rand sts (Messaging q mid 0 ready new_consistent) = Ok s
      /\ replicated s = fold_left replicate_event (map le_event xs) []
      /\ local_commited_idx s = al_commit (st_log st) /\ request_queue s = q'
  end.
Proof.
  intros Hs Hq Hg Hl He Hxs. pose proof (check_all_ok split Hs rand (ALog [] 0 EmptyString 0) sts (Messaging q mid 0 ready new_consistent) xs Hq Hg) as Hc.
  rewrite Hl in Hc. cbn [fmap option_fmap option_map default] in Hc.
  specialize (Hc eq_refl eq_refl Hxs He new_topology_ok). cbn [request_queue] in Hc.
  destruct (pop_own xs q) as [q'|]; [|done]. destruct Hc as (s & E & Eq & El & Eloc). exists s.
  split_and!; [done|done| |done]. rewrite Eloc.
  assert (Hin : st ∈ sts). { apply last_Some in Hl as [l ->]. apply elem_of_app. right. by left. }
  rewrite Forall_forall in Hq. by destruct (Hq st Hin) as (_ & -> & _).
Qed.

(** Node a discovers a link and node b reports it broken; node a has a second request. *)
Definition sample_xs : list log_event :=
  [LogEvent (Info 1 1) "a" "1" (link_discovered (sp 1 1) (sp 2 1)); LogEvent (Info 2 1) "b" "1" (link_discovered (sp 2 2) (sp 3 1))].
Definition storage_with (n : Z) (xs : list log_event) (committed : Z) : MemStorage :=
  Mem (map entry_of xs) "" "" (Info n 1) (Info committed 1) 1.
Definition queue_of (me : string) (evs : list net_event) : list ClientRequest :=
  request_queue (fold_left (fun s ev => report me ev s) evs new_messaging).
Definition sample_queue : list ClientRequest := queue_of "a" [link_discovered (sp 1 1) (sp 2 1); link_discovered (sp 1 2) (sp 4 1)].

Lemma committed_log_replicated_witness :
  exists s, check_all split_commas (fun _ => 0) [storage_with 1 (take 1 sample_xs) 1; storage_with 2 sample_xs 2]
        (Messaging sample_queue 2 0 false new_consistent) = Ok s
    /\ replicated s = [(sp 1 1, sp 2 1); (sp 2 2, sp 3 1)] /\ local_commited_idx s = 2 /\ request_queue s = drop 1 sample_queue.
Proof.
  assert (H1 : quiescent (storage_with 1 (take 1 sample_xs) 1)).
  { split; [|split; [reflexivity|reflexivity]]. split; [split|..]; cbn; [|unfold al_size; cbn; lia|done..]. by intros [|i] e [= <-]. }
  assert (H2 : quiescent (storage_with 2 sample_xs 2)).
  { split; [|split; [reflexivity|reflexivity]]. split; [split|..]; cbn; [|unfold al_size; cbn; lia|done..]. by intros [|[|i]] e [= <-]. }
  assert (H3 : Forall quiescent [storage_with 1 (take 1 sample_xs) 1; storage_with 2 sample_xs 2]).
  { repeat (apply Forall_cons; split); [exact H1|exact H2|by apply Forall_nil]. }
  assert (H4 : growing (ALog [] 0 EmptyString 0) [storage_with 1 (take 1 sample_xs) 1; storage_with 2 sample_xs 2]).
  { cbn. unfold log_extends. cbn. split; [split; [lia|reflexivity]|split; [split; [lia|reflexivity]|exact I]]. }
  assert (H5 : Forall log_event_ok sample_xs).
  { repeat (apply Forall_cons; split); try (by apply Forall_nil); split; try (by apply (bool_decide_unpack _)); try done;
      cbn; unfold in_width; cbn; lia. }
  pose proof (committed_log_replicated split_commas (fun _ => 0) _ (storage_with 2 sample_xs 2) sample_xs sample_queue 2 false
                split_commas_ok H3 H4 eq_refl eq_refl H5) as Hc.
  assert (Hp : pop_own sample_xs sample_queue = Some (drop 1 sample_queue)) by (vm_compute; reflexivity).
  rewrite Hp in Hc. exact Hc.
Defined.

(** ** What goes wrong *)

Definition entry_at (n t : Z) (client mid : string) (ev : net_event) : Entry := Ent (Info n t) (request_data client mid ev).

(** A leader with itself as its only peer. *)
Definition lone_leader : server MemStorage :=
  Server (set_role Leader (new_state "a" [new_peer "a" "" 0 0])) new_mem_storage.

(** Where the replication fails.  A second host frees memory twice: the vector
    of hosts copies its elements when it grows, and their destructors delete what
    they share with destroyed objects.  Events are applied before they are
    committed: here entry 2 is seen uncommitted and is replaced by another, and its
    link stays although no committed entry has it.  A request is handed to the
    server in every round until it is committed, so the log holds it twice.  And an
    entry of a client that is not an event of this form ends the process. *)
Theorem messaging_hazards :
  (forall rand c h1 h2, ct_hosts c = [] -> ct_capacity c = O -> ct_impls c !! ct_next c = None ->
     (c1 ← apply_event rand (host_discovered h1) c; apply_event rand (host_discovered h2) c1) = Throw double_free)
  /\ (let e1 := entry_at 1 1 "a" "1" (link_discovered (sp 1 1) (sp 2 1)) in
      let e2 := entry_at 2 1 "a" "2" (link_discovered (sp 5 1) (sp 6 1)) in
      let e2' := entry_at 2 2 "b" "1" (link_discovered (sp 7 1) (sp 8 1)) in
      let own := [link_discovered (sp 1 1) (sp 2 1); link_discovered (sp 5 1) (sp 6 1); link_discovered (sp 1 2) (sp 4 1)] in
      exists st1 st2 s,
        (r1 ← mem_append new_mem_storage [e1]; r2 ← mem_commit_until r1.1 1; mem_append r2.1 [e2]) = Ok (st1, Info 2 1)
        /\ (r ← mem_append st1 [e2']; mem_commit_until r.1 2) = Ok (st2, Info 2 2) /\ entries_ st2 = [e1; e2']
        /\ check_all split_commas (fun _ => 0) [st1; st2] (Messaging (queue_of "a" own) 3 0 false new_consistent) = Ok s
        /\ replicated s = [(sp 1 1, sp 2 1); (sp 5 1, sp 6 1); (sp 7 1, sp 8 1)])
  /\ (exists s1 s2 out1 out2 srv1 srv2 e,
        process_request lone_leader (onLinkDiscovered "a" (sp 1 1) (sp 2 1) new_messaging) = Ok (s1, (srv1, out1))
        /\ process_request srv1 s1 = Ok (s2, (srv2, out2)) /\ map data (entries_ (storage srv2)) = [e; e])
  /\ process_entry split_commas (fun _ => 0) (Ent (Info 1 1) "hello") new_messaging = Throw no_such_token.
Proof.
  split_and!.
  - intros rand [g hs cap im nx] h1 h2 Hh Hc Hn. cbn in Hh, Hc, Hn. subst hs cap. cbn. unfold destroy_host. cbn.
    rewrite lookup_insert_eq. cbn. rewrite delete_insert_id by done. unfold push_host, destroy_hosts, destroy_host. cbn.
    rewrite lookup_insert_ne by lia. by rewrite Hn.
  - cbv zeta. do 3 eexists. split; [vm_compute; reflexivity|]. split; [vm_compute; reflexivity|]. split; [reflexivity|].
    split; vm_compute; reflexivity.
  - do 7 eexists. split; [vm_compute; reflexivity|]. split; vm_compute; reflexivity.
  - vm_compute. reflexivity.
Qed.
