(* ===== verification/FlowManager.v ===== *)
(** * The flows of the switches (src/FlowManager.cc)

    The flow manager asks the switches for their flows, keeps a rule object for
    each flow it has been told of, and tells the web interface of changes. *)

From S2P Require Import Prelude Events Switch.
From Stdlib Require Import Permutation.
Local Open Scope Z_scope.

Section flow_manager.
(** The matches and the instructions of a flow are objects of libfluid, with its
    operators [==]. *)
Context {M I : Type}.
Variables (match_eqb : M -> M -> bool) (instructions_eqb : I -> I -> bool).

(** [of13::FlowStats], with the members the code reads. *)
Record FlowStats := Stats {
  fs_cookie : Z;
  fs_hard_timeout : Z;
  fs_idle_timeout : Z;
  fs_priority : Z;
  fs_table_id : Z;
  fs_flags : Z;
  fs_match : M;
  fs_instructions : I;
}.

Definition equalflows (one two : FlowStats) : bool :=
  (fs_cookie one =? fs_cookie two) && (fs_hard_timeout one =? fs_hard_timeout two) && (fs_idle_timeout one =? fs_idle_timeout two)
  && (fs_priority one =? fs_priority two) && (fs_table_id one =? fs_table_id two) && (fs_flags one =? fs_flags two)
  && match_eqb (fs_match one) (fs_match two) && instructions_eqb (fs_instructions one) (fs_instructions two).

(** A [Rule] and its address. *)
Record rule := Rule { ru_ptr : nat; ru_id : Z; ru_switch : Z; ru_flow : FlowStats }.

(** The rules by switch; the last rule id; the rules that are no longer active; the
    events reported; and the next free address. *)
Record flow_manager := FlowManager {
  all_switches_rules : gmap Z (list rule);
  last_event : Z;
  inactive : list nat;
  fm_events : list (EventType * nat);
  fm_next : nat;
}.

Definition new_flow_manager : flow_manager := FlowManager ∅ 0 [] [] 1.

(** [all_switches_rules[dpid]]: a missing entry is made, empty. *)
Definition rules_of (d : Z) (s : flow_manager) : list rule := default [] (all_switches_rules s !! d).
Definition set_rules (d : Z) (rs : list rule) (s : flow_manager) : flow_manager :=
  FlowManager (<[d := rs]> (all_switches_rules s)) (last_event s) (inactive s) (fm_events s) (fm_next s).

(** [addEvent(Event::Delete, rule); rule->active = false] *)
Definition retire (r : rule) (s : flow_manager) : flow_manager :=
  FlowManager (all_switches_rules s) (last_event s) (ru_ptr r :: inactive s) (fm_events s ++ [(Delete, ru_ptr r)]) (fm_next s).

(** [new Rule(dpid, flow)] *)
Definition new_rule (d : Z) (f : FlowStats) (s : flow_manager) : rule * flow_manager :=
  let id := u64 (last_event s + 1) in
  (Rule (fm_next s) id d f, FlowManager (all_switches_rules s) id (inactive s) (fm_events s) (S (fm_next s))).

Definition announce_rule (r : rule) (s : flow_manager) : flow_manager :=
  FlowManager (all_switches_rules s) (last_event s) (inactive s) (fm_events s ++ [(Add, ru_ptr r)]) (fm_next s).

(** [addRule] *)
Definition addRule (sw : option switch) (f : FlowStats) (s : flow_manager) : flow_manager :=
  match sw with
  | None => s
  | Some sw =>
      let '(r, s) := new_rule (sw_id sw) f s in
      announce_rule r (set_rules (sw_id sw) (rules_of (sw_id sw) s ++ [r]) s)
  end.

(** The message of [deleteRule]. *)
Record flow_delete := FlowDelete { fd_match : M; fd_table_id : Z; fd_cookie : Z; fd_cookie_mask : Z; fd_priority : Z }.
Definition deleteRule (r : rule) : flow_delete :=
  FlowDelete (fs_match (ru_flow r)) (fs_table_id (ru_flow r)) (fs_cookie (ru_flow r)) 0xffffffffffffffff (fs_priority (ru_flow r)).

(** [cleanSwitchRules], called by [onSwitchDown]. *)
Definition cleanSwitchRules (d : Z) (s : flow_manager) : flow_manager :=
  set_rules d [] (fold_left (fun s r => retire r s) (rules_of d s) s).

(** [flows.erase(it)] for the first flow that is equal, if any. *)
Fixpoint take_flow (f : FlowStats) (flows : list FlowStats) : option (list FlowStats) :=
  match flows with
  | [] => None
  | g :: flows => if equalflows g f then Some flows else cons g <$> take_flow f flows
  end.

(** The rules that [std::remove_if] keeps, in their order, and the flows left. *)
Fixpoint keep_rules (rs : list rule) (flows : list FlowStats) (s : flow_manager) : list rule * list FlowStats * flow_manager :=
  match rs with
  | [] => ([], flows, s)
  | r :: rs =>
      match take_flow (ru_flow r) flows with
      | Some flows => let '(kept, others, s) := keep_rules rs flows s in (r :: kept, others, s)
      | None => keep_rules rs flows (retire r s)
      end
  end.

Fixpoint push_rules (d : Z) (flows : list FlowStats) (rs : list rule) (s : flow_manager) : list rule * flow_manager :=
  match flows with
  | [] => (rs, s)
  | f :: flows => let '(r, s) := new_rule d f s in push_rules d flows (rs ++ [r]) (announce_rule r s)
  end.

Definition updateSwitchRules (d : Z) (flows : list FlowStats) (s : flow_manager) : flow_manager :=
  let '(kept, others, s) := keep_rules (rules_of d s) flows s in
  let '(rules, s) := push_rules d others kept s in
  set_rules d rules s.

Inductive fm_fault := fm_null_switch.

(** [onResponse]: the flows of one part of a reply, from the switch the manager knows. *)
Definition fm_onResponse (dpid : Z) (flow_stats : list FlowStats) (m : switch_map) (s : flow_manager) : res fm_fault flow_manager :=
  match getSwitch dpid m with
  | None => Throw fm_null_switch
  | Some sw => Ok (updateSwitchRules (sw_id sw) flow_stats s)
  end.

(** [handleDELETE], with its numbers read: what is answered, and the message. *)
Inductive delete_answer := switch_not_found | switch_has_no_flows | flow_not_found | flow_deleted (m : flow_delete).
Definition fm_handleDELETE (id flow_id : Z) (m : switch_map) (s : flow_manager) : delete_answer :=
  match getSwitch id m with
  | None => switch_not_found
  | Some sw =>
      match all_switches_rules s !! sw_id sw with
      | None => switch_has_no_flows
      | Some rs =>
          match List.find (fun r => ru_id r =? flow_id) rs with
          | Some r => flow_deleted (deleteRule r)
          | None => flow_not_found
          end
      end
  end.

(** [handleGET]: the rules of a switch; [operator[]] makes the entry. *)
Definition fm_handleGET (id : Z) (m : switch_map) (s : flow_manager) : option (list rule * flow_manager) :=
  match getSwitch id m with
  | None => None
  | Some sw => Some (rules_of (sw_id sw) s, set_rules (sw_id sw) (rules_of (sw_id sw) s) s)
  end.

(** ** The invariant *)

Definition is_rule (s : flow_manager) (d : Z) (r : rule) : Prop := r ∈ rules_of d s.

(** Rules are objects of their own, numbered as they are made; the ones reported
    and not retired are those of the table. *)
Record fm_ok (s : flow_manager) : Prop := {
  fo_fresh d r : is_rule s d r -> (ru_ptr r < fm_next s)%nat /\ ru_id r = u64 (Z.of_nat (ru_ptr r)) /\ ru_switch r = d;
  fo_inj d e r r' : is_rule s d r -> is_rule s e r' -> ru_ptr r = ru_ptr r' -> r = r';
  fo_nodup d : NoDup (rules_of d s);
  fo_last : last_event s = u64 (Z.of_nat (fm_next s) - 1);
  fo_next : (0 < fm_next s)%nat;
  fo_heard : exists K, hear_objects (fm_events s) ∅ = Some K /\ forall o, o ∈ K <-> exists d r, is_rule s d r /\ ru_ptr r = o;
}.

Lemma new_flow_manager_ok : fm_ok new_flow_manager.
Proof.
  assert (Hno : forall d r, ~ is_rule new_flow_manager d r).
  { intros d r. unfold is_rule, rules_of. cbn. rewrite lookup_empty. apply not_elem_of_nil. }
  split; try (intros; by exfalso; eapply Hno); [|done|cbn; lia|].
  - intros d. unfold rules_of. cbn. rewrite lookup_empty. constructor.
  - exists ∅. split; [done|]. intros o. split; [done|]. by intros (d & r & Hr & _); apply Hno in Hr.
Qed.

Lemma rules_of_set d e rs s : rules_of e (set_rules d rs s) = if decide (e = d) then rs else rules_of e s.
Proof.
  unfold rules_of, set_rules. cbn. destruct (decide (e = d)) as [->|Hne]; [by rewrite lookup_insert_eq|by rewrite lookup_insert_ne].
Qed.

Lemma is_rule_set d e rs s r : is_rule (set_rules d rs s) e r <-> if decide (e = d) then r ∈ rs else is_rule s e r.
Proof. unfold is_rule. rewrite rules_of_set. by destruct (decide (e = d)). Qed.

(** The invariant with the rules [rs] for switch [d]: a function works on a copy. *)
Definition ok_with (d : Z) (rs : list rule) (s : flow_manager) : Prop := fm_ok (set_rules d rs s).

Lemma ok_with_own d s : fm_ok s -> ok_with d (rules_of d s) s.
Proof.
  assert (Hr : forall e r, is_rule (set_rules d (rules_of d s) s) e r <-> is_rule s e r).
  { intros e r. rewrite is_rule_set. destruct (decide (e = d)) as [->|]; done. }
  intros [H1 H2 H3 H4 H5 (K & HK & Hin)]. split; try done.
  - intros e r Her. by apply H1, Hr.
  - intros e f r r' ?%Hr ?%Hr. by eapply H2.
  - intros e. rewrite rules_of_set. destruct (decide (e = d)) as [->|]; done.
  - exists K. split; [done|]. intros o. rewrite Hin. by setoid_rewrite Hr.
Qed.

Lemma retire_ok d rs1 r rs2 s : ok_with d (rs1 ++ r :: rs2) s -> ok_with d (rs1 ++ rs2) (retire r s).
Proof.
  intros [H1 H2 H3 H4 H5 (K & HK & Hin)].
  assert (Hmem : forall x, x ∈ rs1 ++ rs2 -> x ∈ rs1 ++ r :: rs2).
  { intros x. rewrite !elem_of_app, elem_of_cons. tauto. }
  assert (Hsub : forall e x, is_rule (set_rules d (rs1 ++ rs2) (retire r s)) e x -> is_rule (set_rules d (rs1 ++ r :: rs2) s) e x).
  { intros e x. rewrite !is_rule_set. destruct (decide (e = d)); [apply Hmem|done]. }
  assert (Hr : is_rule (set_rules d (rs1 ++ r :: rs2) s) d r).
  { apply is_rule_set. rewrite decide_True by done. apply elem_of_app. right. by left. }
  assert (Hnd : NoDup (rs1 ++ r :: rs2)) by (specialize (H3 d); rewrite rules_of_set, decide_True in H3; done).
  assert (Hnot : r ∉ rs1 ++ rs2).
  { apply NoDup_app in Hnd as (_ & Hx & Hn). apply NoDup_cons in Hn as [Hn _]. rewrite elem_of_app. intros [Hi|Hi]; [|done].
    apply (Hx r Hi). by left. }
  split; try done.
  - intros e x Hx. by apply H1, Hsub.
  - intros e f x y ?%Hsub ?%Hsub. by eapply H2.
  - intros e. specialize (H3 e). rewrite rules_of_set in H3 |- *. destruct (decide (e = d)); [|done].
    apply NoDup_app in Hnd as (N1 & Hx & Hn). apply NoDup_cons in Hn as [_ Hn]. apply NoDup_app. split_and!; try done.
    intros x Hi Hj. apply (Hx x Hi). by right.
  - exists (K ∖ {[ru_ptr r]}). cbn. rewrite hear_objects_snoc. cbn in HK. rewrite HK. cbn.
    rewrite option_guard_True by (apply Hin; eauto). split; [done|]. intros o. rewrite elem_of_difference, elem_of_singleton, Hin. split.
    + intros [(e & x & Hx & <-) Hne]. exists e, x. split; [|done]. apply is_rule_set. apply is_rule_set in Hx.
      destruct (decide (e = d)); [|done]. rewrite elem_of_app, elem_of_cons in Hx. apply elem_of_app. destruct Hx as [|[->|]]; [by left| |by right]. done.
    + intros (e & x & Hx & <-). pose proof (Hsub _ _ Hx) as Hx'. split; [eauto|]. intros E.
      assert (x = r) as -> by by apply (H2 e d). apply is_rule_set in Hx. destruct (decide (e = d)) as [->|Hne]; [done|].
      destruct (H1 _ _ Hr) as (_ & _ & Ed), (H1 _ _ Hx') as (_ & _ & Ee). congruence.
Qed.

Lemma new_rule_ok d rs f s : ok_with d rs s ->
  let '(r, s1) := new_rule d f s in ok_with d (rs ++ [r]) (announce_rule r s1).
Proof.
  cbn. intros [H1 H2 H3 H4 H5 (K & HK & Hin)]. cbn in H4, H5. set (r := Rule _ _ d f). set (s1 := announce_rule _ _).
  assert (Hrule : forall e x, is_rule (set_rules d (rs ++ [r]) s1) e x <-> is_rule (set_rules d rs s) e x \/ (e = d /\ x = r)).
  { intros e x. rewrite !is_rule_set. destruct (decide (e = d)) as [->|Hne]; [rewrite elem_of_app, list_elem_of_singleton; tauto|].
    split; [by left|]. intros [Hx|[? _]]; done. }
  assert (Hlt : forall e x, is_rule (set_rules d rs s) e x -> ru_ptr x <> fm_next s).
  { intros e x Hx. destruct (H1 _ _ Hx) as [Hl _]. cbn in Hl. lia. }
  assert (Eid : u64 (last_event s + 1) = u64 (Z.of_nat (fm_next s))).
  { rewrite H4. unfold u64, wrap. rewrite Zplus_mod_idemp_l. f_equal. lia. }
  split.
  - intros e x [Hx|[-> ->]]%Hrule; [|cbn; split_and!; [lia|exact Eid|done]]. destruct (H1 _ _ Hx) as (Hl & ? & ?). cbn in *. split_and!; [lia|done..].
  - intros e g x y [Hx|[-> ->]]%Hrule [Hy|[-> ->]]%Hrule E; [by eapply H2| | |done].
    + by destruct (Hlt _ _ Hx).
    + by destruct (Hlt _ _ Hy).
  - intros e. specialize (H3 e). rewrite rules_of_set in H3 |- *. destruct (decide (e = d)) as [->|]; [|done].
    apply NoDup_app. split_and!; [done| |apply NoDup_singleton]. intros x Hx ->%list_elem_of_singleton.
    apply (Hlt d r); [|done]. apply is_rule_set. by rewrite decide_True.
  - cbn. rewrite Eid. f_equal. lia.
  - cbn. lia.
  - exists ({[fm_next s]} ∪ K). cbn. rewrite hear_objects_snoc. cbn in HK. rewrite HK. cbn. rewrite option_guard_True.
    2:{ intros (e & x & Hx & E)%Hin. by destruct (Hlt _ _ Hx). }
    split; [done|]. intros o. rewrite elem_of_union, elem_of_singleton, Hin. split.
    + intros [->|(e & x & Hx & <-)]; [exists d, r; split; [apply Hrule; by right|done]|exists e, x; split; [apply Hrule; by left|done]].
    + intros (e & x & [Hx|[-> ->]]%Hrule & <-); [right; eauto|by left].
Qed.
(** ** Responses *)

Lemma take_flow_ok f flows flows' : take_flow f flows = Some flows' -> exists g, equalflows g f = true /\ flows ≡ₚ g :: flows'.
Proof.
  revert flows'. induction flows as [|g flows IH]; intros flows'; cbn; [done|]. destruct (equalflows g f) eqn:E.
  - intros [= <-]. by exists g.
  - intros (l & Hl & ->)%fmap_Some. destruct (IH l Hl) as (h & Hh & Hp). exists h. split; [done|]. rewrite Hp. apply perm_swap.
Qed.

Lemma take_flow_none f flows g : take_flow f flows = None -> g ∈ flows -> equalflows g f = false.
Proof.
  induction flows as [|h flows IH]; cbn; [intros _ Hg; by apply not_elem_of_nil in Hg|].
  destruct (equalflows h f) eqn:E; [done|]. intros Hn%fmap_None [->|Hg]%elem_of_cons; [done|by apply IH].
Qed.

(** Rules and flows in one-to-one correspondence, in some order of the flows. *)
Definition corresponds (rs : list rule) (flows : list FlowStats) : Prop :=
  exists flows', flows ≡ₚ flows' /\ Forall2 (fun r f => equalflows f (ru_flow r) = true) rs flows'.

Lemma keep_rules_ok d rs pre flows s kept others s' :
  ok_with d (pre ++ rs) s -> keep_rules rs flows s = (kept, others, s') ->
  ok_with d (pre ++ kept) s' /\ sublist kept rs /\ all_switches_rules s' = all_switches_rules s
  /\ exists used, flows ≡ₚ used ++ others /\ Forall2 (fun r f => equalflows f (ru_flow r) = true) kept used.
Proof.
  revert pre flows s kept. induction rs as [|r rs IH]; intros pre flows s kept Hok; cbn.
  - intros [= <- <- <-]. split_and!; try done. by exists [].
  - destruct (take_flow (ru_flow r) flows) as [flows1|] eqn:Et.
    + destruct (keep_rules rs flows1 s) as [[kept1 others1] s1] eqn:Ek. intros [= <- <- <-].
      destruct (take_flow_ok _ _ _ Et) as (g & Hg & Hp).
      destruct (IH (pre ++ [r]) flows1 s kept1) as (Hok' & Hs & Ea & used & Hu & Hf); [by rewrite <- app_assoc|done|].
      rewrite <- app_assoc in Hok'. split_and!; [done|by constructor|done|]. exists (g :: used). split; [by rewrite Hp, Hu|by constructor].
    + intros Ek. destruct (IH pre flows (retire r s) kept) as (Hok' & Hs & Ea & Hrest); [by apply retire_ok|done|].
      split_and!; [done|by constructor|done|done].
Qed.

Hypothesis match_refl : forall m, match_eqb m m = true.
Hypothesis instructions_refl : forall i, instructions_eqb i i = true.

Lemma equalflows_refl f : equalflows f f = true.
Proof. unfold equalflows. by rewrite !Z.eqb_refl, match_refl, instructions_refl. Qed.

Lemma push_rules_ok d flows rs s : ok_with d rs s ->
  let '(rs', s') := push_rules d flows rs s in
  ok_with d rs' s' /\ all_switches_rules s' = all_switches_rules s
  /\ exists new, rs' = rs ++ new /\ Forall2 (fun r f => equalflows f (ru_flow r) = true) new flows.
Proof.
  revert rs s. induction flows as [|f flows IH]; intros rs s Hok; cbn.
  - split_and!; [done..|]. exists []. by rewrite app_nil_r.
  - pose proof (new_rule_ok d rs f s Hok) as Hnew. cbn in Hnew.
    specialize (IH _ _ Hnew). destruct (push_rules _ _ _ _) as [rs' s']. destruct IH as (Hok' & Ea & new & -> & Hf).
    split_and!; [done|by rewrite Ea|]. eexists (_ :: new). rewrite <- app_assoc. split; [reflexivity|]. constructor; [apply equalflows_refl|done].
Qed.

Lemma updateSwitchRules_ok d flows s :
  fm_ok s -> let s' := updateSwitchRules d flows s in
  fm_ok s' /\ corresponds (rules_of d s') flows /\ (forall e, e <> d -> rules_of e s' = rules_of e s).
Proof.
  intros Hok. cbv zeta. unfold updateSwitchRules. destruct (keep_rules (rules_of d s) flows s) as [[kept others] s1] eqn:Ek.
  destruct (keep_rules_ok d (rules_of d s) [] flows s kept others s1 (ok_with_own d s Hok) Ek) as (Hok1 & Hs & Ea & used & Hu & Hf).
  pose proof (push_rules_ok d others kept s1 Hok1) as Hp. destruct (push_rules d others kept s1) as [rules s2].
  destruct Hp as (Hok2 & Ea2 & new & -> & Hf2). split; [exact Hok2|]. rewrite rules_of_set, decide_True by done.
  split_and!.
  - exists (used ++ others). split; [done|]. by apply Forall2_app.
  - intros e He. rewrite rules_of_set, decide_False by done. unfold rules_of. by rewrite Ea2, Ea.
Qed.

Lemma clean_ok d s : fm_ok s ->
  let s' := cleanSwitchRules d s in fm_ok s' /\ rules_of d s' = [] /\ (forall e, e <> d -> rules_of e s' = rules_of e s).
Proof.
  intros Hok. cbv zeta. unfold cleanSwitchRules.
  assert (Hf : forall rs s, ok_with d rs s -> ok_with d [] (fold_left (fun s r => retire r s) rs s)
    /\ all_switches_rules (fold_left (fun s r => retire r s) rs s) = all_switches_rules s).
  { induction rs as [|r rs IH]; intros s0 H0; [done|]. cbn. apply (IH (retire r s0)). by apply (retire_ok d [] r rs). }
  destruct (Hf _ _ (ok_with_own d s Hok)) as [H1 H2]. split; [exact H1|]. split; [by rewrite rules_of_set, decide_True|].
  intros e He. rewrite rules_of_set, decide_False by done. unfold rules_of in H2 |- *. by rewrite H2.
Qed.

Lemma addRule_ok sw f s : fm_ok s -> fm_ok (addRule sw f s).
Proof. intros Hok. destruct sw as [sw|]; [|done]. cbn. exact (new_rule_ok (sw_id sw) _ f s (ok_with_own (sw_id sw) s Hok)). Qed.

(** ** The same flows again *)

Hypothesis equal_sym : forall f g, equalflows f g = true -> equalflows g f = true.
Hypothesis equal_trans : forall f g h, equalflows f g = true -> equalflows g h = true -> equalflows f h = true.

(** A rule may take any equal flow: the others find flows as before. *)
Lemma corresponds_take r rs f flows :
  corresponds (r :: rs) (f :: flows) -> equalflows f (ru_flow r) = true -> corresponds rs flows.
Proof.
  intros (fs & Hp & Hf) Ef. apply Forall2_cons_inv_l in Hf as (g & fs' & Eg & Hf & ->).
  assert (Hin : f ∈ g :: fs') by (rewrite <- Hp; by left). apply elem_of_cons in Hin as [->|Hin].
  - exists fs'. split; [by apply Permutation_cons_inv in Hp|done].
  - apply list_elem_of_split in Hin as (a & b & ->). exists (a ++ g :: b).
    assert (Hp' : f :: flows ≡ₚ f :: g :: a ++ b) by (rewrite Hp, <- Permutation_middle; apply perm_swap).
    apply Permutation_cons_inv in Hp'. split; [by rewrite Hp', <- Permutation_middle|].
    apply Forall2_app_inv_r in Hf as (ra & rb & Ha & Hb & ->). apply Forall2_cons_inv_r in Hb as (q & rb' & Eq & Hb & ->).
    apply Forall2_app; [done|]. constructor; [|done]. apply equal_trans with (ru_flow r); [done|]. apply equal_trans with f; [by apply equal_sym|done].
Qed.

Lemma keep_all rs flows s : corresponds rs flows -> keep_rules rs flows s = (rs, [], s).
Proof.
  revert flows. induction rs as [|r rs IH]; intros flows Hc; cbn.
  - destruct Hc as (fs & Hp & Hf). apply Forall2_nil_inv_l in Hf as ->. by apply Permutation_nil_r in Hp as ->.
  - destruct (take_flow (ru_flow r) flows) as [flows1|] eqn:Et.
    + destruct (take_flow_ok _ _ _ Et) as (g & Hg & Hp). rewrite IH; [done|]. apply (corresponds_take r rs g flows1); [|done].
      destruct Hc as (fs & Hp' & Hf). exists fs. split; [by rewrite <- Hp|done].
    + exfalso. destruct Hc as (fs & Hp & Hf). apply Forall2_cons_inv_l in Hf as (f & fs' & Ef & _ & ->).
      rewrite (take_flow_none _ _ f Et) in Ef; [done|]. rewrite Hp. by left.
Qed.

(** ** Which rules stay *)

(** The rules, and the flows, that are equal to a flow. *)
Definition rules_like (f : FlowStats) (rs : list rule) : list rule := List.filter (fun r => equalflows f (ru_flow r)) rs.
Definition reported (f : FlowStats) (flows : list FlowStats) : nat := length (List.filter (fun g => equalflows f g) flows).

Lemma equal_like f g h : equalflows g h = true -> equalflows f g = equalflows f h.
Proof. intros E. apply eq_true_iff_eq. split; intros Ef; eapply equal_trans; try done. by apply equal_sym. Qed.

Lemma reported_perm f flows flows' : flows ≡ₚ flows' -> reported f flows = reported f flows'.
Proof. intros Hp. unfold reported. induction Hp; cbn; repeat case_match; cbn; congruence. Qed.

Lemma reported_none f flows : (forall g, g ∈ flows -> equalflows f g = false) -> reported f flows = 0%nat.
Proof.
  unfold reported. induction flows as [|g flows IH]; intros Hno; [done|]. cbn. rewrite Hno by (by left). apply IH. intros h Hh. apply Hno. by right.
Qed.

(** Of the rules for equal flows the first stay, as many as there are flows equal to them. *)
Lemma keep_rules_first rs flows s : let '(kept, others, s') := keep_rules rs flows s in
  fm_next s' = fm_next s /\ sublist kept rs /\ forall f, rules_like f kept = take (reported f flows) (rules_like f rs).
Proof.
  revert flows s. induction rs as [|r rs IH]; intros flows s; cbn [keep_rules]; [split_and!; [done|done|]; intros f; cbn; by rewrite take_nil|].
  destruct (take_flow (ru_flow r) flows) as [flows1|] eqn:Et.
  - specialize (IH flows1 s). destruct (keep_rules rs flows1 s) as [[kept others] s']. destruct IH as (Hn & Hs & IH). split_and!; [done|by constructor|]. intros f.
    destruct (take_flow_ok _ _ _ Et) as (g & Hg & Hp). rewrite (reported_perm f _ _ Hp). unfold reported, rules_like in *. cbn [List.filter].
    rewrite (equal_like f g (ru_flow r) Hg). destruct (equalflows f (ru_flow r)); cbn [length take]; by rewrite IH.
  - specialize (IH flows (retire r s)). destruct (keep_rules rs flows (retire r s)) as [[kept others] s']. destruct IH as (Hn & Hs & IH). split_and!; [done|by constructor|]. intros f.
    rewrite IH. unfold rules_like at 2. cbn [List.filter]. destruct (equalflows f (ru_flow r)) eqn:Ef; [|done].
    rewrite (reported_none f flows); [done|]. intros g Hg. destruct (equalflows f g) eqn:Efg; [|done].
    rewrite <- (take_flow_none _ _ g Et Hg). symmetry. apply equal_trans with f; [by apply equal_sym|done].
Qed.

Lemma push_rules_fresh d flows rs s : exists new, (push_rules d flows rs s).1 = rs ++ new /\ Forall (fun r => (fm_next s <= ru_ptr r)%nat) new.
Proof.
  revert rs s. induction flows as [|f flows IH]; intros rs s; cbn [push_rules]; [exists []; by rewrite app_nil_r|]. cbn [new_rule].
  match goal with |- context [push_rules d flows (rs ++ [?r]) ?t] => destruct (IH (rs ++ [r]) t) as (new & -> & Hn); exists (r :: new) end.
  rewrite <- app_assoc. split; [done|]. constructor; [done|]. eapply Forall_impl; [exact Hn|]. cbn. lia.
Qed.

Lemma update_first d flows s : exists kept new, rules_of d (updateSwitchRules d flows s) = kept ++ new /\ sublist kept (rules_of d s) /\
  (forall f, rules_like f kept = take (reported f flows) (rules_like f (rules_of d s))) /\ Forall (fun r => (fm_next s <= ru_ptr r)%nat) new.
Proof.
  unfold updateSwitchRules. pose proof (keep_rules_first (rules_of d s) flows s) as Hk. destruct (keep_rules (rules_of d s) flows s) as [[kept others] s1].
  destruct Hk as (Hn & Hs & Hk). destruct (push_rules_fresh d others kept s1) as (new & Hp & Hf). destruct (push_rules d others kept s1) as [rules s2]. cbn in Hp. subst rules.
  exists kept, new. rewrite rules_of_set, decide_True by done. split_and!; [done|done|done|by rewrite <- Hn].
Qed.

Lemma update_same d flows s : corresponds (rules_of d s) flows -> updateSwitchRules d flows s = set_rules d (rules_of d s) s.
Proof. intros Hc. unfold updateSwitchRules. by rewrite (keep_all _ _ _ Hc). Qed.
End flow_manager.

(** ** Runs *)

Section runs.
Context {M I : Type}.
Variables (match_eqb : M -> M -> bool) (instructions_eqb : I -> I -> bool).

Inductive fm_op :=
| fm_response (dpid : Z) (flows : list (@FlowStats M I)) (m : switch_map)
| fm_add (sw : option switch) (flow : @FlowStats M I)
| fm_switch_down (dpid : Z).

Definition fm_step (op : fm_op) (s : @flow_manager M I) : res fm_fault flow_manager :=
  match op with
  | fm_response dpid flows m => fm_onResponse match_eqb instructions_eqb dpid flows m s
  | fm_add sw f => Ok (addRule sw f s)
  | fm_switch_down d => Ok (cleanSwitchRules d s)
  end.

Fixpoint fm_run (ops : list fm_op) (s : flow_manager) : res fm_fault flow_manager :=
  match ops with [] => Ok s | op :: ops => s ← fm_step op s; fm_run ops s end.

(** [==] of libfluid is an equality. *)
Definition equality {A} (eqb : A -> A -> bool) : Prop :=
  (forall a, eqb a a = true) /\ (forall a b, eqb a b = eqb b a) /\ forall a b c, eqb a b = true -> eqb b c = true -> eqb a c = true.

Lemma equalflows_equality : equality match_eqb -> equality instructions_eqb -> equality (equalflows match_eqb instructions_eqb).
Proof.
  intros (M1 & M2 & M3) (I1 & I2 & I3). unfold equality, equalflows. split_and!.
  - intros a. by rewrite !Z.eqb_refl, M1, I1.
  - intros a b. by rewrite (Z.eqb_sym (fs_cookie a)), (Z.eqb_sym (fs_hard_timeout a)), (Z.eqb_sym (fs_idle_timeout a)),
      (Z.eqb_sym (fs_priority a)), (Z.eqb_sym (fs_table_id a)), (Z.eqb_sym (fs_flags a)), M2, I2.
  - intros a b c. rewrite !andb_true_iff, !Z.eqb_eq. intros Hab Hbc. destruct_and!. split_and!; try congruence; eauto.
Qed.

Lemma fm_run_ok ops s s' : equality match_eqb -> equality instructions_eqb -> fm_run ops s = Ok s' -> fm_ok s -> fm_ok s'.
Proof.
  intros (M1 & _) (I1 & _). revert s. induction ops as [|op ops IH]; intros s Hr Hok; cbn in Hr; [by injection Hr as <-|].
  destruct (fm_step op s) as [s1|] eqn:E; [|done]. cbn in Hr. apply (IH s1 Hr). destruct op as [dpid flows m|sw f|d]; cbn in E.
  - unfold fm_onResponse in E. destruct (getSwitch dpid m) as [sw|]; [|done]. injection E as <-.
    by apply (updateSwitchRules_ok match_eqb instructions_eqb M1 I1 (sw_id sw) flows s).
  - injection E as <-. by apply addRule_ok.
  - injection E as <-. by apply clean_ok.
Qed.
End runs.

(** C31: The rules follow the flows the switches report.  After any run, one part of a
    reply of a known switch, which is taken for the whole, leaves for that switch one rule
    for each flow of the part and no other, in a one-to-one correspondence of equal ones.
    The rules that were there stay as they are, with their ids and in their order, as far
    as their flows are reported: of the rules for equal flows the first, as many as there
    are such flows.  They come first, then rules that are newly made.  The rules of
    other switches stay.  A listener to the events, which would get stuck at a rule
    added twice or deleted without being known, knows exactly the rules kept, and no
    two rules have one id before 2^64 have been made.  A part with the same flows in
    any order then changes no rule and reports nothing. *)
Theorem rules_follow_switch {M I} match_eqb instructions_eqb ops (s : @flow_manager M I) dpid m sw flows :
  equality match_eqb -> equality instructions_eqb -> fm_run match_eqb instructions_eqb ops new_flow_manager = Ok s ->
  m !! dpid = Some sw ->
  exists s', fm_onResponse match_eqb instructions_eqb dpid flows m s = Ok s'
    /\ corresponds match_eqb instructions_eqb (rules_of (sw_id sw) s') flows
    /\ (exists kept new, rules_of (sw_id sw) s' = kept ++ new /\ sublist kept (rules_of (sw_id sw) s) /\
         (forall f, rules_like match_eqb instructions_eqb f kept =
            take (reported match_eqb instructions_eqb f flows) (rules_like match_eqb instructions_eqb f (rules_of (sw_id sw) s))) /\
         Forall (fun r => (fm_next s <= ru_ptr r)%nat) new)
    /\ (forall e, e <> sw_id sw -> rules_of e s' = rules_of e s)
    /\ (exists K, hear_objects (fm_events s') ∅ = Some K /\ forall o, o ∈ K <-> exists d r, r ∈ rules_of d s' /\ ru_ptr r = o)
    /\ (Z.of_nat (fm_next s') <= 2 ^ 64 -> forall d e r r', r ∈ rules_of d s' -> r' ∈ rules_of e s' -> ru_id r = ru_id r' -> r = r')
    /\ forall flows', corresponds match_eqb instructions_eqb (rules_of (sw_id sw) s') flows' ->
         exists s'', fm_onResponse match_eqb instructions_eqb dpid flows' m s' = Ok s''
           /\ (forall e, rules_of e s'' = rules_of e s') /\ fm_events s'' = fm_events s'.
Proof.
  intros HM HI Hr Hm. pose proof (fm_run_ok _ _ _ _ _ HM HI Hr new_flow_manager_ok) as Hok.
  pose proof (equalflows_equality _ _ HM HI) as (_ & Es & Et). destruct HM as (M1 & _), HI as (I1 & _).
  destruct (updateSwitchRules_ok match_eqb instructions_eqb M1 I1 (sw_id sw) flows s Hok) as (Hok' & Hc & Hother).
  exists (updateSwitchRules match_eqb instructions_eqb (sw_id sw) flows s). unfold fm_onResponse, getSwitch. rewrite Hm.
  split_and!; [done|done| |done|by apply Hok'| |].
  - apply update_first; [intros f g; by rewrite Es|exact Et].
  - intros Hlt d e r r' Hrd Hre E. apply (fo_inj _ Hok' d e); [done|done|].
    destruct (fo_fresh _ Hok' d r Hrd) as (L1 & E1 & _), (fo_fresh _ Hok' e r' Hre) as (L2 & E2 & _).
    rewrite E1, E2 in E. rewrite !(wrap_small 64) in E by (unfold in_width; lia). lia.
  - intros flows' Hc'. eexists. split; [reflexivity|]. rewrite update_same; [|intros f g; by rewrite Es|exact Et|done].
    split; [|done]. intros e. rewrite rules_of_set. by destruct (decide (e = sw_id sw)) as [->|].
Qed.

(** ** Examples

    Matches and instructions are numbers. *)

Definition stats (cookie : Z) : @FlowStats Z Z := Stats cookie 0 0 1 0 0 0 0.
Definition sample_fm_ops : list (@fm_op Z Z) := [fm_response 1 [stats 1; stats 2; stats 1] {[1 := new_switch (FeaturesReply 1 0 0 0)]}].

Lemma Z_equality : equality Z.eqb.
Proof.
  split_and!; [apply Z.eqb_refl|apply Z.eqb_sym|]. intros a b c. rewrite !Z.eqb_eq. congruence.
Qed.

(** Of the rules for flows 1, 2 and 1 the second stays, and flow 3 gets a rule. *)
Lemma rules_follow_switch_witness :
  exists s s', fm_run Z.eqb Z.eqb sample_fm_ops new_flow_manager = Ok s
    /\ fm_onResponse Z.eqb Z.eqb 1 [stats 3; stats 2] {[1 := new_switch (FeaturesReply 1 0 0 0)]} s = Ok s'
    /\ map (fun r => (ru_id r, fs_cookie (ru_flow r))) (rules_of 1 s') = [(2, 2); (4, 3)]
    /\ corresponds Z.eqb Z.eqb (rules_of 1 s') [stats 3; stats 2].
Proof.
  assert (Hr : exists s, fm_run Z.eqb Z.eqb sample_fm_ops new_flow_manager = Ok s) by (eexists; vm_compute; reflexivity).
  destruct Hr as [s Hr].
  destruct (rules_follow_switch Z.eqb Z.eqb sample_fm_ops s 1 {[1 := new_switch (FeaturesReply 1 0 0 0)]} (new_switch (FeaturesReply 1 0 0 0))
              [stats 3; stats 2] Z_equality Z_equality Hr) as (s' & E & Hc & _); [reflexivity|].
  exists s, s'. split; [exact Hr|]. split; [exact E|]. split; [|exact Hc].
  vm_compute in Hr. injection Hr as <-. vm_compute in E. injection E as <-. reflexivity.
Defined.

(** A reply in two parts: each part is taken for the whole, so the rules of the first
    part are deleted when the second arrives.  And a reply from a switch the manager
    does not know is a null dereference. *)
Theorem split_replies_lose_rules :
  let m := {[1 := new_switch (FeaturesReply 1 0 0 0)]} in
  (exists s, fm_run Z.eqb Z.eqb [fm_response 1 [stats 1; stats 2] m; fm_response 1 [stats 3] m] new_flow_manager = Ok s
     /\ map (fun r => fs_cookie (ru_flow r)) (rules_of 1 s) = [3]
     /\ fm_events s = [(Add, 1%nat); (Add, 2%nat); (Delete, 1%nat); (Delete, 2%nat); (Add, 3%nat)])
  /\ fm_run Z.eqb Z.eqb [fm_response 2 [stats 1] m] new_flow_manager = Throw fm_null_switch.
Proof. cbv zeta. split; [eexists; split; [vm_compute; reflexivity|split; reflexivity]|vm_compute; reflexivity]. Qed.
