(* ===== verification/Json.v ===== *)
(** * JSON (src/json11.cpp, src/json11.hpp)

    Values, their text, the recursive-descent parser with its error messages, and
    equality.  The parser is a record of position and error, as in the code; what is
    left of the text and what has been read stand for the index into it. *)

From S2P Require Import Prelude Regex RaftWire.
Local Open Scope Z_scope.

(** ** Floating-point numbers

    What the code uses of [double]; the operations are the platform's. *)
Class Doubles (double : Type) := {
  of_int : Z -> double;                        (* static_cast<double>(int) *)
  to_int : double -> Z;                        (* static_cast<int>(double) *)
  deq : double -> double -> bool;              (* == *)
  print_double : double -> list ascii;         (* snprintf "%.17g" *)
  atof : list ascii -> double;                 (* std::atof *)
}.

(** ** Values *)

(** [std::map<std::string, T>]: the members in the order of their keys. *)
Definition key_lt (k1 k2 : string) : bool := match String.compare k1 k2 with Lt => true | _ => false end.

Section map.
Context {A : Type}.

(** [map.find] *)
Fixpoint obj_find (key : string) (o : list (string * A)) : option A :=
  match o with [] => None | (k, v) :: o => if bool_decide (k = key) then Some v else obj_find key o end.

(** [map[key] = value] *)
Fixpoint obj_set (key : string) (value : A) (o : list (string * A)) : list (string * A) :=
  match o with
  | [] => [(key, value)]
  | (k, v) :: o' =>
      match String.compare key k with
      | Lt => (key, value) :: o
      | Eq => (key, value) :: o'
      | Gt => (k, v) :: obj_set key value o'
      end
  end.

Fixpoint keys_above (key : string) (o : list (string * A)) : bool :=
  match o with [] => true | (k, _) :: o => key_lt key k && keys_above key o end.
Fixpoint sorted_keys (o : list (string * A)) : bool :=
  match o with [] => true | (k, _) :: o => keys_above k o && sorted_keys o end.
End map.

Inductive json {double : Type} :=
| JNull
| JInt (n : Z)
| JDouble (d : double)
| JBool (b : bool)
| JString (s : string)
| JArray (l : list json)
| JObject (o : list (string * json)).
Arguments json double : clear implicits.

Inductive json_type := NUL | NUMBER | BOOL | STRING | ARRAY | OBJECT.

#[export] Instance json_type_dec : EqDecision json_type.
Proof. solve_decision. Defined.

Section json.
Context {double : Type} `{Doubles double}.
Abbreviation json := (json double).
Abbreviation json_object := (list (string * json)).

(** *** Accessors: a value of another type is 0, false or empty. *)
Definition type (j : json) : json_type :=
  match j with
  | JNull => NUL | JInt _ | JDouble _ => NUMBER | JBool _ => BOOL | JString _ => STRING | JArray _ => ARRAY | JObject _ => OBJECT
  end.
Definition number_value (j : json) : double := match j with JInt n => of_int n | JDouble d => d | _ => of_int 0 end.
Definition int_value (j : json) : Z := match j with JInt n => n | JDouble d => to_int d | _ => 0 end.
Definition bool_value (j : json) : bool := match j with JBool b => b | _ => false end.
Definition string_value (j : json) : string := match j with JString s => s | _ => EmptyString end.
Definition array_items (j : json) : list json := match j with JArray l => l | _ => [] end.
Definition object_items (j : json) : json_object := match j with JObject o => o | _ => [] end.

(** [operator[]] *)
Definition at_index (j : json) (i : nat) : json := match j with JArray l => default JNull (l !! i) | _ => JNull end.
Definition at_key (j : json) (key : string) : json := match j with JObject o => default JNull (obj_find key o) | _ => JNull end.

(** [operator==] *)
Fixpoint json_eqb (a b : json) {struct a} : bool :=
  match a with
  | JNull => bool_decide (type b = NUL)
  | JInt n => bool_decide (type b = NUMBER) && deq (of_int n) (number_value b)
  | JDouble d => bool_decide (type b = NUMBER) && deq d (number_value b)
  | JBool x => match b with JBool y => Bool.eqb x y | _ => false end
  | JString x => match b with JString y => bool_decide (x = y) | _ => false end
  | JArray x =>
      match b with
      | JArray y =>
          (fix go (x y : list json) :=
             match x, y with [], [] => true | u :: x, v :: y => json_eqb u v && go x y | _, _ => false end) x y
      | _ => false
      end
  | JObject x =>
      match b with
      | JObject y =>
          (fix go (x y : json_object) :=
             match x, y with
             | [], [] => true
             | (k, u) :: x, (k', v) :: y => bool_decide (k = k') && json_eqb u v && go x y
             | _, _ => false
             end) x y
      | _ => false
      end
  end.

(** ** Text *)

Definition dq : ascii := "034"%char.
Definition backslash : ascii := "092"%char.
(** [char] from a code. *)
Definition to_char (n : Z) : ascii := ascii_of_nat (Z.to_nat (n mod 256)).
(** [%d] *)
Definition print_int (n : Z) : list ascii := if n <? 0 then "-"%char :: show_base 10 (- n) else show_base 10 n.
(** [%04x] of a small number. *)
Definition hex4 (n : Z) : list ascii := let ds := show_base 16 n in replicate (4 - length ds) "0"%char ++ ds.

Fixpoint dump_chars (s : list ascii) : list ascii :=
  match s with
  | [] => []
  | ch :: s' =>
      let n := char_code ch in
      if n =? 92 then backslash :: backslash :: dump_chars s'
      else if n =? 34 then backslash :: dq :: dump_chars s'
      else if n =? 8 then backslash :: "b"%char :: dump_chars s'
      else if n =? 12 then backslash :: "f"%char :: dump_chars s'
      else if n =? 10 then backslash :: "n"%char :: dump_chars s'
      else if n =? 13 then backslash :: "r"%char :: dump_chars s'
      else if n =? 9 then backslash :: "t"%char :: dump_chars s'
      else if n <=? 0x1f then backslash :: "u"%char :: hex4 n ++ dump_chars s'
      else
        match s' with
        | c1 :: c2 :: s'' =>
            if (n =? 0xe2) && (char_code c1 =? 0x80) && (char_code c2 =? 0xa8) then backslash :: chars "u2028" ++ dump_chars s''
            else if (n =? 0xe2) && (char_code c1 =? 0x80) && (char_code c2 =? 0xa9) then backslash :: chars "u2029" ++ dump_chars s''
            else ch :: dump_chars s'
        | _ => ch :: dump_chars s'
        end
  end.
Definition dump_string (s : string) : list ascii := dq :: dump_chars (chars s) ++ [dq].

(** The parts of an array or object, with commas between them. *)
Fixpoint commas (l : list (list ascii)) : list ascii :=
  match l with [] => [] | [x] => x | x :: l => x ++ chars ", " ++ commas l end.

Fixpoint dump (j : json) : list ascii :=
  match j with
  | JNull => chars "null"
  | JInt n => print_int n
  | JDouble d => print_double d
  | JBool b => chars (if b then "true" else "false")
  | JString s => dump_string s
  | JArray l => "["%char :: commas (map dump l) ++ ["]"%char]
  | JObject o => "{"%char :: commas (map (fun kv => dump_string kv.1 ++ chars ": " ++ dump kv.2) o) ++ ["}"%char]
  end.

(** [has_shape]: whether it has, and the error otherwise. *)
Fixpoint shape_errors (j : json) (types : list (string * json_type)) : option (list ascii) :=
  match types with
  | [] => None
  | (k, t) :: types =>
      if bool_decide (type (at_key j k) = t) then shape_errors j types
      else Some (chars "bad type for " ++ chars k ++ chars " in " ++ dump j)
  end.
Definition has_shape (j : json) (types : list (string * json_type)) : bool * option (list ascii) :=
  match j with
  | JObject _ => let e := shape_errors j types in (bool_decide (e = None), e)
  | _ => (false, Some (chars "expected JSON object, got " ++ dump j))
  end.

(** ** struct JsonParser

    [past], the other way round, and [rest] are the text before and from index [i]. *)
Record parser := Parser { past : list ascii; rest : list ascii; err : list ascii; failed : bool }.

(** What a loop may do beyond the steps given to it. *)
Inductive fuel := out_of_fuel.
Abbreviation P A := (st fuel parser A).

(** [str[i]], which is 0 at the end. *)
Definition nul : ascii := "000"%char.
Definition peek (p : parser) : ascii := match rest p with c :: _ => c | [] => nul end.
Definition cur : P ascii := p ← st_get; mret (peek p).
Definition has_failed : P bool := p ← st_get; mret (failed p).
(** [i += n], [i--] *)
Definition advance (n : nat) : P unit :=
  st_update (fun p => Parser (rev (take n (rest p)) ++ past p) (drop n (rest p)) (err p) (failed p)).
Definition back : P unit :=
  st_update (fun p => match past p with c :: l => Parser l (c :: rest p) (err p) (failed p) | [] => p end).

Definition fail {A} (msg : list ascii) (err_ret : A) : P A :=
  st_update (fun p => Parser (past p) (rest p) (if failed p then err p else msg) true) ;; mret err_ret.

(** [esc(c)], with [char] signed. *)
Definition schar (c : ascii) : Z := if char_code c <? 128 then char_code c else char_code c - 256.
Definition in_range (x lower upper : Z) : bool := (lower <=? x) && (x <=? upper).
Definition esc (c : ascii) : list ascii :=
  if in_range (char_code c) 0x20 0x7f then "'"%char :: c :: chars "' (" ++ print_int (schar c) ++ chars ")"
  else chars "(" ++ print_int (schar c) ++ chars ")".

Definition is_blank (c : ascii) : bool :=
  (char_code c =? 32) || (char_code c =? 13) || (char_code c =? 10) || (char_code c =? 9).
Definition consume_whitespace : P unit :=
  st_update (fun p => let '(w, r) := span is_blank (rest p) in Parser (rev w ++ past p) r (err p) (failed p)).

Definition get_next_token : P ascii :=
  consume_whitespace ;;
  p ← st_get;
  match rest p with
  | [] => fail (chars "unexpected end of input") nul
  | c :: _ => advance 1 ;; mret c
  end.

Definition encode_utf8 (pt : Z) : list ascii :=
  if pt <? 0 then []
  else if pt <? 0x80 then [to_char pt]
  else if pt <? 0x800 then [to_char (Z.lor (Z.shiftr pt 6) 0xC0); to_char (Z.lor (Z.land pt 0x3F) 0x80)]
  else if pt <? 0x10000 then
    [to_char (Z.lor (Z.shiftr pt 12) 0xE0); to_char (Z.lor (Z.land (Z.shiftr pt 6) 0x3F) 0x80); to_char (Z.lor (Z.land pt 0x3F) 0x80)]
  else
    [to_char (Z.lor (Z.shiftr pt 18) 0xF0); to_char (Z.lor (Z.land (Z.shiftr pt 12) 0x3F) 0x80);
     to_char (Z.lor (Z.land (Z.shiftr pt 6) 0x3F) 0x80); to_char (Z.lor (Z.land pt 0x3F) 0x80)].

(** The character an escape other than [\u] stands for. *)
Definition unescape (ch : ascii) : option ascii :=
  let n := char_code ch in
  if n =? 98 then Some "008"%char else if n =? 102 then Some "012"%char else if n =? 110 then Some "010"%char
  else if n =? 114 then Some "013"%char else if n =? 116 then Some "009"%char
  else if (n =? 34) || (n =? 92) || (n =? 47) then Some ch else None.

(** The loop of [parse_string]: where it stops, and the string or the error. *)
Fixpoint string_loop (past rest out : list ascii) (last_escaped_codepoint : Z) :
    list ascii * list ascii * (list ascii + list ascii) :=
  let flush := out ++ encode_utf8 last_escaped_codepoint in
  match rest with
  | [] => (past, [], inr (chars "unexpected end of input in string"))
  | ch :: rest =>
      if char_code ch =? 34 then (ch :: past, rest, inl flush)
      else if in_range (schar ch) 0 0x1f then (ch :: past, rest, inr (chars "unescaped " ++ esc ch ++ chars " in string"))
      else if negb (char_code ch =? 92) then string_loop (ch :: past) rest (flush ++ [ch]) (-1)
      else
        match rest with
        | [] => (ch :: past, [], inr (chars "unexpected end of input in string"))
        | ch2 :: rest =>
            let past := ch2 :: ch :: past in
            if char_code ch2 =? 117 then
              let bad := (past, rest, inr (chars "bad \u escape: " ++ take 4 rest)) in
              match rest with
              | h1 :: h2 :: h3 :: h4 :: rest =>
                  let hex := [h1; h2; h3; h4] in
                  if forallb is_xdigit hex then
                    let codepoint := stoi 16 hex in
                    let past := h4 :: h3 :: h2 :: h1 :: past in
                    if in_range last_escaped_codepoint 0xD800 0xDBFF && in_range codepoint 0xDC00 0xDFFF then
                      string_loop past rest
                        (out ++ encode_utf8 (Z.lor (Z.shiftl (last_escaped_codepoint - 0xD800) 10) (codepoint - 0xDC00) + 0x10000)) (-1)
                    else string_loop past rest flush codepoint
                  else bad
              | _ => bad
              end
            else
              match unescape ch2 with
              | Some c => string_loop past rest (flush ++ [c]) (-1)
              | None => (past, rest, inr (chars "invalid escape character " ++ esc ch2))
              end
        end
  end.

Definition parse_string : P string :=
  p ← st_get;
  let '(past, rest, r) := string_loop (past p) (rest p) [] (-1) in
  st_update (fun p => Parser past rest (err p) (failed p)) ;;
  match r with inl s => mret (string_of_list_ascii s) | inr msg => fail msg EmptyString end.

(** [std::atoi] *)
Definition atoi (s : list ascii) : Z :=
  match s with "-"%char :: s => - stoi 10 (span is_digit s).1 | _ => stoi 10 (span is_digit s).1 end.

Definition skip_digits : P unit :=
  st_update (fun p => let '(w, r) := span is_digit (rest p) in Parser (rev w ++ past p) r (err p) (failed p)).
Definition advance_if (b : ascii -> bool) : P bool := c ← cur; if b c then advance 1 ;; mret true else mret false.
Definition is_char (x c : ascii) : bool := Ascii.eqb c x.

(** The parts of [parse_number]; false if the parse failed. *)
Definition integer_part : P bool :=
  zero ← advance_if (is_char "0");
  if zero : bool then
    c ← cur; if is_digit c then fail (chars "leading 0s not permitted in numbers") false else mret true
  else
    nonzero ← advance_if (fun c => in_range (schar c) 49 57);
    if nonzero : bool then skip_digits ;; mret true
    else c ← cur; fail (chars "invalid " ++ esc c ++ chars " in number") false.
Definition some_digits (msg : string) : P bool :=
  c ← cur; if is_digit c then skip_digits ;; mret true else fail (chars msg) false.
Definition decimal_part : P bool :=
  dot ← advance_if (is_char ".");
  if dot : bool then some_digits "at least one digit required in fractional part" else mret true.
Definition exponent_part : P bool :=
  e ← advance_if (fun c => is_char "e" c || is_char "E" c);
  if e : bool then
    advance_if (fun c => is_char "+" c || is_char "-" c) ;; some_digits "at least one digit required in exponent"
  else mret true.

(** [std::numeric_limits<int>::digits10] *)
Definition digits10 : nat := 9.

Definition parse_number : P json :=
  p ← st_get;
  let start := rest p in
  advance_if (is_char "-") ;;
  ok ← integer_part;
  if negb ok then mret JNull
  else
    p ← st_get;
    let c := peek p in
    if negb (is_char "." c || is_char "e" c || is_char "E" c) && (length start - length (rest p) <=? digits10)%nat
    then mret (JInt (atoi start))
    else
      ok ← decimal_part;
      if negb ok then mret JNull
      else ok ← exponent_part; mret (if ok : bool then JDouble (atof start) else JNull).

(** [expect(expected, res)] *)
Definition expect (expected : string) (res : json) : P json :=
  back ;;
  p ← st_get;
  let found := take (length (chars expected)) (rest p) in
  if bool_decide (chars expected = found) then advance (length (chars expected)) ;; mret res
  else fail (chars "parse error: expected " ++ chars expected ++ chars ", got " ++ found) JNull.

Section nested.
(** [parse_json(depth + 1)] *)
Variable value : P json.

(** The loop of an object, with what was read so far and the token before it. *)
Fixpoint object_loop (fuel : nat) (data : json_object) (ch : ascii) : P json :=
  match fuel with
  | O => st_lift (Throw out_of_fuel)
  | S fuel =>
      if negb (is_char dq ch) then fail (chars "expected '" ++ dq :: chars "' in object, got " ++ esc ch) JNull
      else
        key ← parse_string; f ← has_failed;
        if f : bool then mret JNull
        else
          ch ← get_next_token;
          if negb (is_char ":" ch) then fail (chars "expected ':' in object, got " ++ esc ch) JNull
          else
            v ← value; f ← has_failed;
            if f : bool then mret JNull
            else
              let data := obj_set key v data in
              ch ← get_next_token;
              if is_char "}" ch then mret (JObject data)
              else if negb (is_char "," ch) then fail (chars "expected ',' in object, got " ++ esc ch) JNull
              else ch ← get_next_token; object_loop fuel data ch
  end.

(** The loop of an array. *)
Fixpoint array_loop (fuel : nat) (data : list json) : P json :=
  match fuel with
  | O => st_lift (Throw out_of_fuel)
  | S fuel =>
      back ;; v ← value; f ← has_failed;
      if f : bool then mret JNull
      else
        let data := data ++ [v] in
        ch ← get_next_token;
        if is_char "]" ch then mret (JArray data)
        else if negb (is_char "," ch) then fail (chars "expected ',' in list, got " ++ esc ch) JNull
        else get_next_token ;; array_loop fuel data
  end.
End nested.

(** [parse_json(depth)], with the levels that are left, [max_depth + 1 - depth]. *)
Fixpoint parse_json (fuel levels : nat) : P json :=
  match levels with
  | O => fail (chars "exceeded maximum nesting depth") JNull
  | S levels =>
      ch ← get_next_token; f ← has_failed;
      if f : bool then mret JNull
      else if is_char "-" ch || is_digit ch then back ;; parse_number
      else if is_char "t" ch then expect "true" (JBool true)
      else if is_char "f" ch then expect "false" (JBool false)
      else if is_char "n" ch then expect "null" JNull
      else if is_char dq ch then s ← parse_string; mret (JString s)
      else if is_char "{" ch then
        ch ← get_next_token;
        if is_char "}" ch then mret (JObject []) else object_loop (parse_json fuel levels) fuel [] ch
      else if is_char "[" ch then
        ch ← get_next_token;
        if is_char "]" ch then mret (JArray []) else array_loop (parse_json fuel levels) fuel []
      else fail (chars "expected value, got " ++ esc ch) JNull
  end.

Definition max_depth : nat := 200.
Definition new_parser (text : list ascii) : parser := Parser [] text [] false.
(** A loop runs at most once for each character. *)
Definition loop_fuel (text : list ascii) : nat := S (length text).

Definition parse_then (text : list ascii) : P json :=
  result ← parse_json (loop_fuel text) (S max_depth);
  consume_whitespace ;;
  p ← st_get;
  match rest p with
  | c :: _ => fail (chars "unexpected trailing " ++ esc c) JNull
  | [] => mret result
  end.

(** [Json::parse(in, err)]: the value, and the error. *)
Definition json_parse (text : list ascii) : option (json * list ascii) :=
  match parse_then text (new_parser text) with
  | (p, Ok j) => Some (j, err p)
  | (_, Throw _) => None
  end.

(** [Json::parse_multi] *)
Fixpoint multi_loop (fuel : nat) (text : list ascii) (json_vec : list json) : P (list json) :=
  match fuel with
  | O => st_lift (Throw out_of_fuel)
  | S fuel =>
      p ← st_get;
      if match rest p with [] => true | _ => failed p end then mret json_vec
      else v ← parse_json (loop_fuel text) (S max_depth); consume_whitespace ;; multi_loop fuel text (json_vec ++ [v])
  end.
Definition parse_multi (text : list ascii) : option (list json * list ascii) :=
  match multi_loop (loop_fuel text) text [] (new_parser text) with
  | (p, Ok js) => Some (js, err p)
  | (_, Throw _) => None
  end.
End json.

(** * The map of an object *)

Lemma string_compare_refl k : String.compare k k = Eq.
Proof. induction k as [|c k IH]; cbn; [done|]. unfold Ascii.compare. by rewrite N.compare_refl. Qed.

Lemma key_lt_trans k1 k2 k3 : key_lt k1 k2 = true -> key_lt k2 k3 = true -> key_lt k1 k3 = true.
Proof.
  unfold key_lt. revert k2 k3. induction k1 as [|c1 k1 IH]; intros [|c2 k2] [|c3 k3]; cbn; try done.
  unfold Ascii.compare. destruct (N.compare_spec (N_of_ascii c1) (N_of_ascii c2)) as [E1|E1|]; [| |done];
    destruct (N.compare_spec (N_of_ascii c2) (N_of_ascii c3)) as [E2|E2|]; try done; intros H1 H2.
  - rewrite E1, E2, N.compare_refl. by eapply IH.
  - rewrite E1. apply N.compare_lt_iff in E2. by rewrite E2.
  - rewrite <- E2. apply N.compare_lt_iff in E1. by rewrite E1.
  - assert (E3 := N.lt_trans _ _ _ E1 E2). apply N.compare_lt_iff in E3. by rewrite E3.
Qed.

Section map.
Context {A : Type}.
Implicit Types (o : list (string * A)) (v : A).

Lemma keys_above_trans k k' o : key_lt k k' = true -> keys_above k' o = true -> keys_above k o = true.
Proof.
  intros Hk. induction o as [|[k1 v1] o IH]; cbn; [done|]. intros [H1 H2]%andb_true_iff. apply andb_true_iff. split; [|auto].
  by eapply key_lt_trans.
Qed.

Lemma keys_above_set k key v o : key_lt k key = true -> keys_above k o = true -> keys_above k (obj_set key v o) = true.
Proof.
  intros Hk. induction o as [|[k1 v1] o IH]; cbn; [by rewrite Hk|]. intros [H1 H2]%andb_true_iff.
  destruct (String.compare key k1) eqn:E; cbn; rewrite ?Hk, ?H1, ?H2; cbn; auto.
Qed.

Lemma obj_set_sorted key v o : sorted_keys o = true -> sorted_keys (obj_set key v o) = true.
Proof.
  induction o as [|[k1 v1] o IH]; cbn; [done|]. intros [H1 H2]%andb_true_iff. destruct (String.compare key k1) eqn:E; cbn.
  - apply String.compare_eq_iff in E as ->. by rewrite H1.
  - assert (Hk : key_lt key k1 = true) by (unfold key_lt; by rewrite E).
    by rewrite Hk, H1, H2, (keys_above_trans key k1) by done.
  - rewrite IH by done. rewrite keys_above_set; [done| |done]. unfold key_lt. by rewrite String.compare_antisym, E.
Qed.

(** In order, an object is built by adding at the end. *)
Lemma obj_set_snoc key v o : forallb (fun kv => key_lt kv.1 key) o = true -> obj_set key v o = o ++ [(key, v)].
Proof.
  induction o as [|[k1 v1] o IH]; cbn; [done|]. intros [H1 H2]%andb_true_iff. unfold key_lt in H1.
  rewrite String.compare_antisym. destruct (String.compare k1 key); try done. cbn. by rewrite IH.
Qed.

Lemma obj_set_forall (f : A -> bool) key v o :
  f v = true -> forallb (fun kv => f kv.2) o = true -> forallb (fun kv => f kv.2) (obj_set key v o) = true.
Proof.
  intros Hv. induction o as [|[k1 v1] o IH]; cbn; [by rewrite Hv|]. intros [H1 H2]%andb_true_iff.
  destruct (String.compare key k1); cbn; rewrite ?Hv, ?H1, ?H2; cbn; auto.
Qed.
End map.
