(* ===== verification/JsonTotal.v ===== *)
(** * JSON: every text is parsed

    The parser of Json.v comes to an end on every text, and what it gives is a
    well-formed value, or an error with null or an empty string. *)

From S2P Require Import Prelude Regex RaftWire Json.
Local Open Scope Z_scope.

(** ** Termination *)


Section termination.
Context {double : Type} `{Doubles double}.
Abbreviation P A := (st fuel parser A).

(** From a state with at most [n] characters left, or a failed one, [m] comes to an
    end; unless it fails, [Q] is between its value and what is left before and after. *)
Definition runs {A} (n : nat) (m : P A) (Q : A -> nat -> nat -> Prop) : Prop := forall p,
  (failed p = false -> (length (rest p) <= n)%nat) ->
  exists p' a, m p = (p', Ok a) /\ (failed p = true -> failed p' = true) /\
    (failed p' = false -> Q a (length (rest p)) (length (rest p'))).

Lemma runs_bind {A B} n n' (m : P A) (f : A -> P B) (Q : A -> nat -> nat -> Prop) (R : B -> nat -> nat -> Prop) :
  runs n m Q ->
  (forall a x y, Q a x y -> (x <= n)%nat -> (y <= n')%nat) ->
  (forall a, runs n' (f a) (fun b y z => forall x, (x <= n)%nat -> Q a x y -> R b x z)) ->
  runs n (m ≫= f) R.
Proof.
  intros Hm Hn Hf p Hp. destruct (Hm p Hp) as (p1 & a & E1 & Hfail1 & HQ).
  assert (Hback : failed p1 = false -> failed p = false) by (intros E; destruct (failed p); [by rewrite Hfail1 in E|done]).
  destruct (Hf a p1) as (p2 & b & E2 & Hfail2 & HR); [intros Hp1; eapply Hn; eauto|].
  exists p2, b. unfold mbind, st_bind. rewrite E1. split; [done|]. split; [auto|]. intros Hp2.
  assert (failed p1 = false) by (destruct (failed p1); [by rewrite Hfail2 in Hp2|done]). apply HR; eauto.
Qed.

Lemma runs_ret {A} n (a : A) (Q : A -> nat -> nat -> Prop) : (forall x, (x <= n)%nat -> Q a x x) -> runs n (mret a) Q.
Proof.
  intros HQ p Hp. exists p, a. split; [done|]. split; [done|]. intros E. auto.
Qed.

Lemma runs_fail {A} n msg (a : A) Q : runs n (fail msg a) Q.
Proof. intros p _. eexists _, _. split; [reflexivity|]. by split. Qed.

Lemma runs_weaken {A} n n' (m : P A) (Q Q' : A -> nat -> nat -> Prop) :
  runs n m Q -> (n' <= n)%nat -> (forall a x y, (x <= n')%nat -> Q a x y -> Q' a x y) -> runs n' m Q'.
Proof.
  intros Hm Hn HQ p Hp. destruct (Hm p) as (p' & a & E & Hf & HQp); [intros ?; specialize (Hp ltac:(done)); lia|].
  exists p', a. split; [done|]. split; [done|]. intros E'. apply HQ; [|auto]. apply Hp. destruct (failed p); [by rewrite Hf in E'|done].
Qed.

(** A step that is a function of the state and does not fail. *)
Lemma runs_step {A} n (g : parser -> parser) (v : parser -> A) (Q : A -> nat -> nat -> Prop) :
  (forall p, failed (g p) = failed p) -> (forall p, (length (rest p) <= n)%nat -> Q (v p) (length (rest p)) (length (rest (g p)))) ->
  runs n (fun p => (g p, Ok (v p))) Q.
Proof. intros Hg HQ p Hp. eexists _, _. split; [reflexivity|]. rewrite Hg. split; [done|]. auto. Qed.

Definition shrinks (k : nat) {A} : A -> nat -> nat -> Prop := fun _ x y => (y + k <= x)%nat.

Lemma span_length q s : (length (span q s).1 + length (span q s).2 = length s)%nat.
Proof. induction s as [|c s IH]; cbn; [done|]. destruct (q c); cbn; [|done]. destruct (span q s). cbn in *. lia. Qed.

Lemma back_runs n : runs n back (fun _ x y => (y <= S x)%nat).
Proof. apply (runs_step n _ (fun _ => tt)); intros [[|c l] r e f]; cbn; done || lia. Qed.

Lemma consume_whitespace_runs n : runs n consume_whitespace (shrinks 0).
Proof.
  apply (runs_step n _ (fun _ => tt)); intros p; pose proof (span_length is_blank (rest p)) as Hl; destruct (span is_blank (rest p)); [done|].
  unfold shrinks. cbn in *. lia.
Qed.

Lemma skip_digits_runs n : runs n skip_digits (shrinks 0).
Proof.
  apply (runs_step n _ (fun _ => tt)); intros p; pose proof (span_length is_digit (rest p)) as Hl; destruct (span is_digit (rest p)); [done|].
  unfold shrinks. cbn in *. lia.
Qed.

Lemma get_next_token_runs n : runs n get_next_token (shrinks 1).
Proof.
  apply (runs_bind n n _ _ (shrinks 0)); [apply consume_whitespace_runs|unfold shrinks; intros; lia|]. intros ? p Hp.
  unfold mbind, st_bind. cbn -[advance fail].
  destruct (rest p) as [|c r] eqn:E; [by eexists _, _|]. eexists _, _. split; [reflexivity|]. split; [done|].
  intros _ x _ Hs. unfold shrinks in *. cbn in *. rewrite E in *. cbn in *. rewrite drop_0. lia.
Qed.

Lemma cur_runs n : runs n cur (fun _ x y => y = x).
Proof. by apply (runs_step n (fun p => p) peek). Qed.
Lemma has_failed_runs n : runs n has_failed (fun a x y => a = false /\ y = x).
Proof. intros p Hp. exists p, (failed p). by split_and!. Qed.

Lemma advance_if_eq b p : advance_if b p = if b (peek p) then ((advance 1 p).1, Ok true) else (p, Ok false).
Proof.
  transitivity ((if b (peek p) then advance 1 ;; mret true else mret false) p); [reflexivity|]. destruct (b (peek p)); reflexivity.
Qed.

Lemma advance_if_runs n b : b nul = false -> runs n (advance_if b) (fun a x y => if a : bool then S y = x else y = x).
Proof.
  intros Hb p Hp. rewrite advance_if_eq. unfold peek.
  destruct (rest p) as [|c r] eqn:E; [rewrite Hb; eexists _, _; split; [reflexivity|]; by rewrite E|].
  destruct (b c); eexists _, _; (split; [reflexivity|]); cbn; rewrite E; split_and!; done.
Qed.

(** Chain the steps of a parser. *)
Lemma runs_if {A} n (b : bool) (m1 m2 : P A) Q : (b = true -> runs n m1 Q) -> (b = false -> runs n m2 Q) -> runs n (if b then m1 else m2) Q.
Proof. destruct b; auto. Qed.

Lemma some_digits_runs n msg : runs n (some_digits msg) (fun a x y => a = true /\ (y <= x)%nat).
Proof.
  unfold some_digits. apply (runs_bind n n _ _ _ _ (cur_runs n)); [intros; lia|]. intros c. apply runs_if; intros _; [|apply runs_fail].
  apply (runs_bind n n _ _ _ _ (skip_digits_runs n)); [unfold shrinks; intros; lia|]. intros ?. apply runs_ret. unfold shrinks. intros; lia.
Qed.

Lemma decimal_part_runs n : runs n decimal_part (fun a x y => a = true /\ (y <= x)%nat).
Proof.
  unfold decimal_part. apply (runs_bind n n _ _ _ _ (advance_if_runs n _ eq_refl)); [intros []; lia|]. intros []; cbv iota.
  - eapply runs_weaken; [apply (some_digits_runs n)|lia|]. cbn. intros; intuition lia.
  - apply runs_ret. intuition lia.
Qed.

Lemma exponent_part_runs n : runs n exponent_part (fun a x y => a = true /\ (y <= x)%nat).
Proof.
  unfold exponent_part. apply (runs_bind n n _ _ _ _ (advance_if_runs n _ eq_refl)); [intros []; lia|]. intros []; cbv iota.
  - apply (runs_bind n n _ _ _ _ (advance_if_runs n _ eq_refl)); [intros []; lia|]. intros b.
    eapply runs_weaken; [apply (some_digits_runs n)|lia|]. cbn. intros ? ? ? ? [-> ?] z ? ? w ? ?. split; [done|]. destruct b; lia.
  - apply runs_ret. intuition lia.
Qed.

Lemma integer_part_runs n : runs n integer_part (fun a x y => a = true /\ (S y <= x)%nat).
Proof.
  unfold integer_part. apply (runs_bind n n _ _ _ _ (advance_if_runs n _ eq_refl)); [intros []; lia|]. intros []; cbv iota.
  - apply (runs_bind n n _ _ _ _ (cur_runs n)); [intros; lia|]. intros c. apply runs_if; intros _; [apply runs_fail|].
    apply runs_ret. intuition lia.
  - apply (runs_bind n n _ _ _ _ (advance_if_runs n _ eq_refl)); [intros []; lia|]. intros []; cbv iota.
    + apply (runs_bind n n _ _ _ _ (skip_digits_runs n)); [unfold shrinks; intros; lia|]. intros ?. apply runs_ret.
      unfold shrinks. intuition lia.
    + apply (runs_bind n n _ _ _ _ (cur_runs n)); [intros; lia|]. intros c. apply runs_fail.
Qed.

Lemma st_get_runs n : runs n st_get (fun a x y => x = length (rest a) /\ y = x).
Proof. intros p Hp. exists p, p. by split_and!. Qed.

Lemma parse_number_runs n : runs n parse_number (shrinks (A := json double) 1).
Proof.
  unfold parse_number. apply (runs_bind n n _ _ _ _ (st_get_runs n)); [intros; lia|]. intros p0.
  apply (runs_bind n n _ _ _ _ (advance_if_runs n _ eq_refl)); [intros []; lia|]. intros neg.
  apply (runs_bind n n _ _ _ _ (integer_part_runs n)); [intros []; lia|]. intros [].
  2: { apply runs_ret. cbn. intuition done. }
  cbn [negb]. apply (runs_bind n n _ _ _ _ (st_get_runs n)); [intros; lia|]. intros p1. cbv zeta. apply runs_if; intros _.
  { apply runs_ret. unfold shrinks. destruct neg; intuition lia. }
  apply (runs_bind n n _ _ _ _ (decimal_part_runs n)); [intros []; lia|]. intros [].
  2: { apply runs_ret. cbn. intuition done. }
  cbn [negb]. apply (runs_bind n n _ _ _ _ (exponent_part_runs n)); [intros []; lia|]. intros b.
  apply runs_ret. unfold shrinks. destruct neg; intuition lia.
Qed.
Lemma string_loop_length past rest out last past' rest' r :
  string_loop past rest out last = (past', rest', r) -> (length rest' <= length rest)%nat.
Proof.
  revert past out last. induction rest as [rest IH] using (induction_ltof1 _ (@length ascii)). unfold ltof in IH.
  intros past out last. destruct rest as [|ch rest]; cbn [string_loop]; [by intros [= _ <- _]|].
  assert (IH' : forall l past out last, (length l <= length rest)%nat -> string_loop past l out last = (past', rest', r) ->
    (length rest' <= length (ch :: rest))%nat).
  { intros l pa o la Hl E. cbn. specialize (IH l ltac:(cbn; lia) pa o la E). lia. }
  repeat (case_match; [intros [= _ <- _]; cbn; lia|]). repeat case_match; intros E; try (injection E as _ <- _; cbn; lia);
    (eapply IH'; [|exact E]); cbn; lia.
Qed.

Lemma parse_string_runs n : runs n parse_string (shrinks 0).
Proof.
  intros p Hp. unfold parse_string, mbind, st_bind. cbn. destruct (string_loop _ _ _ _) as [[pa re] r] eqn:E.
  apply string_loop_length in E. destruct r; eexists _, _; (split; [reflexivity|]); cbn; (split; [done|]); unfold shrinks; [lia|done].
Qed.

Lemma expect_runs n e (r : json double) : (1 <= length (chars e))%nat -> runs n (expect e r) (shrinks 0).
Proof.
  intros He. unfold expect. apply (runs_bind n (S n) _ _ _ _ (back_runs n)); [intros; lia|]. intros _ p Hp.
  unfold mbind, st_bind. cbn -[advance fail]. case_bool_decide as E.
  - eexists _, _. split; [reflexivity|]. split; [done|]. cbn. intros _ x Hx Hy. unfold shrinks. rewrite length_drop.
    apply (f_equal length) in E. rewrite length_take in E. lia.
  - eexists _, _. split; [reflexivity|]. by split.
Qed.

(** From a state that has not failed. *)
Definition goes {A} (n : nat) (m : P A) (Q : A -> nat -> nat -> Prop) : Prop := forall p,
  failed p = false -> (length (rest p) <= n)%nat ->
  exists p' a, m p = (p', Ok a) /\ (failed p' = false -> Q a (length (rest p)) (length (rest p'))).

Lemma runs_goes {A} n (m : P A) Q : runs n m Q -> goes n m Q.
Proof. intros Hm p Hf Hp. destruct (Hm p) as (p' & a & E & _ & HQ); eauto. Qed.

Lemma runs_check {A B} n n' (m : P A) (f : A -> P B) (j : B) (Q : A -> nat -> nat -> Prop) (R : B -> nat -> nat -> Prop) :
  runs n m Q ->
  (forall a x y, Q a x y -> (x <= n)%nat -> (y <= n')%nat /\ goes n' (f a) (fun b y z => forall x, (x <= n)%nat -> Q a x y -> R b x z)) ->
  runs n (a ← m; b ← has_failed; if b : bool then mret j else f a) R.
Proof.
  intros Hm Hf p Hp. destruct (Hm p Hp) as (p1 & a & E1 & Hfail1 & HQ). unfold mbind at 1, st_bind at 1. rewrite E1.
  change ((b ← has_failed; if b : bool then mret j else f a) p1) with ((if failed p1 then mret j else f a) p1).
  destruct (failed p1) eqn:Ef; [exists p1, j; by rewrite Ef|].
  assert (Hp0 : failed p = false) by (destruct (failed p); [by specialize (Hfail1 eq_refl)|done]).
  destruct (Hf a _ _ (HQ eq_refl) (Hp Hp0)) as [Hn Hr]. destruct (Hr p1 Ef Hn) as (p2 & b & E2 & HR).
  exists p2, b. split; [done|]. split; [by rewrite Hp0|]. intros E. eapply HR; eauto.
Qed.

Lemma get_next_token_eq p :
  let '(w, r) := span is_blank (rest p) in
  get_next_token p = match r with
                     | [] => (Parser (rev w ++ past p) [] (if failed p then err p else chars "unexpected end of input") true, Ok nul)
                     | c :: r => (Parser (c :: rev w ++ past p) r (err p) (failed p), Ok c)
                     end.
Proof.
  unfold get_next_token, consume_whitespace, st_update. destruct p as [pa re e f]. cbn [rest past err failed].
  unfold mbind at 1, st_bind at 1. cbn [rest past err failed]. destruct (span is_blank re) as [w r].
  destruct r as [|c r]; cbn; by rewrite ?drop_0.
Qed.

(** The member of an array or object, and the token after it. *)
Lemma runs_item {A} n (value : P A) (close : ascii) (j : json double) (k : A -> json double) msg (m : A -> P (json double)) :
  runs n value (shrinks 1) -> is_char close nul = false ->
  ((2 <= n)%nat -> forall v, goes (n - 2) (m v) (shrinks 0)) ->
  runs n (v ← value; f ← has_failed; if f : bool then mret j else
          ch ← get_next_token;
          if is_char close ch then mret (k v)
          else if negb (is_char "," ch) then fail (msg ch) j else m v) (shrinks 1).
Proof.
  intros Hv Hc Hm. apply (runs_check n (n - 1) value _ j (shrinks 1)); [done|]. unfold shrinks. intros v x y Hxy Hx. split; [lia|].
  intros p Hf Hp. pose proof (get_next_token_eq p) as E. destruct (span is_blank (rest p)) as [w r] eqn:Es.
  pose proof (span_length is_blank (rest p)) as Hl. rewrite Es in Hl. cbn in Hl. unfold mbind at 1, st_bind at 1. rewrite E. destruct r as [|c r].
  - rewrite Hc. cbn [negb is_char Ascii.eqb nul]. cbv iota. eexists _, _. by split; [reflexivity|].
  - cbn in Hl. destruct (is_char close c); [|destruct (is_char "," c); cbn [negb]].
    + eexists _, _. split; [reflexivity|]. cbn. intros; lia.
    + destruct (Hm ltac:(lia) v (Parser (c :: rev w ++ past p) r (err p) (failed p)) Hf) as (p' & b & E' & HQ); [cbn; lia|].
      exists p', b. split; [done|]. unfold shrinks in *. cbn in *. intros. specialize (HQ ltac:(done)). lia.
    + eexists _, _. by split; [reflexivity|].
Qed.

Section loops.
Variables (value : P (json double)) (n : nat).
Hypothesis Hvalue : forall n', (n' <= n)%nat -> runs n' value (shrinks 1).

Lemma array_loop_runs fuel data n' : (n' < fuel)%nat -> (n' < n)%nat -> runs n' (array_loop value fuel data) (shrinks 0).
Proof.
  revert data n'. induction fuel as [|fuel IH]; intros data n' Hf Hn; [lia|]. cbn [array_loop].
  apply (runs_bind n' (S n') _ _ _ _ (back_runs n')); [intros; lia|]. intros ?.
  eapply runs_weaken; [apply (runs_item (S n')); [apply Hvalue; lia|done|]|lia|unfold shrinks; intros; lia].
  intros Hn' v. apply runs_goes. apply (runs_bind _ (n' - 1) _ _ _ _ (get_next_token_runs _)); [unfold shrinks; intros; lia|]. intros ?.
  eapply runs_weaken; [apply (IH _ (n' - 1)%nat); lia|lia|unfold shrinks; intros; lia].
Qed.

Lemma object_loop_runs fuel data ch n' : (n' < fuel)%nat -> (n' <= n)%nat -> runs n' (object_loop value fuel data ch) (shrinks 0).
Proof.
  revert data ch n'. induction fuel as [|fuel IH]; intros data ch n' Hf Hn; [lia|]. cbn [object_loop]. apply runs_if; intros _; [apply runs_fail|].
  apply (runs_check n' n' _ _ _ _ _ (parse_string_runs n')). unfold shrinks. intros key x y ? ?. split; [lia|]. apply runs_goes.
  apply (runs_bind n' n' _ _ _ _ (get_next_token_runs n')); [unfold shrinks; intros; lia|]. intros ch1.
  apply runs_if; intros _; [apply runs_fail|].
  eapply runs_weaken; [apply (runs_item n'); [apply Hvalue; lia|done|]|lia|unfold shrinks; intros; lia].
  intros Hn' v. apply runs_goes. apply (runs_bind _ (n' - 2) _ _ _ _ (get_next_token_runs _)); [unfold shrinks; intros; lia|]. intros ch2.
  eapply runs_weaken; [apply (IH _ _ (n' - 2)%nat); lia|lia|unfold shrinks; intros; lia].
Qed.
End loops.

Lemma parse_json_runs fuel levels n : (n < fuel)%nat -> runs n (parse_json fuel levels) (shrinks (A := json double) 1).
Proof.
  revert n. induction levels as [|levels IH]; intros n Hn; cbn [parse_json]; [apply runs_fail|].
  apply (runs_check n (n - 1) _ _ _ _ _ (get_next_token_runs n)). unfold shrinks. intros ch x y ? ?. split; [lia|]. apply runs_goes.
  assert (Hleaf : forall m : P (json double), runs (n - 1) m (shrinks 0) ->
    runs (n - 1) m (fun _ y z => forall x, (x <= n)%nat -> (y + 1 <= x)%nat -> (z + 1 <= x)%nat)).
  { intros m Hm. eapply runs_weaken; [done|lia|unfold shrinks; intros; lia]. }
  apply runs_if; intros _.
  { apply (runs_bind _ n _ _ _ _ (back_runs _)); [intros; lia|]. intros ?.
    eapply runs_weaken; [apply (parse_number_runs n)|lia|unfold shrinks; intros; lia]. }
  do 3 (apply runs_if; intros _; [apply Hleaf, expect_runs; cbn; lia|]).
  apply runs_if; intros _.
  { apply Hleaf. apply (runs_bind _ (n - 1) _ _ _ _ (parse_string_runs _)); [unfold shrinks; intros; lia|]. intros s.
    apply runs_ret. unfold shrinks. intros; lia. }
  apply runs_if; intros _; [apply Hleaf|apply runs_if; intros _; [apply Hleaf|apply runs_fail]].
  - apply (runs_bind _ (n - 1) _ _ _ _ (get_next_token_runs _)); [unfold shrinks; intros; lia|]. intros ch1.
    apply runs_if; intros _; [apply runs_ret; unfold shrinks; intros; lia|].
    eapply runs_weaken; [apply (object_loop_runs _ n) with (n' := (n - 1)%nat); [intros; apply IH; lia|lia|lia]|lia|unfold shrinks; intros; lia].
  - apply (runs_bind _ (n - 1) _ _ _ _ (get_next_token_runs _)); [unfold shrinks; intros; lia|]. intros ch1.
    apply runs_if; intros _; [apply runs_ret; unfold shrinks; intros; lia|].
    eapply runs_weaken; [apply (array_loop_runs _ n) with (n' := (n - 1)%nat); [intros; apply IH; lia|lia|lia]|lia|unfold shrinks; intros; lia].
Qed.
End termination.

(** ** What the parser gives *)

(** Ordered keys at every level, and integers of 32 bits. *)
Fixpoint json_wf {double} (j : json double) : bool :=
  match j with
  | JInt n => in_range n (- 2 ^ 31) (2 ^ 31 - 1)
  | JArray l => forallb json_wf l
  | JObject o => sorted_keys o && forallb (fun kv => json_wf kv.2) o
  | _ => true
  end.

Section results.
Context {double : Type} `{Doubles double}.
Abbreviation P A := (st fuel parser A).

(** There is an error exactly when the parse failed. *)
Definition err_ok (p : parser) : Prop := failed p = true <-> err p <> [].

(** From a state that failed or not, as [b] tells, [m] gives a value in [F] if it has
    failed then, in [V] otherwise. *)
Definition gives {A} (b : bool) (m : P A) (V F : A -> Prop) : Prop := forall p p' a,
  err_ok p -> failed p = b -> m p = (p', Ok a) -> err_ok p' /\ if failed p' then F a else V a.

Lemma gives_bind {A B} b (m : P A) (f : A -> P B) V F W G :
  gives b m V F -> (forall a, V a -> gives false (f a) W G) -> (forall a, F a -> gives true (f a) W G) -> gives b (m ≫= f) W G.
Proof.
  intros Hm Hv Hf p p' x Hp Hb E. unfold mbind, st_bind in E. destruct (m p) as [p1 [a|e]] eqn:E1; [|done].
  destruct (Hm p p1 a Hp Hb E1) as [Hp1 Ha]. destruct (failed p1) eqn:Ef.
  - by apply (Hf a Ha p1 p' x).
  - by apply (Hv a Ha p1 p' x).
Qed.

Lemma gives_ret {A} (b : bool) (a : A) (V F : A -> Prop) : (if b then F a else V a) -> gives b (mret a) V F.
Proof. intros Ha p p' x Hp Hb [= <- <-]. by rewrite Hb. Qed.

Lemma gives_fail {A} b msg (a : A) (V F : A -> Prop) : msg <> [] -> F a -> gives b (fail msg a) V F.
Proof.
  intros Hm Ha p p' x Hp Hb [= <- <-]. cbn. split; [|done]. unfold err_ok in *. cbn. split; [|done]. intros _.
  destruct (failed p); [by apply Hp|done].
Qed.

Lemma gives_step {A} (b : bool) (g : parser -> parser) (v : parser -> A) (V F : A -> Prop) :
  (forall p, failed (g p) = failed p /\ err (g p) = err p) -> (forall p, failed p = b -> if b then F (v p) else V (v p)) ->
  gives b (fun p => (g p, Ok (v p))) V F.
Proof.
  intros Hg Hv p p' x Hp Hb [= <- <-]. unfold err_ok. destruct (Hg p) as [-> ->]. split; [done|]. rewrite Hb. by apply Hv.
Qed.

Lemma gives_if {A} b (c : bool) (m1 m2 : P A) V F : (c = true -> gives b m1 V F) -> (c = false -> gives b m2 V F) -> gives b (if c then m1 else m2) V F.
Proof. destruct c; auto. Qed.

Lemma has_failed_gives b : gives b has_failed (fun x => x = false) (fun x => x = true).
Proof. intros p p' x Hp Hb [= <- <-]. split; [done|]. by destruct (failed p). Qed.

(** [if (failed) return j;] *)
Lemma gives_check {A B} b (m : P A) (f : A -> P B) j V F W G :
  gives b m V F -> G j -> (forall a, V a -> gives false (f a) W G) -> gives b (a ← m; x ← has_failed; if x : bool then mret j else f a) W G.
Proof.
  intros Hm Hj Hf. apply (gives_bind b m _ V F); [done| |]; intros a Ha.
  - apply (gives_bind _ _ _ _ _ _ _ (has_failed_gives false)); intros ? ->; [by apply Hf|by apply gives_ret].
  - apply (gives_bind _ _ _ (fun _ => False) (fun x => x = true)); [|done|intros ? ->; by apply gives_ret].
    intros p p' x Hp Hb [= <- <-]. by rewrite Hb.
Qed.

Lemma get_next_token_gives b : gives b get_next_token (fun _ => b = false) (fun c => b = false -> c = nul).
Proof.
  intros p p' c Hp Hb. pose proof (get_next_token_eq p) as E. destruct (span is_blank (rest p)) as [w r]. rewrite E.
  destruct r as [|x r]; intros [= <- <-]; cbn; [split; [|done]|split; [done|by rewrite Hb; destruct b]].
  unfold err_ok in *. cbn. split; [|done]. intros _. destruct (failed p); [by apply Hp|done].
Qed.

Lemma string_loop_error past rest out last past' rest' msg : string_loop past rest out last = (past', rest', inr msg) -> msg <> [].
Proof.
  revert past out last. induction rest as [rest IH] using (induction_ltof1 _ (@length ascii)). unfold ltof in IH.
  intros past out last. destruct rest as [|ch rest]; cbn [string_loop]; [by intros [= _ _ <-]|].
  repeat (case_match; [by intros [=]; subst|]). repeat case_match; intros E; try (by injection E as _ _ <-);
    (eapply IH; [|exact E]); cbn; lia.
Qed.

Lemma parse_string_gives b : gives b parse_string (fun _ => b = false) (fun s => b = false -> s = EmptyString).
Proof.
  intros p p' s Hp Hb. unfold parse_string. unfold mbind at 1, st_bind at 1. cbn -[fail mbind].
  destruct (string_loop _ _ _ _) as [[pa re] r] eqn:E. destruct r as [l|msg].
  - intros [= <- <-]. cbn. split; [done|]. by rewrite Hb; destruct b.
  - apply string_loop_error in E.
    assert (Hf : gives b (fail msg EmptyString) (fun _ : string => b = false) (fun s => b = false -> s = EmptyString)) by by apply gives_fail.
    by apply (Hf (Parser pa re (err p) (failed p))).
Qed.

Lemma back_gives b : gives b back (fun _ => b = false) (fun _ => b = true).
Proof. apply (gives_step b _ (fun _ => tt)); [by intros [[|? ?] ? ? ?]|]. by destruct b. Qed.

Lemma consume_whitespace_gives b : gives b consume_whitespace (fun _ => b = false) (fun _ => b = true).
Proof. apply (gives_step b _ (fun _ => tt)); [intros p; by destruct (span _ _)|]. by destruct b. Qed.

Section json.
Abbreviation json := (json double).

(** What a parse that failed returns. *)
Definition blank (j : json) : Prop := j = JNull \/ j = JString EmptyString.
Definition wf (j : json) : Prop := json_wf j = true.

Section loops.
Variable value : P json.
Hypothesis Hvalue : gives false value wf blank.
Hypothesis Hfailed : gives true value (fun _ => False) (fun _ => True).

Lemma wf_snoc l v : forallb json_wf l = true -> wf v -> forallb json_wf (l ++ [v]) = true.
Proof. intros Hl Hv. rewrite forallb_app, Hl. cbn. by rewrite Hv. Qed.

Lemma array_loop_gives b fuel data : forallb json_wf data = true -> gives b (array_loop value fuel data) wf blank.
Proof.
  revert b data. induction fuel as [|fuel IH]; intros b data Hd; cbn [array_loop]; [by intros p p' a _ _ [=]|].
  apply (gives_bind _ _ _ _ _ _ _ (back_gives b)); intros _ ->.
  - apply (gives_check _ _ _ _ _ _ _ _ Hvalue); [by left|]. intros v Hv.
    apply (gives_bind _ _ _ _ _ _ _ (get_next_token_gives false)).
    + intros ch _. apply gives_if; intros _; [by apply gives_ret, wf_snoc|]. apply gives_if; intros _; [apply gives_fail; [done|by left]|].
      apply (gives_bind _ _ _ _ _ _ _ (get_next_token_gives false)); intros _ _; by apply IH, wf_snoc.
    + intros ch ->; [|done]. apply gives_fail; [done|by left].
  - apply (gives_check _ _ _ _ _ _ _ _ Hfailed); [by left|done].
Qed.

Lemma object_loop_failed fuel data ch : gives true (object_loop value fuel data ch) (fun _ => False) blank.
Proof.
  destruct fuel as [|fuel]; cbn [object_loop]; [by intros p p' a _ _ [=]|]. apply gives_if; intros _; [apply gives_fail; [done|by left]|].
  apply (gives_check _ _ _ _ _ _ _ _ (parse_string_gives true)); [by left|done].
Qed.

Lemma object_loop_gives fuel data ch :
  sorted_keys data = true -> forallb (fun kv => json_wf kv.2) data = true -> gives false (object_loop value fuel data ch) wf blank.
Proof.
  revert data ch. induction fuel as [|fuel IH]; intros data ch Hs Hd; cbn [object_loop]; [by intros p p' a _ _ [=]|].
  apply gives_if; intros _; [apply gives_fail; [done|by left]|].
  apply (gives_check _ _ _ _ _ _ _ _ (parse_string_gives false)); [by left|]. intros key _.
  apply (gives_bind _ _ _ _ _ _ _ (get_next_token_gives false)).
  2: { intros c ->; [|done]. apply gives_fail; [done|by left]. }
  intros c _. apply gives_if; intros _; [apply gives_fail; [done|by left]|].
  apply (gives_check _ _ _ _ _ _ _ _ Hvalue); [by left|]. intros v Hv.
  pose proof (obj_set_sorted key v data Hs) as Hs'. pose proof (obj_set_forall json_wf key v data Hv Hd) as Hd'.
  apply (gives_bind _ _ _ _ _ _ _ (get_next_token_gives false)).
  2: { intros c' ->; [|done]. apply gives_fail; [done|by left]. }
  intros c' _. apply gives_if; intros _; [apply gives_ret; unfold wf; cbn; by rewrite Hs', Hd'|].
  apply gives_if; intros _; [apply gives_fail; [done|by left]|].
  apply (gives_bind _ _ _ _ _ _ _ (get_next_token_gives false)); intros c'' _; [by apply IH|].
  intros p p' a Hp Hb E. destruct (object_loop_failed fuel (obj_set key v data) c'' p p' a Hp Hb E) as [? Ha]. split; [done|].
  by destruct (failed p').
Qed.
End loops.

Lemma advance_if_gives b f : gives b (advance_if f) (fun _ => b = false) (fun _ => b = true).
Proof.
  intros p p' a Hp Hb. rewrite advance_if_eq. destruct (f _); intros [= <- <-]; (split; [done|]); cbn; rewrite Hb; by destruct b.
Qed.
Lemma skip_digits_gives b : gives b skip_digits (fun _ => b = false) (fun _ => b = true).
Proof. apply (gives_step b _ (fun _ => tt)); [intros p; by destruct (span _ _)|]. by destruct b. Qed.
Lemma cur_gives b : gives b cur (fun _ => b = false) (fun _ => b = true).
Proof. apply (gives_step b (fun p => p) peek); [done|]. by destruct b. Qed.

(** The parts of a number fail exactly when they return false. *)
Lemma some_digits_gives msg : chars msg <> [] -> gives false (some_digits msg) (fun a => a = true) (fun a => a = false).
Proof.
  intros Hm. apply (gives_bind _ _ _ _ _ _ _ (cur_gives false)); [|done]. intros c _. apply gives_if; intros _; [|by apply gives_fail].
  apply (gives_bind _ _ _ _ _ _ _ (skip_digits_gives false)); [|done]. intros ? _. by apply gives_ret.
Qed.
Lemma decimal_part_gives : gives false decimal_part (fun a => a = true) (fun a => a = false).
Proof.
  apply (gives_bind _ _ _ _ _ _ _ (advance_if_gives false _)); [|done]. intros [] _; [by apply some_digits_gives|by apply gives_ret].
Qed.
Lemma exponent_part_gives : gives false exponent_part (fun a => a = true) (fun a => a = false).
Proof.
  apply (gives_bind _ _ _ _ _ _ _ (advance_if_gives false _)); [|done]. intros [] _; [|by apply gives_ret].
  apply (gives_bind _ _ _ _ _ _ _ (advance_if_gives false _)); [|done]. intros ? _. by apply some_digits_gives.
Qed.
Lemma integer_part_gives : gives false integer_part (fun a => a = true) (fun a => a = false).
Proof.
  apply (gives_bind _ _ _ _ _ _ _ (advance_if_gives false _)); [|done]. intros [] _.
  - apply (gives_bind _ _ _ _ _ _ _ (cur_gives false)); [|done]. intros c _. apply gives_if; intros _; [by apply gives_fail|by apply gives_ret].
  - apply (gives_bind _ _ _ _ _ _ _ (advance_if_gives false _)); [|done]. intros [] _.
    + apply (gives_bind _ _ _ _ _ _ _ (skip_digits_gives false)); [|done]. intros ? _. by apply gives_ret.
    + apply (gives_bind _ _ _ _ _ _ _ (cur_gives false)); [|done]. intros c _. by apply gives_fail.
Qed.

(** A short run of digits has at most nine of them. *)
Lemma stoi10_bound ds : Forall (fun c => is_digit c = true) ds -> 0 <= stoi 10 ds < 10 ^ Z.of_nat (length ds).
Proof.
  induction ds as [|c ds IH] using rev_ind; [cbn; lia|]. intros [Hds Hc']%Forall_app.
  assert (Hc : is_digit c = true) by (by apply Forall_cons in Hc' as [Hc _]). specialize (IH Hds).
  rewrite stoi_snoc, length_app. replace (Z.of_nat (length ds + length [c])) with (Z.of_nat (length ds) + 1) by (cbn; lia).
  rewrite Z.pow_add_r by lia. assert (0 <= xdigit_val c <= 9); [|lia]. unfold xdigit_val. rewrite Hc.
  unfold is_digit in Hc. apply andb_true_iff in Hc as [?%Z.leb_le ?%Z.leb_le]. lia.
Qed.

Lemma span_prefix q s : exists w, s = w ++ (span q s).2 /\ (span q s).1 = w /\ Forall (fun c => q c = true) w
  /\ match (span q s).2 with [] => True | c :: _ => q c = false end.
Proof.
  induction s as [|c s IH]; cbn; [by exists []|]. destruct (q c) eqn:Ec; [|by exists []].
  destruct IH as (w & E & Ew & Hw & Hr). destruct (span q s) as [w' r]. cbn in *. subst w'. exists (c :: w). split_and!; [by rewrite E at 1|done|by constructor|done].
Qed.

(** Where [f] leaves the text: behind digits, before something else. *)
Definition past_digits (p p' : parser) : Prop := exists ds, rest p = ds ++ rest p' /\ Forall (fun c => is_digit c = true) ds
  /\ match rest p' with [] => True | c :: _ => is_digit c = false end.

Lemma integer_part_eq p :
  integer_part p =
    if is_char "0" (peek p) then
      let p1 := (advance 1 p).1 in
      if is_digit (peek p1) then fail (chars "leading 0s not permitted in numbers") false p1 else (p1, Ok true)
    else if in_range (schar (peek p)) 49 57 then ((skip_digits (advance 1 p).1).1, Ok true)
    else fail (chars "invalid " ++ esc (peek p) ++ chars " in number") false p.
Proof.
  unfold integer_part. unfold mbind at 1, st_bind at 1. rewrite advance_if_eq. destruct (is_char "0" (peek p)).
  - transitivity ((if is_digit (peek (advance 1 p).1) then fail (chars "leading 0s not permitted in numbers") false else mret true) (advance 1 p).1);
      [reflexivity|]. by destruct (is_digit _).
  - unfold mbind at 1, st_bind at 1. rewrite advance_if_eq. by destruct (in_range _ _ _).
Qed.

Lemma nonzero_digit c : in_range (schar c) 49 57 = true -> is_digit c = true /\ is_char "0" c = false.
Proof. destruct c as [[] [] [] [] [] [] [] []]; cbn; done. Qed.

Lemma skip_digits_past p : past_digits p (skip_digits p).1.
Proof.
  destruct (span_prefix is_digit (rest p)) as (w & E & Ew & Hw & Hr). exists w. unfold skip_digits, st_update.
  destruct (span is_digit (rest p)). cbn in *. by subst.
Qed.

Lemma integer_part_past p p' : integer_part p = (p', Ok true) -> past_digits p p'.
Proof.
  rewrite integer_part_eq. destruct (is_char "0" (peek p)) eqn:E0.
  - cbv zeta. destruct (is_digit (peek (advance 1 p).1)) eqn:Ed; [done|]. intros [= <-].
    unfold peek in *. destruct (rest p) as [|c r] eqn:E; [done|]. exists ["0"%char]. apply Ascii.eqb_eq in E0 as ->. cbn in *. rewrite drop_0.
    rewrite E in Ed. cbn in Ed. rewrite drop_0 in Ed. split; [done|]. split; [by constructor|]. by destruct r.
  - destruct (in_range _ _ _) eqn:Er; [|done]. intros [= E']. destruct (nonzero_digit _ Er) as [Hd _].
    destruct (skip_digits_past (advance 1 p).1) as (ds & E1 & Hds & Hr).
    change (advance 1 p).1 with (Parser (rev (take 1 (rest p)) ++ past p) (drop 1 (rest p)) (err p) (failed p)) in E1 at 1.
    replace (skip_digits (advance 1 p).1).1 with p' in * by (symmetry; exact E'). unfold peek in Hd.
    destruct (rest p) as [|c r] eqn:E; [done|]. cbn in E1. rewrite drop_0 in E1. exists (c :: ds). rewrite E, E1. split_and!; [done|by constructor|done].
Qed.

(** What follows the integer part, when that was not all. *)
Definition number_tail (start : list ascii) : P json :=
  ok ← decimal_part;
  if negb ok then mret JNull
  else ok ← exponent_part; mret (if ok : bool then JDouble (atof start) else JNull).
Definition is_short (start : list ascii) (p : parser) : bool :=
  negb (is_char "." (peek p) || is_char "e" (peek p) || is_char "E" (peek p)) && (length start - length (rest p) <=? digits10)%nat.
Definition after_minus (p : parser) : parser := if is_char "-" (peek p) then (advance 1 p).1 else p.

Lemma parse_number_eq p :
  parse_number p =
    match integer_part (after_minus p) with
    | (p2, Ok true) => if is_short (rest p) p2 then (p2, Ok (JInt (atoi (rest p)))) else number_tail (rest p) p2
    | (p2, Ok false) => (p2, Ok JNull)
    | (p2, Throw e) => (p2, Throw e)
    end.
Proof.
  transitivity ((advance_if (is_char "-") ;; ok ← integer_part;
    if negb ok then mret JNull else p0 ← st_get;
      if is_short (rest p) p0 then mret (JInt (atoi (rest p))) else number_tail (rest p)) p); [reflexivity|].
  unfold mbind at 1, st_bind at 1. rewrite advance_if_eq. unfold after_minus.
  destruct (is_char "-" (peek p)); unfold mbind at 1, st_bind at 1; destruct (integer_part _) as [p2 [[]|]]; try done;
    cbn [negb]; unfold mbind, st_bind, st_get; by destruct (is_short _ _).
Qed.

Lemma number_tail_gives start : gives false (number_tail start) (fun j => exists d, j = JDouble d) (fun j => j = JNull).
Proof.
  apply (gives_bind _ _ _ _ _ _ _ decimal_part_gives); intros ? ->; [|by apply gives_ret].
  apply (gives_bind _ _ _ _ _ _ _ exponent_part_gives); intros ? ->; apply gives_ret; [by eexists|done].
Qed.

Lemma after_minus_ok p : failed (after_minus p) = failed p /\ err (after_minus p) = err p.
Proof. unfold after_minus. by destruct (is_char _ _). Qed.

Lemma integer_part_nonempty p p' : integer_part p = (p', Ok true) -> rest p <> [].
Proof. rewrite integer_part_eq. unfold peek. by destruct (rest p). Qed.

Lemma atoi_other c r : is_char "-" c = false -> atoi (c :: r) = stoi 10 (span is_digit (c :: r)).1.
Proof. destruct c as [[] [] [] [] [] [] [] []]; cbn; done. Qed.

(** [atoi] reads what the integer part did. *)
Lemma atoi_integer p p2 : past_digits (after_minus p) p2 -> rest (after_minus p) <> [] ->
  exists ds, Forall (fun c => is_digit c = true) ds /\
    if is_char "-" (peek p) then rest p = "-"%char :: ds ++ rest p2 /\ atoi (rest p) = - stoi 10 ds
    else rest p = ds ++ rest p2 /\ atoi (rest p) = stoi 10 ds.
Proof.
  intros (ds & E2 & Hds & Hr) Hne. exists ds. split; [done|]. pose proof (span_app is_digit ds (rest p2) Hds Hr) as E.
  unfold after_minus, peek in *. destruct (rest p) as [|c r] eqn:Er; [cbn in *; by rewrite Er in Hne|].
  destruct (is_char "-" c) eqn:Ec.
  - apply Ascii.eqb_eq in Ec as ->. cbn in E2. rewrite Er in E2. cbn in E2. rewrite drop_0 in E2. subst r. split; [done|].
    unfold atoi. by rewrite E.
  - rewrite Er in E2. split; [done|]. rewrite atoi_other by done. by rewrite E2, E.
Qed.

Lemma parse_number_gives : gives false parse_number wf blank.
Proof.
  intros p p' j Hp Hf. rewrite parse_number_eq. destruct (after_minus_ok p) as [Ef Ee].
  assert (Hp1 : err_ok (after_minus p)) by (unfold err_ok; by rewrite Ef, Ee). rewrite <- Ef in Hf.
  destruct (integer_part (after_minus p)) as [p2 [ok|]] eqn:E; [|done].
  destruct (integer_part_gives _ _ _ Hp1 Hf E) as [Hp2 Hok]. destruct ok.
  - destruct (failed p2) eqn:Ef2; [done|]. destruct (is_short (rest p) p2) eqn:Es.
    + intros [= <- <-]. split; [done|]. rewrite Ef2. unfold is_short in Es. apply andb_true_iff in Es as [_ Hl%Nat.leb_le].
      pose proof (integer_part_nonempty _ _ E) as Hne. apply integer_part_past in E.
      destruct (atoi_integer p p2 E Hne) as (ds & Hds & Ha). unfold wf, json_wf, in_range, digits10 in *. apply andb_true_iff.
      assert (Hb : (length ds <= 9)%nat -> 0 <= stoi 10 ds < 10 ^ 9).
      { intros H9. pose proof (stoi10_bound ds Hds) as Hs. pose proof (Z.pow_le_mono_r 10 (Z.of_nat (length ds)) 9). lia. }
      split; apply Z.leb_le; destruct (is_char "-" (peek p)); destruct Ha as [Er Ea]; rewrite Ea; rewrite Er in Hl;
        cbn [length] in Hl; rewrite length_app in Hl; specialize (Hb ltac:(lia)); lia.
    + intros E'. destruct (number_tail_gives (rest p) p2 p' j Hp2 Ef2 E') as [? Hj]. split; [done|].
      destruct (failed p'); [by left|]. by destruct Hj as [d ->].
  - intros [= <- <-]. split; [done|]. destruct (failed p2) eqn:Ef2; [by left|done].
Qed.

Lemma expect_gives e (r : json) : wf r -> gives false (expect e r) wf blank.
Proof.
  intros Hr. apply (gives_bind _ _ _ _ _ _ _ (back_gives false)); [|done]. intros _ _.
  apply (gives_bind _ _ _ (fun _ => True) (fun _ => False)); [intros p p' a Hp Hb [= <- <-]; by rewrite Hb| |done].
  intros p0 _. cbv zeta. case_bool_decide.
  - apply (gives_bind _ _ _ (fun _ => True) (fun _ => False)); [by apply (gives_step false _ (fun _ => tt))| |done]. intros _ _. by apply gives_ret.
  - apply gives_fail; [done|by left].
Qed.

Lemma parse_json_failed fuel levels : gives true (parse_json fuel levels) (fun _ : json => False) (fun _ => True).
Proof.
  destruct levels as [|levels]; cbn [parse_json]; [by apply gives_fail|].
  apply (gives_check _ _ _ _ _ _ _ _ (get_next_token_gives true)); done.
Qed.

Lemma parse_json_gives fuel levels : gives false (parse_json fuel levels) wf blank.
Proof.
  induction levels as [|levels IH]; cbn [parse_json]; [apply gives_fail; [done|by left]|].
  apply (gives_check _ _ _ _ _ _ _ _ (get_next_token_gives false)); [by left|]. intros ch _.
  apply gives_if; intros _; [apply (gives_bind _ _ _ _ _ _ _ (back_gives false)); [intros _ _; apply parse_number_gives|done]|].
  do 3 (apply gives_if; intros _; [by apply expect_gives|]).
  apply gives_if; intros _.
  { apply (gives_bind _ _ _ _ _ _ _ (parse_string_gives false)); intros s Hs; apply gives_ret; [done|]. rewrite Hs by done. by right. }
  apply gives_if; intros _; [|apply gives_if; intros _; [|apply gives_fail; [done|by left]]].
  - apply (gives_bind _ _ _ _ _ _ _ (get_next_token_gives false)).
    + intros c _. apply gives_if; intros _; [by apply gives_ret|]. by apply object_loop_gives.
    + intros c Hc. rewrite Hc by done. change (is_char "}" nul) with false. cbv iota.
      intros p p' a Hp Hb E. destruct (object_loop_failed _ _ _ _ p p' a Hp Hb E) as [? Ha]. split; [done|]. by destruct (failed p').
  - apply (gives_bind _ _ _ _ _ _ _ (get_next_token_gives false)).
    + intros c _. apply gives_if; intros _; [by apply gives_ret|]. apply array_loop_gives; [done|apply parse_json_failed|done].
    + intros c Hc. rewrite Hc by done. change (is_char "]" nul) with false. cbv iota.
      apply array_loop_gives; [done|apply parse_json_failed|done].
Qed.

Lemma parse_then_gives text : gives false (parse_then text) wf blank.
Proof.
  assert (Hend : forall (b : bool) (j : json), (if b then blank j else wf j) -> gives b (consume_whitespace ;; p ← st_get;
    match rest p with c :: _ => fail (chars "unexpected trailing " ++ esc c) JNull | [] => mret j end) wf blank).
  { intros b j Hj.
    assert (Hget : gives b st_get (fun _ => b = false) (fun _ => b = true)) by (by intros p p' a Hp <- [= <- <-]; destruct (failed p)).
    assert (Hlast : forall p, gives b (match rest p with c :: _ => fail (chars "unexpected trailing " ++ esc c) JNull | [] => mret j end) wf blank).
    { intros p. destruct (rest p); [by apply gives_ret|]. apply gives_fail; [done|by left]. }
    apply (gives_bind _ _ _ _ _ _ _ (consume_whitespace_gives b)); intros _ ->;
      apply (gives_bind _ _ _ _ _ _ _ Hget); intros p Hp; by apply Hlast || done. }
  apply (gives_bind _ _ _ _ _ _ _ (parse_json_gives _ _)); intros j Hj; by apply Hend.
Qed.

Lemma parse_then_runs text : runs (length text) (parse_then text) (fun (_ : json) _ _ => True).
Proof.
  assert (Hp : runs (length text) (parse_json (loop_fuel text) (S max_depth)) (shrinks (A := json) 1)) by (apply parse_json_runs; unfold loop_fuel; lia).
  apply (runs_bind _ (length text) _ _ _ _ Hp); [unfold shrinks; intros; lia|]. intros j.
  apply (runs_bind _ (length text) _ _ _ _ (consume_whitespace_runs _)); [unfold shrinks; intros; lia|]. intros ?.
  intros p _. unfold mbind at 1, st_bind at 1. cbn [st_get]. destruct (rest p); [by exists p, j; split_and!|].
  eexists _, _. split; [reflexivity|]. by split.
Qed.

Lemma multi_loop_ends text fuel (js : list json) p :
  failed p = false -> (length (rest p) <= length text)%nat -> (length (rest p) < fuel)%nat ->
  exists p' js', multi_loop fuel text js p = (p', Ok js').
Proof.
  revert js p. induction fuel as [|fuel IH]; intros js p Hf Hl Hn; [lia|]. cbn [multi_loop]. unfold mbind at 1, st_bind at 1. cbn [st_get].
  destruct (rest p) as [|c r] eqn:Er; [by eexists _, _|]. rewrite Hf.
  destruct (parse_json_runs (loop_fuel text) (S max_depth) (length text)) with (p := p) as (p1 & v & E1 & _ & Hs); [unfold loop_fuel; lia|by rewrite Er|].
  unfold mbind at 1, st_bind at 1. rewrite E1.
  destruct (consume_whitespace_runs (length (rest p1)) p1) as (p2 & [] & E2 & Hf2 & Hs2); [lia|]. unfold mbind at 1, st_bind at 1. rewrite E2.
  destruct (failed p2) eqn:Ef2.
  - destruct fuel as [|fuel]; [cbn in Hn; lia|]. cbn [multi_loop]. unfold mbind, st_bind. cbn [st_get]. rewrite Ef2.
    destruct (rest p2); by eexists _, _.
  - assert (Ef1 : failed p1 = false) by (destruct (failed p1) eqn:E0; [specialize (Hf2 eq_refl); congruence|done]).
    specialize (Hs Ef1). specialize (Hs2 eq_refl). unfold shrinks in *. rewrite Er in Hs. clear E1 E2. cbn [length] in *. apply IH; [done|lia|lia].
Qed.
End json.
End results.

(** C20: Every text is parsed.  No loop of the parser runs more often than the text has
    characters, so a parse comes to an end with a value and an error; the value has its
    keys in order and its integers within 32 bits at every level, and if there is an
    error the value is null or the empty string.  The loop over several texts ends as
    well. *)
Theorem json_parse_total `{Doubles double} text :
  (exists (j : json double) e, json_parse text = Some (j, e) /\ json_wf j = true /\ (e <> [] -> j = JNull \/ j = JString EmptyString))
  /\ exists (js : list (json double)) e, parse_multi text = Some (js, e).
Proof.
  split.
  - unfold json_parse. destruct (parse_then_runs text (new_parser text)) as (p' & j & E & _); [done|]. rewrite E.
    exists j, (err p'). split; [done|]. destruct (parse_then_gives text (new_parser text) p' j) as [Hp Hj]; [by split|done..|].
    unfold err_ok in Hp. destruct (failed p'); split; try done.
    + by destruct Hj as [-> | ->].
    + intros He. by apply Hp in He.
  - unfold parse_multi.
    destruct (multi_loop_ends text (loop_fuel text) [] (new_parser text)) as (p' & js & E); [done|done|unfold loop_fuel; cbn; lia|].
    rewrite E. eauto.
Qed.
