(* ===== verification/JsonRoundtrip.v ===== *)
(** * JSON: what is written is read

    The text of a value is parsed as an equal value.  The laws of floating-point
    numbers that this needs are an interface, which an instance on whole numbers
    satisfies. *)

From S2P Require Import Prelude Regex AddressTheorems RaftWire Json JsonTotal.
Local Open Scope Z_scope.

(** ** The text of a number *)

Definition digits (ds : list ascii) : Prop := Forall (fun c => is_digit c = true) ds.

Inductive int_text : list ascii -> Prop :=
| int_zero : int_text ["0"%char]
| int_digits c ds : in_range (schar c) 49 57 = true -> digits ds -> int_text (c :: ds).

Inductive fraction_text : list ascii -> Prop :=
| no_fraction : fraction_text []
| fraction_digits c ds : digits (c :: ds) -> fraction_text ("."%char :: c :: ds).

Inductive exponent_text : list ascii -> Prop :=
| no_exponent : exponent_text []
| exponent_digits e sign c ds :
    e = "e"%char \/ e = "E"%char -> sign = [] \/ sign = ["+"%char] \/ sign = ["-"%char] -> digits (c :: ds) ->
    exponent_text (e :: sign ++ c :: ds).

Inductive number_text : list ascii -> Prop :=
| number_parts minus ip frac ex :
    minus = [] \/ minus = ["-"%char] -> int_text ip -> fraction_text frac -> exponent_text ex ->
    number_text (minus ++ ip ++ frac ++ ex).

(** Where the text of a value ends. *)
Definition stops (r : list ascii) : Prop :=
  match r with [] => True | c :: _ => is_blank c || is_char "," c || is_char "]" c || is_char "}" c = true end.

(** What IEEE 754 and the C library promise: 17 digits identify a double, and whole
    numbers of up to 15 digits are read exactly. *)
Class DoubleLaws (double : Type) `{Doubles double} := {
  finite : double -> bool;
  print_finite d : finite d = true -> number_text (print_double d);
  atof_print d : finite d = true -> deq (atof (print_double d)) d = true;
  atof_stops t r : number_text t -> stops r -> atof (t ++ r) = atof t;
  atof_digits ds : digits ds -> ds <> [] -> (length ds <= 15)%nat -> deq (atof ds) (of_int (stoi 10 ds)) = true;
  atof_minus ds : digits ds -> ds <> [] -> (length ds <= 15)%nat -> deq (atof ("-"%char :: ds)) (of_int (- stoi 10 ds)) = true;
  deq_sym a b : deq a b = true -> deq b a = true;
  deq_trans a b c : deq a b = true -> deq b c = true -> deq a c = true;
}.

(** Only finite numbers are written as numbers. *)
Fixpoint json_finite `{DoubleLaws double} (j : json double) : bool :=
  match j with
  | JDouble d => finite d
  | JArray l => forallb json_finite l
  | JObject o => forallb (fun kv => json_finite kv.2) o
  | _ => true
  end.

(** The levels of arrays and objects, a value being one. *)
Fixpoint json_levels {double} (j : json double) : nat :=
  match j with
  | JArray l => S (list_max (map json_levels l))
  | JObject o => S (list_max (map (fun kv => json_levels kv.2) o))
  | _ => 1
  end.

(** ** Strings *)

Lemma char_code_inj c c' : char_code c = char_code c' -> c = c'.
Proof.
  unfold char_code. intros E%Nat2Z.inj. by rewrite <- (ascii_nat_embedding c), <- (ascii_nat_embedding c'), E.
Qed.

Lemma char_code_bound c : 0 <= char_code c < 256.
Proof. unfold char_code. pose proof (nat_ascii_bounded c). lia. Qed.

Lemma to_char_code c : to_char (char_code c) = c.
Proof.
  pose proof (char_code_bound c). unfold to_char. rewrite Z.mod_small by done. unfold char_code. by rewrite Nat2Z.id, ascii_nat_embedding.
Qed.

(** One character, one escape of a character, one escape of a code. *)
Lemma string_loop_char pa ch t out last : 32 <= char_code ch -> char_code ch <> 34 -> char_code ch <> 92 ->
  string_loop pa (ch :: t) out last = string_loop (ch :: pa) t (out ++ encode_utf8 last ++ [ch]) (-1).
Proof.
  intros Hge H34 H92. cbn [string_loop]. apply Z.eqb_neq in H34 as ->, H92 as ->.
  assert (in_range (schar ch) 0 31 = false) as ->.
  { unfold in_range, schar. pose proof (char_code_bound ch). destruct (char_code ch <? 128); apply andb_false_iff; rewrite !Z.leb_gt; lia. }
  cbn [negb]. by rewrite app_assoc.
Qed.

Lemma string_loop_escape pa x c t out last : unescape x = Some c ->
  string_loop pa (backslash :: x :: t) out last = string_loop (x :: backslash :: pa) t (out ++ encode_utf8 last ++ [c]) (-1).
Proof.
  intros Hx. cbn [string_loop]. change (char_code backslash =? 34) with false. change (in_range (schar backslash) 0 31) with false.
  change (char_code backslash =? 92) with true. cbn [negb]. cbv iota.
  assert (char_code x =? 117 = false) as ->.
  { apply Z.eqb_neq. intros E. unfold unescape in Hx. by rewrite E in Hx. }
  rewrite Hx. by rewrite app_assoc.
Qed.

Lemma string_loop_code pa h1 h2 h3 h4 t out last :
  forallb is_xdigit [h1; h2; h3; h4] = true -> in_range last 0xD800 0xDBFF = false ->
  string_loop pa (backslash :: "u"%char :: h1 :: h2 :: h3 :: h4 :: t) out last =
    string_loop (h4 :: h3 :: h2 :: h1 :: "u"%char :: backslash :: pa) t (out ++ encode_utf8 last) (stoi 16 [h1; h2; h3; h4]).
Proof.
  intros Hx Hl. cbn [string_loop]. change (char_code backslash =? 34) with false. change (in_range (schar backslash) 0 31) with false.
  change (char_code backslash =? 92) with true. change (char_code "u" =? 117) with true. cbn [negb]. cbv iota. by rewrite Hx, Hl.
Qed.

Lemma hex4_control n : 0 <= n <= 0x1f ->
  exists h1 h2 h3 h4, hex4 n = [h1; h2; h3; h4] /\ forallb is_xdigit (hex4 n) = true /\ stoi 16 (hex4 n) = n.
Proof.
  intros Hn.
  assert (Hall : forallb (fun n => let h := hex4 (Z.of_nat n) in (length h =? 4)%nat && forallb is_xdigit h && (stoi 16 h =? Z.of_nat n)) (seq 0 32) = true)
    by (vm_compute; reflexivity).
  rewrite forallb_forall in Hall. specialize (Hall (Z.to_nat n)). cbv zeta in Hall. rewrite Z2Nat.id in Hall by lia.
  destruct (andb_prop _ _ (Hall ltac:(apply in_seq; lia))) as [[Hl%Nat.eqb_eq Hx]%andb_prop Hs%Z.eqb_eq].
  destruct (hex4 n) as [|h1 [|h2 [|h3 [|h4 [|]]]]]; try done. by exists h1, h2, h3, h4.
Qed.

Lemma encode_ascii ch : char_code ch < 0x80 -> encode_utf8 (char_code ch) = [ch].
Proof.
  intros Hc. pose proof (char_code_bound ch). unfold encode_utf8. rewrite (proj2 (Z.ltb_ge _ _)) by lia. rewrite (proj2 (Z.ltb_lt _ _)) by lia.
  by rewrite to_char_code.
Qed.

(** The separators of lines that are escaped. *)
Lemma encode_separator ch c1 c2 cp : (cp = 0x2028 /\ char_code c2 = 0xa8) \/ (cp = 0x2029 /\ char_code c2 = 0xa9) ->
  char_code ch = 0xe2 -> char_code c1 = 0x80 -> encode_utf8 cp = [ch; c1; c2].
Proof.
  intros Hc H0 H1. rewrite <- (to_char_code ch), <- (to_char_code c1), <- (to_char_code c2), H0, H1. by destruct Hc as [[-> ->]|[-> ->]].
Qed.

Lemma string_loop_dump s pa r out last : in_range last 0xD800 0xDBFF = false ->
  string_loop pa (dump_chars s ++ dq :: r) out last = (dq :: rev (dump_chars s) ++ pa, r, inl (out ++ encode_utf8 last ++ s)).
Proof.
  revert pa out last. induction s as [s IH] using (induction_ltof1 _ (@length ascii)). unfold ltof in IH. intros pa out last Hl.
  destruct s as [|ch s]; [cbn; by rewrite app_nil_r|].
  assert (Hplain : 32 <= char_code ch -> char_code ch <> 34 -> char_code ch <> 92 ->
    string_loop pa ((ch :: dump_chars s) ++ dq :: r) out last = (dq :: rev (ch :: dump_chars s) ++ pa, r, inl (out ++ encode_utf8 last ++ ch :: s))).
  { intros. cbn [app]. rewrite string_loop_char by done. rewrite IH by (cbn; done || lia). cbn. by rewrite <- !app_assoc. }
  assert (Hesc : forall x c, unescape x = Some c -> char_code ch = char_code c ->
    string_loop pa ((backslash :: x :: dump_chars s) ++ dq :: r) out last = (dq :: rev (backslash :: x :: dump_chars s) ++ pa, r, inl (out ++ encode_utf8 last ++ ch :: s))).
  { intros x c Hx ->%char_code_inj. cbn [app]. rewrite (string_loop_escape _ _ _ _ _ _ Hx). rewrite IH by (cbn; done || lia). cbn. by rewrite <- !app_assoc. }
  assert (Hcode : forall h1 h2 h3 h4 s' u, (length s' < length (ch :: s))%nat -> forallb is_xdigit [h1; h2; h3; h4] = true ->
    in_range (stoi 16 [h1; h2; h3; h4]) 0xD800 0xDBFF = false -> encode_utf8 (stoi 16 [h1; h2; h3; h4]) = u -> ch :: s = u ++ s' ->
    string_loop pa ((backslash :: "u"%char :: [h1; h2; h3; h4] ++ dump_chars s') ++ dq :: r) out last =
      (dq :: rev (backslash :: "u"%char :: [h1; h2; h3; h4] ++ dump_chars s') ++ pa, r, inl (out ++ encode_utf8 last ++ ch :: s))).
  { intros h1 h2 h3 h4 s' u Hlen Hx Hcp Hu Es. cbn [app]. rewrite string_loop_code by done.
    rewrite IH by done. rewrite Hu, Es. cbn. by rewrite <- !app_assoc. }
  cbn [dump_chars]. cbv zeta.
  destruct (Z.eqb_spec (char_code ch) 92) as [E|N92]; [exact (Hesc backslash backslash eq_refl E)|].
  destruct (Z.eqb_spec (char_code ch) 34) as [E|N34]; [exact (Hesc dq dq eq_refl E)|].
  destruct (Z.eqb_spec (char_code ch) 8) as [E|_]; [exact (Hesc "b"%char "008"%char eq_refl E)|].
  destruct (Z.eqb_spec (char_code ch) 12) as [E|_]; [exact (Hesc "f"%char "012"%char eq_refl E)|].
  destruct (Z.eqb_spec (char_code ch) 10) as [E|_]; [exact (Hesc "n"%char "010"%char eq_refl E)|].
  destruct (Z.eqb_spec (char_code ch) 13) as [E|_]; [exact (Hesc "r"%char "013"%char eq_refl E)|].
  destruct (Z.eqb_spec (char_code ch) 9) as [E|_]; [exact (Hesc "t"%char "009"%char eq_refl E)|].
  pose proof (char_code_bound ch) as Hb. destruct (Z.leb_spec (char_code ch) 0x1f) as [Hc|Hc].
  - destruct (hex4_control (char_code ch)) as (h1 & h2 & h3 & h4 & E & Hx & Hs); [lia|]. rewrite E in *.
    apply (Hcode _ _ _ _ s [ch]); [cbn; lia|done| | |done]; rewrite Hs; [|apply encode_ascii; lia].
    apply andb_false_iff. left. apply Z.leb_gt. lia.
  - assert (Hp : 32 <= char_code ch) by lia. destruct s as [|c1 [|c2 s']]; try by apply Hplain.
    destruct ((char_code ch =? 0xe2) && (char_code c1 =? 0x80) && (char_code c2 =? 0xa8)) eqn:E8.
    { apply andb_prop in E8 as [[E0%Z.eqb_eq E1%Z.eqb_eq]%andb_prop E2%Z.eqb_eq].
      apply (Hcode "2"%char "0"%char "2"%char "8"%char s' [ch; c1; c2]); [cbn; lia|done|done| |done]. apply encode_separator; auto. }
    destruct ((char_code ch =? 0xe2) && (char_code c1 =? 0x80) && (char_code c2 =? 0xa9)) eqn:E9.
    { apply andb_prop in E9 as [[E0%Z.eqb_eq E1%Z.eqb_eq]%andb_prop E2%Z.eqb_eq].
      apply (Hcode "2"%char "0"%char "2"%char "9"%char s' [ch; c1; c2]); [cbn; lia|done|done| |done]. apply encode_separator; auto. }
    by apply Hplain.
Qed.

Lemma dump_string_read s pa r e :
  parse_string (Parser pa (dump_chars (chars s) ++ dq :: r) e false) = (Parser (dq :: rev (dump_chars (chars s)) ++ pa) r e false, Ok s).
Proof.
  unfold parse_string. unfold mbind at 1, st_bind at 1. cbn [st_get past rest]. rewrite string_loop_dump by done. cbn.
  f_equal. f_equal. unfold chars. by rewrite string_of_list_ascii_of_string.
Qed.

(** ** Numbers *)

Lemma skip_digits_read ds pa r e f : digits ds -> match r with [] => True | c :: _ => is_digit c = false end ->
  skip_digits (Parser pa (ds ++ r) e f) = (Parser (rev ds ++ pa) r e f, Ok tt).
Proof. intros Hd Hr. unfold skip_digits, st_update. cbn. by rewrite span_app. Qed.

Lemma some_digits_read msg ds pa r e f : digits ds -> ds <> [] -> match r with [] => True | c :: _ => is_digit c = false end ->
  some_digits msg (Parser pa (ds ++ r) e f) = (Parser (rev ds ++ pa) r e f, Ok true).
Proof.
  intros Hd Hn Hr. unfold some_digits. transitivity ((if is_digit (peek (Parser pa (ds ++ r) e f)) then skip_digits ;; mret true
    else fail (chars msg) false) (Parser pa (ds ++ r) e f)); [reflexivity|].
  destruct ds as [|c ds]; [done|]. unfold peek. cbn [rest app]. assert (Hc : is_digit c = true) by (by apply Forall_cons in Hd as [Hc _]).
  rewrite Hc. unfold mbind, st_bind. change (c :: ds ++ r) with ((c :: ds) ++ r). by rewrite skip_digits_read.
Qed.

Lemma advance_cons c pa r e f : advance 1 (Parser pa (c :: r) e f) = (Parser (c :: pa) r e f, Ok tt).
Proof. reflexivity. Qed.

(** What is not part of a number follows. *)
Definition after_exponent (r : list ascii) : Prop := match r with [] => True | c :: _ => is_digit c = false end.
Definition after_fraction (r : list ascii) : Prop := match r with [] => True | c :: _ => is_digit c = false /\ is_char "." c = false end.

Lemma stops_char c r : stops (c :: r) -> is_digit c = false /\ is_char "." c = false /\ is_char "e" c = false /\ is_char "E" c = false.
Proof. destruct c as [[] [] [] [] [] [] [] []]; cbn; (done || intros [=]). Qed.

Lemma exponent_part_read ex pa r e f : exponent_text ex -> stops r ->
  exponent_part (Parser pa (ex ++ r) e f) = (Parser (rev ex ++ pa) r e f, Ok true).
Proof.
  intros Hex Hr. unfold exponent_part. unfold mbind at 1, st_bind at 1. rewrite advance_if_eq. destruct Hex as [|x sign c ds Hx Hsign Hds].
  - cbn [app]. assert (Hp : is_char "e" (peek (Parser pa r e f)) || is_char "E" (peek (Parser pa r e f)) = false).
    { unfold peek. cbn [rest]. destruct r as [|c r]; [done|]. destruct (stops_char _ _ Hr) as (_ & _ & -> & ->). done. }
    by rewrite Hp.
  - unfold peek at 1 2. cbn [rest app]. assert (Hp : is_char "e" x || is_char "E" x = true) by (by destruct Hx as [-> | ->]). rewrite Hp.
    rewrite advance_cons. cbn [fst].
    assert (Hd : after_exponent r) by (destruct r as [|y r]; [done|]; by destruct (stops_char _ _ Hr)).
    unfold mbind, st_bind. rewrite advance_if_eq. unfold peek. cbn [rest].
    assert (Hc : is_digit c = true) by (by apply Forall_cons in Hds as [Hc _]).
    destruct Hsign as [-> | Hsign].
    + cbn [app]. assert (Hn : is_char "+" c || is_char "-" c = false) by (by destruct c as [[] [] [] [] [] [] [] []]).
      rewrite Hn. cbn [app]. change (c :: ds ++ r) with ((c :: ds) ++ r). rewrite some_digits_read by done. cbn. by rewrite <- !app_assoc.
    + assert (Hsg : exists sg, sign = [sg] /\ is_char "+" sg || is_char "-" sg = true) by (destruct Hsign as [-> | ->]; by eexists).
      destruct Hsg as (sg & -> & Hsg). cbn [app]. rewrite Hsg. rewrite advance_cons. cbn [fst].
      change (c :: ds ++ r) with ((c :: ds) ++ r). rewrite some_digits_read by done. cbn. by rewrite <- !app_assoc.
Qed.

Lemma exponent_head ex r : exponent_text ex -> stops r -> after_fraction (ex ++ r).
Proof.
  intros [|x sign c ds [-> | ->] _ _] Hr; cbn; try done. destruct r as [|y r]; [done|]. cbn. by destruct (stops_char _ _ Hr) as (? & ? & _).
Qed.

Lemma decimal_part_read frac pa r e f : fraction_text frac -> after_fraction r ->
  decimal_part (Parser pa (frac ++ r) e f) = (Parser (rev frac ++ pa) r e f, Ok true).
Proof.
  intros Hf Hr. unfold decimal_part. unfold mbind at 1, st_bind at 1. rewrite advance_if_eq. destruct Hf as [|c ds Hds].
  - cbn [app]. assert (Hp : is_char "." (peek (Parser pa r e f)) = false) by (unfold peek; cbn; destruct r as [|c r]; [done|by destruct Hr]).
    by rewrite Hp.
  - unfold peek. cbn [rest app]. change (is_char "." ".") with true. cbv iota. rewrite advance_cons. cbn [fst].
    change (c :: ds ++ r) with ((c :: ds) ++ r). rewrite some_digits_read; [cbn; by rewrite <- !app_assoc|done|done|].
    destruct r as [|y r]; [done|]. by destruct Hr.
Qed.

Lemma integer_part_read ip pa r e f : int_text ip -> after_exponent r ->
  integer_part (Parser pa (ip ++ r) e f) = (Parser (rev ip ++ pa) r e f, Ok true).
Proof.
  intros Hi Hr. rewrite integer_part_eq. destruct Hi as [|c ds Hc Hds]; unfold peek; cbn [rest app].
  - change (is_char "0" "0") with true. cbv iota zeta. rewrite advance_cons. cbn [fst]. unfold peek. cbn [rest].
    destruct r as [|y r]; [done|]. by rewrite Hr.
  - destruct (nonzero_digit _ Hc) as [_ H0]. rewrite H0, Hc. rewrite advance_cons. cbn [fst]. rewrite skip_digits_read by done.
    cbn. by rewrite <- !app_assoc.
Qed.

Lemma int_text_digits ip : int_text ip -> digits ip /\ ip <> [].
Proof. intros [|c ds Hc Hds]; (split; [|done]); constructor; try done. by apply nonzero_digit. Qed.

Lemma fraction_head frac ex r : fraction_text frac -> exponent_text ex -> stops r -> after_exponent (frac ++ ex ++ r).
Proof.
  intros [|c ds _] Hex Hr; [|done]. pose proof (exponent_head ex r Hex Hr) as Ha. cbn. by destruct (ex ++ r) as [|y l]; [|destruct Ha].
Qed.

(** Nothing but the integer part, unless what follows says so. *)
Lemma whole_number frac ex r : fraction_text frac -> exponent_text ex -> stops r ->
  (let c := match frac ++ ex ++ r with c :: _ => c | [] => nul end in negb (is_char "." c || is_char "e" c || is_char "E" c)) = true -> frac = [] /\ ex = [].
Proof. intros [|c ds _] [|x sign c' ds' [-> | ->] _ _] Hr; cbn; try done. Qed.

Section numbers.
Context {double : Type} `{DoubleLaws double}.

Lemma parse_number_read t x pa r e : number_text t -> stops r -> deq (atof t) x = true ->
  exists j : json double, parse_number (Parser pa (t ++ r) e false) = (Parser (rev t ++ pa) r e false, Ok j)
    /\ type j = NUMBER /\ deq (number_value j) x = true.
Proof.
  intros Ht Hr Hx. destruct Ht as [minus ip frac ex Hm Hi Hf He] eqn:Et. clear Et.
  set (t := minus ++ ip ++ frac ++ ex) in *.
  assert (Ei : integer_part (after_minus (Parser pa (t ++ r) e false)) = (Parser (rev (minus ++ ip) ++ pa) (frac ++ ex ++ r) e false, Ok true)).
  { assert (Ea : after_minus (Parser pa (t ++ r) e false) = Parser (rev minus ++ pa) (ip ++ frac ++ ex ++ r) e false).
    { unfold t. rewrite <- !app_assoc. destruct Hm as [-> | ->]; [|reflexivity]. unfold after_minus, peek. cbn [rest app].
      destruct (int_text_digits ip Hi) as [Hd Hn]. destruct ip as [|c ip]; [done|]. apply Forall_cons in Hd as [Hc _]. cbn [app].
      destruct (is_char "-" c) eqn:Ec; [|done]. apply Ascii.eqb_eq in Ec as ->. done. }
    rewrite Ea, integer_part_read; [by rewrite rev_app_distr, <- app_assoc|done|by apply fraction_head]. }
  rewrite parse_number_eq, Ei. cbn [rest]. destruct (is_short _ _) eqn:Es.
  - unfold is_short, peek in Es. cbn [rest] in Es. apply andb_prop in Es as [Ew Hl%Nat.leb_le].
    destruct (whole_number frac ex r Hf He Hr Ew) as [-> ->]. unfold t in *. rewrite !app_nil_r in *. cbn [app] in *.
    eexists. split; [reflexivity|]. split; [done|]. cbn [number_value].
    assert (Hshort : (length ip <= 15)%nat) by (rewrite !length_app in Hl; unfold digits10 in Hl; lia).
    assert (Hstop : after_exponent r) by (destruct r as [|y r]; [done|]; by destruct (stops_char _ _ Hr)).
    eapply deq_trans; [apply deq_sym|exact Hx].
    destruct (int_text_digits ip Hi) as [Hd Hn]. destruct Hm as [-> | ->]; cbn [app].
    + replace (atoi (ip ++ r)) with (stoi 10 ip); [by apply atof_digits|].
      destruct ip as [|c ip]; [done|]. cbn [app]. rewrite atoi_other.
      * change (c :: ip ++ r) with ((c :: ip) ++ r). by rewrite span_app.
      * apply Forall_cons in Hd as [Hc _]. by destruct c as [[] [] [] [] [] [] [] []].
    + unfold atoi. rewrite span_app by done. by apply atof_minus.
  - exists (JDouble (atof (t ++ r))). split; [|split; [done|]].
    + unfold number_tail. unfold mbind at 1, st_bind at 1. rewrite decimal_part_read; [|done|by apply exponent_head].
      cbn [negb]. unfold mbind at 1, st_bind at 1. rewrite exponent_part_read by done. cbn. unfold t.
      by rewrite !rev_app_distr, <- !app_assoc.
    + cbn [number_value]. by rewrite atof_stops.
Qed.

(** The text of an integer. *)
Lemma show_digits_head k n : 0 < n < 10 ^ Z.of_nat k -> exists c ds, show_digits k 10 n = c :: ds /\ in_range (schar c) 49 57 = true.
Proof.
  revert n. induction k as [|k IH]; intros n Hn; [cbn in Hn; lia|]. cbn [show_digits].
  destruct (Z.ltb_spec n 10) as [Hlt|Hge].
  - exists (digit_char (n mod 10)), []. split; [done|]. rewrite Z.mod_small by lia.
    assert (Hall : forallb (fun m => in_range (schar (digit_char (Z.of_nat m))) 49 57) (seq 1 9) = true) by (vm_compute; reflexivity).
    rewrite forallb_forall in Hall. specialize (Hall (Z.to_nat n)). rewrite Z2Nat.id in Hall by lia. apply Hall, in_seq. lia.
  - destruct (IH (n / 10)) as (c & ds & E & Hc).
    { split; [apply Z.div_str_pos; lia|]. apply Z.div_lt_upper_bound; [lia|].
      replace (Z.of_nat (S k)) with (Z.of_nat k + 1) in Hn by lia. rewrite Z.pow_add_r in Hn by lia. lia. }
    exists c, (ds ++ [digit_char (n mod 10)]). by rewrite E.
Qed.

Lemma print_int_text n : in_range n (- 2 ^ 31) (2 ^ 31 - 1) = true ->
  exists minus ds, print_int n = minus ++ ds /\ int_text ds /\ (length ds <= 15)%nat
    /\ ((minus = [] /\ stoi 10 ds = n) \/ (minus = ["-"%char] /\ - stoi 10 ds = n)).
Proof.
  intros [H1%Z.leb_le H2%Z.leb_le]%andb_prop.
  assert (Hd : forall m, 0 <= m <= 2 ^ 31 -> int_text (show_base 10 m) /\ (length (show_base 10 m) <= 15)%nat /\ stoi 10 (show_base 10 m) = m).
  { intros m Hm. destruct (show_base_ok 10 m 10) as (Hv & Hl & Hf); [lia|change (10 ^ Z.of_nat 10) with 10000000000; lia|lia|].
    split; [|split; [lia|done]]. destruct (Z.eq_dec m 0) as [->|Hm0]; [constructor|].
    destruct (show_digits_head 64 m) as (c & ds & E & Hc); [split; [lia|]; change (10 ^ Z.of_nat 64) with (10 ^ 64); lia|].
    unfold show_base in *. rewrite E in *. constructor; [done|]. apply Forall_cons in Hf as [_ Hf]. eapply Forall_impl; [exact Hf|].
    intros x [_ Hx]. by apply Hx. }
  unfold print_int. destruct (Z.ltb_spec n 0) as [Hlt|Hge].
  - destruct (Hd (- n)) as (Ht & Hl & Hv); [lia|]. exists ["-"%char], (show_base 10 (- n)). split_and!; [done|done|done|]. right. split; [done|lia].
  - destruct (Hd n) as (Ht & Hl & Hv); [lia|]. exists [], (show_base 10 n). split_and!; [done|done|done|]. by left.
Qed.

Lemma print_int_number n : in_range n (- 2 ^ 31) (2 ^ 31 - 1) = true -> number_text (print_int n) /\ deq (atof (print_int n)) (of_int n) = true.
Proof.
  intros Hn. destruct (print_int_text n Hn) as (minus & ds & -> & Ht & Hl & Hv). destruct (int_text_digits ds Ht) as [Hd Hne]. split.
  - rewrite <- (app_nil_r ds). change (@nil ascii) with (@nil ascii ++ []) at 1. constructor; [|done|constructor..]. destruct Hv as [[-> _]|[-> _]]; auto.
  - destruct Hv as [[-> <-]|[-> <-]]; cbn [app]; [by apply atof_digits|by apply atof_minus].
Qed.
End numbers.

(** ** Values *)

Section json_ind.
Context {double : Type} (Q : json double -> Prop).
Hypothesis (Hnull : Q JNull) (Hint : forall n, Q (JInt n)) (Hdouble : forall d, Q (JDouble d)) (Hbool : forall b, Q (JBool b))
  (Hstring : forall s, Q (JString s)) (Harray : forall l, Forall Q l -> Q (JArray l))
  (Hobject : forall o, Forall (fun kv => Q kv.2) o -> Q (JObject o)).

Fixpoint json_nested_ind (j : json double) : Q j :=
  match j with
  | JNull => Hnull | JInt n => Hint n | JDouble d => Hdouble d | JBool b => Hbool b | JString s => Hstring s
  | JArray l => Harray l ((fix go l : Forall Q l := match l with [] => Forall_nil_2 Q | x :: l => Forall_cons_2 Q x l (json_nested_ind x) (go l) end) l)
  | JObject o =>
      Hobject o ((fix go o : Forall (fun kv => Q kv.2) o :=
        match o with [] => Forall_nil_2 _ | kv :: o => Forall_cons_2 _ kv o (json_nested_ind kv.2) (go o) end) o)
  end.
End json_ind.

Section values.
Context {double : Type} `{DoubleLaws double}.
Abbreviation json := (json double).
Abbreviation P A := (st fuel parser A).

Lemma get_next_token_read pa c r e f : is_blank c = false -> get_next_token (Parser pa (c :: r) e f) = (Parser (c :: pa) r e f, Ok c).
Proof. intros Hc. pose proof (get_next_token_eq (Parser pa (c :: r) e f)) as E. cbn [rest span] in E. rewrite Hc in E. exact E. Qed.

Lemma get_next_token_space pa c r e f : is_blank c = false ->
  get_next_token (Parser pa (" "%char :: c :: r) e f) = (Parser (c :: " "%char :: pa) r e f, Ok c).
Proof. intros Hc. pose proof (get_next_token_eq (Parser pa (" "%char :: c :: r) e f)) as E. cbn [rest span] in E.
  change (is_blank " ") with true in E. cbv iota in E. rewrite Hc in E. exact E. Qed.

(** The text of a value starts with a character that is not blank and not a bracket at an end. *)
Lemma dump_head j : json_wf j = true -> json_finite j = true ->
  exists c t, dump j = c :: t /\ is_blank c = false /\ is_char "]" c = false /\ is_char "}" c = false.
Proof.
  assert (Hnum : forall t, number_text t -> exists c t', t = c :: t' /\ is_blank c = false /\ is_char "]" c = false /\ is_char "}" c = false).
  { intros t [minus ip frac ex Hm Hi _ _]. destruct Hm as [-> | ->]; [|by eexists _, _].
    destruct Hi as [|c ds Hc _]; [by eexists _, _|]. eexists c, _. split; [reflexivity|]. by destruct c as [[] [] [] [] [] [] [] []]. }
  destruct j as [|n|d|b|s|l|o]; cbn [dump json_wf json_finite]; intros Hw Hf; try by eexists _, _.
  - by apply Hnum, print_int_number.
  - by apply Hnum, print_finite.
  - destruct b; by eexists _, _.
Qed.

Lemma expect_read w c (j : json) pa r e : chars w = c :: drop 1 (chars w) ->
  expect w j (Parser (c :: pa) (drop 1 (chars w) ++ r) e false) = (Parser (rev (chars w) ++ pa) r e false, Ok j).
Proof.
  intros Hw. unfold expect, back. unfold mbind at 1, st_bind at 1. cbn [st_update past rest err failed].
  unfold mbind at 1, st_bind at 1. cbn [st_get rest]. change (c :: drop 1 (chars w) ++ r) with ((c :: drop 1 (chars w)) ++ r). rewrite <- Hw.
  rewrite take_app_length. rewrite bool_decide_true by done. unfold mbind, st_bind, advance, st_update. cbn [rest past err failed].
  by rewrite take_app_length, drop_app_length.
Qed.

(** [value] reads what [text] writes, wherever that stands, and behind a space. *)
Definition reads (value : P json) (text : list ascii) (j : json) : Prop := forall space pa r e,
  space = [] \/ space = [" "%char] -> stops r ->
  exists j', value (Parser pa (space ++ text ++ r) e false) = (Parser (rev text ++ space ++ pa) r e false, Ok j') /\ json_eqb j j' = true.

(** The shape of a text that a loop can start at. *)
Definition starts (text : list ascii) : Prop :=
  exists c t, text = c :: t /\ is_blank c = false /\ is_char "]" c = false /\ is_char "}" c = false.

(** What follows the first part. *)
Definition more (l : list (list ascii)) : list ascii := match l with [] => [] | _ => chars ", " ++ commas l end.

Lemma commas_cons x l : commas (x :: l) = x ++ more l.
Proof. destruct l; cbn; [by rewrite app_nil_r|done]. Qed.
Lemma more_cons x l : more (x :: l) = ","%char :: " "%char :: x ++ more l.
Proof. by rewrite <- commas_cons. Qed.
Lemma rev_more t x l pa : rev (t ++ more (x :: l)) ++ pa = rev (x ++ more l) ++ " "%char :: ","%char :: rev t ++ pa.
Proof. rewrite more_cons, rev_app_distr. cbn. by rewrite <- !app_assoc. Qed.

Lemma step_ok {A B} (m : P A) (f : A -> P B) p p' a : m p = (p', Ok a) -> (m ≫= f) p = f a p'.
Proof. intros E. unfold mbind, st_bind. by rewrite E. Qed.

Lemma not_failed {B} (f : bool -> P B) p : failed p = false -> (has_failed ≫= f) p = f false p.
Proof. intros E. rewrite <- E. done. Qed.

Section loops.
Variable value : P json.
Definition good (j : json) : Prop := reads value (dump j) j /\ starts (dump j).

Lemma more_stops l c r : stops [c] -> stops (more l ++ c :: r).
Proof. by destruct l. Qed.

Lemma array_loop_read j l fuel data p pa r e :
  (S (length l) <= fuel)%nat -> good j -> Forall good l ->
  back p = (Parser pa (dump j ++ more (map dump l) ++ "]"%char :: r) e false, Ok tt) ->
  exists l', array_loop value fuel data p
    = (Parser ("]"%char :: rev (dump j ++ more (map dump l)) ++ pa) r e false, Ok (JArray (data ++ l')))
    /\ Forall2 (fun a b => json_eqb a b = true) (j :: l) l'.
Proof.
  revert j fuel data p pa. induction l as [|j2 l IH]; intros j fuel data p pa Hfuel [Hj _] Hall Hp;
    (destruct fuel as [|fuel]; [cbn in Hfuel; lia|]); cbn [array_loop]; rewrite (step_ok _ _ _ _ _ Hp);
    match type of Hp with context [more ?l] => destruct (Hj [] pa _ e (or_introl eq_refl) (more_stops l "]" r eq_refl)) as (j' & E & Heq) end;
    cbn [app] in E; rewrite (step_ok _ _ _ _ _ E), not_failed by done; cbv iota.
  - cbn [map more app]. rewrite (step_ok _ _ _ _ _ (get_next_token_read _ "]" _ _ _ eq_refl)). change (is_char "]" "]") with true. cbv iota.
    exists [j']. split; [by rewrite app_nil_r|by repeat constructor].
  - apply Forall_cons in Hall as [Hj2 Hall]. pose proof Hj2 as [_ (c & t & Et & Hb & _)].
    cbn [map]. rewrite rev_more, more_cons. cbn [app].
    rewrite (step_ok _ _ _ _ _ (get_next_token_read _ "," _ _ _ eq_refl)). change (is_char "]" ",") with false. change (is_char "," ",") with true.
    cbv iota. cbn [negb]. rewrite <- app_assoc.
    assert (Etok : get_next_token (Parser (","%char :: rev (dump j) ++ pa) (" "%char :: dump j2 ++ more (map dump l) ++ "]"%char :: r) e false)
      = (Parser (c :: " "%char :: ","%char :: rev (dump j) ++ pa) (t ++ more (map dump l) ++ "]"%char :: r) e false, Ok c)).
    { rewrite Et. by apply get_next_token_space. }
    rewrite (step_ok _ _ _ _ _ Etok). cbv beta.
    destruct (IH j2 fuel (data ++ [j']) (Parser (c :: " "%char :: ","%char :: rev (dump j) ++ pa) (t ++ more (map dump l) ++ "]"%char :: r) e false)
      (" "%char :: ","%char :: rev (dump j) ++ pa)) as (l' & El & Hl); [cbn in Hfuel; lia|done|done|by rewrite Et|].
    exists (j' :: l'). rewrite El. split; [by rewrite <- app_assoc|by constructor].
Qed.

Definition member (kv : string * json) : list ascii := dump_string kv.1 ++ chars ": " ++ dump kv.2.

Lemma rev_member key v pa : rev (member (key, v)) ++ pa = rev (dump v) ++ " "%char :: ":"%char :: dq :: rev (dump_chars (chars key)) ++ dq :: pa.
Proof.
  unfold member, dump_string. cbn [fst snd]. change (chars ": ") with [":"%char; " "%char].
  change (dq :: dump_chars (chars key) ++ [dq]) with ([dq] ++ dump_chars (chars key) ++ [dq]).
  rewrite !rev_app_distr, <- !app_assoc. reflexivity.
Qed.

Lemma keys_above_ext {A} key (o o' : list (string * A)) : map fst o = map fst o' -> keys_above key o = keys_above key o'.
Proof. revert o'. induction o as [|[k v] o IH]; intros [|[k' v'] o']; cbn; try done. intros [= -> E]. by rewrite (IH _ E). Qed.

Lemma sorted_keys_ext {A} (o o' : list (string * A)) : map fst o = map fst o' -> sorted_keys o = sorted_keys o'.
Proof.
  revert o'. induction o as [|[k v] o IH]; intros [|[k' v'] o']; cbn; try done. intros [= -> E]. by rewrite (IH _ E), (keys_above_ext _ _ _ E).
Qed.

Lemma keys_above_app {A} key (o o' : list (string * A)) : keys_above key (o ++ o') = keys_above key o && keys_above key o'.
Proof. induction o as [|[k v] o IH]; cbn; [done|]. by rewrite IH, andb_assoc. Qed.

Lemma sorted_below {A} key (v : A) o o' : sorted_keys (o ++ (key, v) :: o') = true -> forallb (fun kv => key_lt kv.1 key) o = true.
Proof.
  induction o as [|[k w] o IH]; cbn; [done|]. intros [Ha Hs]%andb_prop. rewrite keys_above_app in Ha. apply andb_prop in Ha as [_ Ha].
  cbn in Ha. apply andb_prop in Ha as [-> _]. by apply IH.
Qed.

Lemma object_loop_read kv o fuel data pa r e :
  (S (length o) <= fuel)%nat -> good kv.2 -> Forall (fun kv => good kv.2) o -> sorted_keys (data ++ kv :: o) = true ->
  exists o', object_loop value fuel data dq (Parser (dq :: pa) (drop 1 (member kv) ++ more (map member o) ++ "}"%char :: r) e false)
    = (Parser ("}"%char :: rev (member kv ++ more (map member o)) ++ pa) r e false, Ok (JObject (data ++ o')))
    /\ Forall2 (fun a b => a.1 = b.1 /\ json_eqb a.2 b.2 = true) (kv :: o) o'.
Proof.
  revert kv fuel data pa. induction o as [|kv2 o IH]; intros [key v] fuel data pa Hfuel [Hv (c & t & Et & Hb & _)] Hall Hs;
    (destruct fuel as [|fuel]; [cbn in Hfuel; lia|]); cbn [object_loop]; change (is_char dq dq) with true; cbn [negb];
    unfold member at 1, dump_string; cbn [fst snd app drop] in *; rewrite drop_0, <- !app_assoc; cbn [app];
    rewrite (step_ok _ _ _ _ _ (dump_string_read _ _ _ _)), not_failed by done; cbv iota;
    change (chars ": ") with [":"%char; " "%char]; cbn [app];
    rewrite (step_ok _ _ _ _ _ (get_next_token_read _ ":" _ _ _ eq_refl)); change (is_char ":" ":") with true; cbn [negb];
    match goal with |- context [more ?l] =>
      destruct (Hv [" "%char] (":"%char :: dq :: rev (dump_chars (chars key)) ++ dq :: pa) _ e (or_intror eq_refl) (more_stops l "}" r eq_refl))
        as (v' & E & Heq) end;
    cbn [app] in E; rewrite <- rev_member in E; rewrite (step_ok _ _ _ _ _ E), not_failed by done; cbv iota zeta;
    pose proof (sorted_below _ _ _ _ Hs) as Hbelow; rewrite obj_set_snoc by done.
  - cbn [map more app]. rewrite (step_ok _ _ _ _ _ (get_next_token_read _ "}" _ _ _ eq_refl)). change (is_char "}" "}") with true. cbv iota.
    exists [(key, v')]. split; [|by repeat constructor]. by rewrite app_nil_r.
  - apply Forall_cons in Hall as [Hkv2 Hall]. destruct kv2 as [key2 v2].
    cbn [map]. rewrite rev_more, more_cons. cbn [app].
    rewrite (step_ok _ _ _ _ _ (get_next_token_read _ "," _ _ _ eq_refl)). change (is_char "}" ",") with false. change (is_char "," ",") with true.
    cbv iota. cbn [negb]. rewrite <- app_assoc.
    assert (Etok : get_next_token (Parser (","%char :: rev (member (key, v)) ++ pa) (" "%char :: member (key2, v2) ++ more (map member o) ++ "}"%char :: r) e false)
      = (Parser (dq :: " "%char :: ","%char :: rev (member (key, v)) ++ pa) (drop 1 (member (key2, v2)) ++ more (map member o) ++ "}"%char :: r) e false, Ok dq)).
    { by apply get_next_token_space. }
    rewrite (step_ok _ _ _ _ _ Etok). cbv beta.
    destruct (IH (key2, v2) fuel (data ++ [(key, v')]) (" "%char :: ","%char :: rev (member (key, v)) ++ pa)) as (o' & El & Hl);
      [cbn in Hfuel; lia|done|done| |].
    { rewrite <- Hs. apply sorted_keys_ext. rewrite !map_app. cbn. by rewrite <- app_assoc. }
    exists ((key, v') :: o'). rewrite El. split; [by rewrite <- app_assoc|by constructor].
Qed.
End loops.

Lemma token_read space pa c t e : space = [] \/ space = [" "%char] -> is_blank c = false ->
  get_next_token (Parser pa (space ++ c :: t) e false) = (Parser (c :: space ++ pa) t e false, Ok c).
Proof. intros [-> | ->] Hc; [by apply get_next_token_read|by apply get_next_token_space]. Qed.

(** [parse_json] behind its first token. *)
Definition after_token (fuel levels : nat) (ch : ascii) : P json :=
  if is_char "-" ch || is_digit ch then back ;; parse_number
  else if is_char "t" ch then expect "true" (JBool true)
  else if is_char "f" ch then expect "false" (JBool false)
  else if is_char "n" ch then expect "null" JNull
  else if is_char dq ch then s ← parse_string; mret (JString s)
  else if is_char "{" ch then
    ch ← get_next_token; if is_char "}" ch then mret (JObject []) else object_loop (parse_json fuel levels) fuel [] ch
  else if is_char "[" ch then
    ch ← get_next_token; if is_char "]" ch then mret (JArray []) else array_loop (parse_json fuel levels) fuel []
  else fail (chars "expected value, got " ++ esc ch) JNull.

Lemma parse_json_token fuel levels space pa c t e : space = [] \/ space = [" "%char] -> is_blank c = false ->
  parse_json fuel (S levels) (Parser pa (space ++ c :: t) e false) = after_token fuel levels c (Parser (c :: space ++ pa) t e false).
Proof. intros Hs Hc. cbn [parse_json]. by rewrite (step_ok _ _ _ _ _ (token_read _ _ _ _ _ Hs Hc)), not_failed. Qed.

Lemma number_read fuel levels t x j : number_text t -> deq (atof t) x = true ->
  (forall j', type j' = NUMBER -> deq (number_value j') x = true -> json_eqb j j' = true) -> reads (parse_json fuel (S levels)) t j.
Proof.
  intros Ht Hx Hj space pa r e Hs Hr. destruct (parse_number_read t x (space ++ pa) r e Ht Hr Hx) as (j' & E & Hty & Hv).
  exists j'. split; [|by apply Hj].
  assert (Hc : exists c t', t = c :: t' /\ is_blank c = false /\ (is_char "-" c || is_digit c) = true).
  { destruct Ht as [minus ip frac ex [-> | ->] Hi _ _]; [|by eexists _, _]. destruct Hi as [|c ds Hc _]; [by eexists _, _|].
    eexists c, _. split; [reflexivity|]. by destruct c as [[] [] [] [] [] [] [] []]. }
  destruct Hc as (c & t' & -> & Hb & Hc). cbn [app]. rewrite parse_json_token by done. unfold after_token. rewrite Hc.
  erewrite step_ok by reflexivity. exact E.
Qed.

Lemma expected_read fuel levels w c j : chars w = c :: drop 1 (chars w) -> is_blank c = false ->
  (forall p, after_token fuel levels c p = expect w j p) -> json_eqb j j = true -> reads (parse_json fuel (S levels)) (chars w) j.
Proof.
  intros Hw Hb Hc Hj space pa r e Hs Hr. exists j. split; [|done].
  rewrite Hw at 1. cbn [app]. rewrite parse_json_token by done. rewrite Hc. by apply expect_read.
Qed.

Lemma commas_length x l : In x l -> (length x <= length (commas l))%nat.
Proof.
  induction l as [|y l IH]; [done|]. intros [->|Hin]; rewrite commas_cons, length_app; [lia|]. specialize (IH Hin).
  destruct l as [|z l]; [done|]. unfold more. rewrite length_app. lia.
Qed.

Lemma commas_parts l : Forall (fun x => x <> []) l -> (length l <= length (commas l))%nat.
Proof.
  induction 1 as [|x l Hx _ IH]; [done|]. rewrite commas_cons, length_app. destruct x; [done|]. cbn [length]. destruct l as [|y l]; [cbn; lia|].
  unfold more. rewrite length_app. lia.
Qed.

Lemma eqb_array l l' : Forall2 (fun a b => json_eqb a b = true) l l' -> json_eqb (JArray l) (JArray l') = true.
Proof. induction 1 as [|a b l l' Hab _ IH]; [done|]. cbn in *. by rewrite Hab. Qed.

Lemma eqb_object o o' : Forall2 (fun a b => a.1 = b.1 /\ json_eqb a.2 b.2 = true) o o' -> json_eqb (JObject o) (JObject o') = true.
Proof. induction 1 as [|[k a] [k' b] o o' [Hk Hab] _ IH]; [done|]. cbn in *. subst. by rewrite bool_decide_true, Hab by done. Qed.

Lemma rev_brackets (c d : ascii) t l : rev (c :: t ++ [d]) ++ l = d :: rev t ++ c :: l.
Proof. cbn. by rewrite rev_app_distr, <- !app_assoc. Qed.

(** The two loops, behind their opening bracket. *)
Lemma array_read fuel levels l :
  (length l <= fuel)%nat -> Forall (good (parse_json fuel levels)) l -> reads (parse_json fuel (S levels)) (dump (JArray l)) (JArray l).
Proof.
  intros Hf Hl space pa r e Hs Hr. cbn [dump app]. rewrite parse_json_token by done.
  change (after_token fuel levels "[" ?p) with ((ch ← get_next_token; if is_char "]" ch then mret (JArray []) else
    array_loop (parse_json fuel levels) fuel []) p).
  destruct l as [|j l].
  - cbn [map commas app]. exists (JArray []). split; [|done]. by rewrite (step_ok _ _ _ _ _ (get_next_token_read _ "]" _ _ _ eq_refl)).
  - apply Forall_cons in Hl as [Hj Hl]. pose proof Hj as [_ (c & t & Et & Hb & Hc & _)]. cbn [map]. rewrite commas_cons, <- !app_assoc.
    assert (Etok : get_next_token (Parser ("["%char :: space ++ pa) (dump j ++ more (map dump l) ++ ["]"%char] ++ r) e false)
      = (Parser (c :: "["%char :: space ++ pa) (t ++ more (map dump l) ++ ["]"%char] ++ r) e false, Ok c)).
    { rewrite Et. by apply get_next_token_read. }
    rewrite (step_ok _ _ _ _ _ Etok), Hc.
    destruct (array_loop_read (parse_json fuel levels) j l fuel [] (Parser (c :: "["%char :: space ++ pa) (t ++ more (map dump l) ++ ["]"%char] ++ r) e false)
      ("["%char :: space ++ pa) r e) as (l' & El & Hl'); [done|done|done|by rewrite Et|].
    rewrite El. exists (JArray l'). split; [|by apply eqb_array]. do 2 f_equal.
    by rewrite (app_assoc (dump j)), rev_brackets.
Qed.

Lemma object_read fuel levels o :
  (length o <= fuel)%nat -> sorted_keys o = true -> Forall (fun kv => good (parse_json fuel levels) kv.2) o ->
  reads (parse_json fuel (S levels)) (dump (JObject o)) (JObject o).
Proof.
  intros Hf Hsort Ho space pa r e Hs Hr. cbn [dump app]. change (map _ o) with (map member o). rewrite parse_json_token by done.
  change (after_token fuel levels "{" ?p) with ((ch ← get_next_token; if is_char "}" ch then mret (JObject []) else
    object_loop (parse_json fuel levels) fuel [] ch) p).
  destruct o as [|[key v] o].
  - cbn [map commas app]. exists (JObject []). split; [|done]. by rewrite (step_ok _ _ _ _ _ (get_next_token_read _ "}" _ _ _ eq_refl)).
  - apply Forall_cons in Ho as [Hv Ho]. cbn [map]. rewrite commas_cons, <- !app_assoc.
    assert (Etok : get_next_token (Parser ("{"%char :: space ++ pa) (member (key, v) ++ more (map member o) ++ ["}"%char] ++ r) e false)
      = (Parser (dq :: "{"%char :: space ++ pa) (drop 1 (member (key, v)) ++ more (map member o) ++ ["}"%char] ++ r) e false, Ok dq)).
    { by apply get_next_token_read. }
    rewrite (step_ok _ _ _ _ _ Etok). change (is_char "}" dq) with false. cbv iota.
    destruct (object_loop_read (parse_json fuel levels) (key, v) o fuel [] ("{"%char :: space ++ pa) r e) as (o' & Eo & Ho'); [done|done|done|done|].
    cbn [app] in *. rewrite Eo. exists (JObject o'). split; [|by apply eqb_object]. do 2 f_equal.
    by rewrite (app_assoc (member (key, v))), rev_brackets.
Qed.

(** What is written is read. *)
Lemma dump_read fuel j : forall levels, json_wf j = true -> json_finite j = true -> (json_levels j <= levels)%nat -> (length (dump j) <= fuel)%nat ->
  reads (parse_json fuel levels) (dump j) j.
Proof.
  assert (Hgood : forall j levels, json_wf j = true -> json_finite j = true -> reads (parse_json fuel levels) (dump j) j -> good (parse_json fuel levels) j).
  { intros j' lv Hw Hf Hr. split; [done|]. by apply dump_head. }
  induction j as [|n|d|b|str|l IH|o IH] using json_nested_ind; intros [|levels] Hw Hf Hlv Hfuel; try (cbn in Hlv; lia).
  - by apply (expected_read _ _ "null" "n").
  - destruct (print_int_number n Hw) as [Ht Hn]. apply (number_read _ _ _ _ _ Ht Hn). intros j' Hty Hv. cbn. rewrite Hty. cbn.
    by apply deq_sym.
  - apply (number_read _ _ _ d); [by apply print_finite|by apply atof_print|]. intros j' Hty Hv. cbn. rewrite Hty. cbn. by apply deq_sym.
  - destruct b; [by apply (expected_read _ _ "true" "t")|by apply (expected_read _ _ "false" "f")].
  - intros space pa r e Hs Hr. exists (JString str). split; [|by apply bool_decide_true]. cbn [dump]. unfold dump_string. cbn [app].
    rewrite parse_json_token by done. change (after_token fuel levels dq ?p) with ((x ← parse_string; mret (JString x : json)) p).
    rewrite <- app_assoc. cbn [app]. rewrite (step_ok _ _ _ _ _ (dump_string_read _ _ _ _)). cbn [mret st_ret]. do 2 f_equal.
    by rewrite rev_brackets.
  - cbn in Hw, Hf, Hlv. apply le_S_n in Hlv. rewrite list_max_le in Hlv. rewrite forallb_forall in Hw, Hf. cbn [dump] in Hfuel.
    assert (Hl : Forall (good (parse_json fuel levels)) l).
    { rewrite Forall_forall in IH. rewrite Forall_forall in Hlv. apply Forall_forall. intros x Hx%list_elem_of_In. apply Hgood; [by apply Hw|by apply Hf|].
      apply IH; [by apply list_elem_of_In|by apply Hw|by apply Hf|apply Hlv, list_elem_of_In; by apply in_map|].
      pose proof (commas_length (dump x) (map dump l) (in_map _ _ _ Hx)) as Hc. cbn in Hfuel. rewrite length_app in Hfuel. lia. }
    apply array_read; [|done]. pose proof (commas_parts (map dump l)) as Hp. cbn in Hfuel. rewrite length_app, length_map in *.
    assert (Hne : Forall (fun x => x <> []) (map dump l)); [|specialize (Hp Hne); lia].
    apply Forall_map. eapply Forall_impl; [exact Hl|]. by intros x [_ (c & t & -> & _)].
  - cbn in Hw, Hf, Hlv. apply andb_prop in Hw as [Hsort Hw]. apply le_S_n in Hlv. rewrite list_max_le in Hlv. rewrite forallb_forall in Hw, Hf.
    cbn [dump] in Hfuel. change (map _ o) with (map member o) in Hfuel.
    assert (Hl : Forall (fun kv => good (parse_json fuel levels) kv.2) o).
    { rewrite Forall_forall in IH. rewrite Forall_forall in Hlv. apply Forall_forall. intros x Hx%list_elem_of_In. apply Hgood; [by apply Hw|by apply Hf|].
      apply IH; [by apply list_elem_of_In|by apply Hw|by apply Hf|apply Hlv, list_elem_of_In; by apply (in_map (fun kv => json_levels kv.2))|].
      pose proof (commas_length (member x) (map member o) (in_map _ _ _ Hx)) as Hc. cbn in Hfuel. rewrite length_app in Hfuel.
      unfold member in Hc at 1. rewrite !length_app in Hc. lia. }
    apply object_read; [|done|done]. pose proof (commas_parts (map member o)) as Hp. cbn in Hfuel. rewrite length_app, length_map in *.
    assert (Hne : Forall (fun x => x <> []) (map member o)); [|specialize (Hp Hne); lia].
    apply Forall_map. apply Forall_forall. by intros x _.
Qed.

End values.

(** ** Whole numbers as an instance *)

#[export] Instance whole_doubles : Doubles Z := {
  of_int := fun n => n; to_int := fun d => d; deq := Z.eqb; print_double := print_int; atof := atoi;
}.

Lemma atoi_stops t r : number_text t -> stops r -> atoi (t ++ r) = atoi t.
Proof.
  intros [minus ip frac ex Hm Hi Hf He] Hr. destruct (int_text_digits ip Hi) as [Hd Hn].
  assert (Hcut : forall l, match frac ++ ex ++ l with [] => True | c :: _ => is_digit c = false end -> (span is_digit (ip ++ frac ++ ex ++ l)).1 = ip).
  { intros l Hl. by rewrite span_app. }
  assert (H1 : (span is_digit (ip ++ frac ++ ex ++ r)).1 = ip) by (by apply Hcut, fraction_head).
  assert (H2 : (span is_digit (ip ++ frac ++ ex)).1 = ip).
  { specialize (Hcut []). rewrite !app_nil_r in Hcut. apply Hcut. pose proof (fraction_head frac ex [] Hf He I) as Hx. by rewrite !app_nil_r in Hx. }
  rewrite <- !app_assoc. destruct Hm as [-> | ->]; cbn [app].
  - destruct ip as [|c ip]; [done|]. assert (Hc : is_char "-" c = false).
    { apply Forall_cons in Hd as [Hc _]. by destruct c as [[] [] [] [] [] [] [] []]. }
    cbn [app] in *. by rewrite !atoi_other, H1, H2 by done.
  - unfold atoi. by rewrite H1, H2.
Qed.

#[export] Program Instance whole_laws : DoubleLaws Z := { finite := fun d => in_range d (- 2 ^ 31) (2 ^ 31 - 1) }.
Next Obligation.
  intros d Hd. destruct (print_int_text d Hd) as (minus & ds & E & Ht & _ & Hv). cbn. rewrite E, <- (app_nil_r ds).
  change (@nil ascii) with (@nil ascii ++ []) at 1. constructor; [|done|constructor..]. destruct Hv as [[-> _]|[-> _]]; auto.
Qed.
Next Obligation.
  intros d Hd. destruct (print_int_text d Hd) as (minus & ds & E & Ht & _ & Hv). destruct (int_text_digits ds Ht) as [Hds Hne]. cbn. rewrite E.
  apply Z.eqb_eq. destruct Hv as [[-> <-]|[-> <-]]; cbn [app].
  - destruct ds as [|c ds]; [done|]. rewrite atoi_other; [by rewrite span_all|].
    apply Forall_cons in Hds as [Hc _]. by destruct c as [[] [] [] [] [] [] [] []].
  - unfold atoi. by rewrite span_all.
Qed.
Next Obligation. intros t r. apply atoi_stops. Qed.
Next Obligation.
  intros ds Hds Hne _. cbn. apply Z.eqb_eq. destruct ds as [|c ds]; [done|]. rewrite atoi_other; [by rewrite span_all|].
  apply Forall_cons in Hds as [Hc _]. by destruct c as [[] [] [] [] [] [] [] []].
Qed.
Next Obligation. intros ds Hds Hne _. cbn. apply Z.eqb_eq. unfold atoi. by rewrite span_all. Qed.
Next Obligation. intros a b. cbn. by rewrite !Z.eqb_eq. Qed.
Next Obligation. intros a b c. cbn. rewrite !Z.eqb_eq. congruence. Qed.

Lemma dump_parsed `{DoubleLaws double} (j : json double) :
  json_wf j = true -> json_finite j = true -> (json_levels j <= S max_depth)%nat ->
  exists j', json_parse (dump j) = Some (j', []) /\ json_eqb j j' = true.
Proof.
  intros Hw Hf Hl. destruct (dump_read (loop_fuel (dump j)) j (S max_depth) Hw Hf Hl) with (space := @nil ascii) (pa := @nil ascii) (r := @nil ascii) (e := @nil ascii)
    as (j' & E & Heq); [unfold loop_fuel; lia|by left|done|].
  exists j'. split; [|done]. unfold json_parse, parse_then, new_parser. cbn [app] in E. rewrite !app_nil_r in E.
  by rewrite (step_ok _ _ _ _ _ E).
Qed.

(** C19: What is written is read.  The text of a value of at most 201 levels, with its
    keys in order, integers of 32 bits and finite numbers, and any characters in its
    strings, is parsed without an error as a value that is equal to it.  Equality does
    not tell 5 from 5.0, which have the same text. *)
Theorem json_roundtrip `{DoubleLaws double} (j : json double) :
  json_wf j = true -> json_finite j = true -> (json_levels j <= S max_depth)%nat ->
  exists j', json_parse (dump j) = Some (j', []) /\ json_eqb j j' = true.
Proof. apply dump_parsed. Qed.

(** A quotation mark, a line separator, a control character and a number. *)
Lemma json_roundtrip_witness :
  let s := string_of_list_ascii [dq; "226"%char; "128"%char; "168"%char; "001"%char] in
  let j : json Z := JObject [("a"%string, JArray [JInt (-7); JNull; JDouble 12]); ("b"%string, JString s)] in
  exists j', json_parse (dump j) = Some (j', []) /\ json_eqb j j' = true.
Proof. cbv zeta. apply json_roundtrip; vm_compute; [reflexivity|reflexivity|lia]. Defined.
