(* ===== verification/Rest.v ===== *)
(** * Flow entries by REST (src/RestFlowMod.cc, src/RestStringProcessing.cc)

    A request names a switch and describes a flow entry in JSON, with all numbers
    as strings; the handler turns it into one FlowMod, or a text that says why not. *)

From S2P Require Import Prelude Regex AddressTheorems RaftWire Switch Flow Json JsonTotal JsonRoundtrip.
Local Open Scope Z_scope.

(** ** Exceptions

    [std::string], [const char *], [std::overflow_error] and the rest; a use of a
    variable that has no value is not an exception, and nothing catches it. *)
Inductive rest_exn := ex_string (s : string) | ex_chars (s : string) | ex_overflow | ex_other | indeterminate.

(** [object.at(key)] *)
Definition obj_at {A} (key : string) (o : list (string * A)) : res rest_exn A :=
  match obj_find key o with Some v => Ok v | None => Throw ex_other end.

(** ** Numbers *)

(** [string_cast<T>] for unsigned [T] of [w] bits: the stream reads 64 bits, in base
    16 if the text starts with 0x.  On an empty text it does not touch the variable. *)
Definition is_hex (val : list ascii) : bool := match val with "0"%char :: "x"%char :: _ => true | _ => false end.
Definition read_sign (s : list ascii) : bool * list ascii :=
  match s with
  | "-"%char :: s => (true, s)
  | "+"%char :: s => (false, s)
  | s => (false, s)
  end.
Definition string_cast (w : Z) (val : list ascii) : res rest_exn Z :=
  match skip_ws val with
  | [] => Throw indeterminate
  | s =>
      let '(negative, s) := read_sign s in
      let n :=
        if is_hex val then
          stoi 16 (span is_xdigit (match s with "0"%char :: "x"%char :: s => s | "0"%char :: "X"%char :: s => s | s => s end)).1
        else stoi 10 (span is_digit s).1 in
      let no_overflow := if 2 ^ 64 <=? n then 2 ^ 64 - 1 else if negative : bool then u64 (- n) else n in
      let ans := wrap w no_overflow in
      if ans =? no_overflow then Ok ans else Throw ex_overflow
  end.

Definition json_cast {double} (w : Z) (v : json double) : res rest_exn Z := string_cast w (chars (string_value v)).

Definition chooseValue {double} (w : Z) (filter : list (string * json double)) (field : string) (alternative : Z) : res rest_exn Z :=
  match obj_find field filter with Some v => json_cast w v | None => Ok alternative end.

(** [std::uppercase] *)
Definition to_upper (c : ascii) : ascii :=
  if (97 <=? char_code c) && (char_code c <=? 122) then ascii_of_nat (Z.to_nat (char_code c - 32)) else c.

(** [toString_cast] of an unsigned number. *)
Definition toString_cast (value : Z) (toHex : bool) : list ascii :=
  if toHex then
    let ds := map to_upper (show_base 16 value) in
    ["0"%char; "x"%char] ++ replicate (4 - length ds) "0"%char ++ ds
  else show_base 10 value.

(** ** The FlowMod *)

(** A match field: a number, or what libfluid makes of a text. *)
Inductive oxm_value := oxm_number (n : Z) | oxm_text (s : string).
Record oxm := Oxm { ox_field : string; ox_value : oxm_value }.
#[export] Instance oxm_value_dec : EqDecision oxm_value.
Proof. solve_decision. Defined.
#[export] Instance oxm_dec : EqDecision oxm.
Proof. solve_decision. Defined.

Inductive rest_action :=
| act_plain (type : string) (members : list (string * Z))
| act_set_field (field : oxm).

Inductive rest_instruction := apply_actions (acts : list rest_action) | goto_table (table : Z).

Inductive rest_command := OFPFC_ADD | OFPFC_DELETE | OFPFC_DELETE_STRICT.

Record rest_flow_mod := RestFlowMod {
  rf_command : rest_command;
  rf_table_id : Z; rf_cookie : Z; rf_cookie_mask : Z; rf_idle_timeout : Z; rf_hard_timeout : Z; rf_priority : Z;
  rf_buffer_id : Z; rf_out_port : Z; rf_out_group : Z; rf_flags : Z;
  rf_match : list oxm;
  rf_instructions : list rest_instruction;
}.

Definition OFPP_ANY : Z := 0xffffffff.
Definition OFPG_ANY : Z := 0xffffffff.

Definition eth_ipv4 : Z := 0x0800.
Definition eth_arp : Z := 0x0806.
Definition inet_tcp : Z := 6.
Definition inet_udp : Z := 17.

(** The matches so far, whether one was added, and the Ethernet type if it is known. *)
Record matching := Matching { mt_match : list oxm; mt_added : bool; mt_ether_type : option Z }.

Section matches.
Context {double : Type}.
Abbreviation json_object := (list (string * json double)).
(** Whether the constructor of a field takes a text without an exception. *)
Variable accepts : string -> string -> bool.
Variable matches : json_object.

(** [HANDLE_UINT]: only an overflow gets out. *)
Definition handle_uint (field : string) (w : Z) (m : matching) : res rest_exn matching :=
  match obj_find field matches with
  | None => Ok m
  | Some v =>
      match json_cast w v with
      | Ok n => Ok (Matching (mt_match m ++ [Oxm field (oxm_number n)]) true (mt_ether_type m))
      | Throw ex_overflow => Throw ex_overflow
      | Throw indeterminate => Throw indeterminate
      | Throw _ => Ok m
      end
  end.

(** [HANDLE_STRING] *)
Definition handle_string (field : string) (m : matching) : res rest_exn matching :=
  match obj_find field matches with
  | Some v =>
      if accepts field (string_value v) then Ok (Matching (mt_match m ++ [Oxm field (oxm_text (string_value v))]) true (mt_ether_type m))
      else Ok m
  | None => Ok m
  end.

(** The block that follows the fields of a layer. *)
Definition when_added (fields : list (string * Z)) (ether : Z) (m : matching) : matching :=
  if mt_added m then
    Matching (mt_match m ++ map (fun x => Oxm x.1 (oxm_number x.2)) fields) false (Some ether)
  else m.

Definition match_l4 (m : matching) : res rest_exn matching :=
  m ← handle_uint "tcp_src" 16 m; m ← handle_uint "tcp_dst" 16 m;
  let m := when_added [("eth_type", eth_ipv4); ("ip_proto", inet_tcp)]%string eth_ipv4 m in
  m ← handle_uint "udp_src" 16 m; m ← handle_uint "udp_dst" 16 m;
  Ok (when_added [("eth_type", eth_ipv4); ("ip_proto", inet_udp)]%string eth_ipv4 m).

Definition match_ipv4 (m : matching) : res rest_exn matching :=
  m ← handle_uint "ip_proto" 8 m;
  if match mt_ether_type m with None => true | Some t => t =? eth_ipv4 end then
    m ← handle_string "ipv4_src" m; m ← handle_string "ipv4_dst" m;
    Ok (when_added [("eth_type", eth_ipv4)]%string eth_ipv4 m)
  else Ok m.

Definition match_arp (m : matching) : res rest_exn matching :=
  match mt_ether_type m with
  | Some _ => Ok m
  | None =>
      m ← handle_uint "arp_op" 16 m; m ← handle_string "arp_spa" m; m ← handle_string "arp_tpa" m;
      m ← handle_string "arp_sha" m; m ← handle_string "arp_tha" m;
      Ok (when_added [("eth_type", eth_arp)]%string eth_arp m)
  end.

Definition match_l2 (m : matching) : res rest_exn matching :=
  m ← handle_uint "vlan_vid" 16 m; m ← handle_uint "vlan_pcp" 8 m; m ← handle_uint "in_port" 32 m;
  m ← handle_uint "in_phy_port" 32 m; m ← handle_uint "metadata" 64 m;
  m ← handle_string "eth_dst" m; m ← handle_string "eth_src" m; handle_uint "eth_type" 16 m.

Definition processMatches : res rest_exn (list oxm) :=
  m ← match_l4 (Matching [] false None); m ← match_ipv4 m; m ← match_arp m; m ← match_l2 m;
  Ok (mt_match m).
End matches.

(** ** Actions *)

Local Open Scope string_scope.

(** The members an action of a type sets, with the widths of their setters. *)
Definition action_members (type : string) : option (list (string * Z)) :=
  snd <$> List.find (fun x => bool_decide (x.1 = type))
    [("OUTPUT", [("port", 32); ("max_len", 16)]); ("COPY_TTL_OUT", []); ("COPY_TTL_IN", []); ("SET_MPLS_TTL", [("mpls_ttl", 8)]);
     ("DEC_MPLS_TTL", []); ("PUSH_VLAN", [("ethertype", 16)]); ("POP_VLAN", []); ("PUSH_MPLS", [("ethertype", 16)]);
     ("POP_MPLS", [("ethertype", 16)]); ("SET_QUEUE", [("queue_id", 32)]); ("GROUP", [("group_id", 32)]);
     ("SET_NW_TTL", [("nw_ttl", 8)]); ("DEC_NW_TTL", []); ("PUSH_PBB", [("ethertype", 16)]); ("POP_PBB", []);
     ("EXPERIMENTER", [("experimenter", 32)])].

(** [doSwitch]: the fields by number, and those made from a text. *)
Definition number_fields : list (string * Z) :=
  [("metadata", 64); ("eth_type", 16); ("vlan_vid", 16); ("ip_dscp", 8); ("ip_ecn", 8); ("ip_proto", 8); ("tcp_src", 16);
   ("tcp_dst", 16); ("udp_src", 16); ("udp_dst", 16); ("arp_op", 16)].
Definition text_fields : list string :=
  ["eth_src"; "eth_dst"; "ipv4_src"; "ipv4_dst"; "arp_spa"; "arp_tpa"; "arp_sha"; "arp_tha"].

Section handlers.
Context {double : Type} `{Doubles double}.
Abbreviation json_object := (list (string * json double)).
Variable accepts : string -> string -> bool.
(** What libfluid constructs as a FlowMod. *)
Variable fm_default : rest_flow_mod.
(** [Controller::handler_table] *)
Variable handler_table : Z.

Definition doSwitch (field value : string) : res rest_exn oxm :=
  match List.find (fun x => bool_decide (x.1 = field)) number_fields with
  | Some x => n ← string_cast x.2 (chars value); Ok (Oxm field (oxm_number n))
  | None =>
      if bool_decide (field ∈ text_fields) then
        if accepts field value then Ok (Oxm field (oxm_text value)) else Throw ex_other
      else Throw (ex_chars "unsupported field name")
  end.

(** [SET_ACT]: a member that cannot be read is left out. *)
Definition set_act (action : json_object) (member : string * Z) : res rest_exn (list (string * Z)) :=
  match obj_find member.1 action with
  | None => Ok []
  | Some v =>
      match json_cast member.2 v with
      | Ok n => Ok [(member.1, n)]
      | Throw indeterminate => Throw indeterminate
      | Throw _ => Ok []
      end
  end.
Fixpoint set_acts (action : json_object) (members : list (string * Z)) : res rest_exn (list (string * Z)) :=
  match members with [] => Ok [] | m :: ms => x ← set_act action m; y ← set_acts action ms; Ok (x ++ y)%list end.

(** The body of [processAction]; an action of an unknown type is ignored. *)
Definition read_action (action : json_object) : res rest_exn (list rest_action) :=
  type ← obj_at "type" action;
  let type := string_value type in
  if bool_decide (type = "SET_FIELD") then
    field ← obj_at "field" action; value ← obj_at "value" action;
    f ← doSwitch (string_value field) (string_value value);
    Ok [act_set_field f]
  else
    match action_members type with
    | Some members => ms ← set_acts action members; Ok [act_plain type ms]
    | None => Ok []
    end.

(** The text gathered for the answer, and what has been sent to which switch. *)
Record rest_state := RestState { response_ : string; sent : list (Z * rest_flow_mod) }.

Abbreviation rest A := (st rest_exn rest_state A).

(** [processAction] *)
Definition processAction (action : json_object) : rest (list rest_action) := fun s =>
  match read_action action with
  | Ok a => (s, Ok a)
  | Throw indeterminate => (s, Throw indeterminate)
  | Throw _ =>
      match obj_at "type" action with
      | Ok t => (RestState (response_ s +:+ " Incorrect input in an action " +:+ string_value t +:+ ". This action is ignored.") (sent s), Ok [])
      | Throw e => (s, Throw e)
      end
  end.

Fixpoint processActions (actions : list (json double)) : rest (list rest_action) :=
  match actions with
  | [] => mret []
  | a :: actions => x ← processAction (object_items a); y ← processActions actions; mret (x ++ y)%list
  end.

(** ** Requests *)

(** Every text is parsed ([json_parse_total]). *)
Definition parse (body : string) : res rest_exn json_object :=
  match json_parse (chars body) with
  | Some (j, []) => Ok (object_items j)
  | Some (_, err) => Throw (ex_string ("Can't parse input request : " +:+ string_of_list_ascii err))
  | None => Throw ex_other
  end.

(** The checks of [validateRequest], before its handlers of exceptions.  The number
    of the table is printed as a character. *)
Definition check_request (full : bool) (req : json_object) (m : switch_map) : res rest_exn unit :=
  d ← obj_at "dpid" req; dpid ← json_cast 64 d;
  _ ← (if full then
         t ← obj_at "table_id" req; table_id ← json_cast 8 t;
         if (handler_table <=? table_id)%Z then
           Throw (ex_string ("Incorrect request. RestFlowMod can work only with tables in range of 0.."
             +:+ String (ascii_of_nat (Z.to_nat handler_table)) ". Look at RestFlowMod class definition for more details."))
         else _ ← obj_at "match" req; _ ← obj_at "actions" req; Ok tt
       else Ok tt);
  match getSwitch dpid m with None => Throw (ex_string "Incorrect request. Switch hasn't been found") | Some _ => Ok tt end.

Definition validateRequest (full : bool) (req : json_object) (m : switch_map) : res rest_exn unit :=
  match check_request full req m with
  | Ok u => Ok u
  | Throw (ex_string s) => Throw (ex_string s)
  | Throw ex_overflow => Throw (ex_chars "Overflow. Check maximal supported values.")
  | Throw indeterminate => Throw indeterminate
  | Throw _ => Throw (ex_string "Incorrect request.")
  end.

(** [processInfoAdd]: the setters take fewer bits than the 64 that are read. *)
Definition processInfoAdd (req : json_object) (fm : rest_flow_mod) : res rest_exn rest_flow_mod :=
  t ← obj_at "table_id" req; table_id ← json_cast 8 t;
  cookie ← chooseValue 64 req "cookie" 0; cookie_mask ← chooseValue 64 req "cookie_mask" 0;
  idle ← chooseValue 64 req "idle_timeout" 10; hard ← chooseValue 64 req "hard_timeout" 10;
  priority ← chooseValue 64 req "priority" 0; buffer ← chooseValue 64 req "buffer_id" 0xffffffff;
  flags ← chooseValue 64 req "flags" 0;
  Ok (RestFlowMod (rf_command fm) table_id cookie cookie_mask (u16 idle) (u16 hard) (u16 priority) (u32 buffer)
        (rf_out_port fm) (rf_out_group fm) (u16 flags) (rf_match fm) (rf_instructions fm)).

(** [processInfoDelete] *)
Definition processInfoDelete (req : json_object) (fm : rest_flow_mod) : res rest_exn rest_flow_mod :=
  cookie ← chooseValue 64 req "cookie" 0; cookie_mask ← chooseValue 64 req "cookie_mask" 0;
  table_id ← chooseValue 64 req "table_id" 0;
  idle ← chooseValue 64 req "idle_timeout" 0; hard ← chooseValue 64 req "hard_timeout" 0;
  priority ← chooseValue 64 req "priority" 0; buffer ← chooseValue 64 req "buffer_id" OFP_NO_BUFFER;
  out_port ← chooseValue 64 req "out_port" OFPP_ANY; out_group ← chooseValue 64 req "out_group" OFPG_ANY;
  flags ← chooseValue 64 req "flags" 0;
  Ok (RestFlowMod (rf_command fm) (u8 table_id) cookie cookie_mask (u16 idle) (u16 hard) (u16 priority) (u32 buffer)
        (u32 out_port) (u32 out_group) (u16 flags) (rf_match fm) (rf_instructions fm)).

Definition set_command (c : rest_command) (fm : rest_flow_mod) : rest_flow_mod :=
  RestFlowMod c (rf_table_id fm) (rf_cookie fm) (rf_cookie_mask fm) (rf_idle_timeout fm) (rf_hard_timeout fm) (rf_priority fm)
    (rf_buffer_id fm) (rf_out_port fm) (rf_out_group fm) (rf_flags fm) (rf_match fm) (rf_instructions fm).
Definition add_matches (ms : list oxm) (fm : rest_flow_mod) : rest_flow_mod :=
  RestFlowMod (rf_command fm) (rf_table_id fm) (rf_cookie fm) (rf_cookie_mask fm) (rf_idle_timeout fm) (rf_hard_timeout fm) (rf_priority fm)
    (rf_buffer_id fm) (rf_out_port fm) (rf_out_group fm) (rf_flags fm) (rf_match fm ++ ms)%list (rf_instructions fm).
Definition add_instruction (i : rest_instruction) (fm : rest_flow_mod) : rest_flow_mod :=
  RestFlowMod (rf_command fm) (rf_table_id fm) (rf_cookie fm) (rf_cookie_mask fm) (rf_idle_timeout fm) (rf_hard_timeout fm) (rf_priority fm)
    (rf_buffer_id fm) (rf_out_port fm) (rf_out_group fm) (rf_flags fm) (rf_match fm) (rf_instructions fm ++ [i])%list.

(** [sw->connection()->send(fm)], and the answer, which takes the gathered text. *)
Definition deliver (dpid : Z) (fm : rest_flow_mod) (text : string) : rest string := fun s =>
  (RestState "" (sent s ++ [(dpid, fm)])%list, Ok (text +:+ response_ s)).
Definition send_and_answer (req : json_object) (m : switch_map) (fm : rest_flow_mod) (text : string) : rest string :=
  d ← st_lift (obj_at "dpid" req); dpid ← st_lift (json_cast 64 d);
  match getSwitch dpid m with
  | None => st_lift (Throw (ex_chars "switch not found"))
  | Some sw => deliver (sw_id sw) fm text
  end.

Definition post_add (m : switch_map) (req : json_object) : rest string :=
  st_lift (validateRequest true req m) ;;
  matches ← st_lift (obj_at "match" req); actions ← st_lift (obj_at "actions" req);
  fm ← st_lift (processInfoAdd req (set_command OFPFC_ADD fm_default));
  ms ← st_lift (processMatches accepts (object_items matches));
  acts ← processActions (array_items actions);
  send_and_answer req m (add_instruction (apply_actions acts) (add_matches ms fm)) "new flow added".

Definition post_delete (strict : bool) (m : switch_map) (req : json_object) : rest string :=
  st_lift (validateRequest false req m) ;;
  fm ← st_lift (processInfoDelete req (set_command (if strict then OFPFC_DELETE_STRICT else OFPFC_DELETE) fm_default));
  ms ← match obj_find "match" req with
       | Some v => st_lift (processMatches accepts (object_items v))
       | None => mret []
       end;
  instrs ← match obj_find "actions" req with
       | Some v => acts ← processActions (array_items v); mret [apply_actions acts]
       | None => mret []
       end;
  send_and_answer req m (fold_left (fun fm i => add_instruction i fm) instrs (add_matches ms fm)) "have sent flow_mod with DELETE command".

(** The handlers of exceptions around a request. *)
Definition answered (r : rest string) : rest string := fun s =>
  match r s with
  | (s, Throw (ex_string msg)) => (s, Ok msg)
  | (s, Throw indeterminate) => (s, Throw indeterminate)
  | (s, Throw _) => (s, Ok "Some error on request handling")
  | r => r
  end.

(** [handlePOST]: the text of the answer, if there is one. *)
Definition handlePOST (m : switch_map) (params : list string) (body : string) : rest (option string) :=
  match params with
  | [] => st_lift (Throw indeterminate)
  | p0 :: rest =>
      if negb (bool_decide (p0 = "flowentry")) then mret (Some "Unsupported parameter")
      else
        match rest with
        | [] => a ← answered (req ← st_lift (parse body); post_add m req); mret (Some a)
        | p1 :: _ =>
            if bool_decide (p1 = "delete_strict") || bool_decide (p1 = "delete") then
              a ← answered (req ← st_lift (parse body); post_delete (bool_decide (p1 = "delete_strict")) m req); mret (Some a)
            else a ← answered (st_lift (parse body) ;; mret ""); mret (if bool_decide (a = "") then None else Some a)
        end
  end.

(** ** Clearing a switch *)

Definition rest_send (dpid : Z) (fm : rest_flow_mod) : rest unit := st_update (fun s => RestState (response_ s) (sent s ++ [(dpid, fm)])%list).

Definition clear_mod : rest_flow_mod :=
  RestFlowMod OFPFC_DELETE 0xff 0 0 (rf_idle_timeout fm_default) (rf_hard_timeout fm_default) (rf_priority fm_default)
    (rf_buffer_id fm_default) OFPP_ANY OFPG_ANY (rf_flags fm_default) (rf_match fm_default) (rf_instructions fm_default).
(** [installGoto] and [installTableMissRule], which differ in the instruction. *)
Definition miss_mod (table_id : Z) (i : rest_instruction) : rest_flow_mod :=
  RestFlowMod OFPFC_ADD table_id 0 (rf_cookie_mask fm_default) 0 0 0 (rf_buffer_id fm_default) (rf_out_port fm_default)
    (rf_out_group fm_default) 3 (rf_match fm_default) (rf_instructions fm_default ++ [i])%list.

Definition rest_installGoto (dpid table_id : Z) : rest unit := rest_send dpid (miss_mod table_id (goto_table (u8 (table_id + 1)))).
Definition rest_installTableMissRule (dpid table_id : Z) : rest unit :=
  rest_send dpid (miss_mod table_id (apply_actions [act_plain "OUTPUT" [("port", OFPP_CONTROLLER); ("max_len", 0)]])).

Definition all_initialized : rest string := fun s => (RestState "" (sent s), Ok ("all tables have been initialized" +:+ response_ s)).

Fixpoint install_all_gotos (n : nat) (dpid table_id : Z) : rest unit :=
  match n with O => mret tt | S n => rest_installGoto dpid table_id ;; install_all_gotos n dpid (table_id + 1) end.

(** [handleDELETE]; a missing parameter is an exception outside of the handlers. *)
Definition handleDELETE (m : switch_map) (params : list string) : rest string :=
  match params with
  | p0 :: rest =>
      if negb (bool_decide (p0 = "flowentry")) then mret "Unsupported parameter"
      else
        match rest with
        | [] => st_lift (Throw ex_other)
        | p1 :: rest =>
            if negb (bool_decide (p1 = "clear")) then mret "Unsupported parameter"
            else
              answered (
                p2 ← st_lift (match rest with p2 :: _ => Ok p2 | [] => Throw ex_other end);
                dpid ← st_lift (string_cast 64 (chars p2));
                match getSwitch dpid m with
                | None => st_lift (Throw (ex_chars "switch not found"))
                | Some sw =>
                    rest_send (sw_id sw) clear_mod ;; install_all_gotos (Z.to_nat handler_table) (sw_id sw) 0 ;;
                    rest_installTableMissRule (sw_id sw) handler_table ;;
                    all_initialized
                end)
        end
  | [] => st_lift (Throw ex_other)
  end.
End handlers.

Local Close Scope string_scope.

(** ** Numbers are read as they are written *)

Lemma upper_digit c : is_xdigit c = true -> xdigit_val (to_upper c) = xdigit_val c /\ is_xdigit (to_upper c) = true.
Proof. destruct c as [[] [] [] [] [] [] [] []]; cbn; (done || intros [=]). Qed.

Lemma stoi_upper ds : Forall (fun c => is_xdigit c = true) ds ->
  stoi 16 (map to_upper ds) = stoi 16 ds /\ Forall (fun c => is_xdigit c = true) (map to_upper ds).
Proof.
  unfold stoi. generalize 0 as acc. intros acc Hf. split.
  - revert acc. induction Hf as [|c ds Hc _ IH]; intros acc; cbn; [done|]. by rewrite (proj1 (upper_digit c Hc)), IH.
  - induction Hf as [|c ds Hc _ IH]; constructor; [by apply upper_digit|done].
Qed.

(** The end of [string_cast]. *)
Lemma cast_width w n : 0 <= w <= 64 -> in_width 64 n ->
  (let no_overflow := if 2 ^ 64 <=? n then 2 ^ 64 - 1 else n in
   let ans := wrap w no_overflow in if ans =? no_overflow then Ok ans else Throw ex_overflow)
  = if 2 ^ w <=? n then Throw ex_overflow else @Ok rest_exn Z n.
Proof.
  intros Hw [Hn1 Hn2]. rewrite (proj2 (Z.leb_gt _ _) Hn2). cbv zeta. destruct (Z.leb_spec (2 ^ w) n) as [Hge|Hlt].
  - destruct (Z.eqb_spec (wrap w n) n) as [E|]; [|done]. pose proof (wrap_in_width w n ltac:(lia)) as [_ H]. lia.
  - rewrite wrap_small by (split; lia). by rewrite Z.eqb_refl.
Qed.

(** Numbers written for an answer are read from a request.  Any 64-bit number,
    written in decimal or as four or more upper-case hexadecimal digits after 0x, is
    read as itself into an unsigned type of at most 64 bits when it fits, and is an
    overflow otherwise. *)
Lemma string_cast_shown w n toHex :
  0 <= w <= 64 -> in_width 64 n ->
  string_cast w (toString_cast n toHex) = if 2 ^ w <=? n then Throw ex_overflow else Ok n.
Proof.
  intros Hw Hn. rewrite <- (cast_width w n Hw Hn). destruct toHex; unfold toString_cast.
  - destruct (show_base_ok 16 n 16) as (Hv & Hl & Hf); [lia|exact Hn|lia|].
    assert (Hx : Forall (fun c => is_xdigit c = true) (show_base 16 n)) by (eapply Forall_impl; [exact Hf|]; by intros c [Hc _]).
    destruct (stoi_upper _ Hx) as [Ev Hu]. set (ds := map to_upper (show_base 16 n)) in *.
    unfold string_cast. cbn [app skip_ws]. change (is_space "0"%char) with false. cbn iota.
    assert (Hz : Forall (fun c => is_xdigit c = true) (replicate (4 - length ds) "0"%char ++ ds)).
    { apply Forall_app. split; [by apply Forall_replicate|done]. }
    cbn [read_sign is_hex]. cbn iota. rewrite (span_all _ _ Hz). cbn [fst]. by rewrite stoi_zeros, Ev, Hv.
  - destruct (print_digits n Hn) as (Hv & Hne & Hf). unfold print_uint in *. unfold string_cast. destruct (show_base 10 n) as [|c ds] eqn:E; [done|].
    apply Forall_cons in Hf as [Hc Hf].
    assert (Hh : is_hex (c :: ds) = false).
    { destruct ds as [|d ds]; [by destruct c as [[] [] [] [] [] [] [] []]|]. apply Forall_cons in Hf as [Hd _].
      destruct c as [[] [] [] [] [] [] [] []]; try done. by destruct d as [[] [] [] [] [] [] [] []]. }
    rewrite Hh. cbn [skip_ws]. rewrite (proj1 (digit_not_space c Hc)).
    assert (Hm : read_sign (c :: ds) = (false, c :: ds)) by (by destruct c as [[] [] [] [] [] [] [] []]).
    rewrite Hm, span_all by (by constructor). cbn [fst]. by rewrite Hv.
Qed.

(** ** The match of a flow entry *)

Local Open Scope string_scope.

(** The fields of fixed values that OpenFlow requires beside a field; where it leaves
    a choice of network protocols, IPv4. *)
Definition fixed_needs (f : string) : list oxm :=
  if bool_decide (f ∈ ["tcp_src"; "tcp_dst"]) then [Oxm "eth_type" (oxm_number eth_ipv4); Oxm "ip_proto" (oxm_number inet_tcp)]
  else if bool_decide (f ∈ ["udp_src"; "udp_dst"]) then [Oxm "eth_type" (oxm_number eth_ipv4); Oxm "ip_proto" (oxm_number inet_udp)]
  else if bool_decide (f ∈ ["ip_proto"; "ipv4_src"; "ipv4_dst"]) then [Oxm "eth_type" (oxm_number eth_ipv4)]
  else if bool_decide (f ∈ ["arp_op"; "arp_spa"; "arp_tpa"; "arp_sha"; "arp_tha"]) then [Oxm "eth_type" (oxm_number eth_arp)]
  else [].

(** The prerequisites of a field in a match, as the comments of openflow-1.5.1.h list
    them: a physical port needs the port, a VLAN priority a VLAN other than none. *)
Definition needs (f : string) (l : list oxm) : Prop :=
  if bool_decide (f = "in_phy_port") then exists v, Oxm "in_port" v ∈ l
  else if bool_decide (f = "vlan_pcp") then exists vid, Oxm "vlan_vid" (oxm_number vid) ∈ l /\ vid <> 0
  else fixed_needs f ⊆ l.

(** The two fields whose prerequisites are left to the request. *)
Definition unchecked_fields : list string := ["in_phy_port"; "vlan_pcp"].
Definition prerequisites (l : list oxm) : Prop := forall o, o ∈ l -> ox_field o ∉ unchecked_fields -> needs (ox_field o) l.

Definition fixed_prerequisites (l : list oxm) : Prop := forall o x, o ∈ l -> x ∈ fixed_needs (ox_field o) -> x ∈ l.

Lemma fixed_prerequisites_ok l : fixed_prerequisites l -> prerequisites l.
Proof.
  intros Hl o Ho Hn. unfold needs, unchecked_fields in *. rewrite !not_elem_of_cons in Hn.
  rewrite !bool_decide_eq_false_2 by tauto. intros x. by apply Hl.
Qed.

Local Close Scope string_scope.

(** From [m] to [m'] only fields [fs] were added, and [added] tells whether any was. *)
Definition adds (fs : list string) (m m' : matching) : Prop :=
  mt_ether_type m' = mt_ether_type m /\
  exists l, mt_match m' = mt_match m ++ l /\ Forall (fun o => ox_field o ∈ fs) l /\
            mt_added m' = (mt_added m || match l with [] => false | _ => true end)%bool.

Lemma adds_none fs m : adds fs m m.
Proof. split; [done|]. exists []. by rewrite app_nil_r, orb_false_r. Qed.

Lemma adds_one f v m : adds [f] m (Matching (mt_match m ++ [Oxm f v]) true (mt_ether_type m)).
Proof.
  split; [done|]. exists [Oxm f v]. split; [done|]. split; [|by rewrite orb_true_r]. repeat constructor.
Qed.

Lemma adds_app fs1 fs2 m1 m2 m3 : adds fs1 m1 m2 -> adds fs2 m2 m3 -> adds (fs1 ++ fs2) m1 m3.
Proof.
  intros (He1 & l1 & Hm1 & Hf1 & Ha1) (He2 & l2 & Hm2 & Hf2 & Ha2). split; [congruence|]. exists (l1 ++ l2).
  rewrite Hm2, Hm1, <- app_assoc. split; [done|]. split.
  - apply Forall_app. split; (eapply Forall_impl; [eassumption|]); intros o Ho; apply elem_of_app; tauto.
  - rewrite Ha2, Ha1. by destruct (mt_added m1), l1, l2.
Qed.

Section matches.
Context {double : Type} (accepts : string -> string -> bool) (o : list (string * json double)).

Lemma handle_uint_adds f w m m' : handle_uint o f w m = Ok m' -> adds [f] m m'.
Proof.
  unfold handle_uint. destruct (obj_find f o) as [v|].
  - destruct (json_cast w v) as [n|[]]; intros [=<-]; try apply adds_one; apply adds_none.
  - intros [=<-]. apply adds_none.
Qed.

Lemma handle_string_adds f m m' : handle_string accepts o f m = Ok m' -> adds [f] m m'.
Proof.
  unfold handle_string. destruct (obj_find f o) as [v|].
  - case_match; intros [=<-]; [apply adds_one|apply adds_none].
  - intros [=<-]. apply adds_none.
Qed.
End matches.

(** The invariant between the layers. *)
Definition layer_ok (m : matching) : Prop := mt_added m = false /\ fixed_prerequisites (mt_match m).

(** Fields whose requirements [l] holds. *)
Definition provided (l : list oxm) (fs : list string) : bool := forallb (fun f => forallb (fun x => bool_decide (x ∈ l)) (fixed_needs f)) fs.

Lemma provided_ok l fs f : provided l fs = true -> f ∈ fs -> fixed_needs f ⊆ l.
Proof.
  unfold provided. rewrite forallb_forall. intros H Hf x Hx. apply (bool_decide_eq_true_1 (x ∈ l)).
  specialize (H f (proj1 (list_elem_of_In _ _) Hf)). rewrite forallb_forall in H. by apply H, list_elem_of_In.
Qed.

(** More fields, whose requirements are among the fields. *)
Lemma fixed_prerequisites_app l l' : fixed_prerequisites l -> (forall o, o ∈ l' -> fixed_needs (ox_field o) ⊆ l ++ l') -> fixed_prerequisites (l ++ l').
Proof.
  intros Hl Hn o x [Ho|Ho]%elem_of_app Hx; [|by apply (Hn o)]. apply elem_of_app. left. by apply (Hl o).
Qed.

Definition as_oxm (x : string * Z) : oxm := Oxm x.1 (oxm_number x.2).

Lemma layer_step extra ether fs m m' :
  layer_ok m -> adds fs m m' -> provided (map as_oxm extra) (fs ++ map fst extra) = true ->
  layer_ok (when_added extra ether m') /\
  mt_ether_type (when_added extra ether m') = if mt_added m' then Some ether else mt_ether_type m.
Proof.
  intros [Ha Hp] (He & l & Hm & Hf & Ha') Hn. rewrite Ha in Ha'. unfold when_added. rewrite Ha'.
  destruct l as [|o l]; cbn [orb mt_ether_type].
  - split; [|done]. split; [done|]. by rewrite Hm, app_nil_r.
  - split; [|done]. split; [done|]. cbn [mt_match]. rewrite Hm, <- app_assoc. apply fixed_prerequisites_app; [done|].
    change (map (fun x => Oxm x.1 (oxm_number x.2)) extra) with (map as_oxm extra).
    intros o' Ho' x Hx. apply elem_of_app. right. apply elem_of_app. right. revert x Hx. apply (provided_ok _ _ _ Hn), elem_of_app.
    apply elem_of_app in Ho' as [Ho'|Ho']; [left|right].
    + rewrite Forall_forall in Hf. by apply Hf.
    + apply list_elem_of_In, in_map_iff in Ho' as (y & <- & Hy). apply list_elem_of_In. by apply (in_map fst).
Qed.

Section layers.
Context {double : Type} (accepts : string -> string -> bool) (o : list (string * json double)).
Local Ltac adds :=
  repeat (eapply adds_app; [first [eapply handle_uint_adds; eassumption | eapply handle_string_adds; eassumption]|]);
  apply (adds_none []).
Local Abbreviation ipv4_ether m := (mt_ether_type m = None \/ mt_ether_type m = Some eth_ipv4).

Lemma match_l4_ok m m' : match_l4 o m = Ok m' -> layer_ok m -> ipv4_ether m -> layer_ok m' /\ ipv4_ether m'.
Proof.
  unfold match_l4. intros H Hm He. inv_ok.
  edestruct (layer_step [("eth_type", eth_ipv4); ("ip_proto", inet_tcp)]%string eth_ipv4) as [Hm1 He1]; [exact Hm|adds|reflexivity|].
  edestruct (layer_step [("eth_type", eth_ipv4); ("ip_proto", inet_udp)]%string eth_ipv4) as [Hm2 He2]; [exact Hm1|adds|reflexivity|].
  split; [exact Hm2|]. rewrite He2. case_match; [by right|]. rewrite He1. case_match; [by right|done].
Qed.

Lemma match_ipv4_ok m m' : match_ipv4 accepts o m = Ok m' -> layer_ok m -> ipv4_ether m -> layer_ok m' /\ ipv4_ether m'.
Proof.
  unfold match_ipv4. intros H Hm He. inv_ok. pose proof (handle_uint_adds _ _ _ _ _ Hok) as [He1 _].
  rewrite He1 in H. assert (Ht : match mt_ether_type m with None => true | Some t => t =? eth_ipv4 end = true) by (by destruct He as [->| ->]).
  rewrite Ht in H. inv_ok.
  edestruct (layer_step [("eth_type", eth_ipv4)]%string eth_ipv4) as [Hm2 He2]; [exact Hm|adds|reflexivity|].
  split; [exact Hm2|]. rewrite He2. case_match; [by right|done].
Qed.

Lemma match_arp_ok m m' : match_arp accepts o m = Ok m' -> layer_ok m -> layer_ok m'.
Proof.
  unfold match_arp. intros H Hm. case_match; inv_ok; [done|].
  by edestruct (layer_step [("eth_type", eth_arp)]%string eth_arp) as [Hm2 He2]; [exact Hm|adds|reflexivity|].
Qed.

Lemma match_l2_ok m m' : match_l2 accepts o m = Ok m' -> layer_ok m -> fixed_prerequisites (mt_match m').
Proof.
  unfold match_l2. intros H [_ Hp]. inv_ok.
  eassert (adds _ m m') as (_ & l & Hm & Hf & _) by adds.
  rewrite Hm. apply fixed_prerequisites_app; [done|]. intros x Hx. rewrite Forall_forall in Hf.
  intros y Hy. eapply (provided_ok []) in Hy; [by apply elem_of_nil in Hy| |exact (Hf x Hx)]. reflexivity.
Qed.

Lemma processMatches_ok l : processMatches accepts o = Ok l -> fixed_prerequisites l.
Proof.
  unfold processMatches. intros H. inv_ok.
  destruct (match_l4_ok _ _ Hok) as [? ?]; [split; [done|by intros ? ? ?%elem_of_nil]|by left|].
  destruct (match_ipv4_ok _ _ Hok0) as [? ?]; [done..|]. eapply match_l2_ok; [eassumption|]. by eapply match_arp_ok.
Qed.
End layers.

(** ** What is sent *)

Section sending.
Context {double : Type} `{HD : Doubles double} (accepts : string -> string -> bool) (fm_default : rest_flow_mod) (handler_table : Z).

(** [r] sends nothing, or, without an exception, one FlowMod as in [P]. *)
Definition sends {A} (P : Z -> rest_flow_mod -> Prop) (r : st rest_exn rest_state A) : Prop := forall s,
  sent (r s).1 = sent s \/
  exists d fm, P d fm /\ sent (r s).1 = sent s ++ [(d, fm)] /\ exists a, (r s).2 = Ok a.

Definition quiet {A} (r : st rest_exn rest_state A) : Prop := forall l, preserves (fun s => sent s = l) r.

Lemma quiet_sends {A} P (r : st rest_exn rest_state A) : quiet r -> sends P r.
Proof. intros Hr s. left. by apply (Hr (sent s)). Qed.

Lemma sends_lift {A B} P (x : res rest_exn A) (k : A -> st rest_exn rest_state B) :
  (forall a, x = Ok a -> sends P (k a)) -> sends P (a ← st_lift x; k a).
Proof. intros Hk s. destruct x as [a|e]; cbn; [by apply Hk|by left]. Qed.

Lemma sends_bind {A B} P (r : st rest_exn rest_state A) (k : A -> st rest_exn rest_state B) :
  quiet r -> (forall a, sends P (k a)) -> sends P (a ← r; k a).
Proof.
  intros Hr Hk s. pose proof (Hr (sent s) s eq_refl) as E. cbn in E. unfold mbind, st_bind.
  destruct (r s) as [s' [a|e]]; cbn in *; [|by left]. rewrite <- E. apply Hk.
Qed.

(** What comes after does not send. *)
Lemma sends_then {A B} P (r : st rest_exn rest_state A) (f : A -> B) : sends P r -> sends P (a ← r; mret (f a)).
Proof.
  intros Hr s. specialize (Hr s). unfold mbind, st_bind.
  destruct (r s) as [s' [x|e]]; cbn in *; destruct Hr as [E|(d & fm & HP & E & a & Ea)]; [by left| |by left|done].
  right. eauto 7.
Qed.

Lemma answered_sends P (r : st rest_exn rest_state string) : sends P r -> sends P (answered r).
Proof.
  intros Hr s. specialize (Hr s). unfold answered.
  destruct (r s) as [s' [x|[]]]; cbn in *; destruct Hr as [E|(d & fm & HP & E & a & Ea)]; try (by left); try done.
  right. eauto 7.
Qed.

Lemma answered_throws {B} (r : st rest_exn rest_state string) (f : string -> B) s e :
  ((a ← answered r; mret (f a)) s).2 = Throw e -> e = indeterminate.
Proof.
  unfold mbind, st_bind, answered. by destruct (r s) as [s' [a|[]]]; intros [=].
Qed.

Lemma processActions_quiet (l : list (json double)) : quiet (processActions accepts l).
Proof.
  intros x. induction l as [|a l IH]; cbn [processActions]; [apply preserves_ret|].
  apply preserves_bind; [|intros ?; apply preserves_bind; [exact IH|intros ?; apply preserves_ret]].
  intros s Hs. unfold processAction. destruct (read_action accepts _) as [|[]]; try done; by destruct (obj_at _ _).
Qed.

Lemma send_and_answer_sends P (req : list (string * json double)) m fm text :
  (forall d sw, getSwitch d m = Some sw -> P (sw_id sw) fm) -> sends P (send_and_answer req m fm text).
Proof.
  intros HP. unfold send_and_answer. apply sends_lift. intros d _. apply sends_lift. intros dpid _.
  destruct (getSwitch dpid m) as [sw|] eqn:E; [|apply quiet_sends; intros ?; apply preserves_lift].
  intros s. right. cbn. exists (sw_id sw), fm. eauto.
Qed.
Lemma check_request_ok (req : list (string * json double)) m u : check_request handler_table true req m = Ok u ->
  exists t v, obj_at "table_id" req = Ok v /\ json_cast 8 v = Ok t /\ t < handler_table.
Proof.
  unfold check_request. intros Hck. inv_ok. destruct (handler_table <=? _) eqn:Et in Hok1; inv_ok. apply Z.leb_gt in Et. eauto.
Qed.

Lemma validateRequest_ok full (req : list (string * json double)) m u : validateRequest handler_table full req m = Ok u -> check_request handler_table full req m = Ok u.
Proof. unfold validateRequest. by destruct (check_request _ _ _ _) as [|[]]. Qed.

Lemma fold_instructions l fm :
  let fm' := fold_left (fun fm i => add_instruction i fm) l fm in
  rf_command fm' = rf_command fm /\ rf_match fm' = rf_match fm.
Proof. revert fm. induction l as [|i l IH]; intros fm; cbn; [done|]. by apply (IH (add_instruction i fm)). Qed.

(** What may be sent. *)
Definition allowed (m : switch_map) (add : bool) (d : Z) (fm : rest_flow_mod) : Prop :=
  is_Some (getSwitch d m) /\ prerequisites (rf_match fm) /\
  if add then rf_command fm = OFPFC_ADD /\ rf_table_id fm < handler_table else rf_command fm <> OFPFC_ADD.

Section requests.
Context (m : switch_map) (Hm : keyed m) (Hdef : rf_match fm_default = []).

Lemma post_add_sends (req : list (string * json double)) : sends (allowed m true) (post_add accepts fm_default handler_table m req).
Proof.
  unfold post_add. apply sends_lift. intros u Hu. destruct (check_request_ok req m u (validateRequest_ok _ _ _ _ Hu)) as (t & v & Ev & Et & Hlt).
  apply sends_lift. intros ms _. apply sends_lift. intros acts _. apply sends_lift. intros fm Hfm.
  apply sends_lift. intros l Hl%processMatches_ok%fixed_prerequisites_ok. apply sends_bind; [apply processActions_quiet|]. intros as_.
  apply send_and_answer_sends. intros d sw Hsw. destruct (Hm _ _ Hsw) as [-> _].
  unfold processInfoAdd in Hfm. rewrite Ev, res_bind_Ok, Et, res_bind_Ok in Hfm. inv_ok. repeat split; cbn; [by eexists|by rewrite Hdef|done].
Qed.

Lemma post_delete_sends strict (req : list (string * json double)) : sends (allowed m false) (post_delete accepts fm_default handler_table strict m req).
Proof.
  unfold post_delete. apply sends_lift. intros u _. apply sends_lift. intros fm Hfm.
  assert (Hf : rf_match fm = [] /\ rf_command fm <> OFPFC_ADD).
  { unfold processInfoDelete in Hfm. inv_ok. cbn. split; [done|by destruct strict]. }
  assert (Hlast : forall l acts, prerequisites l -> sends (allowed m false)
    (send_and_answer req m (fold_left (fun fm i => add_instruction i fm) acts (add_matches l fm)) "have sent flow_mod with DELETE command")).
  { intros l acts Hl. apply send_and_answer_sends. intros d sw Hsw. destruct (Hm _ _ Hsw) as [-> _].
    destruct (fold_instructions acts (add_matches l fm)) as [Ec Em]. repeat split; [by eexists| |rewrite Ec; apply Hf].
    rewrite Em. cbn. by rewrite (proj1 Hf). }
  assert (Hacts : forall l, prerequisites l -> sends (allowed m false) (
    instrs ← match obj_find "actions" req with
       | Some v => acts ← processActions accepts (array_items v); mret [apply_actions acts]
       | None => mret []
       end;
    send_and_answer req m (fold_left (fun fm i => add_instruction i fm) instrs (add_matches l fm)) "have sent flow_mod with DELETE command")).
  { intros l Hl. apply sends_bind; [|auto]. intros x. destruct (obj_find "actions" req); [|apply preserves_ret].
    apply preserves_bind; [apply processActions_quiet|intros ?; apply preserves_ret]. }
  destruct (obj_find "match" req).
  - apply sends_lift. intros l Hl%processMatches_ok%fixed_prerequisites_ok. by apply Hacts.
  - apply (Hacts []). by intros ? ?%elem_of_nil.
Qed.

(** C21: What a POST request does.  It throws nothing but the use of a number that was
    not read, and then has sent nothing.  Otherwise it is answered, and either nothing
    is sent or one FlowMod to a switch that the switch manager has: an ADD into a table
    below the handlers' table for the path flowentry, a DELETE for the others; and
    whatever the request says, a field of the match comes with the fields that OpenFlow
    requires beside it, but for in_phy_port and vlan_pcp, whose prerequisites the
    request itself must name. *)
Theorem rest_post_safe params body :
  sends (allowed m (bool_decide (params = ["flowentry"%string]))) (handlePOST (double := double) accepts fm_default handler_table m params body)
  /\ forall s e, (handlePOST (double := double) accepts fm_default handler_table m params body s).2 = Throw e -> e = indeterminate.
Proof.
  unfold handlePOST. destruct params as [|p0 rest].
  { split; [apply quiet_sends; intros ?; apply preserves_lift|]. by intros s e [=]. }
  destruct (bool_decide_reflect (p0 = "flowentry"%string)) as [->|Hp]; cbn [negb].
  2: { split; [apply quiet_sends; intros ?; apply preserves_ret|]. by intros s e [=]. }
  destruct rest as [|p1 rest].
  - rewrite bool_decide_true by done. split; [|intros s e; apply answered_throws].
    apply sends_then, answered_sends, sends_lift. intros req _. apply post_add_sends.
  - rewrite (bool_decide_false (_ :: _ :: _ = _)) by done.
    destruct (_ || _); (split; [|intros s e; apply answered_throws]); apply sends_then, answered_sends, sends_lift; intros req _.
    + apply post_delete_sends.
    + apply quiet_sends. intros ?. apply preserves_ret.
Qed.
End requests.
End sending.

(** A concrete network and request. *)
Definition one_switch : switch_map := {[ 1 := new_switch (FeaturesReply 1 0 0 0) ]}.
Definition sample_mod : rest_flow_mod := RestFlowMod OFPFC_ADD 0 0 0 0 0 0 0 0 0 0 [] [].
Definition sample_request (members : list (string * json Z)) : list (string * json Z) :=
  ([("actions", JArray []); ("dpid", JString "1"); ("match", JObject [("tcp_src", JString "80")])]%string ++ members ++ [("table_id", JString "1")]%string)%list.

Lemma one_switch_keyed : keyed one_switch.
Proof. intros d sw Hd. unfold one_switch in Hd. apply lookup_singleton_Some in Hd as [<- <-]. by split. Qed.

Lemma rest_post_safe_witness :
  keyed one_switch /\ rf_match sample_mod = [] /\
  (handlePOST (fun _ _ => true) sample_mod 2 one_switch ["flowentry"%string] (string_of_list_ascii (dump (JObject (sample_request [])))) (RestState "" [])).2
    = Ok (Some "new flow added"%string) /\
  sends (allowed 2 one_switch true)
    (handlePOST (fun _ _ => true) sample_mod 2 one_switch ["flowentry"%string] (string_of_list_ascii (dump (JObject (sample_request []))))).
Proof.
  split; [exact one_switch_keyed|]. split; [reflexivity|]. split; [vm_compute; reflexivity|].
  exact (proj1 (rest_post_safe (fun _ _ => true) sample_mod 2 one_switch one_switch_keyed eq_refl ["flowentry"%string] _)).
Defined.

(** The exceptions are real: a match on the VLAN priority or the physical port alone is
    sent as it is. *)
Theorem rest_prerequisites_missing :
  let post field := (answered (post_add (fun _ _ => true) sample_mod 2 one_switch
    ([("actions", JArray []); ("dpid", JString "1"); ("match", JObject (double := Z) [(field, JString "5")]); ("table_id", JString "1")]%string))
    (RestState "" [])).1 in
  forall field, field ∈ unchecked_fields ->
    exists fm, sent (post field) = [(1, fm)] /\ rf_match fm = [Oxm field (oxm_number 5)] /\ ~ needs field (rf_match fm).
Proof.
  cbv zeta. intros field Hf. unfold unchecked_fields in Hf. apply elem_of_cons in Hf as [->|[->|Hf%elem_of_nil]%elem_of_cons]; [| |done].
  - eexists. split; [vm_compute; reflexivity|]. split; [reflexivity|]. cbn. intros (v & [=]%list_elem_of_singleton).
  - eexists. split; [vm_compute; reflexivity|]. split; [reflexivity|]. cbn. intros (v & [=]%list_elem_of_singleton & _).
Qed.

(** ** A request as it was meant *)

(** Only texts, as the handlers read them. *)
Fixpoint texts {double} (j : json double) : bool :=
  match j with
  | JString _ => true
  | JArray l => forallb texts l
  | JObject o => forallb (fun kv => texts kv.2) o
  | _ => false
  end.

Lemma eqb_texts `{Doubles double} (j : json double) : forall j', texts j = true -> json_eqb j j' = true -> j = j'.
Proof.
  induction j as [|n|d|b|str|l IH|o IH] using json_nested_ind; intros j' Ht E; try done.
  - destruct j'; try done. by apply bool_decide_eq_true in E as ->.
  - destruct j' as [| | | | |l'|]; try done. f_equal. cbn in Ht, E. revert l' E. induction IH as [|x l Hx _ IH]; intros [|y l'] E; try done.
    apply andb_prop in Ht as [Hx1 Ht], E as [Hxy E]. f_equal; [by apply Hx|by apply IH].
  - destruct j' as [| | | | | |o']; try done. f_equal. cbn in Ht, E. revert o' E. induction IH as [|[k x] o Hx _ IH]; intros [|[k' y] o'] E; try done.
    apply andb_prop in Ht as [Hx1 Ht], E as [[Hk%bool_decide_eq_true Hxy]%andb_prop E]. subst. f_equal; [f_equal; by apply Hx|by apply IH].
Qed.

(** A client that writes its request with the same library is served as it meant.
    If the request consists of texts, with its keys in order and at most 201 levels,
    then what is done with the body is what the handler does with the request itself. *)
Theorem rest_request_served `{DoubleLaws double} accepts fm_default handler_table m (req : list (string * json double)) s :
  texts (JObject req) = true -> json_wf (JObject req) = true -> (json_levels (JObject req) <= S max_depth)%nat ->
  handlePOST accepts fm_default handler_table m ["flowentry"%string] (string_of_list_ascii (dump (JObject req))) s
    = (a ← answered (post_add accepts fm_default handler_table m req); mret (Some a)) s.
Proof.
  intros Ht Hw Hl. unfold handlePOST. cbn [negb]. change (bool_decide ("flowentry"%string = "flowentry"%string)) with true. cbn [negb].
  assert (Hf : forall j : json double, texts j = true -> json_finite j = true).
  { induction j as [|n|d|b|str|l IH|o IH] using json_nested_ind; try done; cbn; rewrite !forallb_forall; intros Hx x Hin;
      rewrite Forall_forall in IH; apply IH; auto; by apply list_elem_of_In. }
  assert (Hp : parse (string_of_list_ascii (dump (JObject req))) = Ok req).
  { unfold parse, chars. rewrite list_ascii_of_string_of_list_ascii.
    destruct (dump_parsed (JObject req) Hw (Hf _ Ht) Hl) as (j' & E & Heq). rewrite E. by apply eqb_texts in Heq as <-. }
  unfold answered, mbind, st_bind, st_lift. by rewrite Hp.
Qed.

Lemma rest_request_served_witness :
  let req := sample_request [("priority", JString "7")]%string in
  handlePOST (fun _ _ => true) sample_mod 2 one_switch ["flowentry"%string] (string_of_list_ascii (dump (JObject req))) (RestState "" [])
    = (a ← answered (post_add (fun _ _ => true) sample_mod 2 one_switch req); mret (Some a)) (RestState "" []).
Proof. cbv zeta. apply rest_request_served; vm_compute; [reflexivity|reflexivity|lia]. Defined.

(** Ways a request is not served as meant.  A number that is not a text, as in
    any other JSON interface, makes the handler use a variable that has no value; a
    priority of 65536 becomes 0; of two actions of which the second has no type, the
    text about the first is kept, and the next request, a correct one, is answered
    with it; a match on a TCP port and the protocol has its Ethernet type twice; and
    a delete reaches the handlers' table, which an add may not. *)
Theorem rest_hazards :
  let post req := answered (post_add (fun _ _ => true) sample_mod 2 one_switch (sample_request req)) in
  let act fields := JObject (double := Z) fields in
  (post [("priority", JInt 5)]%string (RestState "" [])).2 = Throw indeterminate
  /\ (exists fm, sent (post [("priority", JString "65536")]%string (RestState "" [])).1 = [(1, fm)] /\ rf_priority fm = 0)
  /\ (let bad := answered (post_add (fun _ _ => true) sample_mod 2 one_switch
          (("actions", JArray [act [("type", JString "SET_FIELD")]; act []])%string :: drop 1 (sample_request []))) in
      let s := (bad (RestState "" [])).1 in
      (bad (RestState "" [])).2 = Ok "Some error on request handling"%string /\
      (post [] s).2 = Ok "new flow added Incorrect input in an action SET_FIELD. This action is ignored."%string)
  /\ (match processMatches (double := Z) (fun _ _ => true) [("ip_proto", JString "6"); ("tcp_src", JString "80")]%string with
      | Ok ms => length (filter (fun o => ox_field o = "eth_type"%string) ms) = 2%nat
      | Throw _ => False
      end)
  /\ (let req := [("dpid", JString "1"); ("table_id", JString "2")]%string in
      (exists fm, sent (post_delete (double := Z) (fun _ _ => true) sample_mod 2 false one_switch req (RestState "" [])).1 = [(1, fm)] /\ rf_table_id fm = 2)
      /\ sent (answered (post_add (double := Z) (fun _ _ => true) sample_mod 2 one_switch
           (("actions", JArray [])%string :: ("match", JObject [])%string :: req)) (RestState "" [])).1 = []).
Proof. cbv zeta. split_and!; try (vm_compute; reflexivity); eexists; split; vm_compute; reflexivity. Qed.
