(* ===== verification/RestStats.v ===== *)
(** * Statistics by REST (src/RestMultipart.cc, src/RestStringProcessing.cc)

    What switches report, as JSON with all numbers as strings, and the requests
    for it, which one thread at a time waits for. *)

From S2P Require Import Prelude Bits Regex Addresses AddressTheorems RaftWire Switch Flow Json JsonTotal JsonRoundtrip Rest.
Local Open Scope Z_scope.

(** ** What libfluid unpacks from a reply *)

(** A match holds a value for some fields: a number, or a network or Ethernet address as one. *)
Abbreviation of_match := (gmap string Z).

Inductive of_field :=
| InPort (n : Z) | EthSrc (mac : Z) | EthDst (mac : Z) | EthType (n : Z) | VLANVid (n : Z)
| IPv4Src (ip : Z) | IPv4Dst (ip : Z) | IPProto (n : Z)
| ARPSPA (ip : Z) | ARPTPA (ip : Z) | ARPSHA (mac : Z) | ARPTHA (mac : Z) | ARPOp (n : Z)
| other_field (code : Z).

Inductive of_action :=
| OutputAction (port max_len : Z) | CopyTTLOut | CopyTTLIn | SetMPLSTTL (mpls_ttl : Z) | DecMPLSTTL
| PushVLAN (ethertype : Z) | PopVLAN | PushMPLS (ethertype : Z) | PopMPLS (ethertype : Z)
| SetQueue (queue_id : Z) | GroupAct (group_id : Z) | SetNWTTL (nw_ttl : Z) | DecNWTTL
| SetField (field : of_field) | PushPBB (ethertype : Z) | PopPBB | ExperimenterAct (experimenter : Z)
| other_action (type : Z).

Inductive of_instruction :=
| GoToTable (table_id : Z) | WriteMetadata (metadata metadata_mask : Z) | WriteActions (actions : list of_action)
| ApplyActions (actions : list of_action) | ClearActions | MeterInst (meter_id : Z) | ExperimenterInst
| other_instruction (type : Z).

Record FlowStats := FlowStat {
  fs_length : Z; fs_table_id : Z; fs_duration_sec : Z; fs_duration_nsec : Z; fs_priority : Z; fs_idle_timeout : Z; fs_hard_timeout : Z;
  fs_flags : Z; fs_cookie : Z; fs_packet_count : Z; fs_byte_count : Z; fs_match : of_match; fs_instructions : list of_instruction;
}.
Record PortStats := PortStat {
  ps_port_no : Z; ps_rx_packets : Z; ps_tx_packets : Z; ps_rx_bytes : Z; ps_tx_bytes : Z; ps_rx_dropped : Z; ps_tx_dropped : Z;
  ps_rx_errors : Z; ps_tx_errors : Z; ps_rx_frame_err : Z; ps_rx_over_err : Z; ps_rx_crc_err : Z; ps_collisions : Z;
  ps_duration_sec : Z; ps_duration_nsec : Z;
}.
Record SwitchDesc := Desc { sd_mfr_desc : string; sd_hw_desc : string; sd_sw_desc : string; sd_serial_num : string; sd_dp_desc : string }.
Record AggregateStats := Aggregate { ag_packet_count : Z; ag_byte_count : Z; ag_flow_count : Z }.
Record TableStats := TableStat { tb_active_count : Z; tb_table_id : Z; tb_lookup_count : Z; tb_matched_count : Z }.
Record PortDesc := PortDescription {
  pd_port_no : Z; pd_hw_addr : Z; pd_name : string; pd_config : Z; pd_state : Z; pd_curr : Z; pd_advertised : Z; pd_supported : Z;
  pd_peer : Z; pd_curr_speed : Z; pd_max_speed : Z;
}.
Record QueueStats := QueueStat {
  qs_port_no : Z; qs_queue_id : Z; qs_tx_bytes : Z; qs_tx_packets : Z; qs_tx_errors : Z; qs_duration_sec : Z; qs_duration_nsec : Z;
}.

(** ** Answers *)

(** [AppObject::uint32_t_ip_to_string]: the lowest byte first. *)
Definition uint32_t_ip_to_string (ip : Z) : list ascii :=
  Addresses.join "."%char (map (fun i => show_base 10 (Z.land (Z.shiftr ip (i * 8)) 0xff)) [0; 1; 2; 3]).

Local Open Scope string_scope.

Section show.
Context {double : Type}.
Abbreviation json := (json double).
Abbreviation json_object := (list (string * json)).
(** [EthAddress::to_string] of libfluid. *)
Variable mac_string : Z -> string.

(** [ans.emplace], and an object by its members: the first value of a key stays. *)
Definition obj_emplace (key : string) (v : json) (o : json_object) : json_object :=
  match obj_find key o with Some _ => o | None => obj_set key v o end.
Definition mk_object (members : json_object) : json_object := fold_left (fun o kv => obj_emplace kv.1 kv.2 o) members [].

Definition jtext (s : list ascii) : json := JString (string_of_list_ascii s).
Definition jnum (n : Z) : json := jtext (toString_cast n false).
Definition jip (ip : Z) : json := jtext (uint32_t_ip_to_string ip).
Definition jmac (mac : Z) : json := JString (mac_string mac).
(** An [unsigned char] is written in decimal, whatever is asked. *)
Definition jchar (n : Z) (toHex : bool) : json := jtext (show_base 10 n).

(** [EMPLACE_IF_EXIST], and the blocks for addresses. *)
Definition emplace_if_exist (mt : of_match) (field : string) (show : Z -> json) (ans : json_object) : json_object :=
  match mt !! field with Some v => obj_emplace field (show v) ans | None => ans end.

(** The fields that are written, and how. *)
Definition shown_fields : list (string * (Z -> json)) :=
  let hex n := jtext (toString_cast n true) in
  [("in_port", jnum); ("in_phy_port", jnum); ("eth_type", hex); ("ip_proto", fun n => jchar n true); ("tcp_dst", jnum); ("tcp_src", jnum);
   ("udp_dst", jnum); ("udp_src", jnum); ("metadata", jnum); ("ipv4_src", jip); ("ipv4_dst", jip); ("eth_src", jmac); ("eth_dst", jmac);
   ("arp_op", hex); ("arp_spa", jip); ("arp_tpa", jip); ("arp_sha", jmac); ("arp_tha", jmac); ("vlan_vid", jnum);
   ("vlan_pcp", fun n => jchar n false)].
Definition processMatch (mt : of_match) : json_object :=
  fold_left (fun ans fs => emplace_if_exist mt fs.1 fs.2 ans) shown_fields [].

Definition field_object (field : string) (value : json) : json_object := mk_object [("field", JString field); ("value", value)].
Definition processSetField (field : of_field) : json_object :=
  match field with
  | InPort n => field_object "in_port" (jnum n)
  | EthSrc mac => field_object "eth_src" (jmac mac)
  | EthDst mac => field_object "eth_dst" (jmac mac)
  | EthType n => field_object "eth_type" (jnum n)
  | VLANVid n => field_object "vlan_vid" (jnum n)
  | IPv4Src ip => field_object "ip_src" (jip ip)
  | IPv4Dst ip => field_object "ip_dst" (jip ip)
  | IPProto n => field_object "ip_proto" (jchar n false)
  | ARPSPA ip => field_object "arp_spa" (jip ip)
  | ARPTPA ip => field_object "arp_tpa" (jip ip)
  | ARPSHA mac => field_object "arp_sha" (jmac mac)
  | ARPTHA mac => field_object "arp_tha" (jmac mac)
  | ARPOp n => field_object "arp_op" (jnum n)
  | other_field _ => [("unhandled field", JString "error")]
  end.

(** The body of the loop of [processActions]. *)
Definition typed (type : string) (elem : json_object) : json_object := obj_set "type" (JString type) elem.
Definition show_action (action : of_action) : json_object :=
  match action with
  | OutputAction port _ => obj_set "port" (jtext (toString_cast port true)) (typed "OUTPUT" [])
  | CopyTTLOut => typed "COPY_TTL_OUT" []
  | CopyTTLIn => typed "COPY_TTL_IN" []
  | SetMPLSTTL ttl => obj_set "mpls_ttl" (jchar ttl false) (typed "SET_MPLS_TTL" [])
  | DecMPLSTTL => typed "DEC_MPLS_TTL" []
  | PushVLAN t => obj_set "ethertype" (jnum t) (typed "PUSH_VLAN" [])
  | PopVLAN => typed "POP_VLAN" []
  | PushMPLS t => obj_set "ethertype" (jnum t) (typed "PUSH_MPLS" [])
  | PopMPLS t => obj_set "ethertype" (jnum t) (typed "POP_MPLS" [])
  | SetQueue q => obj_set "queue_id" (jnum q) (typed "SET_QUEUE" [])
  | GroupAct g => obj_set "group_id" (jnum g) (typed "GROUP" [])
  | SetNWTTL ttl => obj_set "nw_ttl" (jchar ttl false) (typed "SET_NW_TTL" [])
  | DecNWTTL => typed "DEC_NW_TTL" []
  | SetField f => typed "SET_FIELD" (processSetField f)
  | PushPBB t => obj_set "ethertype" (jnum t) (typed "PUSH_PBB" [])
  | PopPBB => typed "POP_PBB" []
  | ExperimenterAct _ => typed "EXPERIMENTER" []
  | other_action _ => typed "Unknown action type" []
  end.
Definition showActions (actions : list of_action) : json := JArray (map (fun a => JObject (show_action a)) actions).

(** [processInstructions]: the last instruction of a kind stays. *)
Definition show_instruction (ans : json_object) (inst : of_instruction) : json_object :=
  match inst with
  | GoToTable t => obj_set "goto_table" (jchar t false) ans
  | WriteMetadata v mask => obj_set "metadata" (JObject (mk_object [("metadata", jnum v); ("metadata_mask", jnum mask)])) ans
  | WriteActions acts => obj_set "write_actions" (showActions acts) ans
  | ApplyActions acts => obj_set "apply_actions" (showActions acts) ans
  | ClearActions => obj_set "clear_actions" (JString "clear_actions") ans
  | MeterInst id => obj_set "meter" (jnum id) ans
  | ExperimenterInst => obj_set "experimenter" (JString "experimenter") ans
  | other_instruction _ => ans
  end.
Definition processInstructions (instructions : list of_instruction) : json_object := fold_left show_instruction instructions [].

(** ** [toJson] *)

Definition flow_json (s : FlowStats) : json := JObject (mk_object
  [("length", jnum (fs_length s)); ("table_id", jchar (fs_table_id s) false); ("duration_sec", jnum (fs_duration_sec s));
   ("duration_nsec", jnum (fs_duration_nsec s)); ("priority", jnum (fs_priority s)); ("idle_timeout", jnum (fs_idle_timeout s));
   ("hard_timeout", jnum (fs_hard_timeout s)); ("flags", jnum (fs_flags s)); ("cookie", jnum (fs_cookie s));
   ("packet_count", jnum (fs_packet_count s)); ("byte_count", jnum (fs_byte_count s));
   ("match:", JObject (processMatch (fs_match s))); ("actions:", JObject (processInstructions (fs_instructions s)))]).
Definition port_json (s : PortStats) : json := JObject (mk_object
  [("port_no", jnum (ps_port_no s)); ("rx_packets", jnum (ps_rx_packets s)); ("tx_packets", jnum (ps_tx_packets s));
   ("rx_bytes", jnum (ps_rx_bytes s)); ("tx_bytes", jnum (ps_tx_bytes s)); ("rx_dropped", jnum (ps_rx_dropped s));
   ("tx_dropped", jnum (ps_tx_dropped s)); ("rx_errors", jnum (ps_rx_errors s)); ("tx_errors", jnum (ps_tx_errors s));
   ("rx_frame_err", jnum (ps_rx_frame_err s)); ("rx_over_err", jnum (ps_rx_over_err s)); ("rx_crc_err", jnum (ps_rx_crc_err s));
   ("collisions", jnum (ps_collisions s)); ("duration_sec", jnum (ps_duration_sec s)); ("duration_nsec", jnum (ps_duration_nsec s))]).
Definition desc_json (s : SwitchDesc) : json := JObject (mk_object
  [("mfr_desc", JString (sd_mfr_desc s)); ("hw_desc", JString (sd_hw_desc s)); ("sw_desc", JString (sd_sw_desc s));
   ("serial_num", JString (sd_serial_num s)); ("dp_desc", JString (sd_dp_desc s))]).
Definition aggregate_json (s : AggregateStats) : json := JObject (mk_object
  [("packet_count", jnum (ag_packet_count s)); ("byte_count", jnum (ag_byte_count s)); ("flow_count", jnum (ag_flow_count s))]).
Definition table_json (s : TableStats) : json := JObject (mk_object
  [("active_count", jnum (tb_active_count s)); ("table_id", jchar (tb_table_id s) false); ("lookup_count", jnum (tb_lookup_count s));
   ("matched_count", jnum (tb_matched_count s))]).
Definition port_desc_json (s : PortDesc) : json := JObject (mk_object
  [("port_no", jnum (pd_port_no s)); ("hw_addr", jmac (pd_hw_addr s)); ("name", JString (pd_name s)); ("config", jnum (pd_config s));
   ("state", jnum (pd_state s)); ("curr", jnum (pd_curr s)); ("advertised", jnum (pd_advertised s)); ("supported", jnum (pd_supported s));
   ("peer", jnum (pd_peer s)); ("curr_speed", jnum (pd_curr_speed s)); ("max_speed", jnum (pd_max_speed s))]).
Definition queue_json (s : QueueStats) : json := JObject (mk_object
  [("port_no", jnum (qs_port_no s)); ("queue_id", jnum (qs_queue_id s)); ("tx_bytes", jnum (qs_tx_bytes s));
   ("tx_packets", jnum (qs_tx_packets s)); ("tx_errors", jnum (qs_tx_errors s)); ("duration_sec", jnum (qs_duration_sec s));
   ("duration_nsec", jnum (qs_duration_nsec s))]).
End show.

(** ** Requests *)

(** What a flow request selects. *)
Record flow_filter := Filter {
  fl_table_id : Z; fl_out_port : Z; fl_out_group : Z; fl_cookie : Z; fl_cookie_mask : Z; fl_match : list oxm;
}.
(** A multipart request; its flags are 0. *)
Inductive mp_request :=
| MultipartRequestFlow (f : flow_filter)
| MultipartRequestAggregate (f : flow_filter)
| MultipartRequestPortStats (port_no : Z)
| MultipartRequestDesc
| MultipartRequestTable
| MultipartRequestPortDescription
| MultipartRequestQueue (port_no queue_id : Z).

(** A reply, by its type, with its contents.  [OFMsgUnion] makes a reply about tables
    of one about aggregates (MessageUnion.v), and the code reads the member for
    aggregates in its place: [sent] is what the switch reported and [held] what that
    memory holds, of which nothing is known. *)
Inductive mp_reply :=
| OFPMP_FLOW (l : list FlowStats) | OFPMP_PORT_STATS (l : list PortStats) | OFPMP_DESC (d : SwitchDesc) | OFPMP_AGGREGATE (sent held : AggregateStats)
| OFPMP_TABLE (l : list TableStats) | OFPMP_PORT_DESC (l : list PortDesc) | OFPMP_QUEUE (l : list QueueStats)
| other_multipart (type : Z)
| not_multipart (type : Z).

(** The variables of the replies. *)
Record mp_responses := Responses {
  responseFlow_ : list FlowStats; responsePort_ : list PortStats; responseSwitchDesc_ : SwitchDesc; responseAggregate_ : AggregateStats;
  responseTable_ : list TableStats; responsePortDesc_ : list PortDesc; responseQueue_ : list QueueStats;
}.

Inductive mp_kind := k_flow | k_port | k_switch | k_aggregate | k_table | k_port_desc | k_queue.
#[export] Instance mp_kind_dec : EqDecision mp_kind.
Proof. solve_decision. Defined.

(** [pending] is the request in [pause.exec()]: the server has one thread for the
    requests, so there is one at most. *)
Record mp_state := MpState { responses : mp_responses; pending : option (mp_kind * string); mp_sent : list (Z * mp_request) }.

(** [boost::lexical_cast] to an unsigned type of [w] bits, of what the paths let
    through: digits, or a text that is no number. *)
Definition lexical_cast (w : Z) (s : string) : res rest_exn Z :=
  if negb (bool_decide (s = "")) && forallb is_digit (chars s) && (stoi 10 (chars s) <? 2 ^ w)%Z then Ok (stoi 10 (chars s)) else Throw ex_other.

Section multipart.
Context {double : Type} `{Doubles double}.
Abbreviation json := (json double).
Abbreviation json_object := (list (string * json)).
Variable mac_string : Z -> string.
(** Whether the constructor of a field takes a text without an exception. *)
Variable accepts : string -> string -> bool.
(** What the setter of the port keeps in a request for aggregates, which the code says is 16 bits wide. *)
Variable agg_out_port : Z -> Z.

Abbreviation mp A := (st rest_exn mp_state A).

Definition param (params : list string) (i : nat) : res rest_exn string := match params !! i with Some p => Ok p | None => Throw indeterminate end.

(** [transaction_->request], to a switch that is known. *)
Definition send_to (m : switch_map) (dpid : Z) (req : mp_request) : mp unit :=
  match getSwitch dpid m with
  | None => st_lift (Throw (ex_chars "switch not found"))
  | Some sw => st_update (fun s => MpState (responses s) (pending s) (mp_sent s ++ [(sw_id sw, req)])%list)
  end.

(** The filters that select everything. *)
Definition all_flows : flow_filter := Filter 0xff OFPP_ANY OFPG_ANY 0 0 [].
Definition all_aggregate : flow_filter := Filter 0xff (agg_out_port OFPP_ANY) OFPG_ANY 0 0 [].

Definition number_or (w : Z) (s : string) (alternative : Z) : Z := match lexical_cast w s with Ok n => n | Throw _ => alternative end.

(** [sendGetRequest] *)
Definition get_request (kind : mp_kind) (params : list string) : res rest_exn mp_request :=
  match kind with
  | k_flow => Ok (MultipartRequestFlow all_flows)
  | k_port => p ← param params 2; Ok (MultipartRequestPortStats (number_or 32 p OFPP_ANY))
  | k_switch => Ok MultipartRequestDesc
  | k_aggregate => Ok (MultipartRequestAggregate all_aggregate)
  | k_table => Ok MultipartRequestTable
  | k_port_desc => Ok MultipartRequestPortDescription
  | k_queue => p ← param params 2; q ← param params 3; Ok (MultipartRequestQueue (number_or 32 p OFPP_ANY) (number_or 32 q 0xffffffff))
  end.

Definition kind_of (name : string) : option mp_kind :=
  snd <$> List.find (fun x => bool_decide (x.1 = name))
    [("flow", k_flow); ("port", k_port); ("switch", k_switch); ("aggregate-flow", k_aggregate); ("table", k_table);
     ("port-desc", k_port_desc); ("queue", k_queue)].

Definition mp_error (text : string) : json := JObject [("RestMultipart", JString text)].
Definition incorrect_request : json := mp_error "incorrect request".

(** A request is answered at once, or waits. *)
Inductive mp_result := answer (j : json) | waiting.

Definition wait_for (kind : mp_kind) (name : string) : mp mp_result :=
  st_update (fun s => MpState (responses s) (Some (kind, name)) (mp_sent s)) ;; mret waiting.

Definition ask (m : switch_map) (params : list string) (kind : mp_kind) (req : res rest_exn mp_request) : mp mp_result :=
  p1 ← st_lift (param params 1); dpid ← st_lift (lexical_cast 64 p1); r ← st_lift req; send_to m dpid r ;; wait_for kind p1.

(** The handlers of exceptions; nothing catches a read out of the parameters. *)
Definition caught (text_of : rest_exn -> json) (r : mp mp_result) : mp mp_result := fun s =>
  match r s with
  | (s, Throw indeterminate) => (s, Throw indeterminate)
  | (s, Throw e) => (s, Ok (answer (text_of e)))
  | r => r
  end.

Definition show_dpid (n : Z) : json := jtext (show_base 10 n).

(** [handleGET]; [ids] are the identifiers of the switches, as the manager lists them. *)
Definition mp_handleGET (m : switch_map) (ids : list Z) (params : list string) : mp mp_result :=
  caught (fun _ => incorrect_request)
    (p0 ← st_lift (param params 0);
     match kind_of p0 with
     | None => mret (answer incorrect_request)
     | Some kind =>
         p1 ← st_lift (param params 1);
         if bool_decide (kind = k_switch) && bool_decide (p1 = "all") then mret (answer (JArray (map show_dpid ids)))
         else ask m params kind (get_request kind params)
     end).

(** [HANDLE_UINT]: only an overflow gets out. *)
Definition mp_handle_uint (req : json_object) (field : string) (w : Z) (l : list oxm) : res rest_exn (list oxm) :=
  match (v ← obj_at field req; json_cast w v) with
  | Ok n => Ok (l ++ [Oxm field (oxm_number n)])%list
  | Throw ex_overflow => Throw ex_overflow
  | Throw indeterminate => Throw indeterminate
  | Throw _ => Ok l
  end.
Definition mp_text (req : json_object) (field : string) (l : list oxm) : res rest_exn (list oxm) :=
  match obj_find field req with
  | None => Ok l
  | Some v => if accepts field (string_value v) then Ok (l ++ [Oxm field (oxm_text (string_value v))])%list else Throw ex_other
  end.

Definition mp_uints : list (string * Z) :=
  [("tcp_src", 16); ("tcp_dst", 16); ("udp_src", 16); ("udp_dst", 16); ("in_port", 32); ("in_phy_port", 32); ("metadata", 64);
   ("eth_type", 16); ("ip_proto", 8)].
Definition mp_texts : list string := ["eth_src"; "eth_dst"; "ipv4_src"; "ipv4_dst"].

Fixpoint each {A} (f : A -> list oxm -> res rest_exn (list oxm)) (fields : list A) (l : list oxm) : res rest_exn (list oxm) :=
  match fields with [] => Ok l | x :: fields => l ← f x l; each f fields l end.

(** [RestMultipart::processMatches] *)
Definition mp_processMatches (req : json_object) : res rest_exn (list oxm) :=
  l ← each (fun x => mp_handle_uint req x.1 x.2) mp_uints []; each (mp_text req) mp_texts l.

(** [RestMultipart::processInfo]; the setters take fewer bits than the 64 that are read. *)
Definition mp_processInfo (set_out_port : Z -> Z) (req : json_object) : res rest_exn flow_filter :=
  table_id ← chooseValue 64 req "table_id" 0xff; out_port ← chooseValue 64 req "out_port" OFPP_ANY;
  out_group ← chooseValue 64 req "out_group" OFPG_ANY; cookie ← chooseValue 64 req "cookie" 0; cookie_mask ← chooseValue 64 req "cookie_mask" 0;
  Ok (Filter (u8 table_id) (set_out_port out_port) (u32 out_group) cookie cookie_mask []).

(** [sendPostRequest], after the switch is found. *)
Definition post_filter (set_out_port : Z -> Z) (req : json_object) : res rest_exn flow_filter :=
  f ← mp_processInfo set_out_port req;
  match obj_find "match" req with
  | None => Ok f
  | Some v => ms ← mp_processMatches (object_items v); Ok (Filter (fl_table_id f) (fl_out_port f) (fl_out_group f) (fl_cookie f) (fl_cookie_mask f) ms)
  end.

Definition sendPostRequest (m : switch_map) (kind : mp_kind) (p1 : string) (set_out_port : Z -> Z) (make : flow_filter -> mp_request) (req : json_object) : mp mp_result :=
  dpid ← st_lift (lexical_cast 64 p1);
  match getSwitch dpid m with
  | None => st_lift (Throw (ex_chars "switch not found"))
  | Some _ => f ← st_lift (post_filter set_out_port req); send_to m dpid (make f) ;; wait_for kind p1
  end.

(** [handlePOST] *)
Definition mp_handlePOST (m : switch_map) (params : list string) (body : string) : mp mp_result :=
  caught (fun e => mp_error (match e with ex_string s => s | _ => "Some error on request handling" end))
    (req ← st_lift (parse body); p0 ← st_lift (param params 0);
     if bool_decide (p0 = "flow") then p1 ← st_lift (param params 1); sendPostRequest m k_flow p1 u32 MultipartRequestFlow req
     else if bool_decide (p0 = "aggregate-flow") then
       p1 ← st_lift (param params 1); sendPostRequest m k_aggregate p1 agg_out_port MultipartRequestAggregate req
     else mret (answer incorrect_request)).

(** A request by its method. *)
Inductive mp_method := mp_GET | mp_POST (body : string).
Definition mp_handle (m : switch_map) (ids : list Z) (method : mp_method) (params : list string) : mp mp_result :=
  match method with mp_GET => mp_handleGET m ids params | mp_POST body => mp_handlePOST m params body end.

(** ** Replies *)

Definition store (reply : mp_reply) (r : mp_responses) : option mp_responses :=
  let 'Responses f p d a t pd q := r in
  match reply with
  | OFPMP_FLOW l => Some (Responses l p d a t pd q)
  | OFPMP_PORT_STATS l => Some (Responses f l d a t pd q)
  | OFPMP_DESC x => Some (Responses f p x a t pd q)
  | OFPMP_AGGREGATE _ held => Some (Responses f p d held t pd q)
  | OFPMP_TABLE l => Some (Responses f p d a l pd q)
  | OFPMP_PORT_DESC l => Some (Responses f p d a t l q)
  | OFPMP_QUEUE l => Some (Responses f p d a t pd l)
  | other_multipart _ | not_multipart _ => None
  end.

(** What a request of a kind shows. *)
Definition shown (kind : mp_kind) (r : mp_responses) : json :=
  match kind with
  | k_flow => JArray (map (flow_json mac_string) (responseFlow_ r))
  | k_port => JArray (map port_json (responsePort_ r))
  | k_switch => desc_json (responseSwitchDesc_ r)
  | k_aggregate => aggregate_json (responseAggregate_ r)
  | k_table => JArray (map table_json (responseTable_ r))
  | k_port_desc => JArray (map (port_desc_json mac_string) (responsePortDesc_ r))
  | k_queue => JArray (map queue_json (responseQueue_ r))
  end.

(** [onResponse], from any switch; [ResponseHandlingFinished] ends the wait of the
    request there is, and gives its answer. *)
Definition mp_onResponse (reply : mp_reply) (s : mp_state) : mp_state * option json :=
  match store reply (responses s) with
  | None => (s, None)
  | Some r =>
      match pending s with
      | None => (MpState r None (mp_sent s), None)
      | Some (kind, name) => (MpState r None (mp_sent s), Some (JObject [(name, shown kind r)]))
      end
  end.

Fixpoint mp_replies (replies : list mp_reply) (s : mp_state) : mp_state * list json :=
  match replies with
  | [] => (s, [])
  | r :: rs => let '(s, a) := mp_onResponse r s in let '(s, l) := mp_replies rs s in (s, match a with Some j => j :: l | None => l end)
  end.
End multipart.

Local Close Scope string_scope.

(** * What is written is read back *)

Local Open Scope string_scope.

Lemma text_nil_r (s : string) : s +:+ "" = s.
Proof. induction s as [|c s IH]; [done|]. change (String c (s +:+ "") = String c s). by rewrite IH. Qed.

Section objects.
Context {A : Type}.

Lemma obj_find_obj_set key k (v : A) o : obj_find key (obj_set k v o) = if bool_decide (k = key) then Some v else obj_find key o.
Proof.
  induction o as [|[k1 v1] o IH]; cbn; [done|]. destruct (String.compare k k1) eqn:E; cbn.
  - apply String.compare_eq_iff in E as ->. by case_bool_decide.
  - done.
  - assert (Hne : k <> k1) by (intros ->; by rewrite string_compare_refl in E).
    rewrite IH. repeat case_bool_decide; congruence.
Qed.
End objects.

(** The texts of addresses: what libfluid's [EthAddress] and [IPAddress] make of a text,
    and its laws.  An Ethernet address is read back from the text that is printed for it;
    four decimal octets are read in network order, the first as the lowest byte of the
    number. *)
Definition dotted_text (os : list Z) : string := string_of_list_ascii (Addresses.join "."%char (map (show_base 10) os)).
Definition mac_fields : list string := ["eth_src"; "eth_dst"; "arp_sha"; "arp_tha"].
Definition ip_fields : list string := ["ipv4_src"; "ipv4_dst"; "arp_spa"; "arp_tpa"].
Class AddressTexts (mac_string : Z -> string) (accepts : string -> string -> bool) := {
  mac_value : string -> Z;
  ip_value : string -> Z;
  mac_read mac : in_width 48 mac -> mac_value (mac_string mac) = mac;
  mac_taken field mac : field ∈ mac_fields -> in_width 48 mac -> accepts field (mac_string mac) = true;
  ip_read os : length os = 4%nat -> Forall (in_width 8) os -> ip_value (dotted_text os) = be_val (rev os);
  ip_taken field os : field ∈ ip_fields -> length os = 4%nat -> Forall (in_width 8) os -> accepts field (dotted_text os) = true;
}.

(** The text that is shown has the octets from the lowest byte on. *)
Lemma ip_shown ip : string_of_list_ascii (uint32_t_ip_to_string ip) = dotted_text (rev (be_bytes 4 ip)).
Proof.
  unfold uint32_t_ip_to_string, dotted_text. do 2 f_equal. rewrite <- map_map. f_equal. cbn [be_bytes app rev map].
  change 0xff with (Z.ones 8). rewrite !Z.land_ones, !Z.shiftr_div_pow2 by lia. change (2 ^ 8) with 256.
  rewrite !Z.div_div by lia. repeat f_equal. apply Z.div_1_r.
Qed.

Section reread.
Context {double : Type} `{Doubles double}.
Abbreviation json := (json double).
Abbreviation json_object := (list (string * json)).
Variable mac_string : Z -> string.
Variable accepts : string -> string -> bool.

Lemma obj_find_emplace key k (v : json) o :
  obj_find key (obj_emplace k v o) = match obj_find key o with Some w => Some w | None => if bool_decide (k = key) then Some v else None end.
Proof.
  unfold obj_emplace. destruct (obj_find k o) eqn:E.
  - destruct (obj_find key o) eqn:E'; [done|]. case_bool_decide; subst; congruence.
  - rewrite obj_find_obj_set. case_bool_decide; [subst; by rewrite E|]. by destruct (obj_find key o).
Qed.

(** A field of a match that is written, by its name. *)
Lemma find_shown (mt : of_match) (fields : list (string * (Z -> json))) key ans :
  obj_find key (fold_left (fun ans fs => emplace_if_exist mt fs.1 fs.2 ans) fields ans) =
  match obj_find key ans with Some v => Some v | None => show ← obj_find key fields; show <$> mt !! key end.
Proof.
  revert ans. induction fields as [|[f show] fields IH]; intros ans; cbn [fold_left obj_find].
  { by destruct (obj_find key ans). }
  rewrite IH. unfold emplace_if_exist. cbn [fst snd]. destruct (mt !! f) as [v|] eqn:Ef.
  - rewrite obj_find_emplace. destruct (obj_find key ans); [done|]. case_bool_decide; [subst; cbn; by rewrite Ef|done].
  - destruct (obj_find key ans); [done|]. case_bool_decide; [subst; cbn; rewrite Ef|done]. by destruct (obj_find key fields) as [s|]; cbn; rewrite ?Ef.
Qed.

Lemma find_processMatch (mt : of_match) key :
  obj_find key (processMatch mac_string mt) = (show ← obj_find key (shown_fields (double := double) mac_string); show <$> mt !! key).
Proof. unfold processMatch. by rewrite find_shown. Qed.

Lemma json_cast_shown w n toHex : 0 <= w <= 64 -> in_width w n -> json_cast (double := double) w (jtext (toString_cast n toHex)) = Ok n.
Proof.
  intros Hw [H1 H2]. assert (H64 : in_width 64 n) by (split; [done|]; eapply Z.lt_le_trans; [done|apply Z.pow_le_mono_r; lia]).
  unfold json_cast, jtext, chars. cbn [string_value]. rewrite list_ascii_of_string_of_list_ascii, string_cast_shown by done.
  by rewrite (proj2 (Z.leb_gt _ _) H2).
Qed.

(** The fields a filter reads from a match. *)
Definition reread_match (mt : of_match) : list oxm :=
  omap (fun x => (fun n => Oxm x.1 (oxm_number n)) <$> mt !! x.1) mp_uints ++
  omap (fun f => (fun n => Oxm f (oxm_text (if bool_decide (f ∈ ["eth_src"; "eth_dst"]) then mac_string n
                                           else string_of_list_ascii (uint32_t_ip_to_string n)))) <$> mt !! f) mp_texts.

Definition match_fits (mt : of_match) : Prop := forall f w n, (f, w) ∈ mp_uints -> mt !! f = Some n -> in_width w n.

Lemma uint_reread (mt : of_match) f w l : (f, w) ∈ mp_uints -> match_fits mt ->
  mp_handle_uint (double := double) (processMatch mac_string mt) f w l = Ok (l ++ omap (fun x => (fun n => Oxm x.1 (oxm_number n)) <$> mt !! x.1) [(f, w)])%list.
Proof.
  intros Hin Hfit. unfold mp_handle_uint, obj_at. rewrite find_processMatch.
  assert (Hs : exists b, obj_find f (shown_fields (double := double) mac_string) = Some (fun n => jtext (toString_cast n b)) /\ 0 <= w <= 64).
  { unfold mp_uints in Hin. rewrite !elem_of_cons in Hin. repeat (destruct Hin as [[= -> ->]|Hin]; [first [exists true; split; [reflexivity|lia] | exists false; split; [reflexivity|lia]]|]).
    by apply elem_of_nil in Hin. }
  destruct Hs as (b & -> & Hw). cbn. destruct (mt !! f) as [n|] eqn:E; cbn; [|by rewrite app_nil_r].
  rewrite json_cast_shown by (by try apply (Hfit f)). done.
Qed.

(** A loop over fields that each add what they find. *)
Lemma each_omap {B} (f : B -> list oxm -> res rest_exn (list oxm)) (g : B -> option oxm) fields l :
  (forall x l, x ∈ fields -> f x l = Ok (l ++ omap g [x])%list) -> each f fields l = Ok (l ++ omap g fields)%list.
Proof.
  revert l. induction fields as [|x fields IH]; intros l Hf; cbn [each]; [cbn; by rewrite app_nil_r|].
  rewrite Hf by (by left). cbn [mbind res_bind]. rewrite IH by (intros; apply Hf; by right). rewrite <- app_assoc. do 2 f_equal. cbn. by destruct (g x).
Qed.

(** The match that is shown for a flow, sent back as the filter of a request, is
    read without an error as the same values for every field a filter can have. *)
Theorem shown_match_filters (mt : of_match) : match_fits mt -> (forall f t, accepts f t = true) ->
  mp_processMatches (double := double) accepts (processMatch mac_string mt) = Ok (reread_match mt).
Proof.
  intros Hfit Hacc. unfold mp_processMatches, reread_match.
  rewrite (each_omap _ (fun x => (fun n => Oxm x.1 (oxm_number n)) <$> mt !! x.1)) by (intros [f w] l Hin; by apply uint_reread).
  cbn [mbind res_bind]. rewrite (each_omap _ (fun f => (fun n => Oxm f (oxm_text (if bool_decide (f ∈ ["eth_src"; "eth_dst"]) then mac_string n
    else string_of_list_ascii (uint32_t_ip_to_string n)))) <$> mt !! f)); [done|].
  intros f l Hin. unfold mp_text. rewrite find_processMatch.
  assert (Hs : obj_find f (shown_fields (double := double) mac_string) =
    Some (fun n => JString (if bool_decide (f ∈ ["eth_src"; "eth_dst"]) then mac_string n else string_of_list_ascii (uint32_t_ip_to_string n)))).
  { unfold mp_texts in Hin. rewrite !elem_of_cons in Hin. repeat (destruct Hin as [->|Hin]; [reflexivity|]). by apply elem_of_nil in Hin. }
  rewrite Hs. cbn -[elem_of bool_decide]. destruct (mt !! f); cbn -[elem_of bool_decide]; by rewrite ?Hacc, ?app_nil_r.
Qed.

(** ** Actions *)

Context `{!AddressTexts mac_string accepts}.

(** The value of a field that a request makes: of a text, what libfluid reads in it. *)
Definition made (o : oxm) : string * Z :=
  (ox_field o, match ox_value o with
               | oxm_number n => n
               | oxm_text t => if bool_decide (ox_field o ∈ mac_fields) then mac_value t else ip_value t
               end).
Definition made_action (a : rest_action) : string * list (string * Z) :=
  match a with act_plain type members => (type, members) | act_set_field o => ("SET_FIELD", [made o]) end.

(** What a flow entry gets for a field that is shown; nothing where the name is not one of a request. *)
Definition reread_field (f : of_field) : option (string * Z) :=
  match f with
  | EthSrc mac => Some ("eth_src", mac) | EthDst mac => Some ("eth_dst", mac)
  | EthType n => Some ("eth_type", n) | VLANVid n => Some ("vlan_vid", n)
  | IPProto n => Some ("ip_proto", n) | ARPOp n => Some ("arp_op", n)
  | ARPSPA ip => Some ("arp_spa", ip) | ARPTPA ip => Some ("arp_tpa", ip)
  | ARPSHA mac => Some ("arp_sha", mac) | ARPTHA mac => Some ("arp_tha", mac)
  | InPort _ | IPv4Src _ | IPv4Dst _ | other_field _ => None
  end.
(** The same for an action: the length that an output keeps and the number of an
    experimenter are not shown. *)
Definition reread_action (a : of_action) : list (string * list (string * Z)) :=
  match a with
  | OutputAction port _ => [("OUTPUT", [("port", port)])]
  | CopyTTLOut => [("COPY_TTL_OUT", [])] | CopyTTLIn => [("COPY_TTL_IN", [])]
  | SetMPLSTTL ttl => [("SET_MPLS_TTL", [("mpls_ttl", ttl)])] | DecMPLSTTL => [("DEC_MPLS_TTL", [])]
  | PushVLAN t => [("PUSH_VLAN", [("ethertype", t)])] | PopVLAN => [("POP_VLAN", [])]
  | PushMPLS t => [("PUSH_MPLS", [("ethertype", t)])] | PopMPLS t => [("POP_MPLS", [("ethertype", t)])]
  | SetQueue q => [("SET_QUEUE", [("queue_id", q)])] | GroupAct g => [("GROUP", [("group_id", g)])]
  | SetNWTTL ttl => [("SET_NW_TTL", [("nw_ttl", ttl)])] | DecNWTTL => [("DEC_NW_TTL", [])]
  | SetField f => match reread_field f with Some x => [("SET_FIELD", [x])] | None => [] end
  | PushPBB t => [("PUSH_PBB", [("ethertype", t)])] | PopPBB => [("POP_PBB", [])]
  | ExperimenterAct _ => [("EXPERIMENTER", [])]
  | other_action _ => []
  end.
Definition refused (a : of_action) : bool := match a with SetField f => match reread_field f with Some _ => false | None => true end | _ => false end.
Definition refused_text (a : of_action) : string :=
  if refused a then " Incorrect input in an action SET_FIELD. This action is ignored." else "".

Definition field_fits (f : of_field) : Prop :=
  match f with
  | EthType n | VLANVid n | ARPOp n => in_width 16 n | IPProto n => in_width 8 n
  | EthSrc mac | EthDst mac | ARPSHA mac | ARPTHA mac => in_width 48 mac
  | IPv4Src ip | IPv4Dst ip | ARPSPA ip | ARPTPA ip => in_width 32 ip
  | _ => True
  end.
Definition action_fits (a : of_action) : Prop :=
  match a with
  | OutputAction n _ | SetQueue n | GroupAct n => in_width 32 n
  | SetMPLSTTL n | SetNWTTL n => in_width 8 n
  | PushVLAN n | PushMPLS n | PopMPLS n | PushPBB n => in_width 16 n
  | SetField f => field_fits f
  | _ => True
  end.

Lemma one_member elem member w n toHex : in_width w n -> 0 <= w <= 64 ->
  set_acts (double := double) (obj_set member (jtext (toString_cast n toHex)) elem) [(member, w)] = Ok [(member, n)].
Proof.
  intros Hn Hw. cbn [set_acts]. unfold set_act. cbn [fst]. rewrite obj_find_obj_set, bool_decide_true by done. cbn [snd]. by rewrite json_cast_shown.
Qed.

Lemma number_cast w n : 0 <= w <= 64 -> in_width w n -> string_cast w (chars (string_value (double := double) (jnum n))) = Ok n.
Proof. intros Hw Hn. apply (json_cast_shown w n false Hw Hn). Qed.

Lemma read_plain type elem members ms :
  obj_find "type" elem = Some (JString (double := double) type) -> type <> "SET_FIELD" -> action_members type = Some members ->
  set_acts elem members = Ok ms -> read_action accepts elem = Ok [act_plain type ms].
Proof.
  intros Ht Hne Hm Hs. unfold read_action, obj_at. rewrite Ht. cbn [mbind res_bind string_value]. rewrite bool_decide_false by done. rewrite Hm, Hs. done.
Qed.

Lemma read_set_field field (value : json) :
  read_action accepts (typed "SET_FIELD" (field_object field value)) = (f ← doSwitch accepts field (string_value value); Ok [act_set_field f]).
Proof. reflexivity. Qed.

Lemma doSwitch_text field value : accepts field value = true -> field ∈ text_fields -> doSwitch accepts field value = Ok (Oxm field (oxm_text value)).
Proof.
  intros Hacc Hf. unfold doSwitch. assert (List.find (fun x => bool_decide (x.1 = field)) number_fields = None) as ->.
  { unfold text_fields in Hf. rewrite !elem_of_cons in Hf. repeat (destruct Hf as [->|Hf]; [reflexivity|]). by apply elem_of_nil in Hf. }
  by rewrite bool_decide_true, Hacc.
Qed.

Lemma address_field field : field ∈ mac_fields \/ field ∈ ip_fields -> field ∈ text_fields.
Proof. unfold mac_fields, ip_fields, text_fields. set_solver. Qed.

Lemma doSwitch_mac field mac : field ∈ mac_fields -> in_width 48 mac ->
  exists o, doSwitch accepts field (string_value (double := double) (jmac mac_string mac)) = Ok o /\ made o = (field, mac).
Proof.
  intros Hf Hw. change (string_value (jmac mac_string mac)) with (mac_string mac).
  eexists. split; [apply doSwitch_text; [by apply mac_taken|by apply address_field; left]|].
  unfold made. cbn [ox_field ox_value]. by rewrite bool_decide_true, mac_read.
Qed.

Lemma doSwitch_ip field ip : field ∈ ip_fields -> in_width 32 ip ->
  exists o, doSwitch accepts field (string_value (double := double) (jip ip)) = Ok o /\ made o = (field, ip).
Proof.
  intros Hf Hw. assert (Hl : length (rev (be_bytes 4 ip)) = 4%nat) by (by rewrite length_rev, be_bytes_length).
  assert (Ho : Forall (in_width 8) (rev (be_bytes 4 ip))) by apply Forall_rev, be_bytes_width.
  unfold jip, jtext. cbn [string_value]. rewrite ip_shown. eexists. split; [apply doSwitch_text; [by apply ip_taken|by apply address_field; right]|].
  unfold made. cbn [ox_field ox_value]. rewrite bool_decide_false; [by rewrite ip_read, rev_involutive, be_val_bytes_small|].
  unfold mac_fields, ip_fields in *. set_solver.
Qed.

Lemma doSwitch_number field w n : 0 <= w <= 64 -> in_width w n -> List.find (fun x => bool_decide (x.1 = field)) number_fields = Some (field, w) ->
  doSwitch accepts field (string_value (double := double) (jnum n)) = Ok (Oxm field (oxm_number n)).
Proof. intros Hw Hn Hf. unfold doSwitch. rewrite Hf. cbn [snd]. by rewrite number_cast. Qed.

Lemma doSwitch_made field w n : 0 <= w <= 64 -> in_width w n -> List.find (fun x => bool_decide (x.1 = field)) number_fields = Some (field, w) ->
  exists o, doSwitch accepts field (string_value (double := double) (jnum n)) = Ok o /\ made o = (field, n).
Proof. intros Hw Hn Hf. exists (Oxm field (oxm_number n)). by rewrite (doSwitch_number field w n). Qed.

Lemma field_reread f x : field_fits f -> reread_field f = Some x ->
  exists o, read_action accepts (show_action (double := double) mac_string (SetField f)) = Ok [act_set_field o] /\ made o = x.
Proof.
  intros Hfit Hx. cbn [show_action].
  assert (Hr : forall field (value : json), (exists o, doSwitch accepts field (string_value value) = Ok o /\ made o = x) ->
    exists o, read_action accepts (typed "SET_FIELD" (field_object field value)) = Ok [act_set_field o] /\ made o = x).
  { intros field value (o & Ho & Hm). exists o. by rewrite read_set_field, Ho. }
  destruct f as [n|mac|mac|n|n|ip|ip|n|ip|ip|mac|mac|n|code]; cbn [reread_field field_fits processSetField] in *; try done; injection Hx as <-; apply Hr;
    first [by apply doSwitch_mac; [unfold mac_fields; set_solver|]|by apply doSwitch_ip; [unfold ip_fields; set_solver|]
          |by apply (doSwitch_made _ 16); [lia| |]|by apply (doSwitch_made _ 8); [lia| |]].
Qed.

Lemma action_reread a : action_fits a ->
  match read_action accepts (show_action (double := double) mac_string a) with
  | Ok l => refused a = false /\ map made_action l = reread_action a
  | Throw indeterminate => False
  | Throw _ => refused a = true
  end.
Proof.
  intros Hfit.
  destruct a as [port len| | |ttl| |t| |t|t|q|g|ttl| |f|t| |e|type]; cbn [action_fits] in Hfit;
    try (erewrite read_plain; [split; reflexivity|reflexivity|done|reflexivity|reflexivity]).
  all: try (erewrite read_plain; [split; reflexivity|reflexivity|done|reflexivity|]; cbn [show_action]; apply (one_member _ _ _ _ false); [done|lia]).
  3: by vm_compute.
  1: { erewrite read_plain; [split; reflexivity|reflexivity|done|reflexivity|]. cbn [show_action snd].
       set (elem := obj_set _ _ _). change (set_acts elem [("port", 32); ("max_len", 16)]) with (x ← set_act elem ("port", 32); y ← set_acts elem [("max_len", 16)]; Ok (x ++ y)%list).
       assert (set_act elem ("port", 32) = Ok [("port", port)]) as ->; [|reflexivity].
       unfold set_act, elem. cbn [fst]. rewrite obj_find_obj_set, bool_decide_true by done. cbn [snd]. rewrite json_cast_shown by (done || lia). done. }
  cbn [refused reread_action]. destruct (reread_field f) as [x|] eqn:Ex.
  { destruct (field_reread f x Hfit Ex) as (o & -> & Hm). split; [done|]. cbn. by rewrite Hm. }
  destruct f; try done; reflexivity.
Qed.

(** C23: the actions that are shown for a flow, posted back as those of a new flow entry,
    are read as the same actions with the same values, the addresses too, as far as
    libfluid reads the texts of addresses as it prints them.  The exceptions are that the
    length an output keeps and the number of an experimenter are lost, that an action of
    an unknown type disappears, and that setting a port or a network address is refused,
    with a text for each, since the names that are shown for these fields are not the
    ones that are read. *)
Theorem shown_actions_read acts s : Forall action_fits acts ->
  exists l, processActions accepts (array_items (showActions (double := double) mac_string acts)) s =
      (RestState (fold_left String.append (map refused_text acts) (response_ s)) (sent s), Ok l) /\
    map made_action l = concat (map reread_action acts).
Proof.
  intros Hf. revert s. induction Hf as [|a acts Ha _ IH]; intros s; [exists []; by destruct s|]. cbn [showActions array_items map processActions].
  assert (Hstep : exists l, processAction accepts (show_action (double := double) mac_string a) s = (RestState (response_ s +:+ refused_text a) (sent s), Ok l) /\
    map made_action l = reread_action a).
  { pose proof (action_reread a Ha) as Hr. unfold processAction.
    destruct (read_action accepts _) as [l|e] eqn:Er.
    - destruct Hr as [Hr Hl]. exists l. unfold refused_text. rewrite Hr, text_nil_r. by destruct s.
    - exists []. unfold refused_text. destruct a as [| | | | | | | | | | | | |f| | | |]; try (by destruct e).
      destruct e; try done; rewrite Hr; cbn [show_action reread_action]; unfold typed, obj_at; rewrite obj_find_obj_set, bool_decide_true by done;
      cbn in Hr |- *; by destruct (reread_field f). }
  destruct Hstep as (l & Hl & Hm). destruct (IH (RestState (response_ s +:+ refused_text a) (sent s))) as (l' & Hl' & Hm').
  exists (l ++ l')%list. unfold mbind, st_bind. cbn [object_items]. rewrite Hl. cbn [showActions array_items] in Hl'. rewrite Hl'. split; [reflexivity|].
  rewrite map_app, Hm, Hm'. reflexivity.
Qed.
End reread.

(** * One request and the replies to it *)

Section waiting.
Context {double : Type} `{Doubles double}.
Variable mac_string : Z -> string.
Variable accepts : string -> string -> bool.
Variable agg_out_port : Z -> Z.
Abbreviation mp_handle := (mp_handle (double := double) accepts agg_out_port).
Abbreviation mp_replies := (mp_replies (double := double) mac_string).
Abbreviation shown := (shown (double := double) mac_string).

Definition reply_kind (r : mp_reply) : option mp_kind :=
  match r with
  | OFPMP_FLOW _ => Some k_flow | OFPMP_PORT_STATS _ => Some k_port | OFPMP_DESC _ => Some k_switch | OFPMP_AGGREGATE _ _ => Some k_aggregate
  | OFPMP_TABLE _ => Some k_table | OFPMP_PORT_DESC _ => Some k_port_desc | OFPMP_QUEUE _ => Some k_queue
  | other_multipart _ | not_multipart _ => None
  end.
(** What the code reads of a reply, as JSON: what the switch reported, except where that
    is about aggregates. *)
Definition reply_json (r : mp_reply) : json double :=
  match r with
  | OFPMP_FLOW l => JArray (map (flow_json mac_string) l) | OFPMP_PORT_STATS l => JArray (map port_json l) | OFPMP_DESC d => desc_json d
  | OFPMP_AGGREGATE _ held => aggregate_json held | OFPMP_TABLE l => JArray (map table_json l)
  | OFPMP_PORT_DESC l => JArray (map (port_desc_json mac_string) l) | OFPMP_QUEUE l => JArray (map queue_json l)
  | other_multipart _ | not_multipart _ => JNull
  end.

Lemma store_shown reply r k : match store reply r with
  | None => reply_kind reply = None
  | Some r' => exists k', reply_kind reply = Some k' /\ shown k r' = if bool_decide (k = k') then reply_json reply else shown k r
  end.
Proof. destruct r, reply; cbn; try done; eexists; (split; [reflexivity|]); by destruct k. Qed.

Lemma ignored_replies ignored s : Forall (fun r => reply_kind r = None) ignored -> mp_replies ignored s = (s, []).
Proof.
  intros Hi. induction Hi as [|r rs Hr _ IH]; [done|]. cbn. unfold mp_onResponse.
  assert (store r (responses s) = None) as -> by (by destruct r, (responses s)). by rewrite IH.
Qed.

Lemma replies_app rs1 rs2 s : mp_replies (rs1 ++ rs2) s =
  let '(s1, l1) := mp_replies rs1 s in let '(s2, l2) := mp_replies rs2 s1 in (s2, (l1 ++ l2)%list).
Proof.
  revert s. induction rs1 as [|r rs1 IH]; intros s; cbn; [by destruct (RestStats.mp_replies _ rs2 s)|].
  destruct (mp_onResponse _ r s) as [s1 a]. rewrite IH. destruct (RestStats.mp_replies _ rs1 s1) as [s2 l2]. destruct (RestStats.mp_replies _ rs2 s2) as [s3 l3]. by destruct a.
Qed.

(** What a request asks a switch for; a POST one has the filter of its body. *)
Definition asked (method : mp_method) (kind : mp_kind) (params : list string) : res rest_exn mp_request :=
  match method, kind with
  | mp_GET, _ => get_request agg_out_port kind params
  | mp_POST body, k_flow => req ← parse (double := double) body; f ← post_filter accepts u32 req; Ok (MultipartRequestFlow f)
  | mp_POST body, k_aggregate => req ← parse (double := double) body; f ← post_filter accepts agg_out_port req; Ok (MultipartRequestAggregate f)
  | mp_POST _, _ => Throw ex_other
  end.

(** The state in which a request waits. *)
Definition waits (m : switch_map) (method : mp_method) (params : list string) (s s' : mp_state) (kind : mp_kind) (name : string) : Prop :=
  exists p0 dpid sw req, params !! 0%nat = Some p0 /\ params !! 1%nat = Some name /\ kind_of p0 = Some kind /\ lexical_cast 64 name = Ok dpid /\
    getSwitch dpid m = Some sw /\ asked method kind params = Ok req /\
    s' = MpState (responses s) (Some (kind, name)) (mp_sent s ++ [(sw_id sw, req)])%list.

(** What a request that is answered at once, or not at all, does not do. *)
Definition not_waiting (params : list string) (method : mp_method) (s s' : mp_state) (r : res rest_exn (mp_result (double := double))) : Prop :=
  match r with
  | Ok waiting => False
  | Ok (answer _) => s' = s
  | Throw e => s' = s /\ e = indeterminate /\ (method = mp_GET -> (length params < 4)%nat)
  end.
Definition handled_well m method params s (r : mp_state * res rest_exn (mp_result (double := double))) : Prop :=
  match r with
  | (s', Ok waiting) => exists kind name, waits m method params s s' kind name
  | (s', r) => not_waiting params method s s' r
  end.

Lemma short_param {A} (params : list A) i : (i < 4)%nat -> params !! i = None -> (length params < 4)%nat.
Proof. intros Hi E%lookup_ge_None. lia. Qed.

Lemma lexical_cast_throws w t e : lexical_cast w t = Throw e -> e = ex_other.
Proof. unfold lexical_cast. case_match; [done|]. by intros [= <-]. Qed.

Lemma get_request_throws kind params e : get_request agg_out_port kind params = Throw e -> (length params < 4)%nat.
Proof.
  unfold get_request, param. destruct kind; try done; destruct (params !! 2%nat) eqn:E2; cbn; try done; intros Ht;
    try (apply (short_param params 2); [lia|done]).
  destruct (params !! 3%nat) eqn:E3; cbn in Ht; [done|]. apply (short_param params 3); [lia|done].
Qed.

Lemma get_cases m ids params s : handled_well m mp_GET params s (mp_handle m ids mp_GET params s).
Proof.
  cbn [RestStats.mp_handle]. unfold mp_handleGET. set (body := mbind _ _).
  assert (Hb : (exists e, body s = (s, Throw e) /\ (e = indeterminate -> (length params < 4)%nat)) \/
    (exists j, body s = (s, Ok (answer j))) \/ (exists s' kind name, body s = (s', Ok waiting) /\ waits m mp_GET params s s' kind name)).
  { unfold body, mbind, st_bind, st_lift, param. destruct (params !! 0%nat) as [p0|] eqn:E0; [|left; exists indeterminate; split; [done|]; intros _; apply (short_param params 0); [lia|done]].
    destruct (kind_of p0) as [kind|] eqn:Ek; [|right; left; by eexists].
    destruct (params !! 1%nat) as [p1|] eqn:E1; [|left; exists indeterminate; split; [done|]; intros _; apply (short_param params 1); [lia|done]].
    destruct (_ && _); [right; left; by eexists|]. unfold ask, mbind, st_bind, st_lift, param. rewrite E1.
    destruct (lexical_cast 64 p1) as [dpid|e] eqn:Ed; [|left; exists e; split; [done|]; apply lexical_cast_throws in Ed as ->; done].
    destruct (get_request agg_out_port kind params) as [req|e] eqn:Er; [|left; exists e; split; [done|]; intros _; by eapply get_request_throws].
    unfold send_to. destruct (getSwitch dpid m) as [sw|] eqn:Es; [|left; by eexists].
    right; right. eexists _, kind, p1. split; [done|]. by exists p0, dpid, sw, req. }
  unfold caught. destruct Hb as [(e & -> & Hl)|[(j & ->)|(s' & kind & name & -> & Hw)]]; [|done|by exists kind, name].
  destruct e; cbn; eauto.
Qed.

Lemma post_request_cases m method kind p0 p1 set_out make body req s params :
  method = mp_POST body -> parse body = Ok req -> params !! 0%nat = Some p0 -> params !! 1%nat = Some p1 -> kind_of p0 = Some kind ->
  asked method kind params = (f ← post_filter accepts set_out req; Ok (make f)) ->
  let r := sendPostRequest accepts m kind p1 set_out make req s in
  (exists e, r = (s, Throw e)) \/ (exists s', r = (s', Ok waiting) /\ waits m method params s s' kind p1).
Proof.
  intros -> Hp E0 E1 Ek Ha. cbv zeta. unfold sendPostRequest, mbind, st_bind, st_lift. destruct (lexical_cast 64 p1) as [dpid|e] eqn:Ed; [|left; by eexists].
  destruct (getSwitch dpid m) as [sw|] eqn:Es; [|left; by eexists]. destruct (post_filter _ _ _) as [f|e] eqn:Ef; [|left; by eexists].
  unfold send_to. rewrite Es. right. eexists. split; [reflexivity|]. exists p0, dpid, sw, (make f). by rewrite Ha.
Qed.

Lemma post_cases m ids body params s : handled_well m (mp_POST body) params s (mp_handle m ids (mp_POST body) params s).
Proof.
  cbn [RestStats.mp_handle]. unfold mp_handlePOST. set (run := mbind _ _).
  assert (Hb : (exists e, run s = (s, Throw e)) \/ (exists j, run s = (s, Ok (answer j))) \/
    (exists s' kind name, run s = (s', Ok waiting) /\ waits m (mp_POST body) params s s' kind name)).
  { unfold run, mbind, st_bind, st_lift, param. destruct (parse body) as [req|e] eqn:Ep; [|left; by eexists].
    destruct (params !! 0%nat) as [p0|] eqn:E0; [|left; by eexists].
    case_bool_decide as H0; [|case_bool_decide as H1; [|right; left; eexists; reflexivity]]; subst p0; (destruct (params !! 1%nat) as [p1|] eqn:E1; [|left; by eexists]).
    - destruct (post_request_cases m (mp_POST body) k_flow "flow" p1 u32 MultipartRequestFlow body req s params) as [?|(s' & -> & Hw)]; eauto 10.
      cbn [asked]. by rewrite Ep.
    - destruct (post_request_cases m (mp_POST body) k_aggregate "aggregate-flow" p1 agg_out_port MultipartRequestAggregate body req s params) as [?|(s' & -> & Hw)]; eauto 10.
      cbn [asked]. by rewrite Ep. }
  unfold caught. destruct Hb as [(e & ->)|[(j & ->)|(s' & kind & name & -> & Hw)]]; [|done|by exists kind, name].
  by destruct e; repeat split.
Qed.

(** C22: a request for statistics, by either method, that does not wait is answered at
    once and sends nothing; one that waits has sent exactly its request, with the filter
    of a body, to the switch it names.  It is answered by the first reply of a type that
    is handled, whatever switch it is from: if the reply is of the kind that was asked
    for, the answer shows what the switch reported, except that for aggregates it shows
    what the memory of the reply about tables holds that is made of it; otherwise it
    shows what was received before the request.  As long as there are only other
    messages, such as errors, there is no answer, and the only thread waits. *)
Theorem multipart_answers m ids method params s : match mp_handle m ids method params s with
  | (s', Ok waiting) => exists kind name, waits m method params s s' kind name /\
      forall ignored, Forall (fun r => reply_kind r = None) ignored -> mp_replies ignored s' = (s', []) /\
        forall reply k, reply_kind reply = Some k -> exists s'', pending s'' = None /\
          mp_replies (ignored ++ [reply])%list s' = (s'', [JObject [(name, if bool_decide (kind = k) then reply_json reply else shown kind (responses s))]])
  | (s', r) => not_waiting params method s s' r
  end.
Proof.
  assert (Hg : handled_well m method params s (mp_handle m ids method params s)) by (destruct method; [apply get_cases|apply post_cases]).
  destruct (mp_handle m ids method params s) as [s' [[j|]|e]]; [done| |done].
  destruct Hg as (kind & name & Hw). exists kind, name. split; [done|]. intros ignored Hi. split; [by apply ignored_replies|].
  intros reply k Hk. rewrite replies_app, ignored_replies by done. destruct Hw as (p0 & dpid & sw & req & _ & _ & _ & _ & _ & _ & ->).
  cbn [RestStats.mp_replies]. unfold mp_onResponse. cbn [responses pending]. pose proof (store_shown reply (responses s) kind) as Hs.
  destruct (store reply (responses s)) as [r|]; [|congruence]. destruct Hs as (k' & Hk' & Hs). eexists (MpState r None _). split; [done|].
  cbn. rewrite Hs. by simplify_eq.
Qed.
End waiting.

(** * Examples *)

Definition demo_match : of_match := <["eth_type" := 0x800]> (<["ip_proto" := 6]> (<["tcp_dst" := 80]> (<["ipv4_src" := 0x0100000a]> (<["vlan_vid" := 7]> ∅)))).
Definition demo_mac (mac : Z) : string := "00:00:00:00:00:01".

Lemma shown_match_filters_witness :
  mp_processMatches (double := Z) (fun _ _ => true) (processMatch demo_mac demo_match) =
    Ok [Oxm "tcp_dst" (oxm_number 80); Oxm "eth_type" (oxm_number 0x800); Oxm "ip_proto" (oxm_number 6); Oxm "ipv4_src" (oxm_text "10.0.0.1")].
Proof.
  rewrite (shown_match_filters demo_mac (fun _ _ => true) demo_match); [vm_compute; reflexivity| |done].
  assert (Hall : Forall (fun x => match demo_match !! x.1 with Some n => ((0 <=? n) && (n <? 2 ^ x.2))%Z = true | None => True end) mp_uints).
  { repeat (apply Forall_cons; split; [vm_compute; done|]). by apply Forall_nil. }
  intros f w n Hf Hn. rewrite Forall_forall in Hall. specialize (Hall _ Hf). cbn [fst snd] in Hall. rewrite Hn in Hall.
  apply andb_prop in Hall as [?%Z.leb_le ?%Z.ltb_lt]. by split.
Defined.

(** Addresses as the classes of src/types print and read them, the network ones with
    the octets in reverse. *)
Definition eth_text (mac : Z) : string := string_of_list_ascii (ethaddr_print (bits_of_ull 48 mac)).
#[local] Instance demo_texts : AddressTexts eth_text (fun _ _ => true).
Proof.
  refine {| mac_value t := match ethaddr_of_string (chars t) with Ok a => bval a | Throw _ => 0 end;
            ip_value t := match parse_ipv4 (chars t) with Ok v => be_val (rev (be_bytes 4 v)) | Throw _ => 0 end |}; try done.
  - intros mac Hm. unfold eth_text, chars. rewrite list_ascii_of_string_of_list_ascii, ethaddr_print_parse; [by apply wrap_small| |done].
    split; [cbn; lia|]. apply wrap_in_width. lia.
  - intros os Hl Ho. unfold dotted_text, chars. rewrite list_ascii_of_string_of_list_ascii, parse_dotted by done.
    f_equal. f_equal. rewrite <- Hl. by apply be_bytes_val.
Defined.

Lemma shown_actions_read_witness :
  let acts := [SetField (IPv4Dst 1); SetField (ARPSPA 0x0100000a); SetField (ARPSHA 0x0a0b0c0d0e0f); PushVLAN 0x8100; OutputAction 3 128] in
  exists l, processActions (double := Z) (fun _ _ => true) (array_items (showActions eth_text acts)) (RestState "" []) =
      (RestState " Incorrect input in an action SET_FIELD. This action is ignored." [], Ok l) /\
    l = [act_set_field (Oxm "arp_spa" (oxm_text "10.0.0.1")); act_set_field (Oxm "arp_sha" (oxm_text "0a:0b:0c:0d:0e:0f"));
         act_plain "PUSH_VLAN" [("ethertype", 0x8100)]; act_plain "OUTPUT" [("port", 3)]] /\
    map (made_action eth_text (fun _ _ => true)) l = [("SET_FIELD", [("arp_spa", 0x0100000a)]); ("SET_FIELD", [("arp_sha", 0x0a0b0c0d0e0f)]);
                         ("PUSH_VLAN", [("ethertype", 0x8100)]); ("OUTPUT", [("port", 3)])].
Proof.
  intros acts. destruct (shown_actions_read (double := Z) eth_text (fun _ _ => true) acts (RestState "" [])) as (l & Hl & Hm).
  { repeat constructor; cbn; lia. }
  exists l. split; [exact Hl|]. split; [|exact Hm]. vm_compute in Hl. by injection Hl as <-.
Defined.

(** Two switches: a reply that comes late from the first, or is the rest of a long one,
    answers the request to the second, which has a filter. *)
Definition demo_switches : switch_map := {[1 := new_switch (FeaturesReply 1 0 0 0); 2 := new_switch (FeaturesReply 2 0 0 0)]}.
Definition demo_responses : mp_responses := Responses [] [] (Desc "" "" "" "" "") (Aggregate 0 0 0) [] [] [].
Definition demo_flow (table : Z) : mp_reply := OFPMP_FLOW [FlowStat 56 table 0 0 0 0 0 0 0 0 0 ∅ []].
Definition demo_body : string := string_of_list_ascii (dump (JObject (double := Z) [("table_id", JString "3")])).

Lemma multipart_answers_witness :
  let '(s', r) := mp_handle (double := Z) (fun _ _ => true) u16 demo_switches [1; 2] (mp_POST demo_body) ["flow"; "2"] (MpState demo_responses None []) in
  r = Ok waiting /\ mp_sent s' = [(2, MultipartRequestFlow (Filter 3 OFPP_ANY OFPG_ANY 0 0 []))] /\
  mp_replies (double := Z) demo_mac [not_multipart 1] s' = (s', []) /\
  (mp_replies (double := Z) demo_mac [demo_flow 1; demo_flow 2] s').2 = [JObject [("2", reply_json demo_mac (demo_flow 1))]] /\
  (mp_replies (double := Z) demo_mac [OFPMP_AGGREGATE (Aggregate 1 1 1) (Aggregate 7 0 0)] s').2 = [JObject [("2", JArray [])]].
Proof.
  pose proof (multipart_answers (double := Z) demo_mac (fun _ _ => true) u16 demo_switches [1; 2] (mp_POST demo_body) ["flow"; "2"] (MpState demo_responses None [])) as Hm.
  destruct (mp_handle _ _ _ _ _ _ _) as [s' r] eqn:E. vm_compute in E. injection E as <- <-.
  destruct Hm as (kind & name & _ & Hi). split; [reflexivity|]. split; [reflexivity|]. split; [|split; vm_compute; reflexivity].
  apply (Hi [not_multipart 1]). repeat constructor.
Defined.

Local Close Scope string_scope.
