(* ===== verification/RestListener.v ===== *)
(** * The REST server (src/RestListener.cc, src/Rest.hh)

    Applications register with the server, which gives each one that has events a
    bit; a request is routed to an application, polls for events, or reads a file. *)

From S2P Require Import Prelude Regex RaftWire Events.
Local Open Scope Z_scope.

(** ** Registration *)

(** [RestHandler], as far as the server uses it. *)
Record rest_handler := RestHandler { rh_name : string; rh_displayed : string; rh_page : string; rh_type : string; rh_eventable : bool; rh_hash : Z }.

Record rest_listener := RestListener { rest_handlers : gmap string rest_handler; cur_hash : Z }.

Definition set_hash (h : Z) (handler : rest_handler) : rest_handler :=
  RestHandler (rh_name handler) (rh_displayed handler) (rh_page handler) (rh_type handler) (rh_eventable handler) h.

Definition new_listener : rest_listener := RestListener ∅ 1.

Definition registerRestHandler (l : rest_listener) (handler : rest_handler) : rest_listener :=
  if rh_eventable handler
  then RestListener (<[rh_name handler := set_hash (cur_hash l) handler]> (rest_handlers l)) (u32 (cur_hash l * 2))
  else RestListener (<[rh_name handler := set_hash 0 handler]> (rest_handlers l)) (cur_hash l).

(** ** Requests *)

(** [split]: [std::getline] up to the delimiter; nothing follows a delimiter at the end. *)
Fixpoint split_go (delim : ascii) (item : list ascii) (s : list ascii) : list (list ascii) :=
  match s with
  | [] => match item with [] => [] | _ => [item] end
  | c :: s => if bool_decide (c = delim) then item :: split_go delim [] s else split_go delim (item ++ [c]) s
  end.
Definition split (s : list ascii) (delim : ascii) : list (list ascii) := split_go delim [] s.

(** The parameters of a handler: the path without "", "api" and the name. *)
Definition request_params (path : list ascii) : list (list ascii) := drop 3 (split path "/"%char).

(** The applications of a poll; one that is not known is only logged. *)
Definition apps_map (l : rest_listener) (apps : list string) : Z :=
  fold_left (fun m app => match rest_handlers l !! app with Some h => Z.lor m (rh_hash h) | None => m end) apps 0.

(** [atoi] of digits, which is not defined for numbers that are no [int]. *)
Definition atoi (s : list ascii) : option Z := let n := stoi 10 s in if n <? 2 ^ 31 then Some n else None.

(** The answer to [/timeout/<apps>/<last>]: the events, and the last one as an [int]. *)
Definition timeout_request (l : rest_listener) (param1 param2 : list ascii) (m : manager) : option (res event_error (list event * Z)) :=
  last_event ← atoi param2;
  let apps := map string_of_list_ascii (split param1 "&"%char) in
  Some ('(last, target) ← timeout (apps_map l apps) last_event m; Ok (target, to_int32 last)).

(** The list of applications. *)
Definition apps_request (l : rest_listener) : gmap string (string * string * string) :=
  (fun h => (rh_displayed h, rh_page h, rh_type h)) <$> rest_handlers l.

(** ** Files *)

(** [path.find("..")] *)
Fixpoint find_dots (s : list ascii) : option nat :=
  match s with
  | c :: ((d :: _) as s') => if bool_decide (c = "."%char) && bool_decide (d = "."%char) then Some 0%nat else S <$> find_dots s'
  | _ => None
  end.

(** The loop that erases one character of each ".."; [None] if it does not end within the steps. *)
Fixpoint erase_dots (steps : nat) (path : list ascii) : option (list ascii) :=
  match find_dots path with
  | None => Some path
  | Some pos => match steps with O => None | S steps => erase_dots steps (delete pos path) end
  end.

(** The file that is opened. *)
Definition file_name (web_dir path : list ascii) : option (list ascii) :=
  path ← erase_dots (length path) path;
  Some (web_dir ++ path ++ (if bool_decide (path = ["/"%char]) then chars "start.html" else [])).

(** * No file outside *)

Definition dot : ascii := "."%char.
(** Two dots, one after the other. *)
Definition has_dots (s : list ascii) : Prop := exists a b, s = a ++ dot :: dot :: b.

Lemma find_dots_spec s : match find_dots s with
  | Some pos => exists a b, s = a ++ dot :: dot :: b /\ pos = length a
  | None => ~ has_dots s
  end.
Proof.
  induction s as [|c s IH]; [by intros (a & b & E); destruct a|]. cbn [find_dots]. destruct s as [|d s].
  { intros (a & b & E). destruct a as [|? [|? ?]]; done. }
  destruct (bool_decide (c = "."%char) && bool_decide (d = "."%char)) eqn:E.
  - apply andb_prop in E as [->%bool_decide_eq_true ->%bool_decide_eq_true]. by exists [], s.
  - destruct (find_dots (d :: s)) as [pos|]; cbn.
    + destruct IH as (a & b & E' & ->). exists (c :: a), b. by rewrite E'.
    + intros (a & b & E'). destruct a as [|c' a]; [injection E' as -> -> _; done|]. injection E' as -> E'. apply IH. by exists a, b.
Qed.

Lemma erase_one a b : delete (length a) (a ++ dot :: dot :: b) = a ++ dot :: b.
Proof. induction a as [|c a IH]; [done|]. change (c :: delete (length a) (a ++ dot :: dot :: b) = c :: a ++ dot :: b). by rewrite IH. Qed.

(** The rest of a text, without its dots. *)
Definition no_dot (s : list ascii) : list ascii := List.filter (fun c => negb (bool_decide (c = dot))) s.

Lemma erase_dots_spec steps path : (length path <= steps)%nat -> exists r, erase_dots steps path = Some r /\ ~ has_dots r /\
  no_dot r = no_dot path /\ (~ has_dots path -> r = path) /\ head r = head path.
Proof.
  revert path. induction steps as [|steps IH]; intros path Hl.
  - destruct path; [|cbn in Hl; lia]. exists []. split; [done|]. split; [|done]. by intros (a & b & E); destruct a.
  - pose proof (find_dots_spec path) as Hf. cbn [erase_dots]. destruct (find_dots path) as [pos|]; [|by exists path].
    destruct Hf as (a & b & -> & ->). rewrite erase_one. destruct (IH (a ++ dot :: b)) as (r & E & Hd & Hn & _ & Hh).
    { rewrite length_app in Hl |- *. cbn in Hl |- *. lia. }
    exists r. split; [done|]. split; [done|]. split; [|split].
    + rewrite Hn. unfold no_dot. by rewrite !List.filter_app.
    + intros Hno. destruct Hno. by exists a, b.
    + rewrite Hh. by destruct a.
Qed.

(** C26: for every path the loop that erases dots ends, and the file that is opened is
    the directory of the web pages followed by a path in which no two dots follow each
    other, so no part of it leads to a parent directory.  Nothing but dots is erased,
    and a path without two dots is served as it is. *)
Theorem web_path_safe web_dir path : exists r, erase_dots (length path) path = Some r /\
  file_name web_dir path = Some (web_dir ++ r ++ if bool_decide (r = ["/"%char]) then chars "start.html" else []) /\
  ~ has_dots r /\ no_dot r = no_dot path /\ (~ has_dots path -> r = path) /\
  forall part, part ∈ split r "/"%char -> part <> [dot; dot].
Proof.
  destruct (erase_dots_spec (length path) path (le_n _)) as (r & E & Hd & Hn & Hs & _). exists r. unfold file_name. rewrite E.
  split; [done|]. split; [done|]. split; [done|]. split; [done|]. split; [done|].
  intros part Hp ->. apply Hd. revert Hp. unfold split. clear.
  enough (forall item, [dot; dot] ∈ split_go "/"%char item r -> has_dots (item ++ r)) as He by (intros Hp; by apply (He [])).
  induction r as [|c r IH]; intros item; cbn [split_go].
  - destruct item as [|x item]; [by intros ?%elem_of_nil|]. intros <-%list_elem_of_singleton. exists [], []. done.
  - case_bool_decide as Ec.
    + intros [<-|Hp]%elem_of_cons; [by exists [], (c :: r)|]. apply (IH []) in Hp as (a & b & Er). cbn in Er. subst r. exists (item ++ c :: a), b. by rewrite <- app_assoc.
    + intros Hp%IH. by rewrite <- app_assoc in Hp.
Qed.

(** * The bits of the applications *)

Definition register_all (handlers : list rest_handler) : rest_listener := fold_left registerRestHandler handlers new_listener.

(** The handlers with events, in the order of their registration. *)
Definition with_events (handlers : list rest_handler) : list rest_handler := List.filter rh_eventable handlers.

Lemma register_snoc handlers h : register_all (handlers ++ [h]) = registerRestHandler (register_all handlers) h.
Proof. apply fold_left_app. Qed.

Lemma with_events_snoc handlers h : with_events (handlers ++ [h]) = with_events handlers ++ if rh_eventable h then [h] else [].
Proof. unfold with_events. rewrite List.filter_app. done. Qed.

(** What is known of the registered handlers. *)
Record bits_ok (handlers : list rest_handler) (l : rest_listener) : Prop := {
  bo_cur : cur_hash l = u32 (2 ^ Z.of_nat (length (with_events handlers)));
  bo_known n : is_Some (rest_handlers l !! n) <-> n ∈ map rh_name handlers;
  bo_hash n h : rest_handlers l !! n = Some h -> rh_name h = n /\
    if rh_eventable h then exists i, map rh_name (with_events handlers) !! i = Some n /\ rh_hash h = u32 (2 ^ Z.of_nat i) else rh_hash h = 0;
}.

Lemma u32_double n : u32 (u32 (2 ^ Z.of_nat n) * 2) = u32 (2 ^ Z.of_nat (S n)).
Proof. unfold wrap. rewrite Z.mul_mod_idemp_l by lia. f_equal. rewrite Nat2Z.inj_succ, Z.pow_succ_r by lia. lia. Qed.

Lemma register_ok handlers : NoDup (map rh_name handlers) -> bits_ok handlers (register_all handlers).
Proof.
  induction handlers as [|h handlers IH] using rev_ind; intros Hnd; [split; [done|intros n; split; [by intros [? ?]|by intros ?%elem_of_nil]|done]|].
  rewrite map_app in Hnd. apply NoDup_app in Hnd as (Hnd & Hfresh & _). destruct (IH Hnd) as [Hcur Hknown Hhash]. rewrite register_snoc.
  set (l := register_all handlers) in *. assert (Hh : rh_name h ∉ map rh_name handlers) by (intros Hin; apply (Hfresh _ Hin); by left).
  assert (Hold : forall n h', rest_handlers l !! n = Some h' -> n <> rh_name h) by (intros n h' Hl ->; apply Hh, Hknown; by eexists).
  unfold registerRestHandler. split.
  - rewrite with_events_snoc. destruct (rh_eventable h); cbn [cur_hash]; rewrite length_app; cbn [length]; rewrite ?Nat.add_0_r, ?Nat.add_1_r; [|done].
    by rewrite Hcur, u32_double.
  - intros n. rewrite map_app, elem_of_app. cbn [map]. rewrite list_elem_of_singleton, <- Hknown.
    destruct (rh_eventable h); cbn [rest_handlers]; rewrite lookup_insert_is_Some; destruct (decide (rh_name h = n)); naive_solver.
  - intros n h' Hl. rewrite with_events_snoc, map_app.
    destruct (rh_eventable h) eqn:Ee; cbn [rest_handlers] in Hl; apply lookup_insert_Some in Hl as [[<- <-]|[Hne Hl]].
    + split; [done|]. cbn. rewrite Ee. eexists. split; [apply list_lookup_middle; reflexivity|]. by rewrite length_map, Hcur.
    + destruct (Hhash n h' Hl) as [Hn Hi]. split; [done|]. destruct (rh_eventable h'); [|done]. destruct Hi as (i & Hi & Hv). exists i. split; [|done].
      apply lookup_app_l_Some. done.
    + split; [done|]. cbn. by rewrite Ee.
    + destruct (Hhash n h' Hl) as [Hn Hi]. split; [done|]. destruct (rh_eventable h'); [|done]. destruct Hi as (i & Hi & Hv). exists i. split; [|done].
      apply lookup_app_l_Some. done.
Qed.

Lemma apps_map_bit l apps i acc : 0 <= i ->
  Z.testbit (fold_left (fun m app => match rest_handlers l !! app with Some h => Z.lor m (rh_hash h) | None => m end) apps acc) i = true <->
  Z.testbit acc i = true \/ exists n h, n ∈ apps /\ rest_handlers l !! n = Some h /\ Z.testbit (rh_hash h) i = true.
Proof.
  intros Hi. revert acc. induction apps as [|app apps IH]; intros acc; cbn [fold_left].
  { split; [by left|]. intros [|(n & h & ?%elem_of_nil & _)]; done. }
  rewrite IH. setoid_rewrite elem_of_cons. destruct (rest_handlers l !! app) as [h|] eqn:E.
  - rewrite Z.lor_spec, orb_true_iff. split.
    + intros [[Ha|Ha]|(n & h' & Hn & Hl & Hb)]; [by left|right; exists app, h; auto|right; exists n, h'; auto].
    + intros [Ha|(n & h' & [->|Hn] & Hl & Hb)]; [by left; left|left; right; congruence|right; by exists n, h'].
  - split; [intros [Ha|(n & h' & Hn & Hl & Hb)]; [by left|right; exists n, h'; auto]|].
    intros [Ha|(n & h' & [->|Hn] & Hl & Hb)]; [by left|congruence|right; by exists n, h'].
Qed.

Lemma land_bit i m : 0 <= i -> Z.land (2 ^ i) m <> 0 <-> Z.testbit m i = true.
Proof.
  intros Hi. split.
  - intros Hn. destruct (Z.testbit m i) eqn:E; [done|]. destruct Hn. apply Z.bits_inj'. intros j Hj.
    rewrite Z.land_spec, Z.bits_0, Z.pow2_bits_eqb by done. destruct (Z.eqb_spec i j); [subst; by rewrite E|done].
  - intros Hb Hz. apply (f_equal (fun z => Z.testbit z i)) in Hz. rewrite Z.land_spec, Z.bits_0, Z.pow2_bits_true, Hb in Hz by done. done.
Qed.

(** The handler under a name is the one that registered with it, but for its hash. *)
Lemma registered_event handlers h h' : NoDup (map rh_name handlers) -> h ∈ handlers -> rest_handlers (register_all handlers) !! rh_name h = Some h' ->
  rh_eventable h' = rh_eventable h /\ rh_name h' = rh_name h.
Proof.
  induction handlers as [|x handlers IH] using rev_ind; intros Hnd Hin; [by apply elem_of_nil in Hin|].
  rewrite map_app in Hnd. apply NoDup_app in Hnd as (Hnd & Hfresh & _). rewrite register_snoc. unfold registerRestHandler.
  apply elem_of_app in Hin as [Hin|<-%list_elem_of_singleton].
  - assert (Hne : rh_name x <> rh_name h).
    { intros E. apply (Hfresh (rh_name h)); [by apply list_elem_of_In, in_map, list_elem_of_In|]. rewrite <- E. by left. }
    destruct (rh_eventable x); cbn [rest_handlers]; rewrite lookup_insert_ne by done; by apply IH.
  - destruct (rh_eventable h) eqn:E; cbn [rest_handlers]; rewrite lookup_insert_eq; intros [= <-]; cbn; by rewrite E.
Qed.

Lemma event_bit handlers n h : NoDup (map rh_name handlers) -> (length (with_events handlers) <= 32)%nat -> rest_handlers (register_all handlers) !! n = Some h ->
  if rh_eventable h then exists i, map rh_name (with_events handlers) !! i = Some n /\ rh_hash h = 2 ^ Z.of_nat i else rh_hash h = 0.
Proof.
  intros Hnd Hlen Hn. destruct (bo_hash _ _ (register_ok handlers Hnd) n h Hn) as [_ Hi]. destruct (rh_eventable h); [|done].
  destruct Hi as (i & Hi & Hv). exists i. split; [done|]. rewrite Hv. apply lookup_lt_Some in Hi. rewrite length_map in Hi.
  apply wrap_small. split; [lia|]. apply Z.pow_lt_mono_r; lia.
Qed.

(** With at most 32 applications that have events, under different names, the bit
    of an application is in the mask of a poll exactly when the poll names it, so a poll
    gets the events of the applications it asks for and of no other, and those of an
    application without events never.  A name that is not known changes nothing. *)
Theorem poll_masks handlers apps n h : NoDup (map rh_name handlers) -> (length (with_events handlers) <= 32)%nat ->
  rest_handlers (register_all handlers) !! n = Some h ->
  Z.land (rh_hash h) (apps_map (register_all handlers) apps) <> 0 <-> rh_eventable h = true /\ n ∈ apps.
Proof.
  intros Hnd Hlen Hn. pose proof (event_bit handlers n h Hnd Hlen Hn) as Hb. destruct (rh_eventable h) eqn:Ee.
  2: { rewrite Hb, Z.land_0_l. split; [done|]. by intros [? _]. }
  destruct Hb as (i & Hi & ->). rewrite land_bit by lia. unfold apps_map. rewrite apps_map_bit by lia. rewrite Z.bits_0. split.
  - intros [|(n' & h' & Ha & Hl & Ht)]; [done|]. split; [done|]. pose proof (event_bit handlers n' h' Hnd Hlen Hl) as Hb'.
    destruct (rh_eventable h'); [|by rewrite Hb', Z.bits_0 in Ht]. destruct Hb' as (j & Hj & Hv). rewrite Hv, Z.pow2_bits_eqb in Ht by lia.
    apply Z.eqb_eq, Nat2Z.inj in Ht. subst. rewrite Hi in Hj. by injection Hj as <-.
  - intros [_ Ha]. right. exists n, h. split; [done|]. split; [done|].
    pose proof (event_bit handlers n h Hnd Hlen Hn) as Hb'. rewrite Ee in Hb'. destruct Hb' as (j & Hj & ->).
    assert (i = j) as ->; [|by apply Z.pow2_bits_true; lia].
    eapply NoDup_lookup; [|exact Hi|exact Hj]. clear -Hnd. induction handlers as [|x handlers IH]; [constructor|].
    cbn in Hnd. apply NoDup_cons in Hnd as [Hx Hnd]. unfold with_events. cbn. destruct (rh_eventable x); [|by apply IH].
    cbn. apply NoDup_cons. split; [|by apply IH]. intros Hin. apply Hx. apply list_elem_of_In, in_map_iff in Hin as (y & Ey & Hy).
    apply filter_In in Hy as [Hy _]. rewrite <- Ey. by apply list_elem_of_In, in_map.
Qed.

Definition demo_handler (name : string) (eventable : bool) : rest_handler := RestHandler name name "none" "Service" eventable 0.
Definition demo_handlers : list rest_handler := [demo_handler "switch-manager" true; demo_handler "flow-manager" false; demo_handler "host-manager" true].

Lemma poll_masks_witness : exists h, rest_handlers (register_all demo_handlers) !! "host-manager"%string = Some h /\
  Z.land (rh_hash h) (apps_map (register_all demo_handlers) ["none"; "host-manager"]%string) <> 0 /\
  ~ Z.land (rh_hash h) (apps_map (register_all demo_handlers) ["switch-manager"]%string) <> 0.
Proof.
  assert (Hp : forall apps h, rest_handlers (register_all demo_handlers) !! "host-manager"%string = Some h ->
    Z.land (rh_hash h) (apps_map (register_all demo_handlers) apps) <> 0 <-> rh_eventable h = true /\ "host-manager"%string ∈ apps).
  { intros apps h. apply (poll_masks demo_handlers apps "host-manager"%string h); [apply (bool_decide_unpack _); vm_compute; done|cbn; lia]. }
  eexists. split; [vm_compute; reflexivity|]. split.
  - apply Hp; [vm_compute; reflexivity|]. split; [reflexivity|]. right. by left.
  - rewrite Hp by (vm_compute; reflexivity). intros [_ Hin]. apply list_elem_of_singleton in Hin. done.
Defined.

(** ** Polls by name *)

(** The hash with which the events of an object are reported: that of its application. *)
Definition object_hash (l : rest_listener) (app_of : nat -> string) (o : nat) : Z :=
  match rest_handlers l !! app_of o with Some h => rh_hash h | None => 0 end.

Lemma object_wanted handlers apps app_of o : NoDup (map rh_name handlers) -> (length (with_events handlers) <= 32)%nat ->
  wanted (object_hash (register_all handlers) app_of) (apps_map (register_all handlers) apps) o <->
  app_of o ∈ apps /\ app_of o ∈ map rh_name (with_events handlers).
Proof.
  intros Hnd Hlen. unfold wanted, object_hash. destruct (rest_handlers (register_all handlers) !! app_of o) as [h|] eqn:E.
  - rewrite (poll_masks handlers apps (app_of o) h Hnd Hlen E). pose proof (event_bit handlers (app_of o) h Hnd Hlen E) as Hb.
    destruct (bo_hash _ _ (register_ok handlers Hnd) _ h E) as [Hn _].
    destruct (rh_eventable h) eqn:Ee.
    + destruct Hb as (i & Hi & _). apply list_elem_of_lookup_2 in Hi. tauto.
    + split; [by intros [? _]|]. intros [_ Hin]. exfalso. apply list_elem_of_In, in_map_iff in Hin as (h' & En & Hin). apply filter_In in Hin as [Hin Ee'].
      enough (h' ∈ handlers -> rh_eventable h' = rh_eventable h) as Heq by (rewrite <- list_elem_of_In in Hin; rewrite Heq in Ee' by done; congruence).
      intros Hin'. destruct (registered_event handlers h' h Hnd Hin') as [? _]; congruence.
  - rewrite Z.land_0_l. split; [done|]. intros [_ Hin]. exfalso.
    assert (Hk : app_of o ∈ map rh_name handlers).
    { apply list_elem_of_In, in_map_iff in Hin as (h' & En & Hin). apply filter_In in Hin as [Hin _]. rewrite <- En. by apply list_elem_of_In, in_map. }
    apply (bo_known _ _ (register_ok handlers Hnd)) in Hk as [h Hh]. congruence.
Qed.

(** A poll as the request that is sent for it: the names, and the last id in decimal. *)
Lemma poll_request l app_of param1 w w' : world_ok (object_hash l app_of) (apps_map l (map string_of_list_ascii (split param1 "&"%char))) w ->
  last_event (w_manager w) < 2 ^ 31 ->
  act (object_hash l app_of) app_of (apps_map l (map string_of_list_ascii (split param1 "&"%char))) act_poll w = Ok w' ->
  exists shown, timeout_request l param1 (show_base 10 (w_last w)) (w_manager w) = Some (Ok (shown, w_last w')) /\
    w_client w' = client_apply_all (w_client w) shown.
Proof.
  intros Hw Hi. destruct (Hw) as [_ _ Hlast]. unfold timeout_request, act, atoi.
  destruct (show_base_ok 10 (w_last w) 10) as (-> & _); [lia|lia|lia|]. destruct (Z.ltb_spec (w_last w) (2 ^ 31)); [|lia].
  rewrite read_last_ok by lia. cbn [mbind option_bind res_bind]. destruct (timeout _ _ _) as [[last shown]|e]; [|done]. cbn. intros [= <-]. by exists shown.
Qed.


(** From the id 2^31 on the last id is sent as a negative number, and the next poll is
    no request that is served. *)
Theorem negative_last_id hash_of app_of hash_map w w' shown last : timeout hash_map (w_last w) (w_manager w) = Ok (last, shown) -> 2 ^ 31 <= last < 2 ^ 32 ->
  act hash_of app_of hash_map act_poll w = Ok w' -> w_last w' < 0 /\ act hash_of app_of hash_map act_poll w' = Throw not_routed.
Proof.
  intros Ht Hl. assert (Hneg : forall v, v < 0 -> read_last v = Throw not_routed) by (intros v Hv; unfold read_last; by destruct (Z.ltb_spec v 0); [|lia]).
  assert (Hto : to_int32 last < 0) by (unfold to_int32; destruct (Z.ltb_spec last (2 ^ 31)); lia).
  unfold act at 1. destruct (read_last (w_last w)) as [r|e] eqn:Er; [|done]. cbn [mbind res_bind].
  assert (r = w_last w) as ->.
  { unfold read_last in Er. destruct (w_last w <? 0); [done|]. destruct (w_last w <? 2 ^ 31); [|done]. by injection Er as <-. }
  rewrite Ht. cbn [res_bind]. intros [= <-]. split; [done|]. unfold act. cbn [w_last]. by rewrite (Hneg _ Hto).
Qed.

Definition demo_app_of (o : nat) : string := if bool_decide (o = 7%nat) then "flow-manager" else if bool_decide (o = 8%nat) then "host-manager" else "switch-manager".

Definition demo_names : list ascii := chars "host-manager&flow-manager".
Definition demo_hash : nat -> Z := object_hash (register_all demo_handlers) demo_app_of.
Definition demo_mask : Z := apps_map (register_all demo_handlers) (map string_of_list_ascii (split demo_names "&"%char)).
Definition demo_reports : list action := [act_report 0 Add 5; act_report 0 Add 7; act_report 0 Add 8].
Definition demo_world : world := default world_init (run demo_hash demo_app_of demo_mask demo_reports world_init).


(** One application more, and its events are not kept: its bit is 0. *)
Lemma bit_33_lost handlers h : NoDup (map rh_name (handlers ++ [h])) -> length (with_events handlers) = 32%nat -> rh_eventable h = true ->
  exists h', rest_handlers (register_all (handlers ++ [h])) !! rh_name h = Some h' /\ rh_eventable h' = true /\ rh_hash h' = 0.
Proof.
  intros Hnd Hlen He. rewrite register_snoc. unfold registerRestHandler. rewrite He. cbn [rest_handlers]. exists (set_hash (cur_hash (register_all handlers)) h).
  split; [apply lookup_insert_eq|]. split; [done|]. cbn. rewrite map_app in Hnd. apply NoDup_app in Hnd as (Hnd & _ & _).
  rewrite (bo_cur _ _ (register_ok handlers Hnd)), Hlen. reflexivity.
Qed.

(** * The parameters of a request *)

Lemma split_word delim item w rest : delim ∉ w -> split_go delim item (w ++ delim :: rest) = (item ++ w) :: split_go delim [] rest.
Proof.
  revert item. induction w as [|c w IH]; intros item Hd; cbn.
  - by rewrite bool_decide_true, app_nil_r.
  - apply not_elem_of_cons in Hd as [Hc Hd]. rewrite bool_decide_false by done. by rewrite IH, <- app_assoc.
Qed.

Lemma split_last delim item w : delim ∉ w -> item ++ w <> [] -> split_go delim item w = [item ++ w].
Proof.
  revert item. induction w as [|c w IH]; intros item Hd Hn; cbn.
  - rewrite app_nil_r in Hn |- *. by destruct item.
  - apply not_elem_of_cons in Hd as [Hc Hd]. rewrite bool_decide_false by done. rewrite IH; [by rewrite <- app_assoc|done|by rewrite <- app_assoc].
Qed.

(** A path that is routed gives its handler the words after the name, with a slash at
    the end or without. *)
Lemma params_of_path name (ps : list (list ascii)) (p : list ascii) (slash : bool) : "/"%char ∉ name -> Forall (fun w => "/"%char ∉ w) (ps ++ [p]) -> p <> [] ->
  request_params (chars "/api/" ++ name ++ "/"%char :: concat (map (fun w => w ++ ["/"%char]) ps) ++ p ++ (if slash then ["/"%char] else [])) = ps ++ [p].
Proof.
  intros Hn Hps Hp. unfold request_params, split.
  assert (Hrest : split_go "/"%char [] (concat (map (fun w => w ++ ["/"%char]) ps) ++ p ++ (if slash then ["/"%char] else [])) = ps ++ [p]).
  { induction ps as [|w ps IH]; cbn [map concat app] in *.
    - apply Forall_cons in Hps as [Hp' _]. destruct slash; [by rewrite split_word|]. rewrite app_nil_r. by rewrite split_last.
    - apply Forall_cons in Hps as [Hw Hps]. rewrite <- !app_assoc. cbn [app]. rewrite split_word by done. cbn [app]. by rewrite IH. }
  assert (Ha : "/"%char ∉ chars "api") by (intros Hin; apply (bool_decide_pack _) in Hin; vm_compute in Hin; done).
  match goal with |- drop 3 (split_go _ _ (_ ++ _ ++ "/"%char :: ?r)) = _ =>
    change (drop 3 (split_go "/"%char [] ([] ++ "/"%char :: chars "api" ++ "/"%char :: name ++ "/"%char :: r)) = ps ++ [p]) end.
  rewrite !split_word by (done || apply not_elem_of_nil). cbn [app drop]. exact Hrest.
Qed.
