(* ===== verification/SwitchStats.v ===== *)
(** * Port statistics (src/Stats.cc, src/Stats.hh)

    The application asks every switch it knows for the statistics of its ports, keeps
    the last report of each port, and answers requests from what it keeps. *)

From S2P Require Import Prelude Regex RaftWire Events Switch Flow Json Rest RestStats RestListener.
Local Open Scope Z_scope.

Section stats.
Context {double : Type}.
Abbreviation json := (json double).
(** What [of13::PortStats()] is. *)
Variable default_stats : PortStats.

Inductive stats_error := no_switch | no_number.

(** [all_switches_stats]; the ports of a switch are numbered by [int]. *)
Abbreviation sw_stats := (gmap Z (gmap Z PortStats)).

Definition port_key (port_no : Z) : Z := to_int32 (u32 port_no).

(** [newSwitch]: [insert] keeps what there is. *)
Definition newSwitch (dpid : Z) (s : sw_stats) : sw_stats := match s !! dpid with Some _ => s | None => <[dpid := ∅]> s end.

(** [portStatsArrived]: the switch must be known, the port need not. *)
Fixpoint portStatsArrived (dpid : Z) (stats : list PortStats) (s : sw_stats) : res stats_error sw_stats :=
  match stats with
  | [] => Ok s
  | i :: stats =>
      match s !! dpid with
      | None => Throw no_switch
      | Some ports => portStatsArrived dpid stats (<[dpid := <[port_key (ps_port_no i) := i]> ports]> s)
      end
  end.

(** [pollTimeout]: the switches, of those the manager lists, that are asked. *)
Definition pollTimeout (ids : list Z) (s : sw_stats) : list Z := List.filter (fun d => bool_decide (is_Some (s !! d))) ids.

(** [to_json] of the statistics of a port. *)
Definition port_packets_json (s : PortStats) : json := JObject (mk_object
  [("tx_dropped", jnum (ps_tx_dropped s)); ("rx_packets", jnum (ps_rx_packets s)); ("rx_crc_err", jnum (ps_rx_crc_err s));
   ("tx_bytes", jnum (ps_tx_bytes s)); ("rx_dropped", jnum (ps_rx_dropped s)); ("port_no", jnum (ps_port_no s));
   ("rx_over_err", jnum (ps_rx_over_err s)); ("rx_frame_err", jnum (ps_rx_frame_err s)); ("rx_bytes", jnum (ps_rx_bytes s));
   ("tx_errors", jnum (ps_tx_errors s)); ("duration_nsec", jnum (ps_duration_nsec s)); ("collisions", jnum (ps_collisions s));
   ("duration_sec", jnum (ps_duration_sec s)); ("rx_errors", jnum (ps_rx_errors s)); ("tx_packets", jnum (ps_tx_packets s))]%string).

(** [handleGET]: [operator[]] makes an entry for a switch or a port that has none; all
    ports are listed in the order of the map. *)
Definition stats_of (dpid : Z) (s : sw_stats) : gmap Z PortStats := default ∅ (s !! dpid).
Definition get_ports (dpid : Z) (port : option Z) (s : sw_stats) : sw_stats * list PortStats :=
  match port with
  | None => (<[dpid := stats_of dpid s]> s, snd <$> map_to_list (stats_of dpid s))
  | Some p =>
      let st := default default_stats (stats_of dpid s !! p) in
      (<[dpid := <[p := st]> (stats_of dpid s)]> s, [st])
  end.
Definition stats_handleGET (params : list string) (s : sw_stats) : res stats_error (sw_stats * json) :=
  match params with
  | _ :: p1 :: p2 :: _ =>
      let dpid := stoi 10 (chars p1) in
      if 2 ^ 64 <=? dpid then Throw no_number
      else
        port ← (if bool_decide (p2 = "all"%string) then Ok None else match atoi (chars p2) with Some p => Ok (Some p) | None => Throw no_number end);
        let '(s, l) := get_ports dpid port s in
        Ok (s, JObject [(string_of_list_ascii (show_base 10 dpid), JArray (map port_packets_json l))])
  | _ => Throw no_number
  end.

(** The members are those that a request to the switch itself shows. *)
Lemma port_packets_shown s : port_packets_json s = port_json s.
Proof. unfold port_packets_json, port_json. generalize (@jnum double). intros f. destruct s. reflexivity. Qed.

(** ** The last report of a port *)

Inductive stats_event := ss_new (dpid : Z) | ss_reply (dpid : Z) (stats : list PortStats) | ss_get (dpid : Z) (port : option Z).

Definition stats_step (e : stats_event) (s : sw_stats) : res stats_error sw_stats :=
  match e with
  | ss_new d => Ok (newSwitch d s)
  | ss_reply d l => portStatsArrived d l s
  | ss_get d p => Ok (get_ports d p s).1
  end.
Fixpoint stats_run (es : list stats_event) (s : sw_stats) : res stats_error sw_stats :=
  match es with [] => Ok s | e :: es => s ← stats_step e s; stats_run es s end.

(** What the events say of a port, and whether a switch is known. *)
Definition report (d p : Z) (e : stats_event) (last : option PortStats) : option PortStats :=
  match e with
  | ss_reply d' l => if d' =? d then match List.find (fun i => port_key (ps_port_no i) =? p) (rev l) with Some i => Some i | None => last end else last
  | ss_get d' (Some p') => if (d' =? d) && (p' =? p) then Some (default default_stats last) else last
  | ss_get _ None | ss_new _ => last
  end.
Fixpoint last_report (d p : Z) (es : list stats_event) (last : option PortStats) : option PortStats :=
  match es with [] => last | e :: es => last_report d p es (report d p e last) end.
Definition names (d : Z) (e : stats_event) : bool := match e with ss_new d' | ss_get d' _ => d' =? d | ss_reply _ _ => false end.

(** Replies come only from switches that are known. *)
Fixpoint in_turn (known : gset Z) (es : list stats_event) : bool :=
  match es with
  | [] => true
  | ss_new d :: es | ss_get d _ :: es => in_turn ({[d]} ∪ known) es
  | ss_reply d _ :: es => bool_decide (d ∈ known) && in_turn known es
  end.

Lemma arrived_ok d l s ports : s !! d = Some ports ->
  exists s', portStatsArrived d l s = Ok s' /\ dom s' = dom s /\
    (forall d' p, d' <> d -> stats_of d' s' !! p = stats_of d' s !! p) /\
    forall p, stats_of d s' !! p = match List.find (fun i => port_key (ps_port_no i) =? p) (rev l) with Some i => Some i | None => ports !! p end.
Proof.
  revert s ports. induction l as [|i l IH]; intros s ports Hd; cbn [portStatsArrived rev].
  { exists s. split; [done|]. split; [done|]. split; [done|]. intros p. unfold stats_of. by rewrite Hd. }
  rewrite Hd. destruct (IH (<[d := <[port_key (ps_port_no i) := i]> ports]> s) (<[port_key (ps_port_no i) := i]> ports)) as (s' & E & Hdom & Hne & Heq); [apply lookup_insert_eq|].
  exists s'. split; [done|]. split; [|split].
  - rewrite Hdom, dom_insert_L. apply elem_of_dom_2 in Hd. set_solver.
  - intros d' p Hn. rewrite Hne by done. unfold stats_of. by rewrite lookup_insert_ne.
  - intros p. rewrite Heq. assert (Hfind : forall (f : PortStats -> bool) l1 l2, List.find f (l1 ++ l2) = match List.find f l1 with Some x => Some x | None => List.find f l2 end).
    { intros f l1 l2. induction l1 as [|x l1 IHl]; cbn; [done|]. by destruct (f x). }
    rewrite Hfind. destruct (List.find _ (rev l)); [done|]. cbn. destruct (Z.eqb_spec (port_key (ps_port_no i)) p) as [->|Hp]; [apply lookup_insert_eq|by rewrite lookup_insert_ne].
Qed.

Lemma newSwitch_dom d s : dom (newSwitch d s) = {[d]} ∪ dom s.
Proof.
  unfold newSwitch. destruct (s !! d) eqn:E; [|by rewrite dom_insert_L].
  apply elem_of_dom_2 in E. set_solver.
Qed.

(** From a state on, the table has for each port the last of its reports, or what a
    request made of a port that has none; nothing throws if only switches reply that
    are known, as those are that [pollTimeout] asks. *)
Lemma stats_run_ok es s : in_turn (dom s) es = true ->
  exists s', stats_run es s = Ok s' /\ (forall d p, stats_of d s' !! p = last_report d p es (stats_of d s !! p)) /\
    forall d, d ∈ dom s' <-> d ∈ dom s \/ existsb (names d) es = true.
Proof.
  revert s. induction es as [|e es IH]; intros s Ht; cbn [stats_run last_report in_turn] in *.
  { exists s. split; [done|]. split; [done|]. intros d. cbn. naive_solver. } destruct e as [d|d l|d port].
  - cbn [stats_step mbind res_bind]. destruct (IH (newSwitch d s)) as (s' & E & Hs & Hd); [by rewrite newSwitch_dom|].
    exists s'. split; [done|]. split.
    2: { intros d'. rewrite Hd, newSwitch_dom, elem_of_union, elem_of_singleton. cbn. destruct (Z.eqb_spec d d'); naive_solver. }
    intros d' p. rewrite Hs. cbn [report]. f_equal. unfold newSwitch, stats_of. destruct (s !! d) eqn:Ed; [done|].
    destruct (decide (d' = d)) as [->|]; [by rewrite lookup_insert_eq, Ed|by rewrite lookup_insert_ne].
  - apply andb_prop in Ht as [[ports Hd]%bool_decide_eq_true%elem_of_dom Ht]. cbn [stats_step].
    destruct (arrived_ok d l s ports Hd) as (s1 & E1 & Hdom & Hne & Heq). rewrite E1. cbn [mbind res_bind].
    destruct (IH s1) as (s' & E & Hs & Hd'); [by rewrite Hdom|]. exists s'. split; [done|].
    split; [|intros d'; rewrite Hd', Hdom; done]. intros d' p. rewrite Hs. cbn [report]. f_equal.
    destruct (Z.eqb_spec d d') as [<-|]; [|by apply Hne]. rewrite Heq. unfold stats_of. by rewrite Hd.
  - cbn [stats_step mbind res_bind]. assert (Hdom : dom (get_ports d port s).1 = {[d]} ∪ dom s) by (destruct port; cbn [get_ports fst]; by rewrite dom_insert_L).
    destruct (IH (get_ports d port s).1) as (s' & E & Hs & Hd); [by rewrite Hdom|].
    exists s'. split; [done|]. split.
    2: { intros d'. rewrite Hd, Hdom, elem_of_union, elem_of_singleton. cbn. destruct (Z.eqb_spec d d'); naive_solver. }
    intros d' p. rewrite Hs. f_equal. unfold stats_of. destruct port as [q|]; cbn [get_ports fst report].
    + destruct (Z.eqb_spec d d') as [<-|]; [|by rewrite lookup_insert_ne]. rewrite lookup_insert_eq. change (default ∅ (Some ?m)) with m. destruct (Z.eqb_spec q p) as [<-|]; cbn [andb].
      * rewrite lookup_insert_eq. done.
      * by rewrite lookup_insert_ne.
    + destruct (decide (d' = d)) as [->|]; [by rewrite lookup_insert_eq|by rewrite lookup_insert_ne].
Qed.

(** As long as replies come only from switches that were announced or asked for,
    as those do that a poll asks, no reply throws, and a request for a port shows the
    last report of that port: the last one in the last reply that has the port, and the
    default of the library, which the request itself enters, if there is none. *)
Theorem port_stats_latest es d p : in_turn ∅ es = true -> exists s, stats_run es ∅ = Ok s /\
  (get_ports d (Some p) s).2 = [default default_stats (last_report d p es None)] /\
  (forall i, i ∈ (get_ports d None s).2 <-> exists q, last_report d q es None = Some i) /\
  forall ids, pollTimeout ids s = List.filter (fun d => existsb (names d) es) ids.
Proof.
  intros Ht. assert (Hdom : dom (∅ : sw_stats) = (∅ : gset Z)) by done. destruct (stats_run_ok es ∅) as (s & E & Hs & Hd); [by rewrite Hdom|].
  exists s. split; [done|]. cbn [get_ports snd]. split; [by rewrite Hs|]. split.
  - intros i. rewrite list_elem_of_fmap. split.
    + intros ([q i'] & -> & Hq%elem_of_map_to_list). exists q. cbn. rewrite <- Hq, Hs. done.
    + intros (q & Hq). exists (q, i). split; [done|]. apply elem_of_map_to_list. by rewrite Hs.
  - intros ids. unfold pollTimeout. apply List.filter_ext. intros d'. specialize (Hd d'). rewrite Hdom, elem_of_dom in Hd.
    case_bool_decide as Eb; [|destruct (existsb (names d') es); [|done]; destruct Eb; apply Hd; by right].
    apply Hd in Eb as [?%not_elem_of_empty|]; done.
Qed.
End stats.

Definition demo_stats (port n : Z) : PortStats := PortStat port n n n n 0 0 0 0 0 0 0 0 0 0.

Lemma port_stats_latest_witness : exists s,
  stats_run (demo_stats 0 0) [ss_new 1; ss_reply 1 [demo_stats 1 5; demo_stats 2 6]; ss_get 1 (Some 9); ss_reply 1 [demo_stats 1 7]] ∅ = Ok s /\
  (get_ports (demo_stats 0 0) 1 (Some 1) s).2 = [demo_stats 1 7] /\ (get_ports (demo_stats 0 0) 1 (Some 9) s).2 = [demo_stats 0 0].
Proof.
  destruct (port_stats_latest (demo_stats 0 0) [ss_new 1; ss_reply 1 [demo_stats 1 5; demo_stats 2 6]; ss_get 1 (Some 9); ss_reply 1 [demo_stats 1 7]] 1 1)
    as (s & E & Hs & _); [vm_compute; reflexivity|].
  exists s. split; [exact E|]. split; [rewrite Hs; vm_compute; reflexivity|]. vm_compute in E. injection E as <-. vm_compute. reflexivity.
Defined.
