(* ===== verification/Loader.v ===== *)
(** * Start-up (src/Loader.cc, src/Config.hh, src/Application.hh)

    The loader initialises the services of the configuration after what they depend
    on, each in one of its threads, and starts them. *)

From S2P Require Import Prelude Json JsonRoundtrip.
Local Open Scope Z_scope.

(** ** Configuration *)

Section config.
Context {double : Type} `{Doubles double}.
Abbreviation Config := (list (string * json double)).

Definition config_get_string (config : Config) (key defval : string) : string :=
  match obj_find key config with Some v => string_value v | None => defval end.
Definition config_get_int (config : Config) (key : string) (defval : Z) : Z :=
  match obj_find key config with Some v => int_value v | None => defval end.
Definition config_get_double (config : Config) (key : string) (defval : double) : double :=
  match obj_find key config with Some v => number_value v | None => defval end.
Definition config_get_bool (config : Config) (key : string) (defval : bool) : bool :=
  match obj_find key config with Some v => bool_value v | None => defval end.
Definition config_cd (config : Config) (key : string) : Config :=
  match obj_find key config with Some v => object_items v | None => [] end.

(** ** The loader *)

Inductive app_state := APP_REGISTERED | APP_INITIALIZING | APP_INITIALIZED | APP_STARTED.

#[export] Instance app_state_dec : EqDecision app_state.
Proof. solve_decision. Defined.

(** What is done in the threads of the applications, in order. *)
Inductive app_event := app_init (name : string) (thread : Z) | app_start (name : string).

(** [LOG(FATAL)], [std::out_of_range], [std::bad_alloc], an access out of an array or
    vector, an exception that leaves the [init] or [startUp] of an application, which
    nothing in its thread catches, so that the program is terminated, and what a loop
    may not reach. *)
Inductive load_error := fatal | out_of_range | bad_alloc | overrun | terminated (name : string) | too_deep.

(** [Application]: its name, the array of its dependencies, which an empty text ends, and
    its [init] and [startUp], which see what was done by the applications before. *)
Record application := App {
  provides : string;
  dependsOn : Config -> list string;
  init : Config -> list app_event -> res load_error unit;
  startUp : Config -> list app_event -> res load_error unit;
}.

Record app_info := AppInfo { ai_app : application; ai_state : app_state }.

(** [history]: the calls that have returned. *)
Record loader := Loader { apps : gmap string app_info; last_thread : Z; history : list app_event }.

Abbreviation L A := (st load_error loader A).

Definition set_app_state (name : string) (s : app_state) : L unit :=
  st_update (fun l => Loader (alter (fun i => AppInfo (ai_app i) s) name (apps l)) (last_thread l) (history l)).
Definition emit_event (e : app_event) : L unit := st_update (fun l => Loader (apps l) (last_thread l) (history l ++ [e])).
(** [initializeAppImpl] and [startAppImpl] with the result of the call. *)
Definition returns (name : string) (result : res load_error unit) (e : app_event) : L unit :=
  match result with Ok _ => emit_event e | Throw _ => st_lift (Throw (terminated name)) end.
Definition state_of (name : string) : L (option app_state) := l ← st_get; mret (ai_state <$> apps l !! name).

(** [Loader::app] *)
Definition loader_app (l : loader) (interface : string) : res load_error application :=
  match apps l !! interface with
  | None => Throw out_of_range
  | Some info => if bool_decide (ai_state info = APP_INITIALIZED) then Ok (ai_app info) else Throw out_of_range
  end.

Section init.
Variable config : Config.
(** [thread.size()] *)
Variable nthreads : Z.

(** The thread of an application. *)
Definition choose_thread (name : string) : L Z :=
  let specific_thread := config_get_int (config_cd config name) "pin-to-thread" (-1) in
  if (0 <=? specific_thread) && (specific_thread <? nthreads) then mret specific_thread
  else
    l ← st_get;
    if last_thread l <? nthreads then
      st_update (fun l => Loader (apps l) (if last_thread l + 1 =? nthreads then 0 else last_thread l + 1) (history l)) ;;
      mret (last_thread l)
    else st_lift (Throw overrun).

(** The loop over the dependencies; false if one does not exist. *)
Fixpoint init_dependencies (initialize : string -> L bool) (deps : list string) : L bool :=
  match deps with
  | [] => st_lift (Throw overrun)
  | d :: deps =>
      if bool_decide (d = EmptyString) then mret true
      else
        ok ← initialize d;
        if negb ok then mret false
        else
          s ← state_of d;
          if bool_decide (s = Some APP_INITIALIZING) then st_lift (Throw fatal) else init_dependencies initialize deps
  end.

(** [LoaderImpl::initialize]: whether it returns an application.  A level of the
    recursion takes one application that is registered. *)
Fixpoint initialize (levels : nat) (serviceId : string) : L bool :=
  match levels with
  | O => st_lift (Throw too_deep)
  | S levels =>
      l ← st_get;
      match apps l !! serviceId with
      | None => mret false
      | Some info =>
          if negb (bool_decide (ai_state info = APP_REGISTERED)) then mret true
          else
            set_app_state serviceId APP_INITIALIZING ;;
            ok ← init_dependencies (initialize levels) (dependsOn (ai_app info) config);
            if negb ok then mret false
            else
              thread ← choose_thread (provides (ai_app info)); l ← st_get;
              returns serviceId (init (ai_app info) config (history l)) (app_init serviceId thread) ;;
              set_app_state serviceId APP_INITIALIZED ;; mret true
      end
  end.

Definition init_levels (l : loader) : nat := S (size (apps l)).

Fixpoint initialize_all (services : list (json double)) : L unit :=
  match services with
  | [] => mret tt
  | s :: services => l ← st_get; initialize (init_levels l) (string_value s) ;; initialize_all services
  end.

(** The loop that starts the applications, in the order of the map. *)
Fixpoint start_all (names : list string) : L unit :=
  match names with
  | [] => mret tt
  | n :: names =>
      l ← st_get;
      match apps l !! n with
      | Some (AppInfo app APP_INITIALIZED) => returns n (startUp app config (history l)) (app_start n) ;; set_app_state n APP_STARTED
      | _ => mret tt
      end ;;
      start_all names
  end.
End init.

(** [startAll], the registration; a name that is known is fatal in a debug build. *)
Fixpoint register (debug : bool) (registry : list application) : L unit :=
  match registry with
  | [] => mret tt
  | a :: registry =>
      l ← st_get;
      (if bool_decide (is_Some (apps l !! provides a)) then (if debug then st_lift (Throw fatal) else mret tt)
       else st_update (fun l => Loader (<[provides a := AppInfo a APP_REGISTERED]> (apps l)) (last_thread l) (history l))) ;;
      register debug registry
  end.

(** The number of threads that [LoaderImpl::LoaderImpl] makes: [int] to [size_t]. *)
Definition thread_count (config : Config) : res load_error Z :=
  let n := config_get_int (config_cd config "loader") "threads" 1 in if n <? 0 then Throw bad_alloc else Ok n.

Definition new_loader : loader := Loader ∅ 0 [].

(** [Loader::startAll]; [order] is the order of the map. *)
Definition startAll (debug : bool) (registry : list application) (order : list string) (config : Config) : L unit :=
  nthreads ← st_lift (thread_count config);
  register debug registry ;;
  match obj_find "services" config with
  | None => st_lift (Throw out_of_range)
  | Some services => initialize_all config nthreads (array_items services) ;; start_all config order
  end.
End config.

(** * The order of start-up *)

Section order.
Context {double : Type} `{Doubles double} (config : list (string * json double)) (nthreads : Z).
Abbreviation L A := (st load_error (loader (double := double)) A).
Abbreviation loader := (loader (double := double)).
Abbreviation app_info := (app_info (double := double)).

(** The dependencies, up to the empty text. *)
Fixpoint until_empty (deps : list string) : list string :=
  match deps with [] => [] | d :: deps => if bool_decide (d = EmptyString) then [] else d :: until_empty deps end.
Definition deps_of (i : app_info) : list string := until_empty (dependsOn (ai_app i) config).

Definition init_names (h : list app_event) : list string := omap (fun e => match e with app_init n _ => Some n | _ => None end) h.
Definition start_names (h : list app_event) : list string := omap (fun e => match e with app_start n => Some n | _ => None end) h.

(** What the services of the configuration need. *)
Variable services : list string.
Inductive needed (l : gmap string app_info) : string -> Prop :=
| needed_service n : n ∈ services -> needed l n
| needed_dep n i d : needed l n -> l !! n = Some i -> d ∈ deps_of i -> needed l d.

Definition ready (s : app_state) : Prop := s = APP_INITIALIZED \/ s = APP_STARTED.

(** The dependencies of an application are initialised before it. *)
Definition in_order (l : loader) : Prop := forall h1 n t h2 i,
  history l = h1 ++ app_init n t :: h2 -> apps l !! n = Some i -> forall d, d ∈ deps_of i -> d ∈ init_names h1.

Record load_inv (l : loader) : Prop := {
  li_nodup : NoDup (init_names (history l));
  li_ready n : n ∈ init_names (history l) <-> exists i, apps l !! n = Some i /\ ready (ai_state i);
  li_order : in_order l;
  li_needed n : n ∈ init_names (history l) -> needed (apps l) n;
  li_last : 0 <= last_thread l /\ (0 < nthreads -> last_thread l < nthreads);
  li_thread n t : app_init n t ∈ history l -> 0 <= t < nthreads;
}.

(** Only an application that is registered changes its state. *)
Definition app_grows (i i' : app_info) : Prop :=
  ai_app i = ai_app i' /\ (ai_state i <> APP_REGISTERED -> ai_state i' = ai_state i).
Definition grows (l l' : loader) : Prop := forall n, option_Forall2 app_grows (apps l !! n) (apps l' !! n).

Lemma app_grows_refl l : grows l l.
Proof. intros n. destruct (apps l !! n); by constructor. Qed.

Lemma app_grows_trans l1 l2 l3 : grows l1 l2 -> grows l2 l3 -> grows l1 l3.
Proof.
  intros H1 H2 n. specialize (H1 n). specialize (H2 n). inversion H1 as [i1 i2 [Ea Es] E1 E2|E1 E2]; rewrite <- E2 in H2; inversion H2 as [j i3 [Ea' Es'] E3 E4|E4]; subst; constructor.
  split; [congruence|]. intros Hn. specialize (Es Hn). rewrite Es' by congruence. done.
Qed.

Definition registered (l : loader) : nat := size (filter (fun x => ai_state x.2 = APP_REGISTERED) (apps l)).

Lemma grows_registered l l' : grows l l' -> (registered l' <= registered l)%nat.
Proof.
  intros Hg. unfold registered. rewrite <- !size_dom. apply subseteq_size. intros n. rewrite !elem_of_dom.
  intros [i Hi]. apply map_lookup_filter_Some in Hi as [Hi Hs]. cbn in Hs. specialize (Hg n). rewrite Hi in Hg.
  inversion Hg as [j i' [Ea Es] E1 E2|]; subst. exists j. apply map_lookup_filter_Some. split; [done|]. cbn.
  destruct (decide (ai_state j = APP_REGISTERED)) as [|Hn]; [done|]. rewrite Es in Hs by done. done.
Qed.

(** The state of one application. *)
Definition with_state (n : string) (s : app_state) (l : loader) : loader :=
  Loader (alter (fun i => AppInfo (ai_app i) s) n (apps l)) (last_thread l) (history l).

Lemma with_state_lookup n s l m : apps (with_state n s l) !! m = if bool_decide (m = n) then (fun i => AppInfo (ai_app i) s) <$> apps l !! m else apps l !! m.
Proof. cbn. case_bool_decide as E; [subst; apply lookup_alter_eq|by apply lookup_alter_ne]. Qed.

Lemma with_state_grows n s l i : apps l !! n = Some i -> ai_state i = APP_REGISTERED -> grows l (with_state n s l).
Proof.
  intros Hi Hr m. rewrite with_state_lookup. case_bool_decide as E; [subst; rewrite Hi; by constructor; split|].
  destruct (apps l !! m); by constructor.
Qed.

Lemma with_state_registered n s l i : apps l !! n = Some i -> ai_state i = APP_REGISTERED -> s <> APP_REGISTERED ->
  (registered (with_state n s l) < registered l)%nat.
Proof.
  intros Hi Hr Hs. unfold registered. rewrite <- !size_dom. apply subset_size. split.
  - intros m. rewrite !elem_of_dom. intros [j Hj]. apply map_lookup_filter_Some in Hj as [Hj Hsj]. rewrite with_state_lookup in Hj.
    case_bool_decide as E; [|exists j; by apply map_lookup_filter_Some]. subst. rewrite Hi in Hj. cbn in Hj. injection Hj as <-. done.
  - intros Hsub. specialize (Hsub n). rewrite !elem_of_dom in Hsub. destruct Hsub as [j Hj]; [exists i; by apply map_lookup_filter_Some|].
    apply map_lookup_filter_Some in Hj as [Hj Hsj]. rewrite with_state_lookup, bool_decide_true, Hi in Hj by done. cbn in Hj. injection Hj as <-. done.
Qed.

Lemma needed_grows l l' n : grows l l' -> needed (apps l) n -> needed (apps l') n.
Proof.
  intros Hg. induction 1 as [n Hn|n i d _ IH Hi Hd]; [by apply needed_service|].
  specialize (Hg n). rewrite Hi in Hg. inversion Hg as [j i' [Ea _] E1 E2|]; subst.
  apply (needed_dep _ n i' d); [done|done|]. unfold deps_of in *. by rewrite <- Ea.
Qed.

Lemma deps_of_grows i i' : app_grows i i' -> deps_of i' = deps_of i.
Proof. intros [Ea _]. unfold deps_of. by rewrite Ea. Qed.

(** A change between states that are not ready. *)
Lemma with_state_inv n s l i : apps l !! n = Some i -> ai_state i = APP_REGISTERED -> ~ ready s -> load_inv l -> load_inv (with_state n s l).
Proof.
  intros Hi Hr Hs [Hnd Hready Hord Hneed Hlast Hthread]. split; try done.
  - intros m. cbn [history with_state]. rewrite Hready. rewrite with_state_lookup. case_bool_decide as E; [|done]. subst. rewrite Hi. cbn. split.
    + intros (j & [= <-] & Hj). rewrite Hr in Hj. by destruct Hj.
    + intros (j & [= <-] & Hj). done.
  - intros h1 m t h2 j Hh Hj d Hd. rewrite with_state_lookup in Hj. case_bool_decide as E; [|by eapply Hord]. subst. rewrite Hi in Hj. injection Hj as <-.
    by eapply (Hord h1 n t h2 i).
  - intros m Hm. eapply needed_grows; [by eapply with_state_grows|]. by apply Hneed.
Qed.

Lemma init_names_app h1 h2 : init_names (h1 ++ h2) = init_names h1 ++ init_names h2.
Proof. apply omap_app. Qed.

Lemma last_event (h h1 h2 : list app_event) e e' : h ++ [e] = h1 ++ e' :: h2 -> (h2 = [] /\ h1 = h /\ e' = e) \/ exists h2', h2 = h2' ++ [e] /\ h = h1 ++ e' :: h2'.
Proof.
  intros E. destruct h2 as [|x h2] using rev_ind.
  - left. apply app_inj_tail in E as [-> ->]. done.
  - right. clear IHh2. exists h2. rewrite app_comm_cons, app_assoc in E. apply app_inj_tail in E as [-> ->]. done.
Qed.

(** An application is initialised, its dependencies being ready. *)
Definition inited (n : string) (t last : Z) (l : loader) : loader :=
  with_state n APP_INITIALIZED (Loader (apps l) last (history l ++ [app_init n t])).

Lemma inited_inv n t last l i : apps l !! n = Some i -> ~ ready (ai_state i) -> needed (apps l) n ->
  (forall d, d ∈ deps_of i -> d ∈ init_names (history l)) -> 0 <= t < nthreads -> 0 <= last /\ (0 < nthreads -> last < nthreads) ->
  load_inv l -> load_inv (inited n t last l).
Proof.
  intros Hi Hnr Hn Hdeps Ht Hl [Hnd Hready Hord Hneed Hlast Hthread].
  assert (Hfresh : n ∉ init_names (history l)).
  { rewrite Hready. intros (j & Hj & Hr). rewrite Hi in Hj. by injection Hj as <-. }
  assert (Hnames : init_names (history (inited n t last l)) = init_names (history l) ++ [n]) by (cbn; by rewrite init_names_app).
  assert (Hlook : forall m, apps (inited n t last l) !! m = if bool_decide (m = n) then Some (AppInfo (ai_app i) APP_INITIALIZED) else apps l !! m).
  { intros m. unfold inited. rewrite with_state_lookup. cbn [apps]. case_bool_decide; [subst; by rewrite Hi|done]. }
  assert (Hgrow : forall m, needed (apps l) m -> needed (apps (inited n t last l)) m).
  { intros m. induction 1 as [m Hm|m j d _ IH Hj Hd]; [by apply needed_service|]. destruct (decide (m = n)) as [->|Hne].
    - rewrite Hi in Hj. injection Hj as <-. apply (needed_dep _ n (AppInfo (ai_app i) APP_INITIALIZED)); [done|by rewrite Hlook, bool_decide_true|done].
    - apply (needed_dep _ m j); [done|by rewrite Hlook, bool_decide_false|done]. }
  split; try done.
  - rewrite Hnames. apply NoDup_app. split; [done|]. split; [|apply NoDup_singleton]. intros m Hm ->%list_elem_of_singleton. done.
  - intros m. rewrite Hnames, elem_of_app, Hready, Hlook, list_elem_of_singleton. case_bool_decide as E.
    + subst. split; [|by right]. intros _. eexists. split; [reflexivity|]. by left.
    + naive_solver.
  - intros h1 m t' h2 j Hh Hj d Hd. cbn in Hh. apply last_event in Hh as [(-> & -> & [= -> ->])|(h2' & -> & Hh)].
    + rewrite Hlook, bool_decide_true in Hj by done. injection Hj as <-. by apply Hdeps.
    + rewrite Hlook in Hj. case_bool_decide as E; [|by eapply Hord]. subst. injection Hj as <-. by eapply (Hord h1 n t' h2' i).
  - intros m. rewrite Hnames, elem_of_app, list_elem_of_singleton. intros [Hm| ->]; apply Hgrow; [by apply Hneed|done].
  - intros m t' Hm. cbn in Hm. apply elem_of_app in Hm as [Hm|[= -> ->]%list_elem_of_singleton]; [by eapply Hthread|done].
Qed.

(** The thread of the next application. *)
Definition with_last (last : Z) (l : loader) : loader := Loader (apps l) last (history l).

Lemma with_last_inv last l : 0 <= last /\ (0 < nthreads -> last < nthreads) -> load_inv l -> load_inv (with_last last l).
Proof. intros Hl [Hnd Hready Hord Hneed _ Hthread]. by split. Qed.

Definition outcome (levels : nat) (l : loader) (r : loader * res load_error bool) (Q : loader -> Prop) : Prop :=
  load_inv r.1 /\ grows l r.1 /\ ((registered l < levels)%nat -> r.2 <> Throw too_deep) /\ (r.2 = Ok true -> Q r.1).

Definition known (n : string) (l : loader) : Prop := exists i, apps l !! n = Some i /\ ai_state i <> APP_REGISTERED.

Lemma ready_grows l l' n i : grows l l' -> apps l !! n = Some i -> ai_state i <> APP_REGISTERED ->
  exists i', apps l' !! n = Some i' /\ ai_state i' = ai_state i /\ deps_of i' = deps_of i.
Proof.
  intros Hg Hi Hs. specialize (Hg n). rewrite Hi in Hg. inversion Hg as [j i' Ha E1 E2|]; subst. exists i'. split; [done|].
  split; [by apply Ha|by apply deps_of_grows].
Qed.

Lemma init_dependencies_spec levels (f : string -> L bool) deps l :
  (forall d l, load_inv l -> needed (apps l) d -> outcome levels l (f d l) (known d)) ->
  load_inv l -> (forall d, d ∈ until_empty deps -> needed (apps l) d) ->
  outcome levels l (init_dependencies f deps l) (fun l' => forall d, d ∈ until_empty deps -> exists i, apps l' !! d = Some i /\ ready (ai_state i)).
Proof.
  intros Hf. revert l. induction deps as [|d deps IH]; intros l Hl Hd; cbn [init_dependencies until_empty] in *.
  { split; [done|]. split; [apply app_grows_refl|]. by split. }
  case_bool_decide as Ed.
  { split; [done|]. split; [apply app_grows_refl|]. split; [done|]. by intros _ d' ?%elem_of_nil. }
  destruct (Hf d l Hl) as (Hi1 & Hg1 & Hdeep1 & Hok1); [apply Hd; by left|].
  unfold mbind at 1, st_bind at 1. destruct (f d l) as [l1 [[]|e]]; cbn [fst snd negb] in *; cycle 1.
  { split; [done|]. split; [done|]. by split. }
  { split; [done|]. split; [done|]. split; [|done]. intros Hr E. by apply Hdeep1. }
  destruct (Hok1 eq_refl) as (i & Hi & Hs). unfold mbind at 1, st_bind at 1. unfold state_of at 1. unfold mbind at 1, st_bind at 1. cbn [st_get mret st_ret].
  rewrite Hi. cbn [fmap option_fmap option_map]. case_bool_decide as Ei.
  { split; [done|]. split; [done|]. by split. }
  destruct (IH l1 Hi1) as (Hi2 & Hg2 & Hdeep2 & Hok2); [intros d' Hd'; eapply needed_grows; [done|]; apply Hd; by right|].
  split; [done|]. split; [by eapply app_grows_trans|]. split.
  - intros Hr. apply Hdeep2. pose proof (grows_registered _ _ Hg1). lia.
  - intros Hr d' [->|Hd']%elem_of_cons; [|by apply Hok2]. destruct (ready_grows _ _ _ _ Hg2 Hi Hs) as (i' & Hi' & Es & _). exists i'. split; [done|].
    rewrite Es. destruct (ai_state i); [done|done|by left|by right].
Qed.

Lemma choose_thread_spec name l : load_inv l ->
  (exists last t, choose_thread config nthreads name l = (with_last last l, Ok t) /\ 0 <= t < nthreads /\ 0 <= last /\ (0 < nthreads -> last < nthreads))
  \/ (choose_thread config nthreads name l = (l, Throw overrun) /\ nthreads <= 0).
Proof.
  intros [_ _ _ _ [Hl1 Hl2] _]. unfold choose_thread. destruct (_ && _) eqn:Es.
  - apply andb_prop in Es as [?%Z.leb_le ?%Z.ltb_lt]. left. destruct l as [a la h]. unfold with_last. exists la. eexists. split; [reflexivity|]. cbn in *. lia.
  - unfold mbind, st_bind. cbn [st_get]. destruct (Z.ltb_spec (last_thread l) nthreads); [|right; split; [done|lia]].
    left. eexists _, _. split; [reflexivity|]. destruct (Z.eqb_spec (last_thread l + 1) nthreads); lia.
Qed.

Lemma initialize_spec levels : forall n l, load_inv l -> needed (apps l) n -> outcome levels l (initialize config nthreads levels n l) (known n).
Proof.
  induction levels as [|levels IH]; intros n l Hl Hn; cbn [initialize].
  { split; [done|]. split; [apply app_grows_refl|]. split; [lia|done]. }
  unfold mbind at 1, st_bind at 1. cbn [st_get]. destruct (apps l !! n) as [i|] eqn:Hi.
  2: { split; [done|]. split; [apply app_grows_refl|]. by split. }
  case_bool_decide as Hs; cbn [negb].
  2: { split; [done|]. split; [apply app_grows_refl|]. split; [done|]. intros _. by exists i. }
  set (l1 := with_state n APP_INITIALIZING l).
  assert (Hinv1 : load_inv l1) by (eapply with_state_inv; [done|done|by intros [|]|done]).
  assert (Hg1 : grows l l1) by (by eapply with_state_grows).
  assert (Hi1 : apps l1 !! n = Some (AppInfo (ai_app i) APP_INITIALIZING)) by (unfold l1; rewrite with_state_lookup, bool_decide_true, Hi by done; done).
  pose proof (with_state_registered n APP_INITIALIZING l i Hi Hs ltac:(done)) as Hr1. fold l1 in Hr1.
  change ((set_app_state n APP_INITIALIZING ;; ?k) l) with (k l1). cbv beta.
  destruct (init_dependencies_spec levels (initialize config nthreads levels) (dependsOn (ai_app i) config) l1) as (Hi2 & Hg2 & Hdeep & Hok); [exact IH|done| |].
  { intros d Hd. apply (needed_dep _ n _ d (needed_grows _ _ _ Hg1 Hn) Hi1). exact Hd. }
  unfold mbind at 1, st_bind at 1. destruct (init_dependencies _ _ l1) as [l2 [[]|e]]; cbn [fst snd negb] in *; cycle 1.
  { split; [done|]. split; [by eapply app_grows_trans|]. by split. }
  { split; [done|]. split; [by eapply app_grows_trans|]. split; [|done]. intros Hr. apply Hdeep. lia. }
  specialize (Hok eq_refl). destruct (ready_grows _ _ _ _ Hg2 Hi1 ltac:(done)) as (i2 & Hi2' & Es & Ed).
  pose proof (app_grows_trans _ _ _ Hg1 Hg2) as Hg.
  unfold mbind at 1, st_bind at 1. destruct (choose_thread_spec (provides (ai_app i)) l2 Hi2) as [(last & t & E & Ht & Hlast)|[E _]]; rewrite E; cbn [fst snd].
  2: { split; [done|]. split; [done|]. by split. }
  pose proof (with_last_inv last l2 Hlast Hi2) as Hi3. unfold mbind at 1, st_bind at 1. cbn [st_get history with_last].
  destruct (init (ai_app i) config (history l2)) as [u|e]; cbn [returns].
  2: { split; [exact Hi3|]. split; [exact Hg|]. by split. }
  change ((emit_event _ ;; _) _) with (inited n t last l2, Ok true : res load_error bool).
  split; cbn [fst snd].
  - apply (inited_inv n t last l2 i2); try done.
    + rewrite Es. by intros [|].
    + by eapply needed_grows.
    + intros d Hd. apply (li_ready _ Hi2). apply Hok. by rewrite Ed in Hd.
  - assert (Hlook : forall m, apps (inited n t last l2) !! m = if bool_decide (m = n) then Some (AppInfo (ai_app i2) APP_INITIALIZED) else apps l2 !! m).
    { intros m. unfold inited. rewrite with_state_lookup. cbn [apps]. case_bool_decide; [subst; by rewrite Hi2'|done]. }
    split; [|split; [done|intros _; eexists; by rewrite Hlook, bool_decide_true]].
    intros m. rewrite Hlook. case_bool_decide as E'; [|apply Hg]. subst. rewrite Hi. constructor. split; [|done].
    specialize (Hg n). rewrite Hi, Hi2' in Hg. inversion Hg as [? ? [Ea _]|]; subst. exact Ea.
Qed.

(** ** Dependencies that are there and not cyclic *)

Section sound.
Variable rank : string -> nat.
Definition sound_deps (l : loader) : Prop := forall n i, needed (apps l) n -> apps l !! n = Some i ->
  EmptyString ∈ dependsOn (ai_app i) config /\ forall d, d ∈ deps_of i -> is_Some (apps l !! d) /\ (rank d < rank n)%nat.

Lemma needed_grown l l' n : grows l l' -> needed (apps l') n -> needed (apps l) n.
Proof.
  intros Hg. induction 1 as [n Hn|n i d _ IH Hi Hd]; [by apply needed_service|].
  specialize (Hg n). rewrite Hi in Hg. inversion Hg as [j i' [Ea _] E1 E2|]; subst.
  apply (needed_dep _ n j d); [done|done|]. unfold deps_of in *. by rewrite Ea.
Qed.

Lemma sound_deps_grows l l' : grows l l' -> sound_deps l -> sound_deps l'.
Proof.
  intros Hg Hs n i Hn Hi. pose proof (Hg n) as Hgn. rewrite Hi in Hgn. inversion Hgn as [j i' Ha E1 E2|]; subst.
  destruct (Hs n j (needed_grown _ _ _ Hg Hn)) as [He Hd]; [done|]. rewrite (deps_of_grows _ _ Ha). destruct Ha as [<- _]. split; [done|].
  intros d Hin. destruct (Hd d Hin) as [[k Hk] Hr]. split; [|done]. specialize (Hg d). rewrite Hk in Hg. inversion Hg; subst; eauto.
Qed.

Definition starting (m : string) (l : loader) : Prop := exists i, apps l !! m = Some i /\ ai_state i = APP_INITIALIZING.

(** The [init] of a needed application threw, everything it depends on being initialised. *)
Definition stopped {A} (r : loader * res load_error A) : Prop := exists m i e, r.2 = Throw (terminated m) /\ needed (apps r.1) m /\
  apps r.1 !! m = Some i /\ init (ai_app i) config (history r.1) = Throw e /\ forall d, d ∈ deps_of i -> d ∈ init_names (history r.1).

Definition or_stopped {A} (Q : loader * res load_error A -> Prop) (r : loader * res load_error A) : Prop := Q r \/ stopped r.

Definition succeeds (n : string) (l : loader) (r : loader * res load_error bool) : Prop :=
  r.2 = Ok true /\ (exists i, apps r.1 !! n = Some i /\ ready (ai_state i)) /\ forall m, starting m r.1 <-> starting m l.

Lemma init_dependencies_ok levels n deps l :
  (forall d l, load_inv l -> sound_deps l -> needed (apps l) d -> is_Some (apps l !! d) -> (registered l < levels)%nat ->
    (forall m, starting m l -> (rank d < rank m)%nat) ->
    or_stopped (succeeds d l) (initialize config nthreads levels d l)) ->
  load_inv l -> sound_deps l -> (registered l < levels)%nat -> EmptyString ∈ deps ->
  (forall d, d ∈ until_empty deps -> needed (apps l) d /\ is_Some (apps l !! d) /\ (rank d < rank n)%nat) ->
  (forall m, starting m l -> (rank n <= rank m)%nat) ->
  or_stopped (fun r => r.2 = Ok true /\ forall m, starting m r.1 <-> starting m l) (init_dependencies (initialize config nthreads levels) deps l).
Proof.
  intros Hf. revert l. induction deps as [|d deps IH]; intros l Hl Hs Hr He Hd Hm; [by apply elem_of_nil in He|].
  cbn [init_dependencies until_empty] in *. case_bool_decide as Ed; [by left; split|].
  destruct (Hd d) as (Hnd & Hsd & Hrd); [by left|].
  destruct (Hf d l Hl Hs Hnd Hsd Hr) as [(Eok & (i & Hi & Hready) & Hst)|Hstop]; [intros m Hm'; specialize (Hm m Hm'); lia| |].
  2: { right. unfold mbind at 1, st_bind at 1. destruct (initialize config nthreads levels d l) as [l1 r1] eqn:E. destruct (Hstop) as (? & ? & ? & Er & _).
       cbn in Er. by subst r1. }
  destruct (initialize_spec levels d l Hl Hnd) as (Hl1 & Hg & _ & _).
  destruct (initialize config nthreads levels d l) as [l1 r1] eqn:E. cbn [fst snd] in *. subst r1.
  assert (Hni : ai_state i <> APP_INITIALIZING) by (destruct Hready as [-> | ->]; done).
  match goal with |- or_stopped _ ?r => assert (Estep : r = init_dependencies (initialize config nthreads levels) deps l1) end.
  { unfold mbind at 1, st_bind at 1. rewrite E. cbn [negb]. unfold state_of. unfold mbind at 1, st_bind at 1. unfold mbind at 1, st_bind at 1.
    cbn [st_get mret st_ret]. rewrite Hi. cbn [fmap option_fmap option_map]. by rewrite bool_decide_false by congruence. }
  rewrite Estep.
  destruct (IH l1) as [[Eok2 Hst2]|]; [done|by eapply sound_deps_grows|pose proof (grows_registered _ _ Hg); lia| | | | |by right].
  - apply elem_of_cons in He as [He|He]; [congruence|done].
  - intros d' Hd'. destruct (Hd d') as (Hn' & [k Hk] & Hr'); [by right|]. split; [by eapply needed_grows|]. split; [|done].
    specialize (Hg d'). rewrite Hk in Hg. inversion Hg; subst; eauto.
  - intros m Hm'. apply Hm. by apply Hst.
  - left. split; [done|]. intros m. by rewrite Hst2, Hst.
Qed.

Lemma initialize_ok levels : 0 < nthreads -> forall n l, load_inv l -> sound_deps l -> needed (apps l) n -> is_Some (apps l !! n) ->
  (registered l < levels)%nat -> (forall m, starting m l -> (rank n < rank m)%nat) ->
  or_stopped (succeeds n l) (initialize config nthreads levels n l).
Proof.
  intros Hthreads. induction levels as [|levels IH]; intros n l Hl Hs Hn [i Hi] Hr Hm; [lia|].
  destruct (initialize_spec (S levels) n l Hl Hn) as (Hinv & Hg & _ & _).
  cbn [initialize] in *. unfold mbind at 1, st_bind at 1 in Hinv. unfold mbind at 1, st_bind at 1 in Hg. unfold mbind at 1, st_bind at 1.
  cbn [st_get] in *. rewrite Hi in *.
  case_bool_decide as Hreg; cbn [negb] in *.
  2: { left. split; [done|]. split; [|done]. exists i. split; [done|]. unfold ready. destruct (ai_state i) eqn:E; [done| |by left|by right].
       exfalso. assert (starting n l) as Hst by (by exists i). specialize (Hm n Hst). lia. }
  set (l1 := with_state n APP_INITIALIZING l) in *.
  assert (Hinv1 : load_inv l1) by (eapply with_state_inv; [done|done|by intros [|]|done]).
  assert (Hg1 : grows l l1) by (by eapply with_state_grows).
  assert (Hi1 : apps l1 !! n = Some (AppInfo (ai_app i) APP_INITIALIZING)) by (unfold l1; rewrite with_state_lookup, bool_decide_true, Hi by done; done).
  assert (Hst1 : forall m, starting m l1 <-> m = n \/ starting m l).
  { intros m. unfold starting. unfold l1. setoid_rewrite with_state_lookup. case_bool_decide as E; [subst; rewrite Hi; naive_solver|naive_solver]. }
  pose proof (with_state_registered n APP_INITIALIZING l i Hi Hreg ltac:(done)) as Hr1. fold l1 in Hr1.
  pose proof (sound_deps_grows _ _ Hg1 Hs) as Hs1. pose proof (needed_grows _ _ _ Hg1 Hn) as Hn1.
  destruct (Hs1 n _ Hn1 Hi1) as [Hend Hdeps]. cbn [ai_app] in Hend.
  change ((set_app_state n APP_INITIALIZING ;; ?k) l) with (k l1) in *. cbv beta in *.
  destruct (init_dependencies_ok levels n (dependsOn (ai_app i) config) l1) as [[Eok Hst]|Hstop]; [intros; by apply IH|done|done|lia|done| | | |].
  { intros d Hd. split; [by apply (needed_dep _ n _ d Hn1 Hi1)|]. by apply Hdeps. }
  { intros m [->|Hm']%Hst1; [lia|]. specialize (Hm m Hm'). lia. }
  2: { right. unfold mbind at 1, st_bind at 1. destruct (init_dependencies _ _ l1) as [l2 r2]. destruct (Hstop) as (? & ? & ? & Er & _). cbn in Er. by subst r2. }
  destruct (init_dependencies_spec levels (initialize config nthreads levels) (dependsOn (ai_app i) config) l1) as (Hi2 & Hg2 & _ & Hready2);
    [intros; by apply initialize_spec|done|intros d Hd; by apply (needed_dep _ n _ d Hn1 Hi1)|].
  destruct (init_dependencies _ _ l1) as [l2 r2] eqn:E2. cbn [fst snd] in *. subst r2.
  destruct (ready_grows _ _ _ _ Hg2 Hi1 ltac:(done)) as (i2 & Hi2' & Es & Ed2). specialize (Hready2 eq_refl).
  match goal with |- or_stopped _ ?r => assert (Er : or_stopped (fun r1 => exists last t, r1 = (inited n t last l2, Ok true)) r) end.
  { unfold mbind at 1, st_bind at 1. rewrite E2. cbn [negb]. unfold mbind at 1, st_bind at 1.
    destruct (choose_thread_spec (provides (ai_app i)) l2 Hi2) as [(last & t & E & _ & Hlast)|[_ ?]]; [|lia]. rewrite E.
    unfold mbind at 1, st_bind at 1. cbn [st_get history with_last]. destruct (init (ai_app i) config (history l2)) as [u|e] eqn:Einit; [left; by exists last, t|].
    right. exists n, i2, e. pose proof (Hg2 n) as Hg2n. rewrite Hi1, Hi2' in Hg2n. inversion Hg2n as [? ? [Ea _] E3 E4|]; subst. cbn in Ea. rewrite <- Ea.
    split; [done|]. split; [by eapply needed_grows|]. split; [done|]. split; [done|]. cbn. intros d Hd. apply (li_ready _ Hi2), Hready2. by rewrite Ed2 in Hd. }
  destruct Er as [Er|]; [left|by right].
  destruct Er as (last & t & ->). split; [done|]. cbn [fst].
  assert (Hlook : forall m, apps (inited n t last l2) !! m = if bool_decide (m = n) then Some (AppInfo (ai_app i2) APP_INITIALIZED) else apps l2 !! m).
  { intros m. unfold inited. rewrite with_state_lookup. cbn [apps]. case_bool_decide; [subst; by rewrite Hi2'|done]. }
  split; [eexists; rewrite Hlook, bool_decide_true by done; split; [done|by left]|].
  assert (Hnot : ~ starting n l) by (intros (j & Hj & Hsj); rewrite Hi in Hj; injection Hj as <-; congruence).
  intros m. unfold starting at 1. setoid_rewrite Hlook. case_bool_decide as E.
  - subst. split; [intros (j & [= <-] & ?); done|done].
  - change (starting m l2 <-> starting m l). rewrite Hst, Hst1. naive_solver.
Qed.

(** ** The services, one after the other *)

Lemma init_levels_enough l : (registered l < init_levels l)%nat.
Proof.
  unfold registered, init_levels. apply Nat.lt_succ_r. rewrite <- !size_dom. apply subseteq_size. intros n. rewrite !elem_of_dom.
  intros [i Hi]. apply map_lookup_filter_Some in Hi as [Hi _]. by exists i.
Qed.

(** One service is initialised. *)
Lemma initialize_all_step j ss l : initialize_all config nthreads (j :: ss) l =
  match initialize config nthreads (init_levels l) (string_value j) l with
  | (l1, Ok _) => initialize_all config nthreads ss l1
  | (l1, Throw e) => (l1, Throw e)
  end.
Proof. cbn [initialize_all]. unfold mbind, st_bind. cbn [st_get]. by destruct (initialize _ _ _ _ l) as [l1 [b|e]]. Qed.

Lemma initialize_all_spec ss l : load_inv l -> (forall j, j ∈ ss -> string_value j ∈ services) ->
  let r := initialize_all config nthreads ss l in load_inv r.1 /\ grows l r.1 /\ r.2 <> Throw too_deep.
Proof.
  cbv zeta. revert l. induction ss as [|j ss IH]; intros l Hl Hss; [split; [done|]; split; [apply app_grows_refl|done]|].
  rewrite initialize_all_step.
  destruct (initialize_spec (init_levels l) (string_value j) l Hl) as (Hl1 & Hg1 & Hd & _); [apply needed_service, Hss; by left|].
  specialize (Hd (init_levels_enough l)). destruct (initialize _ _ _ _ l) as [l1 [b|e]]; cbn [fst snd] in *.
  2: { split; [done|]. split; [done|congruence]. }
  destruct (IH l1 Hl1) as (Hl2 & Hg2 & Hd2); [intros; apply Hss; by right|]. split; [done|]. split; [by eapply app_grows_trans|done].
Qed.

Lemma initialize_all_ok ss l : 0 < nthreads -> load_inv l -> sound_deps l -> (forall m, ~ starting m l) ->
  (forall j, j ∈ ss -> string_value j ∈ services /\ is_Some (apps l !! string_value j)) ->
  or_stopped (fun r => r.2 = Ok tt /\ (forall m, ~ starting m r.1) /\ forall j, j ∈ ss -> string_value j ∈ init_names (history r.1))
    (initialize_all config nthreads ss l).
Proof.
  intros Hthreads. revert l. induction ss as [|j ss IH]; intros l Hl Hs Hst Hss.
  { left. split; [done|]. split; [done|]. by intros j ?%elem_of_nil. }
  destruct (Hss j) as [Hj Hsome]; [by left|]. pose proof (needed_service (apps l) _ Hj) as Hn.
  destruct (initialize_ok (init_levels l) Hthreads (string_value j) l Hl Hs Hn Hsome (init_levels_enough l))
    as [(Eok & (i & Hi & Hready) & Hst1)|Hstop]; [by intros m ?%Hst| |].
  2: { right. rewrite initialize_all_step. destruct (initialize _ _ _ _ l) as [l1 r1]. destruct Hstop as (m & i & e & Er & Hm). cbn in Er. subst r1. exists m, i, e. by split. }
  destruct (initialize_spec (init_levels l) (string_value j) l Hl Hn) as (Hl1 & Hg1 & _ & _).
  rewrite initialize_all_step. destruct (initialize _ _ _ _ l) as [l1 r1]. cbn [fst snd] in *. subst r1.
  destruct (IH l1 Hl1) as [(Eok2 & Hst2 & Hin)|]; [by eapply sound_deps_grows|by intros m ?%Hst1%Hst| | |by right].
  { intros k Hk. destruct (Hss k) as [Hks [x Hx]]; [by right|]. split; [done|]. specialize (Hg1 (string_value k)). rewrite Hx in Hg1. inversion Hg1; subst; eauto. }
  destruct (initialize_all_spec ss l1 Hl1) as (Hl2 & Hg2 & _); [intros k Hk; apply Hss; by right|].
  left. split; [done|]. split; [done|]. intros k [->|Hk]%elem_of_cons; [|by apply Hin].
  apply (li_ready _ Hl2). destruct (ready_grows _ _ _ _ Hg2 Hi) as (i' & Hi' & Es & _); [by destruct Hready as [-> | ->]|]. exists i'. by rewrite Es.
Qed.

End sound.

(** ** The starts *)

Definition initialized (l : loader) (n : string) : Prop := ai_state <$> apps l !! n = Some APP_INITIALIZED.
Definition start_one (l : loader) (n : string) : loader :=
  if bool_decide (ai_state <$> apps l !! n = Some APP_INITIALIZED)
  then with_state n APP_STARTED (Loader (apps l) (last_thread l) (history l ++ [app_start n])) else l.

(** All are started, or a [startUp] throws after those before it were. *)
Lemma start_all_fold names l : match start_all config names l with
  | (l', Ok _) => l' = foldl start_one l names
  | (l', Throw e) => exists names1 n names2 i e', names = names1 ++ n :: names2 /\ l' = foldl start_one l names1 /\ e = terminated n /\
      apps l' !! n = Some i /\ ai_state i = APP_INITIALIZED /\ startUp (ai_app i) config (history l') = Throw e'
  end.
Proof.
  revert l. induction names as [|n names IH]; intros l; [done|].
  assert (Hone : (start_all config (n :: names) l = start_all config names (start_one l n)) \/
    exists i e, apps l !! n = Some i /\ ai_state i = APP_INITIALIZED /\ startUp (ai_app i) config (history l) = Throw e /\
      start_all config (n :: names) l = (l, Throw (terminated n))).
  { cbn [start_all]. unfold start_one, mbind, st_bind. cbn [st_get]. destruct (apps l !! n) as [[app []]|]; try by left.
    destruct (startUp app config (history l)) as [u|e] eqn:E; [left; done|right; by exists (AppInfo app APP_INITIALIZED), e]. }
  destruct Hone as [->|(i & e & Hi & Hs & He & ->)]; [|by exists [], n, names, i, e].
  specialize (IH (start_one l n)). destruct (start_all config names _) as [l' [u|e]]; [done|].
  destruct IH as (names1 & n1 & names2 & i & e' & -> & -> & -> & Hi & Hs & He). by exists (n :: names1), n1, names2, i, e'.
Qed.

Lemma with_state_ready n s l : initialized l n -> ready s -> load_inv l -> load_inv (with_state n s (Loader (apps l) (last_thread l) (history l ++ [app_start n]))).
Proof.
  intros Hn Hs [Hnd Hready Hord Hneed Hlast Hthread]. unfold initialized in Hn. apply fmap_Some in Hn as (i & Hi & Hsi).
  set (l' := with_state n s _).
  assert (Hnames : init_names (history l') = init_names (history l)) by (unfold l'; cbn; rewrite init_names_app; apply app_nil_r).
  assert (Hlook : forall m, apps l' !! m = if bool_decide (m = n) then Some (AppInfo (ai_app i) s) else apps l !! m).
  { intros m. unfold l'. rewrite with_state_lookup. cbn [apps]. case_bool_decide; [subst; by rewrite Hi|done]. }
  assert (Hgrow : forall m, needed (apps l) m -> needed (apps l') m).
  { intros m. induction 1 as [m Hm|m j d _ IH Hj Hd]; [by apply needed_service|]. destruct (decide (m = n)) as [->|Hne].
    - rewrite Hi in Hj. injection Hj as <-. apply (needed_dep _ n (AppInfo (ai_app i) s)); [done|by rewrite Hlook, bool_decide_true|done].
    - apply (needed_dep _ m j); [done|by rewrite Hlook, bool_decide_false|done]. }
  split; rewrite ?Hnames; try done.
  - intros m. rewrite Hready, Hlook. case_bool_decide as E; [|done]. subst. split; intros _; eexists; split; try done. by left.
  - intros h1 m t h2 j Hh Hj d Hd. cbn in Hh. apply last_event in Hh as [(-> & -> & [=])|(h2' & -> & Hh)].
    rewrite Hlook in Hj. case_bool_decide as E; [|by eapply Hord]. subst. injection Hj as <-. by eapply (Hord h1 n t h2' i).
  - intros m Hm. apply Hgrow. by apply Hneed.
  - intros m t Hm. cbn in Hm. apply elem_of_app in Hm as [Hm|Hm%list_elem_of_singleton]; [by eapply Hthread|done].
Qed.

Lemma start_all_spec names l : load_inv l -> exists ns,
  load_inv (foldl start_one l names) /\ history (foldl start_one l names) = history l ++ map app_start ns /\ NoDup ns /\
  (forall n, n ∈ ns <-> n ∈ names /\ initialized l n) /\ (forall n, initialized (foldl start_one l names) n <-> initialized l n /\ n ∉ ns).
Proof.
  revert l. induction names as [|n names IH]; intros l Hl; cbn [foldl].
  { exists []. rewrite app_nil_r. split; [done|]. split; [done|]. split; [constructor|]. split; intros n; set_solver. }
  assert (Estep : start_one l n = if bool_decide (initialized l n) then with_state n APP_STARTED (Loader (apps l) (last_thread l) (history l ++ [app_start n])) else l) by done.
  rewrite Estep. clear Estep. case_bool_decide as E.
  - destruct (IH _ (with_state_ready n APP_STARTED l E ltac:(by right) Hl)) as (ns & Hinv & Hh & Hnd & Hns & Hini).
    set (l1 := with_state n APP_STARTED _) in *.
    assert (Hl1 : forall m, initialized l1 m <-> initialized l m /\ m <> n).
    { intros m. unfold initialized at 1, l1. rewrite with_state_lookup. cbn [apps]. case_bool_decide as Em; [|unfold initialized; naive_solver].
      subst. split; [|by intros [_ ?]]. by destruct (apps l !! n). }
    exists (n :: ns). split; [done|]. split.
    { rewrite Hh. unfold l1. cbn [history with_state map]. by rewrite <- app_assoc. }
    split; [constructor; [|done]; rewrite Hns, Hl1; intros (_ & _ & ?); done|]. split; intros m.
    + rewrite !elem_of_cons, Hns, Hl1. split; [by intros [->|(? & ? & ?)]; auto|]. intros [[->|Hm] Hi]; [by left|]. destruct (decide (m = n)); auto.
    + rewrite elem_of_cons, Hini, Hl1. tauto.
  - destruct (IH l Hl) as (ns & Hinv & Hh & Hnd & Hns & Hini). exists ns. repeat split_and; try done.
    intros m. rewrite Hns, elem_of_cons. split; [by intros [? ?]; auto|]. intros [[->|] ?]; [by destruct E|done].
Qed.
End order.

(** ** A whole start-up *)

Section startup.
Context {double : Type} `{Doubles double}.
Abbreviation L A := (st load_error (loader (double := double)) A).
Abbreviation loader := (loader (double := double)).
Abbreviation Config := (list (string * json double)).

(** Nothing is started yet. *)
Definition quiet (l : loader) : Prop := start_names (history l) = [] /\ forall n i, apps l !! n = Some i -> ai_state i <> APP_STARTED.

Lemma keeps_bind {A B} (P : loader -> Prop) (m : L A) (k : A -> L B) :
  (forall l, P l -> P (m l).1) -> (forall a l, P l -> P (k a l).1) -> forall l, P l -> P ((a ← m; k a) l).1.
Proof. intros Hm Hk l Hl. specialize (Hm l Hl). unfold mbind, st_bind. destruct (m l) as [l1 [a|e]]; [by apply Hk|done]. Qed.

Lemma set_state_quiet n s l : s <> APP_STARTED -> quiet l -> quiet (set_app_state n s l).1.
Proof.
  intros Hs [Hh Hq]. split; [done|]. intros m i. cbn. destruct (decide (m = n)) as [->|].
  - rewrite lookup_alter_eq. by intros (j & _ & ->)%fmap_Some.
  - rewrite lookup_alter_ne by done. apply Hq.
Qed.

Lemma initialize_quiet config nthreads levels : forall n l, quiet l -> quiet (initialize config nthreads levels n l).1.
Proof.
  induction levels as [|levels IH]; intros n; [done|]. cbn [initialize]. apply keeps_bind; [done|]. intros l0.
  destruct (apps l0 !! n) as [info|]; [|done]. destruct (negb _); [done|].
  apply keeps_bind; [intros; by apply set_state_quiet|]. intros _. apply keeps_bind.
  - generalize (dependsOn (ai_app info) config). intros deps. induction deps as [|d deps IHd]; [done|]. cbn [init_dependencies].
    case_bool_decide; [done|]. apply keeps_bind; [apply IH|]. intros [|]; cbn [negb]; [|done]. apply keeps_bind; [done|].
    intros s. case_bool_decide; [done|apply IHd].
  - intros [|]; cbn [negb]; [|done]. apply keeps_bind.
    + unfold choose_thread. destruct (_ && _); [done|]. apply keeps_bind; [done|]. intros l1. destruct (_ <? _); [|done]. by apply keeps_bind.
    + intros t. apply keeps_bind; [done|]. intros l1. apply keeps_bind; [|intros _; apply keeps_bind; [intros; by apply set_state_quiet|done]].
      destruct (init _ _ _); [|done]. intros l2 [Hh Hq]. split; [|done]. cbn. unfold start_names in *. by rewrite omap_app, Hh.
Qed.

Lemma initialize_all_quiet config nthreads ss : forall l, quiet l -> quiet (initialize_all config nthreads ss l).1.
Proof.
  induction ss as [|j ss IH]; [done|]. cbn [initialize_all]. apply keeps_bind; [done|]. intros l0.
  apply keeps_bind; [apply initialize_quiet|]. intros _. apply IH.
Qed.

(** What the registration leaves. *)
Definition fresh (l : loader) : Prop := history l = [] /\ last_thread l = 0 /\ forall n i, apps l !! n = Some i -> ai_state i = APP_REGISTERED.

Lemma register_fresh debug registry : forall l, fresh l -> fresh (register debug registry l).1.
Proof.
  induction registry as [|a registry IH]; [done|]. cbn [register]. apply keeps_bind; [done|]. intros l0. apply keeps_bind; [|intros _; apply IH].
  case_bool_decide; [by destruct debug|]. intros l (Hh & Hl & Ha). split; [done|]. split; [done|]. intros n i. cbn.
  rewrite lookup_insert_Some. intros [[_ <-]|[_ Hi]]; [done|by apply (Ha n)].
Qed.

Lemma fresh_inv config nthreads services l : fresh l -> load_inv config nthreads services l.
Proof.
  intros (Hh & Hl & Ha). split; unfold in_order; rewrite ?Hh, ?Hl; try (by intros; apply elem_of_nil in H0); try done.
  - constructor.
  - intros n. split; [by intros ?%elem_of_nil|]. intros (i & Hi & Hr). rewrite (Ha n i Hi) in Hr. by destruct Hr.
  - intros [|? ?]; done.
Qed.

Lemma fresh_quiet l : fresh l -> quiet l.
Proof. intros (Hh & _ & Ha). split; [by rewrite Hh|]. intros n i Hi. by rewrite (Ha n i Hi). Qed.

Lemma register_spec debug (registry : list (application (double := double))) (l : loader) : NoDup (provides <$> registry) -> (forall a, a ∈ registry -> apps l !! provides a = None) ->
  exists l', register debug registry l = (l', Ok tt) /\
    forall n i, apps l' !! n = Some i <-> apps l !! n = Some i \/ exists a : application (double := double), a ∈ registry /\ n = provides a /\ i = AppInfo a APP_REGISTERED.
Proof.
  revert l. induction registry as [|a registry IH]; intros l Hnd Hl.
  { exists l. split; [done|]. intros n i. split; [by left|]. intros [|(a & ?%elem_of_nil & _)]; done. }
  rewrite fmap_cons in Hnd. apply NoDup_cons in Hnd as [Ha Hnd].
  destruct (IH (Loader (<[provides a := AppInfo a APP_REGISTERED]> (apps l)) (last_thread l) (history l)) Hnd) as (l' & E & Hl').
  { intros b Hb. cbn. rewrite lookup_insert_ne; [apply Hl; by right|]. intros Eq. apply Ha. rewrite Eq. by apply list_elem_of_fmap_2. }
  exists l'. split.
  - cbn [register]. unfold mbind, st_bind. cbn [st_get]. rewrite bool_decide_false; [exact E|]. rewrite Hl by (by left). by intros [? [=]].
  - intros n i. rewrite Hl'. cbn. rewrite lookup_insert_Some. setoid_rewrite elem_of_cons. split.
    + intros [[[<- <-]|[_ Hi]]|(b & Hb & -> & ->)]; [right; exists a; naive_solver|by left|right; exists b; naive_solver].
    + intros [Hi|(b & [->|Hb] & -> & ->)]; [|by left; left|right; by exists b]. left. right. split; [|done]. intros <-. rewrite Hl in Hi by (by left). done.
Qed.

(** What the configuration asks for. *)
Definition service_names (config : Config) : list string :=
  match obj_find "services" config with Some services => map string_value (array_items services) | None => [] end.

Lemma startup_phases debug registry order config l r : startAll debug registry order config new_loader = (l, r) ->
  (fresh l /\ r <> Ok tt /\ r <> Throw too_deep) \/
  exists nthreads l1, thread_count config = Ok nthreads /\ load_inv config nthreads (service_names config) l1 /\ quiet l1 /\
    ((l = l1 /\ r <> Ok tt /\ r <> Throw too_deep) \/ start_all config order l1 = (l, r)).
Proof.
  unfold startAll. unfold mbind at 1, st_bind at 1. unfold st_lift at 1.
  assert (Hnew : fresh new_loader) by (split; [done|]; split; [done|]; by intros).
  destruct (thread_count config) as [nthreads|e] eqn:Et.
  2: { intros [= <- <-]. left. split; [done|]. split; [done|]. unfold thread_count in Et. destruct (_ <? 0); by simplify_eq. }
  unfold mbind at 1, st_bind at 1. pose proof (register_fresh debug registry _ Hnew) as Hf.
  destruct (register debug registry new_loader) as [l0 [[]|e]] eqn:Er; cbn [fst] in Hf.
  2: { intros [= <- <-]. left. split; [done|]. split; [done|]. enough (forall l, (register debug registry l).2 <> Throw too_deep) as Hr.
       { specialize (Hr new_loader). by rewrite Er in Hr. }
       clear. induction registry as [|a registry IH]; intros l; [done|]. cbn [register]. unfold mbind, st_bind. cbn [st_get].
       case_bool_decide; [|apply IH]. by destruct debug; [|apply IH]. }
  unfold service_names. destruct (obj_find "services" config) as [services|]; [|intros [= <- <-]; by left].
  unfold mbind at 1, st_bind at 1. pose proof (initialize_all_quiet config nthreads (array_items services) _ (fresh_quiet _ Hf)) as Hq.
  destruct (initialize_all_spec config nthreads (map string_value (array_items services)) (array_items services) l0) as (Hinv & _ & Hdeep);
    [by apply fresh_inv|intros j Hj; by apply list_elem_of_fmap_2|].
  intros E. right. destruct (initialize_all _ _ _ l0) as [l1 [[]|e]]; cbn [fst snd] in *; exists nthreads, l1; (split; [done|]); (split; [done|]); (split; [done|]).
  - by right.
  - left. injection E as <- <-. by split.
Qed.

(** A start-up never recurses deeper than there are applications, and what it does
    is a sequence of initialisations and then, if nothing failed, of starts.  No
    application is initialised or started twice; each one is initialised in an existing
    thread, after everything it depends on, and only if the services of the
    configuration need it; only initialised ones are started, all of them (of the order
    in which the map is walked) if nothing throws, and all are initialised before the
    first start. *)
Theorem startup_order debug registry order (config : Config) l r : startAll debug registry order config new_loader = (l, r) ->
  r <> Throw too_deep /\ exists inits ns, history l = inits ++ map app_start ns /\ start_names inits = [] /\
    NoDup (init_names inits) /\ NoDup ns /\ (forall n, n ∈ ns -> n ∈ order /\ n ∈ init_names inits) /\
    (r = Ok tt -> forall n, n ∈ order -> n ∈ init_names inits -> n ∈ ns) /\
    (forall h1 n t h2, inits = h1 ++ app_init n t :: h2 ->
      needed config (service_names config) (apps l) n /\ (exists k, thread_count config = Ok k /\ 0 <= t < k) /\
      forall i d, apps l !! n = Some i -> d ∈ deps_of config i -> d ∈ init_names h1).
Proof.
  intros E. apply startup_phases in E as [(Hf & Hr & Hd)|(k & l1 & Hk & Hinv & [Hq1 Hq2] & [(-> & Hr & Hd)|E])].
  - split; [done|]. destruct Hf as (Hh & _ & _). exists [], []. rewrite Hh. split; [done|]. split; [done|]. split; [constructor|].
    split; [constructor|]. split; [by intros n ?%elem_of_nil|]. split; [done|]. by intros [|? ?].
  - split; [done|]. exists (history l1), []. rewrite app_nil_r. split; [done|]. split; [done|]. split; [apply (li_nodup _ _ _ _ Hinv)|].
    split; [constructor|]. split; [by intros n ?%elem_of_nil|]. split; [done|].
    intros h1 n t h2 Hh. split; [|split].
    + apply (li_needed _ _ _ _ Hinv). rewrite Hh, init_names_app. apply elem_of_app. right. by left.
    + exists k. split; [done|]. apply (li_thread _ _ _ _ Hinv n). rewrite Hh. apply elem_of_app. right. by left.
    + intros i d Hi Hd'. eapply (li_order _ _ _ _ Hinv h1 n t h2 i); eauto.
  - assert (Hfold : exists walked, l = foldl start_one l1 walked /\ r <> Throw too_deep /\ (forall n, n ∈ walked -> n ∈ order) /\ (r = Ok tt -> walked = order)).
    { pose proof (start_all_fold config order l1) as Hs. rewrite E in Hs. destruct r as [u|e]; [exists order; by destruct u|].
      destruct Hs as (o1 & n & o2 & i & e' & -> & -> & -> & _). exists o1. split; [done|]. split; [done|]. split; [|done].
      intros m Hm. apply elem_of_app. by left. }
    destruct Hfold as (walked & -> & Hdeep & Hsub & Hall). split; [done|].
    destruct (start_all_spec config k (service_names config) walked l1 Hinv) as (ns & Hinv' & Hh & Hnd & Hns & _).
    set (l := foldl start_one l1 walked) in *.
    assert (Hnames : init_names (map app_start ns) = []) by (clear; induction ns; done).
    assert (Hini : forall n, initialized l1 n <-> n ∈ init_names (history l1)).
    { intros n. rewrite (li_ready _ _ _ _ Hinv). unfold initialized. rewrite fmap_Some. split; intros (i & Hi & Hs); exists i; (split; [done|]); [by left|].
      destruct Hs as [Hs|Hs]; [done|by destruct (Hq2 n i Hi)]. }
    exists (history l1), ns. split; [done|]. split; [done|]. split; [apply (li_nodup _ _ _ _ Hinv)|]. split; [done|]. setoid_rewrite Hns. setoid_rewrite Hini. split.
    { intros n [Hn ?]. split; [by apply Hsub|done]. }
    split; [by intros Hr; rewrite (Hall Hr)|].
    intros h1 n t h2 Hi. assert (Hl : history l = h1 ++ app_init n t :: (h2 ++ map app_start ns)) by (rewrite Hh, Hi, <- app_assoc; done).
    split; [|split].
    + apply (li_needed _ _ _ _ Hinv'). rewrite Hl, init_names_app. apply elem_of_app. right. by left.
    + exists k. split; [done|]. apply (li_thread _ _ _ _ Hinv n). rewrite Hi. apply elem_of_app. right. by left.
    + intros i d Hi' Hd. eapply (li_order _ _ _ _ Hinv' h1 n t _ i); eauto.
Qed.

Lemma start_keeps order n : forall (l : loader) i, apps l !! n = Some i -> exists i', apps (foldl start_one l order) !! n = Some i' /\ ai_app i' = ai_app i.
Proof.
  induction order as [|m order IH]; intros l i Hi; [by exists i|]. cbn [foldl]. unfold start_one at 2. case_bool_decide; [|by apply IH].
  destruct (decide (n = m)) as [->|Hne]; [|apply IH; cbn; by rewrite lookup_alter_ne].
  destruct (IH (with_state m APP_STARTED (Loader (apps l) (last_thread l) (history l ++ [app_start m]))) (AppInfo (ai_app i) APP_STARTED)) as (k & Hk & Ek);
    [cbn; by rewrite lookup_alter_eq, Hi|by exists k].
Qed.

(** When all the services are initialised, what is needed is. *)
Lemma needed_inited config nthreads services (l : loader) : load_inv config nthreads services l ->
  (forall n, n ∈ services -> n ∈ init_names (history l)) -> forall n, n ∈ init_names (history l) <-> needed config services (apps l) n.
Proof.
  intros Hl Hs n. split; [apply (li_needed _ _ _ _ Hl)|]. induction 1 as [n Hn|n i d _ IH Hi Hd]; [by apply Hs|].
  unfold init_names in IH. apply list_elem_of_omap in IH as (e & He & Ee). destruct e as [n' t|]; [|done]. injection Ee as ->.
  apply list_elem_of_split in He as (h1 & h2 & He). rewrite He, init_names_app. apply elem_of_app. left. by eapply (li_order _ _ _ _ Hl).
Qed.

(** What a configuration and applications are that can be started: the names are
    distinct, there is a thread, the services exist, and the dependencies of every
    application end, exist and are not cyclic. *)
Record startable (registry : list application) (order : list string) (config : Config) (rank : string -> nat) : Prop := {
  sa_services : exists services, obj_find "services" config = Some services;
  sa_threads : exists nthreads, thread_count config = Ok nthreads /\ 0 < nthreads;
  sa_names : NoDup (provides <$> registry);
  sa_order : order ≡ₚ provides <$> registry;
  sa_known n : n ∈ service_names config -> n ∈ provides <$> registry;
  sa_deps a : a ∈ registry -> EmptyString ∈ dependsOn a config /\
    forall d, d ∈ until_empty (dependsOn a config) -> d ∈ provides <$> registry /\ (rank d < rank (provides a))%nat;
}.

(** The last condition, as one that is decided. *)
Lemma deps_decided registry (config : Config) (rank : string -> nat) :
  Forall (fun a => EmptyString ∈ dependsOn a config /\
    Forall (fun d => d ∈ provides <$> registry /\ (rank d < rank (provides a))%nat) (until_empty (dependsOn a config))) registry ->
  forall a, a ∈ registry -> EmptyString ∈ dependsOn a config /\
    forall d, d ∈ until_empty (dependsOn a config) -> d ∈ provides <$> registry /\ (rank d < rank (provides a))%nat.
Proof. setoid_rewrite Forall_forall. intros Hf a Ha. destruct (Hf a Ha) as [He Hd]. rewrite Forall_forall in Hd. by split. Qed.

(** How a start-up ends: everything needed is initialised and started, or the [init] or
    [startUp] of something needed threw, after all that it depends on was initialised,
    and in the second case everything needed. *)
Definition started_up (registry : list application) (config : Config) (l : loader) (r : res load_error unit) : Prop :=
  let need := needed config (service_names config) (apps l) in
  match r with
  | Ok _ => forall n, (n ∈ init_names (history l) <-> need n) /\ (n ∈ start_names (history l) <-> need n)
  | Throw e => exists a, a ∈ registry /\ e = terminated (provides a) /\ need (provides a) /\
      (forall d, d ∈ until_empty (dependsOn a config) -> d ∈ init_names (history l)) /\
      ((start_names (history l) = [] /\ exists e', init a config (history l) = Throw e') \/
       ((forall n, n ∈ init_names (history l) <-> need n) /\ (provides a ∉ start_names (history l)) /\ exists e', startUp a config (history l) = Throw e'))
  end.

Definition holds (registry : list application) (l : loader) : Prop := forall n i, apps l !! n = Some i -> ai_app i ∈ registry /\ n = provides (ai_app i).

Lemma holds_grows registry l l' : holds registry l -> grows l l' -> holds registry l'.
Proof. intros Hl Hg n i Hi. specialize (Hg n). rewrite Hi in Hg. inversion Hg as [j i' [Ea _] E1 E2|]; subst. rewrite <- Ea. by apply Hl. Qed.

Lemma start_one_apps (l : loader) n m : fmap ai_app (apps (start_one l n) !! m) = fmap ai_app (apps l !! m).
Proof.
  unfold start_one. case_bool_decide; [|done]. cbn. destruct (decide (m = n)) as [->|]; [|by rewrite lookup_alter_ne].
  rewrite lookup_alter_eq. by destruct (apps l !! n).
Qed.

Lemma fold_apps order m : forall l : loader, fmap ai_app (apps (foldl start_one l order) !! m) = fmap ai_app (apps l !! m).
Proof. induction order as [|n order IH]; intros l; [done|]. cbn [foldl]. by rewrite IH, start_one_apps. Qed.

Lemma holds_fold registry order (l : loader) : holds registry l -> holds registry (foldl start_one l order).
Proof.
  intros Hl n i Hi. pose proof (fold_apps order n l) as E. rewrite Hi in E. symmetry in E. cbn in E. apply fmap_Some in E as (j & Hj & ->). by apply Hl.
Qed.

Lemma start_names_app h1 h2 : start_names (h1 ++ h2) = start_names h1 ++ start_names h2.
Proof. apply omap_app. Qed.
Lemma start_names_starts ns : start_names (map app_start ns) = ns /\ init_names (map app_start ns) = [].
Proof. induction ns as [|n ns [IH1 IH2]]; [done|]. cbn. split; [by f_equal|done]. Qed.

(** The starts of a loader whose needed applications are initialised. *)
Lemma start_all_result registry order (config : Config) nthreads l1 :
  load_inv config nthreads (service_names config) l1 -> quiet l1 -> holds registry l1 -> (forall n, is_Some (apps l1 !! n) -> n ∈ order) ->
  (forall n, n ∈ init_names (history l1) <-> needed config (service_names config) (apps l1) n) ->
  started_up registry config (start_all config order l1).1 (start_all config order l1).2.
Proof.
  intros Hinv [Hq1 Hq2] Hh Horder Hn. pose proof (start_all_fold config order l1) as Hs.
  assert (Hfold : forall walked, let l := foldl start_one l1 walked in
    exists ns, init_names (history l) = init_names (history l1) /\ start_names (history l) = ns /\ (forall n, n ∈ ns <-> n ∈ walked /\ initialized l1 n) /\
      load_inv config nthreads (service_names config) l /\ forall n, initialized l n -> n ∉ ns).
  { intros walked. destruct (start_all_spec config nthreads (service_names config) walked l1 Hinv) as (ns & Hinv' & Hhist & _ & Hns & Hini).
    exists ns. rewrite Hhist, init_names_app, start_names_app, Hq1. destruct (start_names_starts ns) as [-> ->]. rewrite app_nil_r.
    do 4 (split; [done|]). by intros n [_ ?]%Hini. }
  assert (Hneed : forall walked n, n ∈ init_names (history l1) <-> needed config (service_names config) (apps (foldl start_one l1 walked)) n).
  { intros walked n. destruct (Hfold walked) as (ns & Hi & _ & _ & Hinv' & _). rewrite <- Hi. apply (needed_inited config nthreads); [done|].
    intros m Hm. rewrite Hi. apply Hn. by apply needed_service. }
  destruct (start_all config order l1) as [l r]. cbn [fst snd]. unfold started_up. destruct r as [u|e].
  - subst l. destruct (Hfold order) as (ns & Hi & -> & Hns & _). intros n. rewrite Hi, <- Hneed, Hns. split; [done|].
    rewrite (li_ready _ _ _ _ Hinv). unfold initialized. split.
    + intros [_ (i & Hi' & Hs')%fmap_Some]. exists i. split; [done|]. by left.
    + intros (i & Hi' & [Hs'|Hs']); [|by destruct (Hq2 n i Hi')]. split; [apply Horder; by eexists|]. by rewrite Hi', <- Hs'.
  - destruct Hs as (o1 & n & o2 & i & e' & -> & -> & -> & Hi & Hs & He). destruct (Hfold o1) as (ns & Hinits & Hst & _ & Hinv' & Hfresh).
    destruct (holds_fold registry o1 l1 Hh n i Hi) as [Ha ->]. exists (ai_app i). split; [done|]. split; [done|].
    assert (Hin : provides (ai_app i) ∈ init_names (history (foldl start_one l1 o1))) by (apply (li_ready _ _ _ _ Hinv'); exists i; split; [done|by left]).
    split; [by apply Hneed; rewrite <- Hinits|]. split.
    + intros d Hd. rewrite Hinits. apply (Hneed o1). eapply needed_dep; [apply (li_needed _ _ _ _ Hinv'); exact Hin|exact Hi|exact Hd].
    + right. rewrite Hinits, Hst. split; [by apply Hneed|]. split; [|by eexists]. apply Hfresh. unfold initialized. by rewrite Hi, <- Hs.
Qed.

(** What was done has returned. *)
Definition call_of (a : application) (config : Config) (e : app_event) (h : list app_event) : res load_error unit :=
  match e with app_init _ _ => init a config h | app_start _ => startUp a config h end.
Definition event_name (e : app_event) : string := match e with app_init n _ | app_start n => n end.
Definition returned (registry : list application) (config : Config) (l : loader) : Prop := holds registry l /\
  forall h1 e h2, history l = h1 ++ e :: h2 -> exists a, a ∈ registry /\ provides a = event_name e /\ call_of a config e h1 = Ok tt.

Lemma keeps_get {B} (P : loader -> Prop) (k : loader -> L B) : (forall l, P l -> P (k l l).1) -> forall l, P l -> P ((a ← st_get; k a) l).1.
Proof. intros Hk l Hl. unfold mbind, st_bind. cbn [st_get]. by apply Hk. Qed.

Section returned.
Variables (registry : list (application (double := double))) (config : Config).
Abbreviation returned := (returned registry config).

Lemma set_state_returned n s l : returned l -> returned (set_app_state n s l).1.
Proof.
  intros [Hh Hr]. split; [|done]. intros m i. cbn. destruct (decide (m = n)) as [->|].
  - rewrite lookup_alter_eq. intros (j & Hj & ->)%fmap_Some. by apply (Hh n j).
  - rewrite lookup_alter_ne by done. apply Hh.
Qed.

Lemma returns_returned a e l : a ∈ registry -> provides a = event_name e -> returned l -> returned (returns (event_name e) (call_of a config e (history l)) e l).1.
Proof.
  intros Ha Hn [Hh Hr]. destruct (call_of a config e (history l)) as [[]|x] eqn:Ec; [|done]. split; [done|].
  intros h1 e1 h2 E. cbn in E. apply last_event in E as [(-> & -> & ->)|(h2' & -> & E)]; [by exists a|by eapply Hr].
Qed.

Lemma initialize_returned nthreads levels : forall n l, returned l -> returned (initialize config nthreads levels n l).1.
Proof.
  induction levels as [|levels IH]; intros n; [done|]. cbn [initialize]. apply keeps_get. intros l0 H0.
  destruct (apps l0 !! n) as [info|] eqn:Ei; [|done]. destruct (negb _); [done|].
  destruct (proj1 H0 n info Ei) as [Ha Hn]. revert H0. generalize l0. clear l0 Ei.
  apply keeps_bind; [intros; by apply set_state_returned|]. intros _. apply keeps_bind.
  - generalize (dependsOn (ai_app info) config). intros deps. induction deps as [|d deps IHd]; [done|]. cbn [init_dependencies].
    case_bool_decide; [done|]. apply keeps_bind; [apply IH|]. intros [|]; cbn [negb]; [|done]. apply keeps_bind; [done|].
    intros s. case_bool_decide; [done|apply IHd].
  - intros [|]; cbn [negb]; [|done]. apply keeps_bind.
    + unfold choose_thread. destruct (_ && _); [done|]. apply keeps_bind; [done|]. intros l1. destruct (_ <? _); [|done]. by apply keeps_bind.
    + intros t. apply keeps_get. intros l1 H1. subst n. pose proof (returns_returned (ai_app info) (app_init (provides (ai_app info)) t) l1 Ha eq_refl H1) as Hc.
      cbn [event_name call_of] in Hc. unfold mbind at 1, st_bind at 1. destruct (returns _ _ _ l1) as [l2 [u|x]]; [|done].
      revert Hc. cbn [fst]. generalize l2. apply keeps_bind; [intros; by apply set_state_returned|done].
Qed.

Lemma initialize_all_returned nthreads ss : forall l, returned l -> returned (initialize_all config nthreads ss l).1.
Proof.
  induction ss as [|j ss IH]; [done|]. cbn [initialize_all]. apply keeps_bind; [done|]. intros l0. apply keeps_bind; [apply initialize_returned|]. intros _. apply IH.
Qed.

Lemma start_all_returned names : forall l, returned l -> returned (start_all config names l).1.
Proof.
  induction names as [|n names IH]; [done|]. cbn [start_all]. apply keeps_get. intros l0 H0.
  match goal with |- returned ((?m ≫= _) l0).1 => set (step := m) end.
  assert (Hone : returned (step l0).1).
  { unfold step. destruct (apps l0 !! n) as [[app []]|] eqn:Ei; try done. destruct (proj1 H0 n _ Ei) as [Ha Hn]. cbn in Ha, Hn. subst n.
    pose proof (returns_returned app (app_start (provides app)) l0 Ha eq_refl H0) as Hc. cbn [event_name call_of] in Hc.
    unfold mbind at 1, st_bind at 1. destruct (returns _ _ _ l0) as [l2 [u|x]]; [|done]. by apply set_state_returned. }
  unfold mbind at 1, st_bind at 1. destruct (step l0) as [l1 [u|x]]; [by apply IH|done].
Qed.

Lemma register_returned debug : forall rest l, (forall a, a ∈ rest -> a ∈ registry) -> returned l -> returned (register debug rest l).1.
Proof.
  induction rest as [|a rest IH]; intros l Hsub; [done|]. cbn [register]. revert l. apply keeps_bind; [done|]. intros l0. apply keeps_bind; [|intros _ l; apply IH; intros; apply Hsub; by right].
  case_bool_decide; [by destruct debug|]. intros l [Hh Hr]. split; [|done]. intros n i. cbn. rewrite lookup_insert_Some.
  intros [[<- <-]|[_ Hi]]; [|by apply Hh]. split; [|done]. apply Hsub. by left.
Qed.

(** Every [init] and [startUp] that a start-up goes past has returned. *)
Theorem startup_returned debug order l r : startAll debug registry order config new_loader = (l, r) -> returned l.
Proof.
  intros E. change l with (l, r).1. rewrite <- E. assert (Hn : returned new_loader) by (split; [by intros n i|by intros [|? ?]]).
  revert Hn. generalize (new_loader (double := double)). unfold startAll. apply keeps_bind; [done|]. intros k. apply keeps_bind; [intros; by apply register_returned|]. intros _.
  destruct (obj_find "services" config); [|done]. apply keeps_bind; [apply initialize_all_returned|]. intros _. apply start_all_returned.
Qed.
End returned.

(** Start-up from a sound configuration. *)
Lemma startup_result debug registry order (config : Config) rank : startable registry order config rank ->
  exists l r, startAll debug registry order config new_loader = (l, r) /\
    (forall a, a ∈ registry -> exists s, apps l !! provides a = Some (AppInfo a s)) /\ started_up registry config l r.
Proof.
  intros [[services Hconfig] (nthreads & Hk & Hpos) Hnames Horder Hservices Hdeps].
  destruct (register_spec debug registry new_loader Hnames) as (l0 & Er & Hl0); [done|].
  assert (Hf : fresh l0) by (change l0 with (l0, Ok tt : res load_error unit).1; rewrite <- Er; apply register_fresh; split; [done|]; split; [done|]; by intros).
  assert (Hl0' : forall n i, apps l0 !! n = Some i -> exists a, a ∈ registry /\ n = provides a /\ i = AppInfo a APP_REGISTERED).
  { intros n i Hi. apply Hl0 in Hi as [Hi|Hi]; done. }
  assert (Hin : forall n, n ∈ provides <$> registry -> is_Some (apps l0 !! n)).
  { intros n (a & -> & Ha)%list_elem_of_fmap. exists (AppInfo a APP_REGISTERED). apply Hl0. right. by exists a. }
  assert (Hs : sound_deps config (service_names config) rank l0).
  { intros n i _ Hi. apply Hl0' in Hi as (a & Ha & -> & ->). unfold deps_of. cbn. destruct (Hdeps a Ha) as [He Hd]. split; [done|].
    intros d Hd'. destruct (Hd d Hd') as [? ?]. split; [by apply Hin|done]. }
  assert (Hholds : holds registry l0) by (intros n i Hi; apply Hl0' in Hi as (a & ? & -> & ->); done).
  assert (Hsn : service_names config = map string_value (array_items services)) by (unfold service_names; by rewrite Hconfig).
  pose proof (fresh_inv config nthreads (service_names config) _ Hf) as Hinv0.
  destruct (initialize_all_spec config nthreads (service_names config) (array_items services) l0 Hinv0) as (Hinv1 & Hg & _).
  { intros j Hj. rewrite Hsn. by apply list_elem_of_fmap_2. }
  pose proof (initialize_all_ok config nthreads (service_names config) rank (array_items services) l0 Hpos Hinv0 Hs) as Hall.
  pose proof (initialize_all_quiet config nthreads (array_items services) _ (fresh_quiet _ Hf)) as Hq.
  assert (Erun : startAll debug registry order config new_loader =
    match initialize_all config nthreads (array_items services) l0 with (l1, Ok _) => start_all config order l1 | (l1, Throw e) => (l1, Throw e) end).
  { unfold startAll. unfold mbind at 1, st_bind at 1. unfold st_lift at 1. rewrite Hk. unfold mbind at 1, st_bind at 1. rewrite Er, Hconfig.
    unfold mbind, st_bind. by destruct (initialize_all _ _ _ l0) as [? [?|?]]. }
  rewrite Erun. clear Erun.
  destruct Hall as [Hall|Hall].
  { intros m (i & Hi & Hst). destruct Hf as (_ & _ & Ha). rewrite (Ha m i Hi) in Hst. done. }
  { intros j Hj. assert (string_value j ∈ service_names config) by (rewrite Hsn; by apply list_elem_of_fmap_2). auto. }
  - destruct (initialize_all config nthreads (array_items services) l0) as [l1 r1]. cbn [fst snd] in *. destruct Hall as (-> & _ & Hall).
    pose proof (holds_grows _ _ _ Hholds Hg) as Hholds1.
    exists (start_all config order l1).1, (start_all config order l1).2. split; [by destruct (start_all _ _ _)|]. split.
    + intros a Ha. destruct (Hin (provides a)) as [i Hi]; [by apply list_elem_of_fmap_2|]. pose proof Hi as Hi'. apply Hl0' in Hi' as (a' & Ha' & Ep & ->).
      assert (Ea : ai_app <$> apps (start_all config order l1).1 !! provides a = Some a').
      { assert (Hw : exists walked, (start_all config order l1).1 = foldl start_one l1 walked).
        { pose proof (start_all_fold config order l1) as Hs'. destruct (start_all config order l1) as [l [u|e]]; [by exists order|].
          destruct Hs' as (o1 & n & o2 & i & e' & _ & -> & _). by exists o1. }
        destruct Hw as [walked ->]. rewrite fold_apps. specialize (Hg (provides a)). rewrite Hi in Hg. inversion Hg as [j i' [E _] E1 E2|]; subst. cbn in *. by f_equal. }
      apply fmap_Some in Ea as ([a2 s] & E2 & ->). cbn. assert (a2 = a) as ->; [|by exists s].
      apply list_elem_of_lookup in Ha as [x Hx]. apply list_elem_of_lookup in Ha' as [y Hy]. cbn in Hy.
      assert (x = y) as ->; [|congruence]. eapply NoDup_lookup; [exact Hnames|rewrite list_lookup_fmap, Hx; reflexivity|rewrite list_lookup_fmap, Hy; by rewrite Ep].
    + apply (start_all_result registry order config nthreads l1); [done|done|done| |].
      * intros n [i Hi]. apply Hholds1 in Hi as [Ha ->]. rewrite Horder. by apply list_elem_of_fmap_2.
      * apply (needed_inited config nthreads); [done|]. intros n Hn. rewrite Hsn in Hn. apply list_elem_of_fmap in Hn as (j & -> & Hj). by apply Hall.
  - destruct (initialize_all config nthreads (array_items services) l0) as [l1 r1]. cbn [fst snd] in *.
    destruct Hall as (m & i & e & Er1 & Hneed & Hi & He & Hd). cbn in Er1, Hneed, Hi, He, Hd. subst r1. exists l1, (Throw (terminated m)). split; [done|]. split.
    + intros a Ha. destruct (Hin (provides a)) as [j Hj]; [by apply list_elem_of_fmap_2|]. specialize (Hg (provides a)). rewrite Hj in Hg.
      inversion Hg as [j' i' [E _] E1 E2|]; subst. destruct i' as [a2 s]. cbn in E.
      pose proof (proj2 (Hl0 (provides a) (AppInfo a APP_REGISTERED)) ltac:(right; by exists a)) as Hj2. rewrite Hj in Hj2. injection Hj2 as ->. cbn in E. subst. by exists s.
    + destruct (holds_grows _ _ _ Hholds Hg m i Hi) as [Ha ->]. exists (ai_app i). split; [done|]. split; [done|]. split; [done|]. split; [exact Hd|].
      left. split; [apply Hq|by exists e].
Qed.

(** C27: a start-up completes when the configuration and the applications are sound,
    unless an application throws: then exactly the applications that the services need,
    directly or not, are initialised, and all of them are started.  Only an exception of
    the [init] or [startUp] of a needed application ends it before, which terminates the
    program; what that application depends on was initialised, and nothing is started
    before everything needed is initialised. *)
Theorem startup_completes debug registry order (config : Config) (rank : string -> nat) : startable registry order config rank ->
  exists l r, startAll debug registry order config new_loader = (l, r) /\
    (forall a, a ∈ registry -> exists s, apps l !! provides a = Some (AppInfo a s)) /\ started_up registry config l r.
Proof. by apply (startup_result debug registry order config rank). Qed.

End startup.

(** ** Examples: numbers that are whole *)

Definition demo_config (threads : Z) (services : list string) : list (string * json Z) :=
  [("loader", JObject [("threads", JInt threads)]); ("services", JArray (map JString services))].
(** An application that asks for others in its [init]. *)
Definition asking_app (name : string) (deps asks : list string) : application (double := Z) :=
  App name (fun _ => deps ++ [EmptyString]) (fun _ h => if forallb (fun n => bool_decide (n ∈ init_names h)) asks then Ok tt else Throw out_of_range) (fun _ _ => Ok tt).
Definition demo_app (name : string) (deps : list string) : application (double := Z) := asking_app name deps deps.
Definition demo_registry : list application :=
  [demo_app "switch" []; demo_app "topology" ["switch"; "ldp"]; demo_app "ldp" ["switch"]; demo_app "unused" []].
Definition demo_order : list string := ["unused"; "topology"; "switch"; "ldp"].

Definition demo_rank (n : string) : nat := if bool_decide (n = "topology") then 2 else if bool_decide (n ∈ ["ldp"; "messaging"]) then 1 else 0.

Lemma startup_order_witness : exists l,
  startAll true demo_registry demo_order (demo_config 2 ["topology"]) new_loader = (l, Ok tt) /\
  history l = [app_init "switch" 0; app_init "ldp" 1; app_init "topology" 0; app_start "topology"; app_start "switch"; app_start "ldp"] /\
  Ok tt <> Throw too_deep.
Proof.
  eexists. split; [vm_compute; reflexivity|]. split; [reflexivity|].
  eapply (startup_order true demo_registry demo_order (demo_config 2 ["topology"])). vm_compute. reflexivity.
Defined.

(** One start-up to the end, and one in which an application asks for another that it
    does not depend on. *)
Lemma startup_completes_witness :
  (exists l, startAll true demo_registry demo_order (demo_config 2 ["topology"]) new_loader = (l, Ok tt) /\ started_up demo_registry (demo_config 2 ["topology"]) l (Ok tt)) /\
  let registry := [demo_app "controller" []; asking_app "messaging" ["controller"] ["hosts"]; demo_app "hosts" []] in
  exists l, startAll true registry ["controller"; "messaging"; "hosts"] (demo_config 1 ["messaging"]) new_loader = (l, Throw (terminated "messaging")) /\
    started_up registry (demo_config 1 ["messaging"]) l (Throw (terminated "messaging")).
Proof.
  split.
  - destruct (startup_completes true demo_registry demo_order (demo_config 2 ["topology"]) demo_rank) as (l & r & E & _ & Hr).
    + split.
      * eexists. vm_compute. reflexivity.
      * exists 2. vm_compute. done.
      * apply (bool_decide_unpack _). vm_compute. done.
      * unfold demo_order, demo_registry. cbn. apply (Permutation_trans (l' := ["unused"; "switch"; "topology"; "ldp"])).
        -- apply perm_skip, perm_swap.
        -- rewrite perm_swap. apply perm_skip. rewrite perm_swap. apply perm_skip, perm_swap.
      * intros n Hn. apply (bool_decide_unpack _). vm_compute in Hn. apply list_elem_of_singleton in Hn as ->. vm_compute. done.
      * apply deps_decided, (bool_decide_unpack _). vm_compute. done.
    + exists l. vm_compute in E. injection E as <- <-. split; [vm_compute; reflexivity|exact Hr].
  - intros registry. destruct (startup_completes true registry ["controller"; "messaging"; "hosts"] (demo_config 1 ["messaging"])
      demo_rank) as (l & r & E & _ & Hr).
    + split.
      * eexists. vm_compute. reflexivity.
      * exists 1. vm_compute. done.
      * apply (bool_decide_unpack _). vm_compute. done.
      * done.
      * intros n Hn. apply (bool_decide_unpack _). vm_compute in Hn. apply list_elem_of_singleton in Hn as ->. vm_compute. done.
      * apply deps_decided, (bool_decide_unpack _). vm_compute. done.
    + exists l. vm_compute in E. injection E as <- <-. split; [vm_compute; reflexivity|exact Hr].
Defined.

(** Three hazards.  After a successful start-up [Loader::app] throws for every name,
    since it accepts only the state [APP_INITIALIZED], which the start replaces.  An
    application whose dependency does not exist is left in [APP_INITIALIZING] and
    silently not started, and the next service that depends on it stops the controller
    with "Cyclic dependencies detected" although there is no cycle.  And a configuration
    with no threads makes the first initialisation read out of the vector of the threads. *)
Theorem loader_hazards :
  (forall (double : Type) (D : Doubles double) debug registry order (config : list (string * json double)) l,
    startAll debug registry order config new_loader = (l, Ok tt) -> (forall n, is_Some (apps l !! n) -> n ∈ order) ->
    forall n, loader_app l n = Throw out_of_range) /\
  (let registry := [demo_app "a" ["missing"]; demo_app "b" ["a"]] in let run services := startAll true registry ["a"; "b"] (demo_config 1 services) new_loader in
    (exists l, run ["a"] = (l, Ok tt) /\ history l = [] /\ ai_state <$> apps l !! "a" = Some APP_INITIALIZING) /\
    (run ["a"; "b"]).2 = Throw fatal) /\
  (startAll true demo_registry demo_order (demo_config 0 ["switch"]) new_loader).2 = Throw overrun /\
  (startAll true demo_registry demo_order (demo_config (-1) ["switch"]) new_loader).2 = Throw bad_alloc.
Proof.
  split; [|split; [|by split; vm_compute]].
  - intros double D debug registry order config l E Horder n. apply startup_phases in E as [(_ & Hr & _)|(k & l1 & Hk & Hinv & _ & [(-> & Hr & _)|E])]; [done|done|].
    pose proof (start_all_fold config order l1) as Hs. rewrite E in Hs. subst l.
    destruct (start_all_spec config k (service_names config) order l1 Hinv) as (ns & _ & _ & _ & Hns & Hini).
    specialize (Hini n). specialize (Hns n). specialize (Horder n). unfold initialized at 1 in Hini. unfold loader_app.
    destruct (apps (foldl start_one l1 order) !! n) as [i|] eqn:Ei; [|done]. rewrite bool_decide_false; [done|]. intros Hi. cbn in Hini. rewrite Hi in Hini.
    destruct Hini as [Hini _]. specialize (Hini eq_refl) as [Hi1 Hn]. apply Hn, Hns. split; [apply Horder; by eexists|done].
  - split; [eexists; split; [vm_compute; reflexivity|split; reflexivity]|vm_compute; reflexivity].
Qed.

Lemma loader_hazards_witness : exists l, startAll true demo_registry demo_order (demo_config 2 ["topology"]) new_loader = (l, Ok tt) /\
  loader_app l "switch" = Throw out_of_range.
Proof.
  eexists. split; [vm_compute; reflexivity|]. destruct loader_hazards as [H _].
  eapply (H Z _ true demo_registry demo_order (demo_config 2 ["topology"])); [vm_compute; reflexivity|].
  intros n Hn. apply elem_of_dom in Hn. revert n Hn. match goal with |- forall n, n ∈ dom ?m -> _ => change (set_Forall (fun n => n ∈ demo_order) (dom m)) end.
  apply (bool_decide_unpack _). vm_compute. done.
Defined.
