(* ===== verification/StaticFlows.v ===== *)
(** * Static flows (src/StaticFlowPusher.cc, src/StaticFlowPusher.hh)

    Flow entries that the configuration lists for a switch are sent when it comes up,
    and one that a request describes is sent at once. *)

From S2P Require Import Prelude Regex AddressTheorems RaftWire Flow Switch Json JsonTotal JsonRoundtrip Rest Loader.
Local Open Scope Z_scope.

(** The addresses of libfluid: what the code uses of [EthAddress] and [IPAddress]. *)
Class FluidAddresses (eth ip : Type) := {
  eth_default : eth;                       (* EthAddress() *)
  eth_of : string -> eth;                  (* EthAddress(std::string) *)
  eth_to_string : eth -> string;
  ip_default : ip;                         (* IPAddress() *)
  ip_of : string -> ip;                    (* IPAddress(std::string) *)
  getIPv4 : ip -> Z;
  IPv4from_string : string -> Z;
}.

Local Open Scope string_scope.
Definition no_eth : string := "00:00:00:00:00:00".
Definition no_ip : string := "0.0.0.0".

(** An address that is all zeros is printed as it is written. *)
Class FluidLaws (eth ip : Type) `{FluidAddresses eth ip} := {
  no_eth_default : eth_to_string eth_default = no_eth;
  no_eth_text : eth_to_string (eth_of no_eth) = no_eth;
  no_ip_default : getIPv4 ip_default = IPv4from_string no_ip;
  no_ip_text : getIPv4 (ip_of no_ip) = IPv4from_string no_ip;
}.
Local Close Scope string_scope.

Section static.
Context {double : Type} `{Doubles double} {eth ip : Type} `{FluidAddresses eth ip}.
Abbreviation json := (json double).
Abbreviation Config := (list (string * json)).

Inductive sf_oxm :=
| sf_in_port (n : Z) | sf_eth_src (a : eth) | sf_eth_dst (a : eth) | sf_ip_src (a : ip) | sf_ip_dst (a : ip) | sf_eth_type (n : Z).

Inductive sf_action := sf_set_field (f : sf_oxm) | sf_output (port max_len : Z).

(** [FlowDesc] *)
Record flow_desc := FlowDesc {
  fd_in_port : Z; fd_out_port : Z; fd_eth_type : Z; fd_eth_src : eth; fd_eth_dst : eth; fd_ip_src : ip; fd_ip_dst : ip;
  fd_idle : Z; fd_hard : Z; fd_priority : Z; fd_modify : list sf_oxm;
}.
Definition new_flow_desc : flow_desc := FlowDesc 0 0 0 eth_default eth_default ip_default ip_default 0 0 0 [].

Definition set_in_port (port : Z) (fd : flow_desc) : flow_desc :=
  FlowDesc (u32 port) (fd_out_port fd) (fd_eth_type fd) (fd_eth_src fd) (fd_eth_dst fd) (fd_ip_src fd) (fd_ip_dst fd) (fd_idle fd) (fd_hard fd) (fd_priority fd) (fd_modify fd).
Definition set_out_port (port : Z) (fd : flow_desc) : flow_desc :=
  FlowDesc (fd_in_port fd) (u32 port) (fd_eth_type fd) (fd_eth_src fd) (fd_eth_dst fd) (fd_ip_src fd) (fd_ip_dst fd) (fd_idle fd) (fd_hard fd) (fd_priority fd) (fd_modify fd).
Definition set_eth_src (mac : string) (fd : flow_desc) : flow_desc :=
  FlowDesc (fd_in_port fd) (fd_out_port fd) (fd_eth_type fd) (eth_of mac) (fd_eth_dst fd) (fd_ip_src fd) (fd_ip_dst fd) (fd_idle fd) (fd_hard fd) (fd_priority fd) (fd_modify fd).
Definition set_eth_dst (mac : string) (fd : flow_desc) : flow_desc :=
  FlowDesc (fd_in_port fd) (fd_out_port fd) (fd_eth_type fd) (fd_eth_src fd) (eth_of mac) (fd_ip_src fd) (fd_ip_dst fd) (fd_idle fd) (fd_hard fd) (fd_priority fd) (fd_modify fd).
Definition set_ip_src (a : string) (fd : flow_desc) : flow_desc :=
  FlowDesc (fd_in_port fd) (fd_out_port fd) (fd_eth_type fd) (fd_eth_src fd) (fd_eth_dst fd) (ip_of a) (fd_ip_dst fd) (fd_idle fd) (fd_hard fd) (fd_priority fd) (fd_modify fd).
Definition set_ip_dst (a : string) (fd : flow_desc) : flow_desc :=
  FlowDesc (fd_in_port fd) (fd_out_port fd) (fd_eth_type fd) (fd_eth_src fd) (fd_eth_dst fd) (fd_ip_src fd) (ip_of a) (fd_idle fd) (fd_hard fd) (fd_priority fd) (fd_modify fd).
(** [idle], [hard], and [priority], which is 16 bits wide. *)
Definition set_times (idle hard priority : Z) (fd : flow_desc) : flow_desc :=
  FlowDesc (fd_in_port fd) (fd_out_port fd) (fd_eth_type fd) (fd_eth_src fd) (fd_eth_dst fd) (fd_ip_src fd) (fd_ip_dst fd) idle hard (u16 priority) (fd_modify fd).
Definition modifyField (elem : sf_oxm) (fd : flow_desc) : flow_desc :=
  FlowDesc (fd_in_port fd) (fd_out_port fd) (fd_eth_type fd) (fd_eth_src fd) (fd_eth_dst fd) (fd_ip_src fd) (fd_ip_dst fd) (fd_idle fd) (fd_hard fd) (fd_priority fd) (fd_modify fd ++ [elem]).

(** What [formFlowMod] sets of a FlowMod: it adds an entry, without a buffer. *)
Record sf_mod := SfMod {
  sm_match : list sf_oxm; sm_actions : list sf_action; sm_idle_timeout : Z; sm_hard_timeout : Z; sm_priority : Z; sm_table_id : Z;
}.

(** [start_prio], the table, and the flows of the configuration. *)
Record pusher := Pusher { start_prio : Z; table_no : Z; flows_map : list (string * json) }.

Definition has_eth (a : eth) : bool := negb (bool_decide (eth_to_string a = no_eth)).
Definition has_ip (a : ip) : bool := negb (getIPv4 a =? IPv4from_string no_ip).
Definition is_ip_oxm (f : sf_oxm) : bool := match f with sf_ip_src _ | sf_ip_dst _ => true | _ => false end.

(** The Ethernet type after the fields that need IPv4. *)
Definition final_eth_type (fd : flow_desc) : Z :=
  if has_ip (fd_ip_src fd) || has_ip (fd_ip_dst fd) || existsb is_ip_oxm (fd_modify fd) then 0x0800 else fd_eth_type fd.

Definition formFlowMod (fd : flow_desc) (s : pusher) : pusher * sf_mod :=
  let fields :=
    (if 0 <? fd_in_port fd then [sf_in_port (fd_in_port fd)] else []) ++
    (if has_eth (fd_eth_src fd) then [sf_eth_src (fd_eth_src fd)] else []) ++
    (if has_eth (fd_eth_dst fd) then [sf_eth_dst (fd_eth_dst fd)] else []) ++
    (if has_ip (fd_ip_src fd) then [sf_ip_src (fd_ip_src fd)] else []) ++
    (if has_ip (fd_ip_dst fd) then [sf_ip_dst (fd_ip_dst fd)] else []) in
  let eth_type := final_eth_type fd in
  let fields := fields ++ (if 0 <? eth_type then [sf_eth_type eth_type] else []) in
  let '(priority, s) :=
    if negb (fd_priority fd =? 0) then (fd_priority fd, s) else (u16 (start_prio s), Pusher (u32 (start_prio s + 1)) (table_no s) (flows_map s)) in
  let actions := map sf_set_field (fd_modify fd) ++ (if 0 <? fd_out_port fd then [sf_output (fd_out_port fd) 128] else []) in
  (s, SfMod fields actions (u16 (fd_idle fd)) (u16 (fd_hard fd)) priority (table_no s)).

Local Open Scope string_scope.

Definition readFlowFromConfig (config : Config) : flow_desc :=
  let out_port := u32 (config_get_int config "out_port" 0) in
  let out_port := if (out_port =? 0)%Z then if bool_decide (config_get_string config "out_port" "null" = "to-controller") then OFPP_CONTROLLER else out_port else out_port in
  set_times (config_get_int config "idle" 0) (config_get_int config "hard" 0) (config_get_int config "priority" 0)
    (set_ip_dst (config_get_string config "ip_dst" no_ip) (set_ip_src (config_get_string config "ip_src" no_ip)
    (set_eth_dst (config_get_string config "eth_dst" no_eth) (set_eth_src (config_get_string config "eth_src" no_eth)
    (set_out_port out_port (set_in_port (config_get_int config "in_port" 0) new_flow_desc)))))).

(** The flows of the configuration, by the identifier of a switch or "all"; the last entry of a key stays.
    An entry without flows is an exception. *)
Fixpoint read_static_flows (entries : list json) (flows : Config) : res load_error Config :=
  match entries with
  | [] => Ok flows
  | e :: entries =>
      let cc := object_items e in
      let dpid := config_get_string cc "dpid" "none" in
      if bool_decide (dpid = "none") then read_static_flows entries flows
      else match obj_find "flows" cc with
           | None => Throw out_of_range
           | Some f => read_static_flows entries (obj_set dpid f flows)
           end
  end.

(** [init]; [table_no] is the table it reserves. *)
Definition sf_init (table_no : Z) (rootConfig : Config) : res load_error pusher :=
  let config := config_cd rootConfig "static-flow-pusher" in
  flows ← match obj_find "flows" config with Some f => read_static_flows (array_items f) [] | None => Ok [] end;
  Ok (Pusher 1 table_no flows).

(** The flows of a list, sent one after the other. *)
Fixpoint push_flows (flows : list json) (s : pusher) : pusher * list sf_mod :=
  match flows with
  | [] => (s, [])
  | f :: flows =>
      let '(s, fm) := formFlowMod (readFlowFromConfig (object_items f)) s in
      let '(s, fms) := push_flows flows s in (s, fm :: fms)
  end.

(** [Switch::idstr]: 16 hexadecimal digits. *)
Definition idstr (id : Z) : string := let ds := show_base 16 id in string_of_list_ascii (replicate (16 - length ds) "0"%char ++ ds)%list.

(** [onSwitchUp]: what is sent to the switch. *)
Definition listed (key : string) (s : pusher) : list json := match obj_find key (flows_map s) with Some f => array_items f | None => [] end.
Definition sf_onSwitchUp (dp : switch) (s : pusher) : pusher * list sf_mod :=
  let '(s, fms1) := push_flows (listed "all" s) s in
  let '(s, fms2) := push_flows (listed (idstr (sw_id dp)) s) s in
  (s, (fms1 ++ fms2)%list).

(** ** Requests *)

Definition sf_handle_string (flow : Config) (field : string) (set : string -> flow_desc -> flow_desc) (fd : flow_desc) : flow_desc :=
  match obj_find field flow with
  | Some v => if bool_decide (string_value v = "") then fd else set (string_value v) fd
  | None => fd
  end.
Definition sf_handle_int (flow : Config) (field : string) (set : Z -> flow_desc -> flow_desc) (fd : flow_desc) : flow_desc :=
  match obj_find field flow with
  | Some v => let oxm := to_int (number_value v) in if (0 <? oxm)%Z then set oxm fd else fd
  | None => fd
  end.

Definition read_request (flow : Config) : flow_desc :=
  let modify field make := sf_handle_string flow field (fun t => modifyField (make t)) in
  modify "modify_ip_dst" (fun t => sf_ip_dst (ip_of t)) (modify "modify_ip_src" (fun t => sf_ip_src (ip_of t))
    (modify "modify_eth_dst" (fun t => sf_eth_dst (eth_of t)) (modify "modify_eth_src" (fun t => sf_eth_src (eth_of t))
    (sf_handle_string flow "ip_dst" set_ip_dst (sf_handle_string flow "ip_src" set_ip_src
    (sf_handle_string flow "eth_dst" set_eth_dst (sf_handle_string flow "eth_src" set_eth_src
    (sf_handle_int flow "out_port" set_out_port (sf_handle_int flow "in_port" set_in_port new_flow_desc))))))))).

(** The answers are texts, in which an object is written. *)
Definition quoted (s : string) : string := String dq (s +:+ String dq "").
Definition sf_answer (key text : string) : json := JString ("{" +:+ quoted key +:+ ": " +:+ quoted text +:+ "}").

(** [handlePOST] for the number [id] of the path: the answer, and what is sent to the switch. *)
Definition sf_newflow (id : Z) (m : switch_map) (body : string) (s : pusher) : pusher * json * option (Z * sf_mod) :=
  match getSwitch id m with
  | None => (s, sf_answer "error" "switch now found", None)
  | Some sw =>
      match json_parse (chars body) with
      | Some (j, []) =>
          let '(s, fm) := formFlowMod (read_request (object_items j)) s in
          (s, sf_answer "static-flow-pusher" "new flow added", Some (sw_id sw, fm))
      | _ => (s, JString "{}", None)
      end
  end.
Local Close Scope string_scope.

(** * What switches get *)

(** A run: switches that come up, one after the other. *)
Fixpoint sf_run (dps : list switch) (s : pusher) : pusher * list sf_mod :=
  match dps with
  | [] => (s, [])
  | dp :: dps => let '(s, fms1) := sf_onSwitchUp dp s in let '(s, fms2) := sf_run dps s in (s, fms1 ++ fms2)
  end.

(** The flows that the run sends, as the configuration has them. *)
Definition configured (dps : list switch) (s : pusher) : list Config :=
  concat (map (fun dp => map object_items (listed "all"%string s ++ listed (idstr (sw_id dp)) s)) dps).

(** How many of the flows have no priority of their own. *)
Definition automatic (flows : list Config) : list Config := List.filter (fun c => fd_priority (readFlowFromConfig c) =? 0) flows.

Definition eth_types (l : list sf_oxm) : list Z := omap (fun f => match f with sf_eth_type n => Some n | _ => None end) l.
Definition rewrites_ip (fm : sf_mod) : bool := existsb (fun a => match a with sf_set_field f => is_ip_oxm f | sf_output _ _ => false end) (sm_actions fm).

Lemma formFlowMod_types fd s : eth_types (sm_match (formFlowMod fd s).2) = (if 0 <? final_eth_type fd then [final_eth_type fd] else []).
Proof.
  unfold formFlowMod, eth_types. destruct (negb _); cbn [snd sm_match]; rewrite !omap_app; repeat (case_match; cbn); done.
Qed.

Lemma formFlowMod_ip fd s : existsb is_ip_oxm (sm_match (formFlowMod fd s).2) || rewrites_ip (formFlowMod fd s).2 = true -> final_eth_type fd = 0x0800.
Proof.
  assert (Hr : rewrites_ip (formFlowMod fd s).2 = existsb is_ip_oxm (fd_modify fd)).
  { unfold formFlowMod, rewrites_ip. destruct (negb _); cbn [snd sm_actions]; rewrite existsb_app;
      (assert (Ho : existsb (fun a => match a with sf_set_field f => is_ip_oxm f | sf_output _ _ => false end) (if 0 <? fd_out_port fd then [sf_output (fd_out_port fd) 128] else []) = false)
        by (by destruct (0 <? fd_out_port fd)); rewrite Ho, orb_false_r); clear; induction (fd_modify fd) as [|f l IH]; cbn; [done|by rewrite IH|done|by rewrite IH]. }
  rewrite Hr. intros Hi. unfold final_eth_type. destruct (existsb is_ip_oxm (fd_modify fd)); [by rewrite orb_true_r|]. rewrite orb_false_r in Hi |- *.
  enough (existsb is_ip_oxm (sm_match (formFlowMod fd s).2) = has_ip (fd_ip_src fd) || has_ip (fd_ip_dst fd)) as E by (by rewrite <- E, Hi).
  unfold formFlowMod. destruct (negb _); cbn [snd sm_match]; rewrite !existsb_app; repeat (case_match; cbn); done.
Qed.

(** The fields of a flow of the configuration; those whose key is missing are not matched. *)
Definition matches_config (c : Config) (l : list sf_oxm) : Prop := forall f, f ∈ l <->
  match f with
  | sf_in_port n => n = u32 (config_get_int c "in_port" 0) /\ 0 < n
  | sf_eth_src a => exists v, obj_find "eth_src"%string c = Some v /\ a = eth_of (string_value v) /\ eth_to_string a <> no_eth
  | sf_eth_dst a => exists v, obj_find "eth_dst"%string c = Some v /\ a = eth_of (string_value v) /\ eth_to_string a <> no_eth
  | sf_ip_src a => exists v, obj_find "ip_src"%string c = Some v /\ a = ip_of (string_value v) /\ getIPv4 a <> IPv4from_string no_ip
  | sf_ip_dst a => exists v, obj_find "ip_dst"%string c = Some v /\ a = ip_of (string_value v) /\ getIPv4 a <> IPv4from_string no_ip
  | sf_eth_type n => n = 0x0800 /\ exists g, g ∈ l /\ is_ip_oxm g = true
  end.

Lemma elem_of_if {A} (b : bool) (x y : A) : x ∈ (if b then [y] else []) <-> b = true /\ x = y.
Proof. destruct b; rewrite ?list_elem_of_singleton, ?elem_of_nil; naive_solver. Qed.

Context `{!FluidLaws eth ip}.

Lemma eth_key (c : Config) key a : (has_eth (eth_of (config_get_string c key no_eth)) = true /\ a = eth_of (config_get_string c key no_eth)) <->
  exists v, obj_find key c = Some v /\ a = eth_of (string_value v) /\ eth_to_string a <> no_eth.
Proof.
  unfold has_eth, config_get_string. destruct (obj_find key c) as [v|].
  - rewrite negb_true_iff, bool_decide_eq_false. split; [intros [Hn ->]; by exists v|]. intros (w & [= <-] & -> & Hn). done.
  - rewrite no_eth_text, bool_decide_true by done. split; [by intros [? _]|]. by intros (v & ? & _).
Qed.

Lemma ip_key (c : Config) key a : (has_ip (ip_of (config_get_string c key no_ip)) = true /\ a = ip_of (config_get_string c key no_ip)) <->
  exists v, obj_find key c = Some v /\ a = ip_of (string_value v) /\ getIPv4 a <> IPv4from_string no_ip.
Proof.
  unfold has_ip, config_get_string. destruct (obj_find key c) as [v|].
  - rewrite negb_true_iff, Z.eqb_neq. split; [intros [Hn ->]; by exists v|]. intros (w & [= <-] & -> & Hn). done.
  - rewrite no_ip_text, Z.eqb_refl. split; [by intros [? _]|]. by intros (v & ? & _).
Qed.

Lemma read_match c s : matches_config c (sm_match (formFlowMod (readFlowFromConfig c) s).2).
Proof.
  set (fd := readFlowFromConfig c). intros f.
  assert (Hm : sm_match (formFlowMod fd s).2 = ((if 0 <? fd_in_port fd then [sf_in_port (fd_in_port fd)] else []) ++
    (if has_eth (fd_eth_src fd) then [sf_eth_src (fd_eth_src fd)] else []) ++ (if has_eth (fd_eth_dst fd) then [sf_eth_dst (fd_eth_dst fd)] else []) ++
    (if has_ip (fd_ip_src fd) then [sf_ip_src (fd_ip_src fd)] else []) ++ (if has_ip (fd_ip_dst fd) then [sf_ip_dst (fd_ip_dst fd)] else [])) ++
    (if has_ip (fd_ip_src fd) || has_ip (fd_ip_dst fd) then [sf_eth_type 0x0800] else [])).
  { unfold formFlowMod, final_eth_type. change (fd_modify fd) with (@nil sf_oxm). change (fd_eth_type fd) with 0. cbn [existsb]. rewrite orb_false_r.
    destruct (negb _); cbn [snd sm_match]; destruct (_ || _); done. }
  rewrite Hm. clear Hm. destruct f as [n|a|a|a|a|n]; rewrite !elem_of_app, !elem_of_if.
  - rewrite Z.ltb_lt. change (fd_in_port fd) with (u32 (config_get_int c "in_port"%string 0)). naive_solver.
  - rewrite <- eth_key. naive_solver.
  - rewrite <- eth_key. naive_solver.
  - rewrite <- ip_key. naive_solver.
  - rewrite <- ip_key. naive_solver.
  - setoid_rewrite elem_of_app. setoid_rewrite elem_of_app. setoid_rewrite elem_of_if. split.
    + intros [?|[Hb [= ->]]]; [naive_solver|]. split; [done|]. apply orb_prop in Hb as [Hb|Hb]; eexists; (split; [left; rewrite !elem_of_app, !elem_of_if|]).
      * do 3 right. left. done.
      * done.
      * do 4 right. done.
      * done.
    + intros [-> (g & [Hg|[Hg _]] & Hi)]; right; (split; [|done]); [|done].
      repeat rewrite ?elem_of_app, ?elem_of_if in Hg. destruct Hg as [[_ ->]|[[_ ->]|[[_ ->]|[[-> ->]|[-> ->]]]]]; try done. by rewrite orb_true_r.
Qed.

(** What is sent for the flow [c], after [k] automatic priorities. *)
Definition sent_for (s : pusher) (k : nat) (c : Config) (fm : sf_mod) : Prop :=
  matches_config c (sm_match fm) /\ sm_table_id fm = table_no s /\
  sm_idle_timeout fm = u16 (config_get_int c "idle"%string 0) /\ sm_hard_timeout fm = u16 (config_get_int c "hard"%string 0) /\
  sm_actions fm = (if 0 <? fd_out_port (readFlowFromConfig c) then [sf_output (fd_out_port (readFlowFromConfig c)) 128] else []) /\
  sm_priority fm = let p := u16 (config_get_int c "priority"%string 0) in if p =? 0 then u16 (start_prio s + Z.of_nat k) else p.

Lemma next_prio x k : u16 (u32 (x + 1) + Z.of_nat k) = u16 (x + Z.of_nat (S k)).
Proof.
  unfold wrap. change (2 ^ 16) with 65536. change (2 ^ 32) with 4294967296.
  rewrite (Z.mod_eq (x + 1)) by done. set (q := (x + 1) / 4294967296).
  replace (x + 1 - 4294967296 * q + Z.of_nat k) with (x + Z.of_nat (S k) + (- 65536 * q) * 65536) by lia. by rewrite Z_mod_plus_full.
Qed.

Lemma sent_one c s : let '(s', fm) := formFlowMod (readFlowFromConfig c) s in
  sent_for s 0 c fm /\ flows_map s' = flows_map s /\ forall k c' fm', sent_for s' k c' fm' ->
  sent_for s (length (automatic [c]) + k) c' fm'.
Proof.
  pose proof (read_match c s) as Hm. destruct (formFlowMod (readFlowFromConfig c) s) as [s' fm] eqn:E. cbn [snd] in Hm.
  assert (Hp : fd_priority (readFlowFromConfig c) = u16 (config_get_int c "priority"%string 0)) by done.
  unfold automatic. cbn [List.filter]. unfold sent_for, formFlowMod in *. rewrite Hp in *. cbv zeta.
  destruct (u16 _ =? 0) eqn:Eq; cbn [negb] in E; injection E as <- <-; cbn [start_prio table_no flows_map sm_match sm_table_id sm_idle_timeout sm_hard_timeout sm_actions sm_priority].
  - split; [by rewrite Z.add_0_r|]. split; [done|]. intros k c' fm'. cbn [length Nat.add]. by rewrite next_prio.
  - split; [done|]. split; [done|]. intros k c' fm'. done.
Qed.

Lemma push_flows_sent flows s : let '(s', fms) := push_flows flows s in let cs := map object_items flows in
  length fms = length cs /\ flows_map s' = flows_map s /\
  (forall i c fm, cs !! i = Some c -> fms !! i = Some fm -> sent_for s (length (automatic (take i cs))) c fm) /\
  forall k c fm, sent_for s' k c fm -> sent_for s (length (automatic cs) + k) c fm.
Proof.
  revert s. induction flows as [|f flows IH]; intros s; cbn [push_flows map]; [done|].
  pose proof (sent_one (object_items f) s) as Hone. destruct (formFlowMod _ s) as [s1 fm1]. destruct Hone as (H1 & Hm1 & Hk1).
  specialize (IH s1). destruct (push_flows flows s1) as [s2 fms]. destruct IH as (Hl & Hm & Hi & Hk).
  split; [cbn; by rewrite Hl|]. split; [congruence|].
  assert (Happ : forall l, length (automatic (object_items f :: l)) = (length (automatic [object_items f]) + length (automatic l))%nat).
  { intros l. unfold automatic. cbn [List.filter]. by destruct (_ =? 0). }
  split.
  - intros [|i] c fm Hc Hfm; cbn in Hc, Hfm; [by simplify_eq|]. cbn [take]. rewrite Happ. by apply Hk1, Hi.
  - intros k c fm Hs. rewrite Happ, <- Nat.add_assoc. by apply Hk1, Hk.
Qed.

Lemma push_flows_app f1 f2 s : push_flows (f1 ++ f2) s =
  let '(s, fms1) := push_flows f1 s in let '(s, fms2) := push_flows f2 s in (s, fms1 ++ fms2).
Proof.
  revert s. induction f1 as [|f f1 IH]; intros s; cbn [push_flows app]; [by destruct (push_flows f2 s)|].
  destruct (formFlowMod _ s) as [s1 fm]. rewrite IH. destruct (push_flows f1 s1) as [s2 fms1]. by destruct (push_flows f2 s2).
Qed.

Lemma run_flows dps s : sf_run dps s = push_flows (concat (map (fun dp => listed "all"%string s ++ listed (idstr (sw_id dp)) s) dps)) s.
Proof.
  revert s. induction dps as [|dp dps IH]; intros s; cbn [sf_run map concat]; [done|]. unfold sf_onSwitchUp.
  rewrite !push_flows_app. pose proof (push_flows_sent (listed "all"%string s) s) as H1. destruct (push_flows _ s) as [s1 fms1]. destruct H1 as (_ & Hm1 & _).
  assert (Hl : listed (idstr (sw_id dp)) s1 = listed (idstr (sw_id dp)) s) by (unfold listed; by rewrite Hm1). rewrite Hl.
  pose proof (push_flows_sent (listed (idstr (sw_id dp)) s) s1) as H2. destruct (push_flows _ s1) as [s2 fms2]. destruct H2 as (_ & Hm2 & _).
  rewrite IH. assert (Hf : forall key, listed key s2 = listed key s) by (intros key; unfold listed; by rewrite Hm2, Hm1).
  assert (Hall : map (fun dp => listed "all"%string s2 ++ listed (idstr (sw_id dp)) s2) dps = map (fun dp => listed "all"%string s ++ listed (idstr (sw_id dp)) s) dps).
  { apply map_ext. intros d. by rewrite !Hf. }
  rewrite Hall. by destruct (push_flows _ s2) as [s3 fms3].
Qed.

(** C24: switches that come up get the flows that the configuration lists for all and for
    them, in this order, in the table that is reserved.  A flow matches what its keys
    give, and nothing for a key that is missing, and IPv4 exactly when it has a network
    address; its output, if it has a port, and its timeouts are those of the
    configuration.  A flow without a priority gets the next number from the start on,
    counted over all flows of all switches, cut to 16 bits. *)
Theorem static_flows_sent dps s s' fms : sf_run dps s = (s', fms) ->
  length fms = length (configured dps s) /\
  forall i c fm, configured dps s !! i = Some c -> fms !! i = Some fm -> sent_for s (length (automatic (take i (configured dps s)))) c fm.
Proof.
  rewrite run_flows. intros E. pose proof (push_flows_sent (concat (map (fun dp => listed "all"%string s ++ listed (idstr (sw_id dp)) s) dps)) s) as Hs.
  rewrite E in Hs. cbv zeta in Hs. rewrite concat_map, map_map in Hs. by destruct Hs as (Hl & _ & Hi & _).
Qed.

(** Any flow that matches or rewrites a network address matches the type of IPv4, once. *)
Lemma static_prerequisites fd s : existsb is_ip_oxm (sm_match (formFlowMod fd s).2) || rewrites_ip (formFlowMod fd s).2 = true ->
  eth_types (sm_match (formFlowMod fd s).2) = [0x0800].
Proof. intros Hi. apply formFlowMod_ip in Hi. by rewrite formFlowMod_types, Hi. Qed.
End static.

(** * Examples: an address that is its text *)

Definition text_number (s : string) : Z := fold_left (fun n c => n * 256 + char_code c) (chars s) 0.
#[export] Instance text_addresses : FluidAddresses string string := {
  eth_default := no_eth; eth_of := fun s => s; eth_to_string := fun a => a;
  ip_default := no_ip; ip_of := fun s => s; getIPv4 := text_number; IPv4from_string := text_number;
}.
#[export] Instance text_laws : FluidLaws string string.
Proof. by split. Qed.

Local Open Scope string_scope.
Definition demo_pusher : pusher (double := Z) := Pusher 1 3
  [("0000000000000002", JArray [JObject [("ip_src", JString "10.0.0.1"); ("out_port", JString "to-controller")]]);
   ("all", JArray [JObject [("in_port", JInt 1); ("out_port", JInt 2)]; JObject [("priority", JInt 7)]])].
Definition demo_dp (id : Z) : switch := new_switch (FeaturesReply id 0 0 0).

Lemma static_flows_sent_witness : exists s' fms, sf_run (eth := string) (ip := string) [demo_dp 1; demo_dp 2] demo_pusher = (s', fms) /\
  map sm_priority fms = [1; 7; 2; 7; 3] /\
  sm_match <$> fms !! 4%nat = Some [sf_ip_src "10.0.0.1"; sf_eth_type 0x0800] /\ length fms = 5%nat.
Proof.
  eexists _, _. split; [vm_compute; reflexivity|]. split; [reflexivity|]. split; [reflexivity|].
  match goal with |- length ?l = _ => assert (Hl : length l = length (configured [demo_dp 1; demo_dp 2] demo_pusher)) end.
  { eapply (static_flows_sent (eth := string) (ip := string) [demo_dp 1; demo_dp 2] demo_pusher). vm_compute. reflexivity. }
  rewrite Hl. vm_compute. reflexivity.
Defined.

(** The numbers start over at 0 after 65535 of them, below those that were given before. *)
Lemma static_priority_wraps (dps : list switch) s s' (fms : list (sf_mod (eth := string) (ip := string))) i c fm :
  sf_run (double := Z) dps s = (s', fms) -> start_prio s = 1 -> configured dps s !! i = Some c -> fms !! i = Some fm ->
  u16 (config_get_int c "priority" 0) = 0 -> length (automatic (eth := string) (ip := string) (take i (configured dps s))) = Z.to_nat 65535 -> sm_priority fm = 0.
Proof.
  intros E Hs Hc Hfm Hp Hk. rewrite run_flows in E. pose proof (push_flows_sent (eth := string) (ip := string) (concat (map (fun dp => listed "all" s ++ listed (idstr (sw_id dp)) s)%list dps)) s) as Hr.
  rewrite E in Hr. cbv zeta in Hr. rewrite concat_map, map_map in Hr. destruct Hr as (_ & _ & Hi & _).
  destruct (Hi i c fm Hc Hfm) as (_ & _ & _ & _ & _ & Hprio). rewrite Hprio, Hp, Hs. cbv zeta. cbn [Z.eqb].
  unfold configured in Hk. rewrite Hk. rewrite Z2Nat.id by lia. reflexivity.
Qed.
Local Close Scope string_scope.
