(* ===== verification/Applications.v ===== *)
(** * The applications of the controller and how they are put together
      (the macros REGISTER_APPLICATION and SIMPLE_APPLICATION, the [init] functions of
      the applications, the set-up half of src/Controller.cc, src/Main.cc)

    Each application has a name, dependencies and an [init] that asks the loader for
    other applications and registers with the controller and with the REST server.
    The loader (Loader.v) runs them: [app_of] is an application with its body. *)

From S2P Require Import Prelude Json JsonRoundtrip RaftTypes Dispatch RestListener Loader StaticFlows.
Local Open Scope Z_scope.

(** ** What an application does in its [init]

    Connections of signals, timers and numbers read from the configuration are left out:
    they can not fail and the other applications do not see them. *)

Inductive method := GET | PUT | POST | DELETE.

Inductive init_call :=
| get (interface : string)
| registerHandler (name : string)
| registerFlood
| call_reserveTable
| call_registerStaticTransaction
| call_registerRestHandler (handler : rest_handler)
| acceptPath (m : method) (path : string)
| reads_static_flows
| reads_peers.

#[export] Instance method_dec : EqDecision method.
Proof. solve_decision. Defined.
#[export] Instance rest_handler_dec : EqDecision rest_handler.
Proof. solve_decision. Defined.
#[export] Instance init_call_dec : EqDecision init_call.
Proof. solve_decision. Defined.

(** A static object made by REGISTER_APPLICATION. *)
Record app_class := AppClass { ac_name : string; ac_deps : list string; ac_init : list init_call }.

(** [RestHandler] by its virtual functions; the defaults are those of src/Rest.hh. *)
Definition rest_service (name : string) (eventable : bool) : rest_handler := RestHandler name name "none" "Service" eventable 0.

Definition Controller_class : app_class := AppClass "controller" [EmptyString] [].

Definition RestListener_class : app_class := AppClass "rest-listener" ["controller"; EmptyString] [].

Definition SwitchManager_class : app_class := AppClass "switch-manager" ["controller"; "rest-listener"; EmptyString]
  [get "controller"; call_registerStaticTransaction; call_registerStaticTransaction; get "rest-listener";
   call_registerRestHandler (RestHandler "switch-manager" "Switch Manager" "switch.html" "Application" true 0); acceptPath GET "switches/all"].

Definition LinkDiscovery_class : app_class := AppClass "link-discovery" ["switch-manager"; "controller"; EmptyString]
  [get "controller"; get "switch-manager"; registerHandler "link-discovery"].

Definition Topology_class : app_class := AppClass "topology" ["link-discovery"; "rest-listener"; EmptyString]
  [get "link-discovery"; get "rest-listener";
   call_registerRestHandler (RestHandler "topology" "Topology" "topology.html" "Application" true 0); acceptPath GET "links"].

Definition STP_class : app_class := AppClass "stp" ["controller"; "switch-manager"; "link-discovery"; "topology"; EmptyString]
  [get "link-discovery"; get "controller"; registerFlood; get "switch-manager"; get "topology"].

Definition HostManager_class : app_class := AppClass "host-manager" ["switch-manager"; "rest-listener"; EmptyString]
  [get "switch-manager"; get "controller"; registerHandler "host-manager"; get "rest-listener";
   call_registerRestHandler (rest_service "host-manager" true); acceptPath GET "hosts"].

Definition ArpHandler_class : app_class := AppClass "arp-handler" ["controller"; "switch-manager"; "host-manager"; EmptyString]
  [get "controller"; get "host-manager"; registerHandler "arp-handler"].

Definition LearningSwitch_class : app_class := AppClass "learning-switch" ["controller"; "topology"; EmptyString]
  [get "controller"; get "topology"; registerHandler "forwarding"].

Definition SimpleLearningSwitch_class : app_class := AppClass "simple-learning-switch" ["controller"; EmptyString]
  [get "controller"; registerHandler "forwarding"].

Definition CBench_class : app_class := AppClass "cbench" ["controller"; EmptyString] [get "controller"; registerHandler "cbench"].

Definition WebUIManager_class : app_class := AppClass "webui" ["switch-manager"; "host-manager"; "rest-listener"; EmptyString]
  [get "switch-manager"; get "host-manager"; get "rest-listener";
   call_registerRestHandler (RestHandler "webui" "webui" "none" "None" false 0);
   acceptPath GET "webinfo/all"; acceptPath GET "webinfo/[0-9]+"; acceptPath PUT "coord/[0-9]+"; acceptPath PUT "name/[0-9]+"].

Definition RestMultipart_class : app_class := AppClass "rest-multipart" ["controller"; "switch-manager"; "rest-listener"; EmptyString]
  [get "controller"; get "switch-manager"; get "rest-listener";
   call_registerRestHandler (RestHandler "rest-multipart" "rest-multipart" "none" "None" false 0);
   acceptPath GET "flow/[0-9]+"; acceptPath POST "flow/[0-9]+"; acceptPath GET "port/[0-9]+/(all|[0-9]+)"; acceptPath GET "port-desc/[0-9]+";
   acceptPath GET "switch/(all|[0-9]+)"; acceptPath GET "aggregate-flow/[0-9]+"; acceptPath POST "aggregate-flow/[0-9]+";
   acceptPath GET "table/[0-9]+"; acceptPath GET "queue/[0-9]+/(all|[0-9]+)/(all|[0-9]+)"; call_registerStaticTransaction].

Definition RestFlowMod_class : app_class := AppClass "rest-flowmod" ["controller"; "switch-manager"; "rest-listener"; EmptyString]
  [get "controller"; get "switch-manager"; call_reserveTable; get "rest-listener"; call_registerRestHandler (rest_service "rest-flowmod" false);
   acceptPath POST "flowentry"; acceptPath POST "flowentry/delete"; acceptPath POST "flowentry/delete_strict"; acceptPath DELETE "flowentry/clear/[0-9]+"].

Definition FlowManager_class : app_class := AppClass "flow-manager" ["controller"; "switch-manager"; "rest-listener"; EmptyString]
  [get "controller"; get "switch-manager"; get "rest-listener"; call_registerRestHandler (rest_service "flow-manager" true);
   call_registerStaticTransaction; acceptPath GET "[0-9]+"; acceptPath DELETE "[0-9]+/[0-9]+"].

Definition SwitchStats_class : app_class := AppClass "switch-stats" ["switch-manager"; "controller"; "rest-listener"; EmptyString]
  [get "switch-manager"; get "controller"; call_registerStaticTransaction; get "rest-listener";
   call_registerRestHandler (rest_service "switch-stats" false); acceptPath GET "port/[0-9]+/(all|[0-9]+)"].

Definition StaticFlowPusher_class : app_class := AppClass "static-flow-pusher" ["controller"; "switch-manager"; "rest-listener"; EmptyString]
  [get "controller"; call_registerStaticTransaction; call_reserveTable; get "switch-manager"; get "rest-listener";
   call_registerRestHandler (rest_service "static-flow-pusher" false); acceptPath POST "newflow/[0-9]+"; reads_static_flows].

Definition Messaging_class : app_class := AppClass "messaging" ["controller"; EmptyString]
  [get "controller"; get "link-discovery"; get "host-manager"; reads_peers].

(** All of them; the order in which static objects of different files are made is not
    known, so the theorems are about every order. *)
Definition classes : list app_class :=
  [Controller_class; RestListener_class; SwitchManager_class; LinkDiscovery_class; Topology_class; STP_class; HostManager_class; ArpHandler_class;
   LearningSwitch_class; SimpleLearningSwitch_class; CBench_class; WebUIManager_class; RestMultipart_class; RestFlowMod_class; FlowManager_class;
   SwitchStats_class; StaticFlowPusher_class; Messaging_class].

(** ** The configuration of the replication *)

Section setup.
Context {double : Type} `{Doubles double}.
Abbreviation Config := (list (string * json double)).

Definition read_peer (jpeer : json double) : peer_info_t :=
  let cc := object_items jpeer in
  new_peer (config_get_string cc "name" EmptyString) (config_get_string cc "ip" EmptyString) (config_get_int cc "port" 0) (config_get_int cc "cport" 0).

(** [Messaging::init]: the peers, and the one that this controller is; its name is
    looked up for the names of files, whatever the configuration says of them. *)
Definition read_peers (rootConfig : Config) : res load_error (list peer_info_t * peer_info_t) :=
  let app_config := config_cd rootConfig "messaging" in
  match obj_find "peers" app_config with
  | None => Throw out_of_range
  | Some jpeers =>
      let peers := map read_peer (array_items jpeers) in
      let myidx := config_get_int app_config "myidx" 0 in
      match (if myidx <? 0 then None else peers !! Z.to_nat myidx) with
      | None => Throw overrun
      | Some me => Ok (peers, me)
      end
  end.

(** ** The controller while it is put together *)

(** [ControllerImpl] before switches connect: the handlers with the application whose
    factory they are, the pipeline, whose implementation of flooding it has, and
    [cbench], which has no value until [startUp] gives it one.  Then the applications
    that are initialised, the REST server, and what the applications were given. *)
Record setup := Setup {
  su_controller : controller;
  handlers : gmap string string;
  pipeline_factory : list (string * string);
  flood_of : option string;
  su_cbench : option bool;
  su_ready : list string;
  su_rest : rest_listener;
  su_pathes : list (string * (method * string));
  su_tables : list (string * Z);
  su_xids : list (string * Z);
}.

Definition new_setup : setup := Setup (controller_start 0 0) ∅ [] None None [] new_listener [] [] [].

Definition set_handler (name app : string) (s : setup) : setup :=
  Setup (su_controller s) (<[name := app]> (handlers s)) (pipeline_factory s) (flood_of s) (su_cbench s) (su_ready s) (su_rest s) (su_pathes s) (su_tables s) (su_xids s).
Definition set_flood (app : string) (s : setup) : setup :=
  Setup (su_controller s) (handlers s) (pipeline_factory s) (Some app) (su_cbench s) (su_ready s) (su_rest s) (su_pathes s) (su_tables s) (su_xids s).
Definition add_table (app : string) (s : setup) : setup :=
  let '(t, c) := reserveTable (su_controller s) in
  Setup c (handlers s) (pipeline_factory s) (flood_of s) (su_cbench s) (su_ready s) (su_rest s) (su_pathes s) (su_tables s ++ [(app, t)]) (su_xids s).
Definition add_transaction (app : string) (s : setup) : setup :=
  let '(xid, c) := registerStaticTransaction (length (static_ofresponse (su_controller s))) (su_controller s) in
  Setup c (handlers s) (pipeline_factory s) (flood_of s) (su_cbench s) (su_ready s) (su_rest s) (su_pathes s) (su_tables s)
    (su_xids s ++ match xid with Some x => [(app, x)] | None => [] end).
Definition add_rest (handler : rest_handler) (s : setup) : setup :=
  Setup (su_controller s) (handlers s) (pipeline_factory s) (flood_of s) (su_cbench s) (su_ready s) (registerRestHandler (su_rest s) handler) (su_pathes s) (su_tables s) (su_xids s).
Definition add_path (app : string) (m : method) (path : string) (s : setup) : setup :=
  Setup (su_controller s) (handlers s) (pipeline_factory s) (flood_of s) (su_cbench s) (su_ready s) (su_rest s) (su_pathes s ++ [(app, (m, path))]) (su_tables s) (su_xids s).
Definition set_ready (app : string) (s : setup) : setup :=
  Setup (su_controller s) (handlers s) (pipeline_factory s) (flood_of s) (su_cbench s) (su_ready s ++ [app]) (su_rest s) (su_pathes s) (su_tables s) (su_xids s).

(** [Controller::registerHandler] and [registerFlood]: refused once started; of the
    handlers of one name the last stays, of the implementations of flooding the first. *)
Definition register_handler (name app : string) (s : setup) : setup :=
  if started (su_controller s) then s else set_handler name app s.
Definition register_flood (app : string) (s : setup) : setup :=
  if started (su_controller s) then s else match flood_of s with Some _ => s | None => set_flood app s end.

Variable config : Config.

(** What stops a call: an application that is not initialised, or the configuration. *)
Definition call_check (ready : list string) (c : init_call) : res load_error unit :=
  match c with
  | get interface => if bool_decide (interface ∈ ready) then Ok tt else Throw out_of_range
  | reads_static_flows => sf_init 0 config ≫= fun _ => Ok tt
  | reads_peers => read_peers config ≫= fun _ => Ok tt
  | _ => Ok tt
  end.

Definition call_effect (app : string) (s : setup) (c : init_call) : setup :=
  match c with
  | registerHandler name => register_handler name app s
  | registerFlood => register_flood app s
  | call_reserveTable => add_table app s
  | call_registerStaticTransaction => add_transaction app s
  | call_registerRestHandler handler => add_rest handler s
  | acceptPath m path => add_path app m path s
  | get _ | reads_static_flows | reads_peers => s
  end.

Fixpoint run_calls (app : string) (cs : list init_call) (s : setup) : res load_error setup :=
  match cs with
  | [] => Ok s
  | c :: cs => call_check (su_ready s) c ≫= fun _ => run_calls app cs (call_effect app s c)
  end.

Definition class_of (n : string) : option app_class := List.find (fun c => bool_decide (ac_name c = n)) classes.
Definition calls_of (n : string) : list init_call := match class_of n with Some c => ac_init c | None => [] end.

(** [Controller::startUp]: the pipeline of the configuration, by name. *)
Fixpoint make_pipeline (names : list string) (hs : gmap string string) : res load_error (list (string * string)) :=
  match names with
  | [] => Ok []
  | n :: names => match hs !! n with None => Throw out_of_range | Some f => make_pipeline names hs ≫= fun p => Ok ((n, f) :: p) end
  end.

Definition pipeline_names : option (list string) :=
  match obj_find "pipeline" (config_cd config "controller") with Some p => Some (map string_value (array_items p)) | None => None end.

Definition set_started (c : controller) : controller :=
  ControllerImpl (switches c) (app_data c) (next_cookie c) (handler_table c) true (static_ofresponse c) (min_session_xid c) (emitted c).

Definition controller_startUp (s : setup) : res load_error setup :=
  match pipeline_names with
  | None => Throw out_of_range
  | Some names =>
      make_pipeline names (handlers s) ≫= fun p =>
      Ok (Setup (set_started (su_controller s)) (handlers s) (pipeline_factory s ++ p) (flood_of s)
            (Some (config_get_bool (config_cd config "controller") "cbench" false)) (su_ready s) (su_rest s) (su_pathes s) (su_tables s) (su_xids s))
  end.

(** What the threads of the applications do, in the order of the loader. *)
Definition run_event (e : app_event) (s : setup) : res load_error setup :=
  match e with
  | app_init n _ => run_calls n (calls_of n) s ≫= fun s => Ok (set_ready n s)
  | app_start n => if bool_decide (n = "controller") then controller_startUp s else Ok s
  end.

Fixpoint run_events (h : list app_event) (s : setup) : res load_error setup :=
  match h with
  | [] => Ok s
  | e :: h => run_event e s ≫= run_events h
  end.

(** [loadConfig] of src/Main.cc on the text of the file; an error is fatal. *)
Definition load_config (text : list ascii) (profile : string) : option (res load_error Config) :=
  '(j, err) ← json_parse text;
  Some (match err with
        | [] => Ok (match obj_find profile (object_items j) with Some v => object_items v | None => [] end)
        | _ => Throw fatal
        end).
End setup.

(** The application of a class, as the loader sees it: its [init] and [startUp] find what
    the calls before have left. *)
Definition app_of {double : Type} `{Doubles double} (c : app_class) : application (double := double) :=
  App (ac_name c) (fun _ => ac_deps c)
    (fun config h => run_events config h new_setup ≫= fun s => run_calls config (ac_name c) (ac_init c) s ≫= fun _ => Ok tt)
    (fun config h => run_events config h new_setup ≫= fun s => run_event config (app_start (ac_name c)) s ≫= fun _ => Ok tt).

(** * The initialisations follow the dependencies *)

Definition names : list string := map ac_name classes.

(** What an application may ask for: what it depends on and what that depends on. *)
Definition deps_of_class (n : string) : list string := match class_of n with Some c => until_empty (ac_deps c) | None => [] end.
Definition reachable (n : string) : list string := deps_of_class n ++ (deps_of_class n ≫= deps_of_class).
Definition gets (n : string) : list string := omap (fun c => match c with get i => Some i | _ => None end) (calls_of n).

Definition rank (n : string) : nat := match list_find (fun m => m = n) names with Some (i, _) => i | None => 0 end.

(** The facts about the list of the applications, by computation. *)
Lemma classes_sound :
  NoDup names /\
  Forall (fun c => EmptyString ∈ ac_deps c /\ Forall (fun d => d ∈ names /\ (rank d < rank (ac_name c))%nat /\ d <> "messaging"%string) (until_empty (ac_deps c))) classes /\
  Forall (fun c => class_of (ac_name c) = Some c) classes /\
  Forall (fun n => n = "messaging"%string \/ (Forall (fun d => d ∈ reachable n) (gets n) /\ reads_peers ∉ calls_of n)) names.
Proof.
  split; [apply (bool_decide_unpack _); vm_compute; done|].
  split; [apply (bool_decide_unpack _); vm_compute; done|].
  split; [repeat constructor|]. apply (bool_decide_unpack _). vm_compute. done.
Qed.

Lemma class_of_name n c : class_of n = Some c -> ac_name c = n /\ c ∈ classes.
Proof. intros [Hin Hn]%find_some. apply bool_decide_eq_true in Hn. split; [done|]. by apply list_elem_of_In. Qed.

Lemma class_of_known n : n ∈ names -> exists c, class_of n = Some c.
Proof.
  intros (c & -> & Hc)%list_elem_of_fmap. exists c. destruct classes_sound as (_ & _ & Hf & _). by apply (proj1 (Forall_forall _ _) Hf).
Qed.

(** * What the calls of one application leave behind *)

Section effects.
Context {double : Type} `{Doubles double} (config : list (string * json double)).

Definition reservations (cs : list init_call) : nat := sum_list_with (fun c => match c with call_reserveTable => 1%nat | _ => 0%nat end) cs.

(** The tables that were given out, and the next one. *)
Definition tables_inv (s : setup) : Prop :=
  map snd (su_tables s) = map (fun i => u8 (Z.of_nat i)) (seq 0 (length (su_tables s))) /\
  handler_table (su_controller s) = u8 (Z.of_nat (length (su_tables s))).

Lemma u8_succ k : u8 (u8 (Z.of_nat k) + 1) = u8 (Z.of_nat (S k)).
Proof. unfold wrap. rewrite Zplus_mod_idemp_l. f_equal. lia. Qed.

Lemma add_table_inv a s : tables_inv s -> tables_inv (add_table a s).
Proof.
  intros [H1 H2]. unfold tables_inv, add_table, reserveTable. cbn [su_tables su_controller handler_table].
  rewrite length_app, Nat.add_1_r, seq_S, !map_app, H1, H2, u8_succ. cbn. done.
Qed.

(** One call. *)
Lemma effect_one a s c : started (su_controller s) = false ->
  let s' := call_effect a s c in
  started (su_controller s') = false /\ su_ready s' = su_ready s /\
  (forall k x, handlers s' !! k = Some x -> (x = a /\ c = registerHandler k) \/ handlers s !! k = Some x) /\
  (forall k, is_Some (handlers s' !! k) <-> is_Some (handlers s !! k) \/ c = registerHandler k) /\
  length (su_tables s') = (length (su_tables s) + reservations [c])%nat /\
  (tables_inv s -> tables_inv s').
Proof.
  intros Hs. unfold tables_inv. destruct c; cbn [call_effect]; unfold register_handler, register_flood, add_transaction, registerStaticTransaction; rewrite ?Hs;
    try (split_and!; [done|done|by intros; right|intros k; naive_solver|cbn; lia|done]).
  - split_and!; [done|done| | |cbn; lia|done]; cbn [handlers set_handler]; intros k.
    + intros x. rewrite lookup_insert_Some. naive_solver.
    + rewrite lookup_insert_is_Some. destruct (decide (name = k)); naive_solver.
  - destruct (flood_of s); split_and!; try done; try (by intros; right); try (intros k; naive_solver); cbn; lia.
  - split_and!; [done|done|by intros; right|intros k; cbn; naive_solver| |apply add_table_inv].
    unfold add_table, reserveTable. cbn. rewrite length_app. done.
Qed.

Lemma calls_effects a cs : forall s, started (su_controller s) = false ->
  let s' := foldl (call_effect a) s cs in
  started (su_controller s') = false /\ su_ready s' = su_ready s /\
  (forall k x, handlers s' !! k = Some x -> (x = a /\ registerHandler k ∈ cs) \/ handlers s !! k = Some x) /\
  (forall k, is_Some (handlers s' !! k) <-> is_Some (handlers s !! k) \/ registerHandler k ∈ cs) /\
  length (su_tables s') = (length (su_tables s) + reservations cs)%nat /\
  (tables_inv s -> tables_inv s').
Proof.
  induction cs as [|c cs IH]; intros s Hs; cbn [foldl].
  { split_and!; [done|done|by intros; right| |cbn; lia|done]. intros k. rewrite elem_of_nil. tauto. }
  destruct (effect_one a s c Hs) as (H1 & H2 & H3 & H4 & H5 & H6). destruct (IH _ H1) as (I1 & I2 & I3 & I4 & I5 & I6).
  split_and!; [done|congruence| | | |auto].
  - intros k x [[-> Hk]|Hk]%I3; [left; split; [done|by right]|]. apply H3 in Hk as [[-> ->]|Hk]; [left; split; [done|by left]|by right].
  - intros k. rewrite I4, H4, elem_of_cons. split; [intros [[?|?]|?]; subst; auto|intros [?|[?|?]]; auto].
  - rewrite I5, H5. unfold reservations. cbn. lia.
Qed.

Lemma run_calls_ok a cs : forall s, started (su_controller s) = false -> (forall c, c ∈ cs -> call_check config (su_ready s) c = Ok tt) ->
  run_calls config a cs s = Ok (foldl (call_effect a) s cs).
Proof.
  induction cs as [|c cs IH]; intros s Hs Hc; [done|]. cbn [run_calls foldl]. rewrite Hc by (by left). cbn.
  destruct (effect_one a s c Hs) as (H1 & H2 & _). apply IH; [done|]. intros c' Hc'. rewrite H2. apply Hc. by right.
Qed.

(** A call succeeds if what it asks for is initialised and what it reads is there. *)
Lemma calls_checked n ready : (exists p, sf_init 0 config = Ok p) -> (forall d, d ∈ gets n -> d ∈ ready) -> reads_peers ∉ calls_of n ->
  forall c, c ∈ calls_of n -> call_check config ready c = Ok tt.
Proof.
  intros [p Hp] Hg Hr c Hc. destruct c; cbn; try done.
  - rewrite bool_decide_true; [done|]. apply Hg. unfold gets. apply list_elem_of_omap. by exists (get interface).
  - by rewrite Hp.
Qed.

(** ** A sequence of initialisations *)

Record setup_inv (inits : list string) (s : setup) : Prop := {
  si_started : started (su_controller s) = false;
  si_ready : su_ready s = inits;
  si_owner k x : handlers s !! k = Some x -> x ∈ inits /\ registerHandler k ∈ calls_of x;
  si_handlers k : is_Some (handlers s !! k) <-> exists n, n ∈ inits /\ registerHandler k ∈ calls_of n;
  si_count : length (su_tables s) = sum_list_with (fun n => reservations (calls_of n)) inits;
  si_tables : tables_inv s;
  si_pipeline : pipeline_factory s = [];
}.

Lemma calls_pipeline a cs s : pipeline_factory (foldl (call_effect a) s cs) = pipeline_factory s.
Proof.
  revert s. induction cs as [|c cs IH]; intros s; [done|]. cbn [foldl]. rewrite IH.
  destruct c; cbn; unfold register_handler, register_flood, add_transaction; try done; [by destruct (started _)|by destruct (started _), (flood_of s)|by destruct (registerStaticTransaction _ _)].
Qed.

Lemma new_setup_inv : setup_inv [] new_setup.
Proof.
  split; try done. intros k. cbn. rewrite lookup_empty, is_Some_alt. setoid_rewrite elem_of_nil. naive_solver.
Qed.

Lemma run_init_inv inits n t s : setup_inv inits s -> (exists p, sf_init 0 config = Ok p) -> (forall d, d ∈ gets n -> d ∈ inits) -> reads_peers ∉ calls_of n ->
  exists s', run_event config (app_init n t) s = Ok s' /\ setup_inv (inits ++ [n]) s'.
Proof.
  intros [H1 H2 H3 H4 H5 H6 H7] Hp Hg Hr. cbn [run_event]. rewrite run_calls_ok; [|done|rewrite H2; by apply calls_checked].
  destruct (calls_effects n (calls_of n) s H1) as (I1 & I2 & I3 & I4 & I5 & I6).
  eexists. split; [reflexivity|]. split; cbn [set_ready su_controller su_ready handlers su_tables pipeline_factory].
  - done.
  - by rewrite I2, H2.
  - intros k x [[-> Hk]|Hk]%I3; rewrite elem_of_app, list_elem_of_singleton; [auto|]. apply H3 in Hk as [??]. auto.
  - intros k. rewrite I4, H4. setoid_rewrite elem_of_app. setoid_rewrite list_elem_of_singleton. naive_solver.
  - rewrite I5, H5, sum_list_with_app. cbn. lia.
  - by apply I6.
  - by rewrite calls_pipeline.
Qed.

Lemma run_events_app h1 h2 s : run_events config (h1 ++ h2) s = run_events config h1 s ≫= run_events config h2.
Proof. revert s. induction h1 as [|e h1 IH]; intros s; [done|]. cbn. destruct (run_event config e s) as [s'|]; [|done]. cbn. apply IH. Qed.

Lemma run_inits inits : start_names inits = [] -> (exists p, sf_init 0 config = Ok p) ->
  (forall h1 n t h2, inits = h1 ++ app_init n t :: h2 -> (forall d, d ∈ gets n -> d ∈ init_names h1) /\ reads_peers ∉ calls_of n) ->
  exists s, run_events config inits new_setup = Ok s /\ setup_inv (init_names inits) s.
Proof.
  intros Hstart Hp. induction inits as [|e inits IH] using rev_ind; intros Hord; [exists new_setup; split; [done|apply new_setup_inv]|].
  unfold start_names in *. rewrite omap_app in Hstart. apply app_eq_nil in Hstart as [Hs1 Hs2].
  destruct IH as (s & E & Hinv); [done| |].
  { intros h1 n t h2 ->. apply (Hord h1 n t (h2 ++ [e])). by rewrite <- app_assoc. }
  destruct e as [n t|n]; [|done]. destruct (Hord inits n t []) as [Hg Hr]; [done|].
  destruct (run_init_inv (init_names inits) n t s Hinv Hp Hg Hr) as (s' & E' & Hinv').
  exists s'. rewrite run_events_app, E. cbn [mbind]. rewrite init_names_app. split; [|done]. cbn in *. by rewrite E'.
Qed.

(** ** Starting *)

Lemma make_pipeline_ok hs ns : (forall n, n ∈ ns -> is_Some (hs !! n)) ->
  exists p, make_pipeline ns hs = Ok p /\ map fst p = ns /\ forall n f, (n, f) ∈ p -> hs !! n = Some f.
Proof.
  induction ns as [|n ns IH]; intros Hn; cbn [make_pipeline]; [exists []; split_and!; [done|done|by intros ??[]%elem_of_nil]|].
  destruct (Hn n ltac:(by left)) as [f Hf]. rewrite Hf. destruct IH as (p & -> & <- & Hp); [intros; apply Hn; by right|].
  exists ((n, f) :: p). split_and!; [done|done|]. intros m g [[= -> ->]|Hm]%elem_of_cons; auto.
Qed.

Lemma make_pipeline_missing hs ns n : n ∈ ns -> hs !! n = None -> make_pipeline ns hs = Throw out_of_range.
Proof.
  intros Hn Hh. induction ns as [|m ns IH]; [by apply elem_of_nil in Hn|]. cbn [make_pipeline]. destruct (hs !! m) as [f|] eqn:Em; [|done].
  apply elem_of_cons in Hn as [->|Hn]; [congruence|]. by rewrite IH.
Qed.

(** Only the start of the controller does anything here, and it is started once. *)
Lemma run_starts ns s : NoDup ns -> run_events config (map app_start ns) s =
  if bool_decide ("controller"%string ∈ ns) then controller_startUp config s else Ok s.
Proof.
  revert s. induction ns as [|n ns IH]; intros s Hnd; [done|]. apply NoDup_cons in Hnd as [Hn Hnd]. cbn [map run_events run_event].
  destruct (decide (n = "controller"%string)) as [En|En]; [rewrite (bool_decide_true (n = _)) by done|rewrite (bool_decide_false (n = _)) by done].
  - subst n. rewrite (bool_decide_true ("controller"%string ∈ _ :: _)) by (by left). destruct (controller_startUp config s) as [s'|]; [|done]. cbn.
    rewrite IH by done. by rewrite bool_decide_false.
  - cbn. rewrite IH by done. rewrite (bool_decide_ext _ ("controller"%string ∈ n :: ns)); [done|]. rewrite elem_of_cons. naive_solver.
Qed.
End effects.

(** * The start-up of the controller *)

(** What the services need, directly or not. *)
Inductive needed_app (services : list string) : string -> Prop :=
| app_service n : n ∈ services -> needed_app services n
| app_dep n d : needed_app services n -> d ∈ deps_of_class n -> needed_app services d.

Definition registers (services : list string) (h app : string) : Prop := needed_app services app /\ registerHandler h ∈ calls_of app.

Section start.
Context {double : Type} `{Doubles double} (config : list (string * json double)).

Lemma class_deps n d : d ∈ deps_of_class n -> d ∈ names /\ (rank d < rank n)%nat /\ d <> "messaging"%string.
Proof.
  unfold deps_of_class. destruct (class_of n) as [c|] eqn:Ec; [|by intros ?%elem_of_nil]. apply class_of_name in Ec as [<- Hc].
  destruct classes_sound as (_ & Hd & _). rewrite Forall_forall in Hd. destruct (Hd c Hc) as [_ Hf]. rewrite Forall_forall in Hf. apply Hf.
Qed.

Lemma needed_known services n : (forall m, m ∈ services -> m ∈ names /\ m <> "messaging"%string) -> needed_app services n -> n ∈ names /\ n <> "messaging"%string.
Proof. intros Hs [n' Hn|n' d _ Hd]; [auto|]. by apply class_deps in Hd as (? & _ & ?). Qed.

(** The applications in the loader are those of the classes. *)
Abbreviation application := (application (double := double)).
Definition holds_classes (l : loader (double := double)) : Prop :=
  forall n, n ∈ names -> exists c s, class_of n = Some c /\ apps l !! n = Some (AppInfo (app_of c) s).

Lemma holds_deps l n i : holds_classes l -> n ∈ names -> apps l !! n = Some i -> deps_of config i = deps_of_class n.
Proof.
  intros Hl Hn Hi. destruct (Hl n Hn) as (c & s & Hc & Hi'). rewrite Hi in Hi'. injection Hi' as ->. unfold deps_of_class. by rewrite Hc.
Qed.

Lemma needed_classes l services n : holds_classes l -> (forall m, m ∈ services -> m ∈ names /\ m <> "messaging"%string) ->
  needed config services (apps l) n <-> needed_app services n.
Proof.
  intros Hl Hs. split.
  - induction 1 as [n Hn|n i d _ IH Hi Hd]; [by constructor|]. apply (app_dep services n); [done|].
    destruct (needed_known services n Hs IH) as [Hn _]. by rewrite <- (holds_deps l n i Hl Hn Hi).
  - induction 1 as [n Hn|n d Hn' IH Hd]; [by constructor|]. destruct (needed_known services n Hs Hn') as [Hn _].
    destruct (Hl n Hn) as (c & s & Hc & Hi). eapply (needed_dep _ _ _ n); [done|done|]. by rewrite (holds_deps l n _ Hl Hn Hi).
Qed.

Lemma reserved_bound inits : NoDup inits -> (forall n, n ∈ inits -> n ∈ names) -> (sum_list_with (fun n => reservations (calls_of n)) inits <= 2)%nat.
Proof.
  intros Hnd Hin. destruct (submseteq_Permutation inits names) as [k Hk]; [by apply NoDup_submseteq|].
  assert (E : sum_list_with (fun n => reservations (calls_of n)) names = 2%nat) by (vm_compute; done).
  rewrite Hk, sum_list_with_app in E. lia.
Qed.

Lemma tables_distinct inits s : setup_inv inits s -> NoDup inits -> (forall n, n ∈ inits -> n ∈ names) ->
  NoDup (map snd (su_tables s)) /\ forall a t, (a, t) ∈ su_tables s -> t < handler_table (su_controller s).
Proof.
  intros Hs Hnd Hin. pose proof (reserved_bound inits Hnd Hin) as Hb. rewrite <- (si_count _ _ Hs) in Hb. destruct (si_tables _ _ Hs) as [Ht ->].
  destruct (su_tables s) as [|[a1 t1] [|[a2 t2] [|]]]; cbn in *; [| | |lia].
  - split; [constructor|]. by intros ??[]%elem_of_nil.
  - injection Ht as ->. split; [apply (bool_decide_unpack _); by vm_compute|]. by intros a t [= -> ->]%list_elem_of_singleton.
  - injection Ht as -> ->. split; [apply (bool_decide_unpack _); by vm_compute|].
    intros a t. rewrite elem_of_cons, list_elem_of_singleton. by intros [[= -> ->]|[= -> ->]].
Qed.

Lemma startUp_spec inits s ps : setup_inv inits s -> pipeline_names config = Some ps -> 
  ((forall h, h ∈ ps -> exists n, n ∈ inits /\ registerHandler h ∈ calls_of n) -> exists s', controller_startUp config s = Ok s' /\
    map fst (pipeline_factory s') = ps /\ forall h a, (h, a) ∈ pipeline_factory s' -> a ∈ inits /\ registerHandler h ∈ calls_of a) /\
  (forall h, h ∈ ps -> (forall n, n ∈ inits -> registerHandler h ∉ calls_of n) -> controller_startUp config s = Throw out_of_range).
Proof.
  intros Hs Hps. unfold controller_startUp. rewrite Hps. split.
  - intros Hr. destruct (make_pipeline_ok (handlers s) ps) as (p & -> & <- & Hp); [intros h Hh; by apply (si_handlers _ _ Hs), Hr|].
    eexists. split; [reflexivity|]. cbn [pipeline_factory]. rewrite (si_pipeline _ _ Hs). split; [done|].
    intros h a Ha. by apply (si_owner _ _ Hs), Hp.
  - intros h Hh Hn. rewrite (make_pipeline_missing (handlers s) ps h); [done|done|]. apply eq_None_not_Some. intros (n & Hi & Hc)%(si_handlers _ _ Hs). by apply (Hn n).
Qed.

(** What was asked for is initialised before, since the dependencies are, and theirs. *)
Lemma gets_before l inits : holds_classes l -> (forall n, n ∈ init_names inits -> n ∈ names /\ n <> "messaging"%string) ->
  (forall h1 n t h2 i d, inits = h1 ++ app_init n t :: h2 -> apps l !! n = Some i -> d ∈ deps_of config i -> d ∈ init_names h1) ->
  forall h1 n t h2, inits = h1 ++ app_init n t :: h2 -> (forall d, d ∈ gets n -> d ∈ init_names h1) /\ reads_peers ∉ calls_of n.
Proof.
  intros Hl Hn Hord h1 n t h2 Eh. destruct classes_sound as (_ & _ & _ & Hg). rewrite Forall_forall in Hg.
  assert (Hin : n ∈ init_names inits) by (rewrite Eh, init_names_app; apply elem_of_app; right; by left).
  destruct (Hn n Hin) as [Hname Hmsg]. destruct (Hg n Hname) as [?|[Hr Hp]]; [done|]. split; [|done].
  assert (Hdep : forall h1 n t h2 d, inits = h1 ++ app_init n t :: h2 -> d ∈ deps_of_class n -> d ∈ init_names h1).
  { intros g1 m u g2 d Eg Hd. assert (Hm : m ∈ names) by (apply Hn; rewrite Eg, init_names_app; apply elem_of_app; right; by left).
    destruct (Hl m Hm) as (c & s & Hc & Hi). apply (Hord g1 m u g2 _ d Eg Hi). by rewrite (holds_deps l m _ Hl Hm Hi). }
  intros d Hd. rewrite Forall_forall in Hr. apply Hr in Hd. apply elem_of_app in Hd as [Hd|(m & Hd & Hm)%list_elem_of_bind]; [by eapply Hdep|].
  pose proof (Hdep _ _ _ _ _ Eh Hm) as Hm1. unfold init_names in Hm1. apply list_elem_of_omap in Hm1 as (e & He & Ee).
  destruct e as [m' u|]; [|done]. injection Ee as ->. apply list_elem_of_split in He as (g1 & g2 & ->).
  rewrite init_names_app. apply elem_of_app. left. apply (Hdep g1 m u (g2 ++ app_init n t :: h2)); [by rewrite Eh, <- app_assoc|done].
Qed.

(** The applications are sound, as far as the configuration is. *)
Lemma classes_startable registry order : (exists services, obj_find "services" config = Some services) -> (exists n, thread_count config = Ok n /\ 0 < n) ->
  registry ≡ₚ map app_of classes -> order ≡ₚ names -> (forall n, n ∈ service_names config -> n ∈ names) -> startable registry order config rank.
Proof.
  intros Hconfig Hthreads Hregistry Horder Hservices. destruct classes_sound as (Hnd & Hdeps & _). rewrite Forall_forall in Hdeps.
  assert (Hprov : provides <$> registry ≡ₚ names).
  { rewrite Hregistry. unfold names. change (map ac_name classes) with (ac_name <$> classes). by rewrite <- list_fmap_compose. }
  split; [done|done|by rewrite Hprov|by rewrite Hprov|intros n Hn; rewrite Hprov; by apply Hservices|].
  intros a Ha. rewrite Hregistry in Ha. apply list_elem_of_fmap in Ha as (c & -> & Hc). destruct (Hdeps c Hc) as [He Hd]. split; [done|].
  intros d Hd'. rewrite Hprov. rewrite Forall_forall in Hd. by apply Hd in Hd' as (? & ? & _).
Qed.

(** What has returned is a run of the bodies. *)
Lemma returned_run registry (Hregistry : registry ≡ₚ map app_of classes) l : returned registry config l -> exists s, run_events config (history l) new_setup = Ok s.
Proof.
  intros [_ Hr]. induction (history l) as [|e h IH] using rev_ind; [by exists new_setup|].
  destruct IH as [s Es]; [intros h1 e1 h2 Eh; apply (Hr h1 e1 (h2 ++ [e])); by rewrite Eh, <- app_assoc|].
  destruct (Hr h e []) as (a & Ha & Hn & Hc); [done|]. rewrite Hregistry in Ha. apply list_elem_of_fmap in Ha as (c & -> & Hin). cbn in Hn.
  assert (Ec : class_of (ac_name c) = Some c) by (destruct classes_sound as (_ & _ & Hf & _); by apply (proj1 (Forall_forall _ _) Hf)).
  rewrite run_events_app, Es. cbn [mbind res_bind run_events]. destruct e as [n t|n]; cbn in Hn; subst n; unfold call_of in Hc; cbn [app_of init startUp] in Hc; rewrite Es in Hc; cbn [mbind res_bind] in Hc.
  - cbn [run_event]. unfold calls_of. rewrite Ec. destruct (run_calls _ _ _ s) as [s'|]; [|done]. by eexists.
  - destruct (run_event config _ s) as [s'|]; [|done]. by exists s'.
Qed.

(** The initialisations of a start-up, followed; an application whose dependencies are
    there finds what it asks for. *)
Lemma inits_run debug registry order (Hregistry : registry ≡ₚ map app_of classes) l r : startAll debug registry order config new_loader = (l, r) ->
  (forall n, n ∈ service_names config -> n ∈ names /\ n <> "messaging"%string) -> (forall a, a ∈ registry -> exists s, apps l !! provides a = Some (AppInfo a s)) ->
  (exists p, sf_init 0 config = Ok p) ->
  exists inits starts s, history l = inits ++ map app_start starts /\ start_names inits = [] /\ NoDup (init_names inits) /\ NoDup starts /\
    run_events config inits new_setup = Ok s /\ setup_inv (init_names inits) s /\ (forall n, n ∈ init_names inits -> needed_app (service_names config) n) /\
    (forall n, needed config (service_names config) (apps l) n <-> needed_app (service_names config) n) /\
    forall n, needed_app (service_names config) n -> (forall d, d ∈ deps_of_class n -> d ∈ init_names inits) ->
      run_calls config n (calls_of n) s = Ok (foldl (call_effect n) s (calls_of n)).
Proof.
  intros E Hservices Happs Hflows.
  assert (Hl : holds_classes l).
  { intros n Hn. destruct (class_of_known n Hn) as [c Hc]. pose proof (class_of_name n c Hc) as [<- Hin].
    destruct (Happs (app_of c)) as [s Hs]; [rewrite Hregistry; by apply list_elem_of_fmap_2|]. by exists c, s. }
  destruct (startup_order debug registry order config l r E) as (_ & inits & ns & Hh & Hst & Hnd1 & Hnd2 & _ & _ & Hord).
  assert (Hneed : forall n, n ∈ init_names inits -> needed_app (service_names config) n).
  { intros n Hn. unfold init_names in Hn. apply list_elem_of_omap in Hn as (e & He & Ee). destruct e as [m t|]; [|done]. injection Ee as ->.
    apply list_elem_of_split in He as (h1 & h2 & He). destruct (Hord h1 n t h2 He) as (Hn & _). by apply (needed_classes l). }
  assert (Hdeps : forall h1 n t h2 i d, inits = h1 ++ app_init n t :: h2 -> apps l !! n = Some i -> d ∈ deps_of config i -> d ∈ init_names h1).
  { intros h1 n t h2 i d Eh Hi Hd. destruct (Hord h1 n t h2 Eh) as (_ & _ & Ho). by apply (Ho i d). }
  assert (Hknown : forall n, needed_app (service_names config) n -> n ∈ names /\ n <> "messaging"%string) by (intros n; by apply needed_known).
  pose proof (gets_before l inits Hl ltac:(intros; by apply Hknown, Hneed) Hdeps) as Hg.
  destruct (run_inits config inits Hst Hflows Hg) as (s & Er & Hinv).
  exists inits, ns, s. do 7 (split; [done|]). split; [intros n; by apply needed_classes|].
  intros n Hn Hd. apply run_calls_ok; [apply (si_started _ _ Hinv)|]. rewrite (si_ready _ _ Hinv).
  destruct (gets_before l (inits ++ [app_init n 0]) Hl) with (h1 := inits) (n := n) (t := 0) (h2 := @nil app_event) as [Hgn Hpn]; [| |done|by apply calls_checked].
  - intros m. rewrite init_names_app. intros [Hm|Hm]%elem_of_app; [by apply Hknown, Hneed|]. apply list_elem_of_singleton in Hm as ->. by apply Hknown.
  - intros h1 m t h2 i d Eh Hi Hd'. apply last_event in Eh as [(-> & -> & [= -> ->])|(h2' & -> & Eh)]; [|by eapply Hdeps].
    apply Hd. destruct (Hknown n Hn) as [Hname _]. by rewrite <- (holds_deps l n i Hl Hname Hi).
Qed.

(** How a start-up of the applications ends. *)
Lemma start_ends debug registry order (Hregistry : registry ≡ₚ map app_of classes) l r : startAll debug registry order config new_loader = (l, r) ->
  (forall n, n ∈ service_names config -> n ∈ names /\ n <> "messaging"%string) -> (forall a, a ∈ registry -> exists s, apps l !! provides a = Some (AppInfo a s)) ->
  (exists p, sf_init 0 config = Ok p) -> started_up registry config l r ->
  exists inits starts s, history l = inits ++ map app_start starts /\ NoDup (init_names inits) /\
    (forall n, n ∈ init_names inits <-> needed_app (service_names config) n) /\ run_events config inits new_setup = Ok s /\ setup_inv (init_names inits) s /\
    ((r = Ok tt /\ (forall n, n ∈ starts <-> needed_app (service_names config) n) /\
      if bool_decide ("controller"%string ∈ starts) then run_events config (history l) new_setup = controller_startUp config s /\ exists s', controller_startUp config s = Ok s' else True) \/
     (r = Throw (terminated "controller") /\ needed_app (service_names config) "controller" /\ exists e, controller_startUp config s = Throw e)).
Proof.
  intros E Hservices Happs Hflows Hres.
  destruct (inits_run debug registry order Hregistry l r E Hservices Happs Hflows) as (inits & ns & s & Hh & Hst & Hnd1 & Hnd2 & Er & Hinv & Hin & Hneed & Hcalls).
  destruct (returned_run registry Hregistry l (startup_returned registry config debug order l r E)) as [s' Es'].
  destruct (start_names_starts ns) as [Hs1 Hs2]. assert (Hi : init_names (history l) = init_names inits) by (by rewrite Hh, init_names_app, Hs2, app_nil_r).
  assert (Hs : start_names (history l) = ns) by (by rewrite Hh, start_names_app, Hst, Hs1).
  assert (Erun : run_events config (history l) new_setup = if bool_decide ("controller"%string ∈ ns) then controller_startUp config s else Ok s).
  { rewrite Hh, run_events_app, Er. cbn [mbind res_bind]. by apply run_starts. }
  unfold started_up in Hres. rewrite Hi, Hs in Hres. exists inits, ns, s. split; [done|]. split; [done|]. destruct r as [[]|e].
  - split; [intros n; rewrite <- Hneed; apply Hres|]. split; [done|]. split; [done|]. left. split; [done|]. split; [intros n; rewrite <- Hneed; apply Hres|].
    case_bool_decide; [|done]. split; [done|]. exists s'. congruence.
  - destruct Hres as (a & Ha & -> & Hna & Hda & Hthrow). rewrite Hregistry in Ha. apply list_elem_of_fmap in Ha as (c & -> & Hc).
    cbn [app_of provides dependsOn init startUp] in *. apply Hneed in Hna.
    assert (Ec : class_of (ac_name c) = Some c) by (destruct classes_sound as (_ & _ & Hf & _); by apply (proj1 (Forall_forall _ _) Hf)).
    destruct Hthrow as [(-> & e' & He)|(Hall & Hfresh & e' & He)].
    + exfalso. rewrite Hh, app_nil_r, Er in He. cbn [mbind res_bind] in He. specialize (Hcalls (ac_name c) Hna). unfold calls_of, deps_of_class in Hcalls. rewrite Ec in Hcalls.
      rewrite Hcalls in He by exact Hda. done.
    + rewrite Es' in He. cbn [mbind res_bind run_event] in He. destruct (decide (ac_name c = "controller"%string)) as [En|En]; [|by rewrite bool_decide_false in He].
      rewrite bool_decide_true in He by done. rewrite En in *.
      rewrite bool_decide_false in Erun by done. assert (s' = s) as -> by congruence.
      split; [intros n; rewrite <- Hneed; apply Hall|]. split; [done|]. split; [done|]. right. split; [done|]. split; [done|].
      destruct (controller_startUp config s) as [s2|e2]; [done|by exists e2].
Qed.
End start.

(** C28: the applications of the repository start up.  For every order in which they are
    registered and walked through, every configuration that has a thread and names some
    of them, [messaging] not among them, and whose static flows can be read: no [init]
    throws, so the loader initialises exactly the applications that the services need,
    and every call of every [init] finds the applications it asks for.  The tables
    reserved by the applications are distinct and below the table of the handlers.  Then
    all of them are started, and the controller has exactly the pipeline of the
    configuration, each handler from an application that registers it; but if it has no
    pipeline or one with a name that none of the needed applications registers, its
    [startUp] throws, which ends the program. *)
Theorem applications_start {double : Type} `{Doubles double} debug registry order (config : list (string * json double)) services nthreads
  (Hconfig : obj_find "services" config = Some services) (Hthreads : thread_count config = Ok nthreads /\ 0 < nthreads)
  (Hregistry : registry ≡ₚ map app_of classes) (Horder : order ≡ₚ names)
  (Hservices : forall n, n ∈ service_names config -> n ∈ names /\ n <> "messaging"%string)
  (Hflows : exists p, sf_init 0 config = Ok p) :
  exists l r inits starts s, startAll debug registry order config new_loader = (l, r) /\ history l = inits ++ map app_start starts /\
    (forall n, n ∈ init_names inits <-> needed_app (service_names config) n) /\
    run_events config inits new_setup = Ok s /\
    NoDup (map snd (su_tables s)) /\ (forall a t, (a, t) ∈ su_tables s -> t < handler_table (su_controller s)) /\
    (r = Ok tt -> forall n, n ∈ starts <-> needed_app (service_names config) n) /\
    (~ needed_app (service_names config) "controller" -> r = Ok tt) /\
    (needed_app (service_names config) "controller" -> match pipeline_names config with
     | None => r = Throw (terminated "controller")
     | Some ps =>
         ((forall h, h ∈ ps -> exists a, registers (service_names config) h a) -> r = Ok tt /\
           exists s', run_events config (history l) new_setup = Ok s' /\ map fst (pipeline_factory s') = ps /\
             forall h a, (h, a) ∈ pipeline_factory s' -> registers (service_names config) h a) /\
         (forall h, h ∈ ps -> (forall a, ~ registers (service_names config) h a) -> r = Throw (terminated "controller"))
     end).
Proof.
  destruct (startup_result debug registry order config rank) as (l & r & E & Happs & Hres).
  { apply classes_startable; [by eexists|by eexists|done|done|intros n Hn; by apply Hservices]. }
  destruct (start_ends config debug registry order Hregistry l r E Hservices Happs Hflows Hres) as (inits & ns & s & Hh & Hnd & Hn & Er & Hinv & Hend).
  destruct (tables_distinct (init_names inits) s Hinv Hnd) as [Ht1 Ht2]; [intros n Hi; apply (needed_known (service_names config) n Hservices); by apply Hn|].
  exists l, r, inits, ns, s. do 6 (split; [done|]). destruct Hend as [(-> & Hs & Erun')|(-> & Hc & e & Erun)].
  - split; [done|]. split; [done|]. intros Hc. rewrite bool_decide_true in Erun' by (by apply Hs). destruct Erun' as [Erun' [s' Erun]].
    destruct (pipeline_names config) as [ps|] eqn:Hps; [|unfold controller_startUp in Erun; by rewrite Hps in Erun].
    destruct (startUp_spec config (init_names inits) s ps Hinv Hps) as [Hok Hbad]. unfold registers. setoid_rewrite <- Hn. split.
    + intros Hr. split; [done|]. destruct (Hok Hr) as (s'' & Es & Hp). exists s''. by rewrite Erun'.
    + intros h Hh' Hno. rewrite (Hbad h Hh') in Erun; [done|]. intros a Ha Hr. by apply (Hno a).
  - split; [done|]. split; [by intros ?|]. intros _. destruct (pipeline_names config) as [ps|] eqn:Hps; [|done].
    destruct (startUp_spec config (init_names inits) s ps Hinv Hps) as [Hok _]. unfold registers. setoid_rewrite <- Hn. split; [|done].
    intros Hr. destruct (Hok Hr) as (s'' & Es & _). congruence.
Qed.

(** ** The configuration of the repository (src/network-settings.json)

    The text of the file, with an apostrophe for each quotation mark. *)
Definition network_settings : list ascii := map (fun c => if bool_decide (c = "'"%char) then dq else c) (list_ascii_of_string "{

'default': {
    'services': [
        'learning-switch',
        'rest-listener',
        'host-manager',
        'webui',
        'static-flow-pusher',
        'switch-stats',
        'arp-handler',
        'flow-manager',
        'rest-multipart',
        'rest-flowmod',
        'messaging'
    ],

    'flow-manager' : {
        'interval' : 5
    },

    'rest-listener' : {
         'port' : 9008,
         'web-dir' : './build/web'
    },

    'messaging' : {
        'myidx':0,
        'heartbeat':200,
        'follower_timeout':1000,
        'candidate_timeout':500,
        'storage_checker_poll_interval':100,
        'test_filename':'First-log-5controllers-100ms-follower-event.log',
        'backup_topo_filename':'First-topobackup.txt',
        'recovery_from_file':false,
         'peers' :[
            {'name':'First', 'ip':'127.0.0.1', 'port':8000, 'cport':9000},
            {'name':'Second', 'ip':'127.0.0.1', 'port':8001, 'cport':9001},
            {'name':'Third', 'ip':'127.0.0.1', 'port':8002, 'cport':9002}
         ]
    },

    'controller': {
         'nthreads': 1,
         'cbench': false,
         'port': 6653,
         'pipeline': [
             'link-discovery',
             'host-manager',
             'arp-handler',
             'forwarding'
         ]
    },

    'loader': {
        'threads': 1
    },

    'link-discovery': {
        'poll-interval': 10,
        'pin-to-thread': 1
    },

    'switch-manager': {
        'pin-to-thread': 1
    },

    'switch-stats': {
	'poll-interval': 1,
	'pin-to-thread': 1
    }
}

}
").

(** What a controller with this configuration does: the text is parsed, the applications
    are started, and their initialisations are followed. *)
Definition boot (text : list ascii) : option (res load_error (list string * setup)) :=
  config ← load_config text "default";
  Some (config ← config;
        let '(l, r) := startAll true (map app_of classes) names config new_loader in
        r ≫= fun _ => s ← run_events config (history l) new_setup; Ok (init_names (history l), s)).

Lemma shipped_configuration : exists s, boot network_settings =
    Some (Ok (["controller"; "rest-listener"; "switch-manager"; "link-discovery"; "topology"; "learning-switch"; "host-manager"; "webui";
               "static-flow-pusher"; "switch-stats"; "arp-handler"; "flow-manager"; "rest-multipart"; "rest-flowmod"; "messaging"]%string, s)) /\
  pipeline_factory s = [("link-discovery", "link-discovery"); ("host-manager", "host-manager"); ("arp-handler", "arp-handler"); ("forwarding", "learning-switch")]%string /\
  su_tables s = [("static-flow-pusher"%string, 0); ("rest-flowmod"%string, 1)] /\ handler_table (su_controller s) = 2 /\
  map snd (su_xids s) = [0xfff; 0x1000; 0x1001; 0x1002; 0x1003; 0x1004] /\ flood_of s = None.
Proof. eexists. split; [vm_compute; reflexivity|]. split_and!; vm_compute; reflexivity. Qed.

(** [Messaging] asks for applications that it does not depend on: as the only service it
    is initialised after the controller and throws, which ends the program. *)
Lemma messaging_undeclared :
  let config := demo_config 1 ["messaging"%string] in let run := startAll true (map app_of classes) names config new_loader in
  (history run.1, run.2) = ([app_init "controller" 0], Throw (terminated "messaging")) /\
  run_events config [app_init "controller" 0; app_init "messaging" 0] new_setup = Throw out_of_range.
Proof. split; vm_compute; reflexivity. Qed.

(** The mode for benchmarks is known once the controller is started, and not before. *)
Lemma cbench_known {double : Type} `{Doubles double} (config : list (string * json double)) s s' :
  controller_startUp config s = Ok s' -> su_cbench s' = Some (config_get_bool (config_cd config "controller") "cbench" false) /\ started (su_controller s') = true.
Proof. unfold controller_startUp. intros E. case_match; [|done]. inv_ok. done. Qed.

(** Two learning switches register one name; the one that is initialised last has it. *)
Definition switching_config : list (string * json Z) :=
  obj_set "controller" (JObject [("pipeline"%string, JArray [JString "link-discovery"; JString "forwarding"])])
    (demo_config 2 ["simple-learning-switch"; "learning-switch"; "stp"]%string).

Lemma applications_start_witness : exists l s,
  startAll true (map app_of classes) names switching_config new_loader = (l, Ok tt) /\ run_events switching_config (history l) new_setup = Ok s /\
  map fst (pipeline_factory s) = ["link-discovery"; "forwarding"]%string.
Proof.
  destruct (applications_start true (map app_of classes) names switching_config (JArray (map JString ["simple-learning-switch"; "learning-switch"; "stp"]%string)) 2)
    as (l & r & inits & starts & s & E & Hh & Hn & Er & Ht & Hlt & Hs & Hno & Hp).
  - vm_compute. reflexivity.
  - vm_compute. done.
  - done.
  - done.
  - enough (Forall (fun n => n ∈ names /\ n <> "messaging"%string) (service_names switching_config)) as Hf by (intros n Hn; by apply (proj1 (Forall_forall _ _) Hf)).
    apply (bool_decide_unpack _). vm_compute. done.
  - eexists. vm_compute. reflexivity.
  - assert (Hps : pipeline_names switching_config = Some ["link-discovery"; "forwarding"]%string) by (vm_compute; reflexivity). rewrite Hps in Hp.
    destruct Hp as [Hok _].
    + apply (app_dep _ "simple-learning-switch"%string); [apply app_service; vm_compute; left|vm_compute; left].
    + destruct Hok as (-> & s' & Es & Ep & _); [|exists l, s'; split; [exact E|split; [exact Es|exact Ep]]].
      intros h Hh'. apply elem_of_cons in Hh' as [->|Hh']; [|apply list_elem_of_singleton in Hh' as ->].
      * exists "link-discovery"%string. split; [|vm_compute; do 2 right; left].
        apply (app_dep _ "topology"%string); [|vm_compute; left]. apply (app_dep _ "learning-switch"%string); [apply app_service; vm_compute; right; left|vm_compute; right; left].
      * exists "learning-switch"%string. split; [apply app_service; vm_compute; right; left|vm_compute; do 2 right; left].
Defined.
