(* ===== verification/RestRoutes.v ===== *)
(** * Which application answers a request (src/RestListener.cc: startUp, src/Rest.hh)

    When the REST server is started, each accepted path of each registered application
    becomes a regular expression; a request goes to the handler of one that matches.
    Here the language of these expressions is computed, the routes of the applications
    are shown to be disjoint, and the parameters that the handlers read without a test
    are shown to exist. *)

From S2P Require Import Prelude Regex JsonRoundtrip RestListener Loader Applications.
Local Open Scope Z_scope.

(** ** The expressions *)

(** The parts of the accepted paths, which are literals, "[0-9]+" and "(all|[0-9]+)". *)
Inductive segment := s_literal (w : list ascii) | s_digits | s_all_or_digits.

#[export] Instance segment_dec : EqDecision segment.
Proof. solve_decision. Defined.

Definition slash : ascii := "/"%char.

Definition segment_of (text : list ascii) : segment :=
  if bool_decide (text = list_ascii_of_string "[0-9]+") then s_digits
  else if bool_decide (text = list_ascii_of_string "(all|[0-9]+)") then s_all_or_digits
  else s_literal text.

Definition segments (path : string) : list segment := map segment_of (split (list_ascii_of_string path) slash).

Fixpoint r_word (w : list ascii) : regex := match w with [] => r_eps | c :: w => r_seq (r_char c) (r_word w) end.
Definition r_opt (r : regex) : regex := r_alt r_eps r.

Definition segment_regex (g : segment) : regex :=
  match g with
  | s_literal w => r_word w
  | s_digits => r_plus (r_class is_digit)
  | s_all_or_digits => r_alt (r_word (list_ascii_of_string "all")) (r_plus (r_class is_digit))
  end.

(** The parts with a slash before each. *)
Fixpoint path_regex (gs : list segment) : regex :=
  match gs with [] => r_eps | g :: gs => r_seq (r_char slash) (r_seq (segment_regex g) (path_regex gs)) end.

(** "^/api/" + handler->restName() + "/" + path + "/{0,1}$" *)
Definition api_regex (app : string) (gs : list segment) : regex :=
  r_seq (r_word (list_ascii_of_string "/api/")) (r_seq (r_word (list_ascii_of_string app)) (r_seq (path_regex gs) (r_opt (r_char slash)))).

(** "^/apps/{0,1}$" and "^/timeout/([a-z&-]+)/([0-9]+)/{0,1}$" *)
Definition apps_regex : regex := r_seq (r_word (list_ascii_of_string "/apps")) (r_opt (r_char slash)).
Definition is_name_char (c : ascii) : bool := ((97 <=? char_code c) && (char_code c <=? 122)) || bool_decide (c = "&"%char) || bool_decide (c = "-"%char).
Definition timeout_regex : regex :=
  r_seq (r_word (list_ascii_of_string "/timeout/")) (r_seq (r_plus (r_class is_name_char))
    (r_seq (r_char slash) (r_seq (r_plus (r_class is_digit)) (r_opt (r_char slash))))).

(** ** The table *)

Inductive target := to_app (app : string) (path : string) | to_apps | to_timeout.

Record route := Route { rt_target : target; rt_method : method; rt_regex : regex }.

(** [RestListener::startUp]: the paths of the applications that are registered, and the
    two of the server itself. *)
Definition app_routes (s : setup) : list route :=
  omap (fun x => match rest_handlers (su_rest s) !! x.1 with
                 | Some _ => Some (Route (to_app x.1 x.2.2) x.2.1 (api_regex x.1 (segments x.2.2)))
                 | None => None
                 end) (su_pathes s).
Definition routes (s : setup) : list route := app_routes s ++ [Route to_apps GET apps_regex; Route to_timeout GET timeout_regex].

Definition serves (m : method) (path : list ascii) (r : route) : bool := bool_decide (rt_method r = m) && regex_match (rt_regex r) path.

(** The server takes the first route that serves the request, in the order of its table. *)
Definition find_route (table : list route) (m : method) (path : list ascii) : option route := List.find (serves m path) table.

(** ** What the handlers do with their parameters

    [params[i]], and [params[i]] read as a number, in the order of the code, on the
    longest branch.  An index that is not there, and text that is no number, are not
    tested. *)

Inductive access := index (i : nat) | number (i : nat).

Definition param_is (params : list (list ascii)) (i : nat) (w : string) : bool := bool_decide (params !! i = Some (list_ascii_of_string w)).

Definition switches_GET (ps : list (list ascii)) : list access := index 0 :: (if param_is ps 0 "switches" then [index 1] else []).
Definition first_GET : list access := [index 0].
Definition flow_manager_GET (ps : list (list ascii)) : list access := index 0 :: (if param_is ps 0 "all" then [] else [number 0]).
Definition flow_manager_DELETE : list access := [number 0; number 1].
Definition webui_GET (ps : list (list ascii)) : list access := index 1 :: (if param_is ps 1 "all" then [] else [number 1]).
Definition webui_PUT (ps : list (list ascii)) : list access :=
  index 0 :: (if param_is ps 0 "coord" then [number 1] else index 0 :: (if param_is ps 0 "name" then [number 1] else [])).
Definition multipart_GET (ps : list (list ascii)) : list access :=
  index 0 ::
  (if param_is ps 0 "flow" then [number 1] else
   if param_is ps 0 "port" then [number 1; index 2] else
   if param_is ps 0 "switch" then index 1 :: (if param_is ps 1 "all" then [] else [number 1]) else
   if param_is ps 0 "aggregate-flow" || param_is ps 0 "table" || param_is ps 0 "port-desc" then [number 1] else
   if param_is ps 0 "queue" then [number 1; index 2; index 3] else []).
Definition multipart_POST (ps : list (list ascii)) : list access :=
  index 0 :: (if param_is ps 0 "flow" || param_is ps 0 "aggregate-flow" then [number 1] else []).
Definition flowmod_POST (ps : list (list ascii)) : list access :=
  index 0 :: (if param_is ps 0 "flowentry" && negb (Nat.eqb (length ps) 1) then [index 1] else []).
Definition flowmod_DELETE (ps : list (list ascii)) : list access :=
  index 0 :: (if param_is ps 0 "flowentry" then index 1 :: (if param_is ps 1 "clear" then [number 2] else []) else []).
Definition stats_GET (ps : list (list ascii)) : list access := number 1 :: index 2 :: (if param_is ps 2 "all" then [] else [number 2]).
Definition pusher_POST (ps : list (list ascii)) : list access := index 0 :: (if param_is ps 0 "newflow" then [number 1] else []).

(** The handlers by application and method; those that are not there only answer. *)
Definition rest_handler_table : list (string * method * (list (list ascii) -> list access)) :=
  [("switch-manager", GET, switches_GET); ("topology", GET, fun _ => first_GET); ("host-manager", GET, fun _ => first_GET);
   ("flow-manager", GET, flow_manager_GET); ("flow-manager", DELETE, fun _ => flow_manager_DELETE); ("webui", GET, webui_GET); ("webui", PUT, webui_PUT);
   ("rest-multipart", GET, multipart_GET); ("rest-multipart", POST, multipart_POST); ("rest-flowmod", POST, flowmod_POST);
   ("rest-flowmod", DELETE, flowmod_DELETE); ("switch-stats", GET, stats_GET); ("static-flow-pusher", POST, pusher_POST)]%string.

Definition handler_accesses (app : string) (m : method) (ps : list (list ascii)) : list access :=
  match List.find (fun h => bool_decide (h.1 = (app, m))) rest_handler_table with Some h => h.2 ps | None => [] end.

(** A parameter that is there; one that [std::stoull] or [lexical_cast] reads, or refuses
    as too large. *)
Definition is_number (w : list ascii) : Prop := w <> [] /\ Forall (fun c => is_digit c = true) w.
Definition access_ok (ps : list (list ascii)) (a : access) : Prop :=
  match a with
  | index i => is_Some (ps !! i)
  | number i => exists w, ps !! i = Some w /\ is_number w
  end.

(** * The languages *)

Lemma denotes_seq a b s : denotes (r_seq a b) s <-> exists u t, s = u ++ t /\ denotes a u /\ denotes b t.
Proof. split; [intros H; inversion H; subst; eauto|intros (u & t & -> & ? & ?); by constructor]. Qed.

Lemma denotes_alt a b s : denotes (r_alt a b) s <-> denotes a s \/ denotes b s.
Proof. split; [intros H; inversion H; subst; auto|intros [?|?]; [by apply d_left|by apply d_right]]. Qed.

Lemma denotes_eps s : denotes r_eps s <-> s = [].
Proof. split; [by inversion 1|intros ->; constructor]. Qed.

Lemma denotes_class p s : denotes (r_class p) s <-> exists c, s = [c] /\ p c = true.
Proof. split; [inversion 1; subst; eauto|intros (c & -> & ?); by constructor]. Qed.

Lemma denotes_r_char c s : denotes (r_char c) s <-> s = [c].
Proof.
  unfold r_char. rewrite denotes_class. split; [by intros (x & -> & ->%bool_decide_eq_true)|]. intros ->. exists c. split; [done|by apply bool_decide_eq_true].
Qed.

Lemma denotes_word w s : denotes (r_word w) s <-> s = w.
Proof.
  revert s. induction w as [|c w IH]; intros s; cbn [r_word]; [apply denotes_eps|]. rewrite denotes_seq. setoid_rewrite denotes_r_char. setoid_rewrite IH.
  split; [by intros (u & t & -> & -> & ->)|]. intros ->. by exists [c], w.
Qed.

Lemma denotes_opt r s : denotes (r_opt r) s <-> s = [] \/ denotes r s.
Proof. unfold r_opt. by rewrite denotes_alt, denotes_eps. Qed.

Lemma denotes_star_class p s : denotes (r_star (r_class p)) s <-> Forall (fun c => p c = true) s.
Proof.
  induction s as [|c s IH]; [split; constructor|]. rewrite denotes_star_cons, Forall_cons. setoid_rewrite denotes_class. split.
  - intros (u & t & -> & (x & [= <- ->] & Hp) & Ht). split; [done|]. by apply IH.
  - intros [Hp Hs]. exists [], s. split; [done|]. split; [by exists c|by apply IH].
Qed.

Lemma denotes_plus_class p s : denotes (r_plus (r_class p)) s <-> s <> [] /\ Forall (fun c => p c = true) s.
Proof.
  unfold r_plus. rewrite denotes_seq. setoid_rewrite denotes_class. setoid_rewrite denotes_star_class. split.
  - intros (u & t & -> & (c & -> & Hc) & Ht). split; [done|by constructor].
  - intros [Hn Hs]. destruct s as [|c s]; [done|]. apply Forall_cons in Hs as [Hc Hs]. exists [c], s. split; [done|]. split; [by exists c|done].
Qed.

(** The parts that a segment accepts. *)
Definition segment_ok (g : segment) (w : list ascii) : Prop :=
  match g with
  | s_literal v => w = v
  | s_digits => is_number w
  | s_all_or_digits => w = list_ascii_of_string "all" \/ is_number w
  end.

Lemma denotes_segment g w : denotes (segment_regex g) w <-> segment_ok g w.
Proof. destruct g; cbn [segment_regex segment_ok]; rewrite ?denotes_alt, ?denotes_word, ?denotes_plus_class; done. Qed.

Definition slashed (parts : list (list ascii)) : list ascii := concat (map (cons slash) parts).

Lemma denotes_path gs s : denotes (path_regex gs) s <-> exists parts, s = slashed parts /\ Forall2 segment_ok gs parts.
Proof.
  revert s. induction gs as [|g gs IH]; intros s; cbn [path_regex].
  - rewrite denotes_eps. split; [intros ->; exists []; by split|]. by intros (parts & -> & ->%Forall2_nil_inv_l).
  - rewrite denotes_seq. setoid_rewrite denotes_seq. setoid_rewrite denotes_r_char. setoid_rewrite denotes_segment. setoid_rewrite IH. split.
    + intros (u & t & -> & -> & w & v & -> & Hw & parts & -> & Hp). exists (w :: parts). split; [done|by constructor].
    + intros (parts & -> & Hp). apply Forall2_cons_inv_l in Hp as (w & parts' & Hw & Hp & ->).
      exists [slash], (w ++ slashed parts'). split; [done|]. split; [done|]. exists w, (slashed parts'). eauto.
Qed.

(** The paths of a route: the name, the parts, and perhaps a slash. *)
Definition request_path (app : string) (parts : list (list ascii)) (final : bool) : list ascii :=
  slashed (list_ascii_of_string "api" :: list_ascii_of_string app :: parts) ++ (if final then [slash] else []).

Lemma denotes_final s : denotes (r_opt (r_char slash)) s <-> exists b : bool, s = if b then [slash] else [].
Proof.
  rewrite denotes_opt, denotes_r_char. split; [intros [->| ->]; [by exists false|by exists true]|]. intros [[] ->]; auto.
Qed.

Lemma denotes_api app gs s : denotes (api_regex app gs) s <-> exists parts final, s = request_path app parts final /\ Forall2 segment_ok gs parts.
Proof.
  unfold api_regex, request_path, slashed. cbn [map concat]. split.
  - intros (? & ? & -> & Hu & (? & ? & -> & Hv & (? & ? & -> & Hp & Hb)%denotes_seq)%denotes_seq)%denotes_seq.
    apply denotes_word in Hu as ->. apply denotes_word in Hv as ->. apply denotes_path in Hp as (parts & -> & Hp). apply denotes_final in Hb as [b ->].
    exists parts, b. split; [|done]. unfold slashed. by rewrite <- !app_assoc.
  - intros (parts & b & -> & Hp). apply denotes_seq. eexists (list_ascii_of_string "/api/"), _. split; [|split; [by apply denotes_word|]].
    2: { apply denotes_seq. eexists _, _. split; [reflexivity|]. split; [by apply denotes_word|]. apply denotes_seq. eexists _, _. split; [reflexivity|].
         split; [apply denotes_path; by exists parts|apply denotes_final; by exists b]. }
    unfold slashed. by rewrite <- !app_assoc.
Qed.

(** * Paths and their parts *)

Definition plain (w : list ascii) : Prop := w <> [] /\ slash ∉ w.

Lemma split_go_word d w : forall item rest, d ∉ w -> split_go d item (w ++ rest) = split_go d (item ++ w) rest.
Proof.
  induction w as [|c w IH]; intros item rest Hw; cbn [app split_go]; [by rewrite app_nil_r|]. apply not_elem_of_cons in Hw as [Hc Hw].
  rewrite bool_decide_false by congruence. rewrite IH by done. by rewrite <- app_assoc.
Qed.

Lemma split_slashed parts (final : bool) item : Forall plain parts -> item <> [] ->
  split_go slash item (slashed parts ++ if final then [slash] else []) = item :: parts.
Proof.
  revert item. induction parts as [|w parts IH]; intros item Hp Hi.
  - destruct final; [done|]. by destruct item.
  - apply Forall_cons in Hp as [[Hw Hs] Hp]. unfold slashed. cbn [map concat]. rewrite <- app_assoc. cbn [app split_go].
    rewrite bool_decide_true by done. f_equal. rewrite split_go_word by done. by apply IH.
Qed.

Lemma request_path_eq name parts final : request_path name parts final =
  slash :: list_ascii_of_string "api" ++ slash :: list_ascii_of_string name ++ slashed parts ++ if final then [slash] else [].
Proof. unfold request_path, slashed. cbn [map concat]. by rewrite <- !app_assoc. Qed.

Lemma split_request name parts final : plain (list_ascii_of_string name) -> Forall plain parts ->
  split (request_path name parts final) slash = [] :: list_ascii_of_string "api" :: list_ascii_of_string name :: parts.
Proof.
  intros Ha Hp. rewrite request_path_eq. unfold split. cbn [split_go]. rewrite bool_decide_true by done. f_equal.
  rewrite (split_go_word slash (list_ascii_of_string "api")) by (apply (bool_decide_unpack _); vm_compute; done). cbn [split_go app].
  rewrite bool_decide_true by done. f_equal. rewrite split_go_word by apply Ha. by apply split_slashed; [|apply Ha].
Qed.

Lemma request_params_parts app parts final : plain (list_ascii_of_string app) -> Forall plain parts -> request_params (request_path app parts final) = parts.
Proof. intros Ha Hp. unfold request_params. change "/"%char with slash. by rewrite split_request. Qed.

Lemma number_plain w : is_number w -> plain w.
Proof. intros [Hn Hd]. split; [done|]. intros Hs. by apply (proj1 (Forall_forall _ _) Hd) in Hs. Qed.

Definition good_segment (g : segment) : Prop := match g with s_literal w => plain w | _ => True end.

Lemma segment_plain g w : good_segment g -> segment_ok g w -> plain w.
Proof.
  destruct g; cbn; [by intros ? ->|by intros _ ?%number_plain|]. intros _ [->|?%number_plain]; [|done].
  split; [done|]. apply (bool_decide_unpack _). vm_compute. done.
Qed.

Lemma segments_plain gs parts : Forall good_segment gs -> Forall2 segment_ok gs parts -> Forall plain parts.
Proof. intros Hg. induction 1 as [|g w gs parts Hw _ IH]; [constructor|]. apply Forall_cons in Hg as [Hg Hgs]. constructor; [by apply (segment_plain g)|auto]. Qed.

(** ** Segments that accept nothing in common *)

Definition is_number_b (w : list ascii) : bool := negb (bool_decide (w = [])) && forallb is_digit w.

Lemma is_number_ok w : is_number_b w = true <-> is_number w.
Proof.
  unfold is_number_b, is_number. rewrite andb_true_iff, negb_true_iff, bool_decide_eq_false, forallb_forall, Forall_forall. by setoid_rewrite list_elem_of_In.
Qed.

Definition segment_clash (g1 g2 : segment) : bool :=
  match g1, g2 with
  | s_literal v, s_literal w => negb (bool_decide (v = w))
  | s_literal v, s_digits | s_digits, s_literal v => negb (is_number_b v)
  | s_literal v, s_all_or_digits | s_all_or_digits, s_literal v => negb (bool_decide (v = list_ascii_of_string "all") || is_number_b v)
  | _, _ => false
  end.

Fixpoint clash (gs1 gs2 : list segment) : bool :=
  match gs1, gs2 with
  | [], [] => false
  | g1 :: gs1, g2 :: gs2 => segment_clash g1 g2 || clash gs1 gs2
  | _, _ => true
  end.

Lemma segment_clash_ok g1 g2 w : segment_clash g1 g2 = true -> segment_ok g1 w -> segment_ok g2 w -> False.
Proof.
  destruct g1 as [v1| |], g2 as [v2| |]; cbn; try done; rewrite ?negb_true_iff; intros Hc H1 H2; subst.
  - by rewrite bool_decide_true in Hc.
  - apply is_number_ok in H2. congruence.
  - apply orb_false_iff in Hc as [Ha Hn]. apply bool_decide_eq_false in Ha. destruct H2 as [|H2]; [done|]. apply is_number_ok in H2. congruence.
  - apply is_number_ok in H1. congruence.
  - apply orb_false_iff in Hc as [Ha Hn]. apply bool_decide_eq_false in Ha. destruct H1 as [|H1]; [done|]. apply is_number_ok in H1. congruence.
Qed.

Lemma clash_ok gs1 : forall gs2 parts, clash gs1 gs2 = true -> Forall2 segment_ok gs1 parts -> Forall2 segment_ok gs2 parts -> False.
Proof.
  induction gs1 as [|g1 gs1 IH]; intros [|g2 gs2] parts Hc H1 H2; cbn in Hc; try done.
  - apply Forall2_nil_inv_l in H1 as ->. by apply Forall2_nil_inv_r in H2.
  - apply Forall2_nil_inv_l in H2 as ->. by apply Forall2_nil_inv_r in H1.
  - apply Forall2_cons_inv_l in H1 as (w & ps & Hw1 & H1 & ->). apply Forall2_cons_inv_l in H2 as (w' & ps' & Hw2 & H2 & [= <- <-]).
    apply orb_true_iff in Hc as [Hc|Hc]; [by apply (segment_clash_ok g1 g2 w)|by apply (IH gs2 ps)].
Qed.

(** ** All the paths *)

Definition accepted (c : app_class) : list (string * (method * string)) :=
  omap (fun x => match x with acceptPath m p => Some (ac_name c, (m, p)) | _ => None end) (ac_init c).
Definition all_paths : list (string * (method * string)) := classes ≫= accepted.

#[local] Instance plain_dec w : Decision (plain w).
Proof. unfold plain. solve_decision. Defined.
#[local] Instance good_segment_dec g : Decision (good_segment g).
Proof. destruct g; cbn; apply _. Defined.

Lemma paths_sound :
  Forall (fun x => plain (list_ascii_of_string x.1) /\ Forall good_segment (segments x.2.2)) all_paths /\
  Forall (fun x => Forall (fun y => y.1 = x.1 -> y.2.1 = x.2.1 -> y.2.2 = x.2.2 \/ clash (segments x.2.2) (segments y.2.2) = true) all_paths) all_paths.
Proof. split; apply (bool_decide_unpack _); vm_compute; done. Qed.

(** * The parameters that are read *)

Lemma param_number ps i w v : ps !! i = Some w -> is_number w -> is_number_b (list_ascii_of_string v) = false -> param_is ps i v = false.
Proof.
  intros Hi Hw Hv. apply bool_decide_eq_false. rewrite Hi. intros [= ->]. apply is_number_ok in Hw. congruence.
Qed.

(** Tests of literals are computed, those of numbers fail. *)
Ltac test_params :=
  repeat match goal with
  | |- context [param_is ?ps ?i ?v] =>
      first [ change (param_is ps i v) with true | change (param_is ps i v) with false
            | rewrite (param_number ps i _ v) by (first [reflexivity | eassumption]) ]; cbn [orb andb negb app]
  end.

(** The parts of one route, as far as they are known. *)
Ltac take_parts H :=
  match type of H with
  | Forall2 segment_ok [] _ => apply Forall2_nil_inv_l in H as ->
  | Forall2 segment_ok (_ :: _) _ =>
      let w := fresh "w" in let Hw := fresh "Hw" in let ps := fresh "ps" in
      apply Forall2_cons_inv_l in H as (w & ps & Hw & H & ->); cbn [segment_ok] in Hw;
      match type of Hw with
      | _ \/ _ => destruct Hw as [->|Hw]
      | _ = _ => subst w
      | _ => idtac
      end; take_parts H
  end.

(** The function of the handler, in place of its lookup. *)
Ltac find_handler :=
  match goal with |- Forall _ (handler_accesses ?a ?m ?ps) =>
    let h := eval hnf in (List.find (fun h => bool_decide (h.1 = (a, m))) rest_handler_table) in
    match h with
    | Some ?h => change (handler_accesses a m ps) with (h.2 ps)
    | None => change (handler_accesses a m ps) with (@nil access)
    end
  end;
  cbn [snd];
  unfold switches_GET, first_GET, flow_manager_GET, flow_manager_DELETE, webui_GET, webui_PUT, multipart_GET, multipart_POST, flowmod_POST, flowmod_DELETE, stats_GET, pusher_POST.

Ltac read_params :=
  repeat apply Forall_cons_2; try apply Forall_nil_2; cbn [access_ok]; first [by eexists | eexists; split; [reflexivity|eassumption]].

Lemma accesses_ok app m p parts : (app, (m, p)) ∈ all_paths -> Forall2 segment_ok (segments p) parts ->
  Forall (access_ok parts) (handler_accesses app m parts).
Proof.
  intros Hx. assert (Hall : Forall (fun x => forall parts, Forall2 segment_ok (segments x.2.2) parts -> Forall (access_ok parts) (handler_accesses x.1 x.2.1 parts)) all_paths).
  { match goal with |- Forall ?P all_paths => let v := eval vm_compute in all_paths in change (Forall P v) end.
    repeat apply Forall_cons_2; [..|apply Forall_nil_2]; intros ps H; cbn [fst snd] in *;
      match type of H with Forall2 segment_ok ?x _ => let v := eval vm_compute in x in change x with v in H end; take_parts H; find_handler; test_params; read_params. }
  rewrite Forall_forall in Hall. apply (Hall _ Hx).
Qed.

(** * The routes of a controller that was put together *)

Section routed.
Context {double : Type} `{Json.Doubles double} (config : list (string * Json.json double)).

Lemma path_of_call n m p : acceptPath m p ∈ calls_of n -> (n, (m, p)) ∈ all_paths.
Proof.
  unfold calls_of. destruct (class_of n) as [c|] eqn:Ec; [|by intros ?%elem_of_nil]. apply class_of_name in Ec as [<- Hc].
  intros Hp. unfold all_paths. apply list_elem_of_bind. exists c. split; [|done]. unfold accepted. apply list_elem_of_omap. by exists (acceptPath m p).
Qed.

Lemma run_calls_paths a cs : forall s s', run_calls config a cs s = Ok s' -> (forall m p, acceptPath m p ∈ cs -> (a, (m, p)) ∈ all_paths) ->
  su_pathes s ⊆ all_paths -> su_pathes s' ⊆ all_paths.
Proof.
  induction cs as [|c cs IH]; intros s s' E Hc Hs; cbn [run_calls] in E; [by injection E as <-|].
  destruct (call_check config (su_ready s) c) as [[]|e]; [|done]. cbn in E. apply IH in E; [done|intros; apply Hc; by right|].
  assert (Hp : su_pathes (call_effect a s c) = su_pathes s \/ exists m p, c = acceptPath m p /\ su_pathes (call_effect a s c) = su_pathes s ++ [(a, (m, p))]).
  { destruct c; cbn; unfold register_handler, register_flood, add_table, add_transaction; try (by left).
    - left. by destruct (Dispatch.started _).
    - left. by destruct (Dispatch.started _), (flood_of s).
    - left. by destruct (Dispatch.registerStaticTransaction _ _).
    - right. by eexists _, _. }
  destruct Hp as [->|(m & p & -> & ->)]; [done|]. intros x [Hx|Hx]%elem_of_app; [by apply Hs|]. apply list_elem_of_singleton in Hx as ->. apply Hc. by left.
Qed.

Lemma run_paths h : forall s s', run_events config h s = Ok s' -> su_pathes s ⊆ all_paths -> su_pathes s' ⊆ all_paths.
Proof.
  induction h as [|e h IH]; intros s s' E Hs; cbn [run_events] in E; [by injection E as <-|].
  destruct (run_event config e s) as [s1|] eqn:E1; [|done]. cbn in E. apply IH in E; [done|]. destruct e as [n t|n]; cbn [run_event] in E1.
  - destruct (run_calls config n (calls_of n) s) as [s2|] eqn:E2; [|done]. cbn in E1. injection E1 as <-. cbn [su_pathes set_ready].
    by apply (run_calls_paths n (calls_of n) s s2 E2); [apply path_of_call|].
  - case_bool_decide; [|by injection E1 as <-]. unfold controller_startUp in E1. destruct (pipeline_names config); [|done].
    destruct (make_pipeline _ _); [|done]. cbn in E1. by injection E1 as <-.
Qed.
End routed.

Lemma elem_of_routes s r : r ∈ routes s <->
  (exists app m p, (app, (m, p)) ∈ su_pathes s /\ is_Some (rest_handlers (su_rest s) !! app) /\ r = Route (to_app app p) m (api_regex app (segments p))) \/
  r = Route to_apps GET apps_regex \/ r = Route to_timeout GET timeout_regex.
Proof.
  unfold routes, app_routes. rewrite elem_of_app, list_elem_of_omap, !elem_of_cons, elem_of_nil. split.
  - intros [([app [m p]] & Hx & E)|[->|[->|[]]]]; [left|by right; left|by right; right]. cbn [fst snd] in E.
    destruct (rest_handlers (su_rest s) !! app) eqn:Eh; [|done]. injection E as <-. eauto 7.
  - intros [(app & m & p & Hx & [h Hh] & ->)|[->| ->]]; [|by right; left|by right; right; left].
    left. exists (app, (m, p)). split; [done|]. cbn [fst snd]. by rewrite Hh.
Qed.

Lemma serves_ok m path r : serves m path r = true <-> rt_method r = m /\ denotes (rt_regex r) path.
Proof. unfold serves. by rewrite andb_true_iff, bool_decide_eq_true, regex_match_ok. Qed.

(** The paths of the applications and those of the server differ before the fifth character. *)
Lemma apps_path path : denotes apps_regex path -> take 4 path = list_ascii_of_string "/app".
Proof. intros (? & ? & -> & Hu & _)%denotes_seq. apply denotes_word in Hu as ->. done. Qed.
Lemma timeout_path path : denotes timeout_regex path -> take 4 path = list_ascii_of_string "/tim".
Proof. intros (? & ? & -> & Hu & _)%denotes_seq. apply denotes_word in Hu as ->. done. Qed.
Lemma api_path path app gs : denotes (api_regex app gs) path -> take 4 path = list_ascii_of_string "/api".
Proof. intros (parts & final & -> & _)%denotes_api. by rewrite request_path_eq. Qed.

Lemma routes_disjoint s m path r1 r2 : su_pathes s ⊆ all_paths -> r1 ∈ routes s -> r2 ∈ routes s ->
  serves m path r1 = true -> serves m path r2 = true -> r1 = r2.
Proof.
  intros Hs H1 H2 [E1 D1]%serves_ok [E2 D2]%serves_ok.
  apply elem_of_routes in H1 as [(a1 & m1 & p1 & Hx1 & _ & ->)|[->| ->]], H2 as [(a2 & m2 & p2 & Hx2 & _ & ->)|[->| ->]]; cbn [rt_method rt_regex] in *; try done;
    try match goal with
    | H1 : denotes (api_regex _ _) _, H2 : denotes apps_regex _ |- _ => apply api_path in H1; apply apps_path in H2; rewrite H1 in H2; vm_compute in H2; done
    | H1 : denotes (api_regex _ _) _, H2 : denotes timeout_regex _ |- _ => apply api_path in H1; apply timeout_path in H2; rewrite H1 in H2; vm_compute in H2; done
    | H1 : denotes apps_regex _, H2 : denotes timeout_regex _ |- _ => apply apps_path in H1; apply timeout_path in H2; rewrite H1 in H2; vm_compute in H2; done
    end.
  subst m1 m2. apply denotes_api in D1 as (ps1 & b1 & -> & F1), D2 as (ps2 & b2 & E & F2). destruct paths_sound as [Hgood Hclash].
  rewrite Forall_forall in Hgood, Hclash. apply Hs in Hx1, Hx2. destruct (Hgood _ Hx1) as [N1 G1], (Hgood _ Hx2) as [N2 G2]. cbn [fst snd] in *.
  apply (f_equal (fun x => split x slash)) in E. pose proof (segments_plain _ _ G1 F1). pose proof (segments_plain _ _ G2 F2).
  rewrite !split_request in E by done. injection E as Ea Ep.
  apply (f_equal string_of_list_ascii) in Ea. rewrite !string_of_list_ascii_of_string in Ea. subst a2 ps2.
  specialize (Hclash _ Hx1). rewrite Forall_forall in Hclash. destruct (Hclash _ Hx2 eq_refl eq_refl) as [Ep|Hc]; [cbn [snd] in Ep; by subst|]. by destruct (clash_ok _ _ _ Hc F1 F2).
Qed.

(** C30: in a controller that was put together by any sequence of initialisations, with
    the table of the server in any order: a request is served by at most one route; the
    route of an application serves exactly the paths that name it, with the parts of an
    accepted path, and with a slash at the end or without; the handler is given these
    parts, and every parameter that it reads without a test is there, and is a number
    where it is read as one.  Paths that no route serves belong to no application. *)
Theorem rest_requests_routed {double : Type} `{Json.Doubles double} (config : list (string * Json.json double)) h s table m path
  (Hrun : run_events config h new_setup = Ok s) (Htable : table ≡ₚ routes s) :
  match find_route table m path with
  | Some r => r ∈ routes s /\ serves m path r = true /\ (forall r', r' ∈ routes s -> serves m path r' = true -> r' = r) /\
      forall app p, rt_target r = to_app app p -> (app, (m, p)) ∈ su_pathes s /\ exists parts final, path = request_path app parts final /\
        Forall2 segment_ok (segments p) parts /\ request_params path = parts /\ Forall (access_ok parts) (handler_accesses app m parts)
  | None => forall app p parts final, (app, (m, p)) ∈ su_pathes s -> is_Some (rest_handlers (su_rest s) !! app) ->
      Forall2 segment_ok (segments p) parts -> path <> request_path app parts final
  end.
Proof.
  assert (Hs : su_pathes s ⊆ all_paths) by (apply (run_paths config h new_setup s Hrun); by intros ? ?%elem_of_nil).
  destruct (find_route table m path) as [r|] eqn:Ef; unfold find_route in Ef.
  - apply find_some in Ef as [Hr Hserve]. apply list_elem_of_In in Hr. rewrite Htable in Hr. split; [done|]. split; [done|]. split.
    + intros r' Hr' Hserve'. by apply (routes_disjoint s m path).
    + intros app p Et. apply elem_of_routes in Hr as [(a & m' & p' & Hx & _ & ->)|[->| ->]]; [|done|done]. injection Et as -> ->.
      apply serves_ok in Hserve as [<- Hd]. split; [done|]. apply denotes_api in Hd as (parts & final & -> & Hp). exists parts, final.
      split; [done|]. split; [done|]. apply Hs in Hx. split; [|by apply (accesses_ok app _ p)].
      destruct paths_sound as [Hgood _]. rewrite Forall_forall in Hgood. destruct (Hgood _ Hx) as [Hn Hg]. apply request_params_parts; [done|by apply (segments_plain (segments p))].
  - intros app p parts final Hx Hh Hp ->. set (r := Route (to_app app p) m (api_regex app (segments p))).
    assert (Hr : In r table) by (apply list_elem_of_In; rewrite Htable; apply elem_of_routes; left; by exists app, m, p).
    pose proof (find_none _ _ Ef r Hr) as Hno. assert (serves m (request_path app parts final) r = true) as Hyes; [|congruence].
    apply serves_ok. split; [done|]. apply denotes_api. by exists parts, final.
Qed.

(** A controller with the statistics, and a request for the queues of a port. *)
Definition stats_config : list (string * Json.json Z) :=
  Json.obj_set "controller" (Json.JObject [("pipeline"%string, Json.JArray [])]) (demo_config 1 ["rest-multipart"%string]).
Definition stats_setup : res load_error setup := run_events stats_config (history (startAll true (map app_of classes) names stats_config new_loader).1) new_setup.
Definition queue_path : list ascii := list_ascii_of_string "/api/rest-multipart/queue/3/all/7/".

Lemma rest_requests_routed_witness : exists s r parts, stats_setup = Ok s /\ find_route (rev (routes s)) GET queue_path = Some r /\
  rt_target r = to_app "rest-multipart" "queue/[0-9]+/(all|[0-9]+)/(all|[0-9]+)" /\
  parts = map list_ascii_of_string ["queue"; "3"; "all"; "7"]%string /\ Forall (access_ok parts) (handler_accesses "rest-multipart" GET parts) /\
  handler_accesses "rest-multipart" GET parts = [index 0; number 1; index 2; index 3].
Proof.
  assert (Hs : exists s, stats_setup = Ok s) by (eexists; vm_compute; reflexivity). destruct Hs as [s Es].
  pose proof (rest_requests_routed stats_config (history (startAll true (map app_of classes) names stats_config new_loader).1) s (rev (routes s)) GET queue_path Es
    (Permutation_sym (Permutation_rev _))) as Hr.
  assert (Er : exists r, find_route (rev (routes s)) GET queue_path = Some r /\ rt_target r = to_app "rest-multipart" "queue/[0-9]+/(all|[0-9]+)/(all|[0-9]+)").
  { vm_compute in Es. injection Es as <-. eexists. split; [vm_compute; reflexivity|reflexivity]. }
  destruct Er as (r & Er & Et). rewrite Er in Hr. destruct Hr as (_ & _ & _ & Hr). destruct (Hr _ _ Et) as (_ & parts & final & _ & _ & Ep & Ha).
  exists s, r, parts. split; [done|]. split; [done|]. split; [done|]. subst parts. split; [vm_compute; reflexivity|]. split; [exact Ha|vm_compute; reflexivity].
Defined.
