(* ===== verification/WebViews.v ===== *)
(** * What the web pages see

    The JSON of switches, links, hosts, rules and events (src/Switch.cc,
    src/Topology.cc, src/HostManager.cc, src/FlowManager.cc, src/Event.cc), and the
    objects that the pages place and name (src/WebUIManager.cc). *)

From S2P Require Import Prelude Regex RaftWire Events Switch LinkDiscovery Topology Hosts Json JsonTotal JsonRoundtrip Rest RestStats RestListener StaticFlows.
From S2P Require FlowManager.
Local Open Scope Z_scope.
Local Open Scope string_scope.

Section views.
Context {double : Type} `{Doubles double}.
Abbreviation json := (json double).
Abbreviation json_object := (list (string * json)).
Variable mac_string : Z -> string.

(** [(int)] of an unsigned number of 32 bits, and a number as text. *)
Definition jint (n : Z) : json := JInt (to_int32 n).
Definition jid (n : Z) : json := jtext (show_base 10 n).
Definition object (members : json_object) : json := JObject (mk_object members).

(** ** Links *)

Definition link_json (l : link) : json :=
  let src := object [("src_id", jid (dpid (l_source l))); ("src_port", jint (port (l_source l)))] in
  let dst := object [("dst_id", jid (dpid (l_target l))); ("dst_port", jint (port (l_target l)))] in
  object [("ID", jid (l_obj_id l)); ("connect", JArray [src; dst]); ("bandwidth", JInt (l_weight l))].
Definition link_floodlight_json (l : link) : json :=
  object [("src-switch", jid (dpid (l_source l))); ("src-port", jint (port (l_source l)));
          ("dst-switch", jid (dpid (l_target l))); ("dst-port", jint (port (l_target l)));
          ("type", JString "internal"); ("direction", JString "bidirectional")].

(** [Topology::handleGET]: the answer is a text, in which the array is written. *)
Definition topology_handleGET (params : list string) (t : topology) : json :=
  if bool_decide (head params = Some "links") then jtext (dump (JArray (map (fun x => link_json x.2) (topo t)))) else JString "{}".

(** ** Hosts *)

Definition host_json (h : host) : json :=
  object [("ID", jid (h_id h)); ("mac", jtext (h_mac h)); ("switch_id", jid (h_switchID h)); ("switch_port", jint (h_switchPort h))].
Definition formFloodlightJSON (h : host) (since : Z) : json :=
  let attach := object [("switchDPID", jid (h_switchID h)); ("port", jint (h_switchPort h)); ("errorStatus", JString "null")] in
  object [("entityClass", JString "DefaultEntityClass"); ("mac", jtext (h_mac h)); ("ipv4", JString "[]"); ("vlan", JString "[]");
          ("attachmentPoint", attach); ("lastSeen", jid since)].
(** [HostManager::handleGET]; [hosts] are the hosts in the order of the map. *)
Definition hosts_handleGET (params : list string) (hosts : list host) : json :=
  if bool_decide (head params = Some "hosts") then jtext (dump (JArray (map host_json hosts))) else JString "{}".

(** ** Switches, with their ports as libfluid unpacks them *)

Definition sw_port_json (p : PortDesc) : json :=
  object [("portNumber", jint (pd_port_no p)); ("hardwareAddress", jmac mac_string (pd_hw_addr p)); ("name", JString (pd_name p));
          ("config", jint (pd_config p)); ("state", jint (pd_state p)); ("currentFeatures", jint (pd_curr p));
          ("advertisedFeatures", jint (pd_advertised p)); ("supportedFeatures", jint (pd_supported p)); ("peerFeatures", jint (pd_peer p))].
Definition switch_json (id : Z) (ports : list PortDesc) (desc : SwitchDesc) : json :=
  object [("ID", jid id); ("DPID", jid id); ("ports", JArray (map sw_port_json ports)); ("mfr_desc", JString (sd_mfr_desc desc));
          ("hw_desc", JString (sd_hw_desc desc)); ("sw_desc", JString (sd_sw_desc desc)); ("serial_num", JString (sd_serial_num desc));
          ("dp_desc", JString (sd_dp_desc desc))].
Definition switch_floodlight_json (sw : switch) (ports : list PortDesc) (since : Z) : json :=
  object [("harole", JString "MASTER"); ("ports", JArray (map sw_port_json ports)); ("buffers", jint (sw_nbuffers sw)); ("description", JString "NONE");
          ("capabilities", jint (sw_capabilities sw)); ("inetAddress", JString "NONE"); ("connectedSince", jid since); ("dpid", jid (sw_id sw));
          ("actions", JString "NONE"); ("attributes", JString "NONE")].
(** [SwitchManager::handleGET], over the switches whose connection is alive. *)
Definition switches_handleGET (params : list string) (switches : list (Z * list PortDesc * SwitchDesc)) : json :=
  match params with
  | p0 :: p1 :: _ => if bool_decide (p0 = "switches") && bool_decide (p1 = "all") then JArray (map (fun x => switch_json x.1.1 x.1.2 x.2) switches) else JString "{}"
  | _ => JString "{}"
  end.

(** ** Rules *)

(** [Rule::SetField] *)
Definition SetField_json (f : of_field) : json :=
  match f with
  | InPort n => JObject [("in_port", jint n)]
  | EthSrc mac => JObject [("eth_src", jmac mac_string mac)]
  | EthDst mac => JObject [("eth_dst", jmac mac_string mac)]
  | EthType n => JObject [("eth_type", JInt n)]
  | VLANVid n => JObject [("vlan_vid", JInt n)]
  | IPv4Src ip => JObject [("ip_src", jip ip)]
  | IPv4Dst ip => JObject [("ip_dst", jip ip)]
  | IPProto n => JObject [("ip_proto", JInt n)]
  | _ => JObject [("unhandled field", JString "error")]
  end.

(** [action_list]: the ports and the fields that are set, gathered. *)
Definition action_list (acts : list of_action) (acc : list json * list json) : list json * list json :=
  fold_left (fun acc act => match act with
    | OutputAction port _ => ((acc.1 ++ [jint port])%list, acc.2)
    | SetField f => (acc.1, (acc.2 ++ [SetField_json f])%list)
    | _ => acc
    end) acts acc.

Definition set_if (mt : of_match) (field key : string) (show : Z -> json) (o : json_object) : json_object :=
  match mt !! field with Some v => obj_set key (show v) o | None => o end.

(** The loop over the instructions; [lexical_cast] writes the number of a table, an
    unsigned char, as that character. *)
Definition rule_instruction (acc : json_object * (list json * list json)) (inst : of_instruction) : json_object * (list json * list json) :=
  match inst with
  | GoToTable t => (obj_set "goto_table" (JString (String (ascii_of_nat (Z.to_nat t)) "")) acc.1, acc.2)
  | WriteMetadata v mask => (obj_set "metadata" (object [("metadata", jid v); ("metadata_mask", jid mask)]) acc.1, acc.2)
  | ApplyActions acts => (acc.1, action_list acts acc.2)
  | _ => acc
  end.

Definition rule_json (active : bool) (switch_id : Z) (mt : of_match) (instructions : list of_instruction) : json :=
  let ret := obj_set "switch_id" (jid switch_id) (obj_set "acitive" (JString (if active then "yes" else "no")) []) in
  let ret := set_if mt "ipv4_dst" "ip_dst" jip (set_if mt "ipv4_src" "ip_src" jip (set_if mt "eth_type" "eth_type" JInt
    (set_if mt "eth_dst" "eth_dst" (jmac mac_string) (set_if mt "eth_src" "eth_src" (jmac mac_string) (set_if mt "in_port" "in_port" jint ret))))) in
  let '(ret, (out_port, set)) := fold_left rule_instruction instructions (ret, ([], [])) in
  JObject (obj_set "set_field" (JArray set) (obj_set "out_port" (JArray out_port) ret)).

(** ** Events *)

(** [Event::to_json]: the object is written as it is when the event is asked for. *)
Definition event_json (obj_id : nat -> Z) (obj_json : nat -> json) (e : event) : json :=
  object [("time", jid (ev_time e)); ("event_id", jint (ev_id e));
          ("type", JString (match ev_type e with Add => "Add" | Delete => "Delete" | Change => "Change" end));
          ("obj_id", jid (obj_id (ev_obj e))); ("obj_info", obj_json (ev_obj e)); ("app", JString (ev_app e))].

(** [result[app].push_back], over the events that are sent. *)
Definition events_result (show : event -> json) (shown : list event) : list (string * list json) :=
  fold_left (fun o e => obj_set (ev_app e) (default [] (obj_find (ev_app e) o) ++ [show e])%list o) shown [].
Definition events_json (show : event -> json) (shown : list event) : json := JObject (map (fun kv => (kv.1, JArray kv.2)) (events_result show shown)).
End views.

(** ** The objects of the pages *)

(** [WebObject] *)
Record web_object := WebObject { wo_id : Z; wo_x : Z; wo_y : Z; wo_icon : string; wo_display_name : string }.
#[export] Instance web_object_dec : EqDecision web_object.
Proof. solve_decision. Defined.

Section webui.
Context {double : Type} `{Doubles double}.
Abbreviation json := (json double).

Definition new_web_object (id : Z) (is_router : bool) : web_object :=
  WebObject id (-1) (-1) (if is_router then "router" else "aimac") (string_of_list_ascii (show_base 10 id)).
Definition wo_set_pos (x y : Z) (o : web_object) : web_object := WebObject (wo_id o) x y (wo_icon o) (wo_display_name o).
Definition wo_set_name (name : string) (o : web_object) : web_object := WebObject (wo_id o) (wo_x o) (wo_y o) (wo_icon o) name.
Definition web_object_json (o : web_object) : json :=
  object [("ID", jid (wo_id o)); ("x_coord", JInt (wo_x o)); ("y_coord", JInt (wo_y o)); ("icon", JString (wo_icon o)); ("display_name", JString (wo_display_name o))].

(** [newSwitch], [newHost] *)
Definition webui_newSwitch (id : Z) (os : list web_object) : list web_object := (os ++ [new_web_object id true])%list.
Definition webui_newHost (id : Z) (mac : string) (os : list web_object) : list web_object := (os ++ [wo_set_name mac (new_web_object id false)])%list.

(** [getObject]: the first with the id. *)
Definition getObject (id : Z) (os : list web_object) : option web_object := List.find (fun o => (wo_id o =? id)%Z) os.
(** A change of that object. *)
Fixpoint change_object (id : Z) (f : web_object -> web_object) (os : list web_object) : list web_object :=
  match os with [] => [] | o :: os => if (wo_id o =? id)%Z then f o :: os else o :: change_object id f os end.

Definition web_error (text : string) : json := JString ("{ " +:+ quoted "error" +:+ ": " +:+ quoted text +:+ " }").
Definition web_ok : json := JString ("{ " +:+ quoted "webui" +:+ ": " +:+ quoted "OK" +:+ " }").

(** The number of an object in a path; [std::stoull] throws for one of more than 64 bits. *)
Inductive webui_fault := web_out_of_range | web_null.
Definition web_id (p : string) : res webui_fault Z := let n := stoi 10 (chars p) in if (2 ^ 64 <=? n)%Z then Throw web_out_of_range else Ok n.

(** [WebUIManager::handleGET], for the second parameter of a path. *)
Definition webui_handleGET (p1 : string) (os : list web_object) : res webui_fault json :=
  if bool_decide (p1 = "all") then
    Ok (match os with [] => web_error "empty" | _ => JArray (map web_object_json os) end)
  else
    id ← web_id p1;
    Ok (match getObject id os with Some o => web_object_json o | None => web_error "Object not found" end).

(** [coords["x_coord"]]: null, which is 0, if it is missing. *)
Definition member (key : string) (o : list (string * json)) : json := default JNull (obj_find key o).

(** [WebUIManager::handlePUT]; an object that does not exist is dereferenced. *)
Definition webui_handlePUT (p0 p1 body : string) (os : list web_object) : res webui_fault (list web_object * json) :=
  if negb (bool_decide (p0 = "coord")) && negb (bool_decide (p0 = "name")) then Ok (os, JString "{}")
  else
    id ← web_id p1;
    match json_parse (chars body) with
    | Some (j, []) =>
        match getObject id os with
        | None => Throw web_null
        | Some _ =>
            let o := object_items j in
            let f := if bool_decide (p0 = "coord") then wo_set_pos (to_int (number_value (member "x_coord" o))) (to_int (number_value (member "y_coord" o)))
                     else wo_set_name (string_value (member "name" o)) in
            Ok (change_object id f os, web_ok)
        end
    | _ => Ok (os, JString "{}")
    end.
End webui.

(** * Events by application *)

Section result.
Context {double : Type}.
Variable show : event -> json double.

Lemma events_result_app shown : forall app, default [] (obj_find app (events_result show shown)) = map show (of_app app shown).
Proof.
  intros app. unfold events_result. enough (forall acc, default [] (obj_find app (fold_left (fun o e => obj_set (ev_app e) (default [] (obj_find (ev_app e) o) ++ [show e])%list o) shown acc)) =
    (default [] (obj_find app acc) ++ map show (of_app app shown))%list) as Hacc by (by rewrite Hacc).
  induction shown as [|e shown IH]; intros acc; cbn [fold_left]; [by rewrite app_nil_r|]. rewrite IH, obj_find_obj_set. unfold of_app. rewrite filter_cons.
  case_bool_decide as E; destruct (decide (ev_app e = app)); try done. subst. cbn. by rewrite <- app_assoc.
Qed.

(** The answer to a poll has, under the name of each application, its events in the
    order in which they are sent, and no member for an application without events. *)
Lemma events_json_app shown app :
  at_key (events_json show shown) app = match of_app app shown with [] => JNull | es => JArray (map show es) end.
Proof.
  unfold events_json, at_key. pose proof (events_result_app shown app) as Hr.
  assert (Hmap : forall o : list (string * list (json double)), obj_find app (map (fun kv => (kv.1, JArray kv.2)) o) = JArray <$> obj_find app o).
  { induction o as [|[k v] o IH]; cbn; [done|]. by case_bool_decide. }
  rewrite Hmap. destruct (obj_find app (events_result show shown)) as [l|] eqn:E; cbn in *.
  - assert (Hne : l <> []).
    { clear Hr Hmap. revert l E. unfold events_result.
      enough (forall acc, (forall l, obj_find app acc = Some l -> l <> []) -> forall l, obj_find app (fold_left (fun o e => obj_set (ev_app e) (default [] (obj_find (ev_app e) o) ++ [show e])%list o) shown acc) = Some l -> l <> []) as Ha
        by (intros l; by apply Ha).
      induction shown as [|e shown IH]; intros acc Hacc; [exact Hacc|]. apply IH. intros l. rewrite obj_find_obj_set. case_bool_decide; [|apply Hacc].
      intros [= <-] Hn. by apply app_eq_nil in Hn as [_ Hn]. }
    subst. by destruct (of_app app shown).
  - by destruct (of_app app shown).
Qed.
End result.

(** * The objects of the pages, as a map *)

(** What can happen: a switch or a host is discovered, or a request places or names an object. *)
Inductive web_event := we_switch (id : Z) | we_host (id : Z) (mac : string) | we_coord (id x y : Z) | we_name (id : Z) (name : string).

Definition web_put (id : Z) (f : web_object -> web_object) (os : list web_object) : option (list web_object) :=
  match getObject id os with None => None | Some _ => Some (change_object id f os) end.
Definition web_step (e : web_event) (os : list web_object) : option (list web_object) :=
  match e with
  | we_switch id => Some (webui_newSwitch id os)
  | we_host id mac => Some (webui_newHost id mac os)
  | we_coord id x y => web_put id (wo_set_pos x y) os
  | we_name id name => web_put id (wo_set_name name) os
  end.
Fixpoint web_run (es : list web_event) (os : list web_object) : option (list web_object) :=
  match es with [] => Some os | e :: es => os ← web_step e os; web_run es os end.

(** The object of an id: the first that was discovered, with the last place and name. *)
Definition web_effect (id : Z) (e : web_event) (o : option web_object) : option web_object :=
  match e with
  | we_switch i => if (i =? id)%Z then Some (default (new_web_object i true) o) else o
  | we_host i mac => if (i =? id)%Z then Some (default (wo_set_name mac (new_web_object i false)) o) else o
  | we_coord i x y => if (i =? id)%Z then wo_set_pos x y <$> o else o
  | we_name i name => if (i =? id)%Z then wo_set_name name <$> o else o
  end.
Definition web_view (id : Z) (es : list web_event) (o : option web_object) : option web_object := fold_left (fun o e => web_effect id e o) es o.

Lemma getObject_snoc id os o : getObject id (os ++ [o]) = if (wo_id o =? id)%Z then Some (default o (getObject id os)) else getObject id os.
Proof. induction os as [|x os IH]; cbn; [by case_match|]. destruct (wo_id x =? id)%Z; [by destruct (wo_id o =? id)%Z|]. exact IH. Qed.

Lemma getObject_change id i f os : (forall o, wo_id (f o) = wo_id o) -> getObject id (change_object i f os) = if (i =? id)%Z then f <$> getObject id os else getObject id os.
Proof.
  intros Hf. assert (Hcons : forall x os, getObject id (x :: os) = if (wo_id x =? id)%Z then Some x else getObject id os) by done.
  induction os as [|x os IH]; [by case_match|]. cbn [change_object]. rewrite Hcons. destruct (Z.eqb_spec (wo_id x) i) as [<-|Hi]; rewrite Hcons.
  - rewrite Hf. by destruct (wo_id x =? id)%Z.
  - rewrite IH. destruct (Z.eqb_spec (wo_id x) id) as [<-|]; [|done]. by destruct (Z.eqb_spec i (wo_id x)).
Qed.

Lemma web_step_view e os : match web_step e os with
  | Some os' => forall id, getObject id os' = web_effect id e (getObject id os)
  | None => exists id, getObject id os = None /\ (exists x y, e = we_coord id x y) \/ getObject id os = None /\ exists name, e = we_name id name
  end.
Proof.
  destruct e as [i|i mac|i x y|i name]; cbn; unfold web_put.
  - intros id. apply getObject_snoc.
  - intros id. apply getObject_snoc.
  - destruct (getObject i os) eqn:E; [|exists i; left; eauto]. intros id. by apply getObject_change.
  - destruct (getObject i os) eqn:E; [|exists i; right; eauto]. intros id. by apply getObject_change.
Qed.

(** Until a request is for an object that was never discovered, which dereferences
    null, the pages get for each id the first object that was discovered under it, at
    the last place and with the last name it was given.  A host that is discovered
    under the id of a switch stays hidden behind it. *)
Lemma webui_refines es os : match web_run es os with
  | Some os' => forall id, getObject id os' = web_view id es (getObject id os)
  | None => exists pre e post id, es = (pre ++ e :: post)%list /\ web_view id pre (getObject id os) = None /\
      ((exists x y, e = we_coord id x y) \/ exists name, e = we_name id name)
  end.
Proof.
  revert os. induction es as [|e es IH]; intros os; cbn [web_run]; [done|]. pose proof (web_step_view e os) as Hs.
  destruct (web_step e os) as [os1|]; cbn [mbind option_bind].
  - specialize (IH os1). destruct (web_run es os1) as [os'|].
    + intros id. rewrite IH, Hs. done.
    + destruct IH as (pre & e' & post & id & -> & Hv & He). exists (e :: pre), e', post, id. split; [done|]. split; [|done]. cbn. by rewrite <- Hs.
  - destruct Hs as (id & [[Hn He]|[Hn He]]); exists [], e, es, id; (split; [done|]); (split; [done|]); auto.
Qed.
