(* ===== verification/MessageUnion.v ===== *)
(** * Received messages (src/OFMsgUnion.cc, src/OFMsgUnion.hh)

    A message is unpacked into the member of a union that its type names; a multipart
    reply is unpacked a second time, as a reply of its own type.  What unpacking makes
    of the bytes is libfluid's. *)

From S2P Require Import Prelude Controller Dispatch.
Local Open Scope Z_scope.

(** The members of the union. *)
Inductive msg_member :=
| error | featuresReply | getConfigReply | packetIn | flowRemoved_ | portStatus_ | multipartReply | barrierReply
| queueGetConfigReply | roleReply | getAsyncReply
| multipartReplyDesc | multipartReplyFlow | multipartReplyAggregate | multipartReplyTable | multipartReplyTableFeatures
| multipartReplyPortStats | multipartReplyPortDescription | multipartReplyQueue | multipartReplyGroup | multipartReplyGroupDesc
| multipartReplyGroupFeatures | multipartReplyMeter | multipartReplyMeterConfig | multipartReplyMeterFeatures.

#[export] Instance msg_member_dec : EqDecision msg_member.
Proof. solve_decision. Defined.

(** The types of OpenFlow 1.3. *)
Definition OFPT_ERROR : Z := 1.
Definition OFPT_FEATURES_REPLY : Z := 6.
Definition OFPT_MULTIPART_REPLY : Z := 19.
Definition OFPMP_AGGREGATE_type : Z := 2.

(** [m_base]: the object that was made last and is not destroyed. *)
Record of_union := OfUnion { m_base : option msg_member }.

Inductive union_error := OFMsgUnhandledType (type : Z) | OFMsgParseError.

(** [OFMsgUnion::OFMsgUnion], the switch over the type. *)
Definition message_member (type : Z) : option msg_member :=
  if type =? 1 then Some error else if type =? 6 then Some featuresReply else if type =? 8 then Some getConfigReply
  else if type =? 10 then Some packetIn else if type =? 11 then Some flowRemoved_ else if type =? 12 then Some portStatus_
  else if type =? 21 then Some barrierReply else if type =? 23 then Some queueGetConfigReply else if type =? 25 then Some roleReply
  else if type =? 27 then Some getAsyncReply else if type =? 19 then Some multipartReply else None.

(** [reparseMultipartReply]: the cases that end in a break, in a row; the case of
    aggregates goes on to the next one, which makes its own object. *)
Definition multipart_members (type : Z) : list msg_member :=
  if type =? 0 then [multipartReplyDesc] else if type =? 1 then [multipartReplyFlow]
  else if type =? 2 then [multipartReplyAggregate; multipartReplyTable] else if type =? 3 then [multipartReplyTable]
  else if type =? 12 then [multipartReplyTableFeatures] else if type =? 4 then [multipartReplyPortStats]
  else if type =? 13 then [multipartReplyPortDescription] else if type =? 5 then [multipartReplyQueue]
  else if type =? 6 then [multipartReplyGroup] else if type =? 7 then [multipartReplyGroupDesc]
  else if type =? 8 then [multipartReplyGroupFeatures] else if type =? 9 then [multipartReplyMeter]
  else if type =? 10 then [multipartReplyMeterConfig] else if type =? 11 then [multipartReplyMeterFeatures] else [].

Section union.
(** Whether [unpack] of a member accepts the bytes, and the type of a multipart reply. *)
Variable unpacks : msg_member -> bool.
Variable mpart_type : Z.

(** The result of the second [unpack] is not looked at. *)
Definition reparseMultipartReply : of_union := OfUnion (last (multipart_members mpart_type)).

Definition ofmsg_union (type : Z) : res union_error of_union :=
  match message_member type with
  | None => Throw (OFMsgUnhandledType type)
  | Some k =>
      if unpacks k then Ok (if type =? OFPT_MULTIPART_REPLY then reparseMultipartReply else OfUnion (Some k))
      else Throw OFMsgParseError
  end.
End union.

(** What [message_callback] does with a message for which it has a scope: it gives it
    to the scope, to the transaction with the xid in [base()], or logs why not. *)
Inductive handling := handled (by_scope : msg_member) | to_transaction (xid : Z) | logged | null_base.

Definition handle_union (unpacks : msg_member -> bool) (mpart_type xid type : Z) : handling :=
  match ofmsg_union unpacks mpart_type type with
  | Throw _ => logged
  | Ok u =>
      match message_member type with
      | Some (packetIn | featuresReply | portStatus_ | flowRemoved_) as k => match k with Some k => handled k | None => logged end
      | _ => match m_base u with None => null_base | Some _ => to_transaction xid end
      end
  end.

(** * What a message should become

    The numbers of the OpenFlow 1.3 standard for the messages that are handled, and for
    the multipart replies: an [OFPT_] and an [OFPMP_] constant by the structure that the
    standard gives a message of that type. *)

Definition message_type (k : msg_member) : option Z :=
  match k with
  | error => Some 1 | featuresReply => Some 6 | getConfigReply => Some 8 | packetIn => Some 10 | flowRemoved_ => Some 11
  | portStatus_ => Some 12 | multipartReply => Some 19 | barrierReply => Some 21 | queueGetConfigReply => Some 23 | roleReply => Some 25
  | getAsyncReply => Some 27
  | _ => None
  end.
Definition multipart_type (k : msg_member) : option Z :=
  match k with
  | multipartReplyDesc => Some 0 | multipartReplyFlow => Some 1 | multipartReplyAggregate => Some 2 | multipartReplyTable => Some 3
  | multipartReplyPortStats => Some 4 | multipartReplyQueue => Some 5 | multipartReplyGroup => Some 6 | multipartReplyGroupDesc => Some 7
  | multipartReplyGroupFeatures => Some 8 | multipartReplyMeter => Some 9 | multipartReplyMeterConfig => Some 10
  | multipartReplyMeterFeatures => Some 11 | multipartReplyTableFeatures => Some 12 | multipartReplyPortDescription => Some 13
  | _ => None
  end.

(** The messages that the controller handles by their own scope. *)
Definition has_scope (k : msg_member) : bool := bool_decide (k ∈ [packetIn; featuresReply; portStatus_; flowRemoved_]).

Lemma message_member_spec type k : message_member type = Some k <-> message_type k = Some type.
Proof.
  unfold message_member. split.
  - repeat match goal with |- context [type =? ?n] => destruct (Z.eqb_spec type n); [intros [= <-]; by subst|] end. done.
  - destruct k; cbn; intros [= <-]; reflexivity.
Qed.

(** The member that [reparseMultipartReply] leaves. *)
Lemma multipart_member_spec type k : multipart_type k = Some type ->
  last (multipart_members type) = Some (if bool_decide (k = multipartReplyAggregate) then multipartReplyTable else k).
Proof. destruct k; cbn; intros [= <-]; reflexivity. Qed.

Lemma multipart_member_none type : (forall k, multipart_type k <> Some type) -> last (multipart_members type) = None.
Proof.
  intros Hno. unfold multipart_members.
  repeat match goal with |- context [type =? ?n] => destruct (Z.eqb_spec type n) as [->|]; [exfalso;
    first [by eapply (Hno multipartReplyDesc)|by eapply (Hno multipartReplyFlow)|by eapply (Hno multipartReplyAggregate)|by eapply (Hno multipartReplyTable)
          |by eapply (Hno multipartReplyTableFeatures)|by eapply (Hno multipartReplyPortStats)|by eapply (Hno multipartReplyPortDescription)
          |by eapply (Hno multipartReplyQueue)|by eapply (Hno multipartReplyGroup)|by eapply (Hno multipartReplyGroupDesc)
          |by eapply (Hno multipartReplyGroupFeatures)|by eapply (Hno multipartReplyMeter)|by eapply (Hno multipartReplyMeterConfig)
          |by eapply (Hno multipartReplyMeterFeatures)]|] end.
  done.
Qed.

(** A multipart type has a member or it has none. *)
Definition all_multipart : list msg_member :=
  [multipartReplyDesc; multipartReplyFlow; multipartReplyAggregate; multipartReplyTable; multipartReplyTableFeatures; multipartReplyPortStats;
   multipartReplyPortDescription; multipartReplyQueue; multipartReplyGroup; multipartReplyGroupDesc; multipartReplyGroupFeatures; multipartReplyMeter;
   multipartReplyMeterConfig; multipartReplyMeterFeatures].
Lemma multipart_cases type : (exists k, multipart_type k = Some type) \/ forall k, multipart_type k <> Some type.
Proof.
  destruct (decide (Exists (fun k => multipart_type k = Some type) all_multipart)) as [(k & _ & Hk)%Exists_exists|Hno]; [left; by exists k|].
  right. intros k Hk. apply Hno, Exists_exists. exists k. split; [|done]. destruct k; try done; apply (bool_decide_unpack _); by vm_compute.
Qed.

(** C29: a received message, if the standard's structure for its type is one that is
    handled and accepts the bytes, becomes the member for that structure.  A multipart
    reply becomes the member for its own type, except one about aggregates, of which a
    reply about tables is made over it, and one of any other type, such as an
    experimenter's, of which nothing is made; reading the xid of that then dereferences
    null, and nothing else does.  Packets, features, the states of ports and removed flows go to
    the scope of their handlers, every other message to the transaction with its xid,
    and one that is not handled or not accepted is only logged. *)
Theorem messages_unpacked unpacks mpart_type xid type :
  (forall k, message_type k = Some type -> type <> OFPT_MULTIPART_REPLY -> unpacks k = true -> ofmsg_union unpacks mpart_type type = Ok (OfUnion (Some k))) /\
  (forall k, multipart_type k = Some mpart_type -> type = OFPT_MULTIPART_REPLY -> unpacks multipartReply = true ->
    ofmsg_union unpacks mpart_type type = Ok (OfUnion (Some (if bool_decide (k = multipartReplyAggregate) then multipartReplyTable else k)))) /\
  (handle_union unpacks mpart_type xid type = null_base <->
    type = OFPT_MULTIPART_REPLY /\ unpacks multipartReply = true /\ forall k, multipart_type k <> Some mpart_type) /\
  (forall k, handle_union unpacks mpart_type xid type = handled k <-> message_type k = Some type /\ unpacks k = true /\ has_scope k = true) /\
  (handle_union unpacks mpart_type xid type = logged <-> forall k, message_type k = Some type -> unpacks k = false).
Proof.
  setoid_rewrite <- message_member_spec. unfold handle_union, ofmsg_union.
  assert (Ht : message_member type = Some multipartReply <-> type = OFPT_MULTIPART_REPLY).
  { rewrite message_member_spec. cbn. unfold OFPT_MULTIPART_REPLY. split; [by intros [= <-]|by intros ->]. }
  destruct (message_member type) as [k|] eqn:Hk; cbn.
  2: { assert (type <> OFPT_MULTIPART_REPLY) by (intros E; by apply Ht in E). split_and!; try done; naive_solver. }
  destruct (unpacks k) eqn:Hu.
  2: { split_and!; [congruence| | | |].
       - intros k' _ E Hm. apply Ht in E as [= ->]. congruence.
       - split; [done|]. intros (E & Hm & _). apply Ht in E as [= ->]. congruence.
       - intros k'. split; [done|]. intros ([= <-] & ? & _). congruence.
       - split; [|done]. by intros _ k' [= <-]. }
  destruct (Z.eqb_spec type OFPT_MULTIPART_REPLY) as [E|Hne].
  - pose proof (proj2 Ht E) as [= ->]. unfold reparseMultipartReply. destruct (multipart_cases mpart_type) as [[k Hm]|Hno].
    + rewrite (multipart_member_spec _ _ Hm). cbn. split_and!; [done| | | |].
      * intros k' Hk' _ _. rewrite <- (multipart_member_spec _ _ Hk'). by rewrite (multipart_member_spec _ _ Hm).
      * split; [done|]. intros (_ & _ & Hno). by destruct (Hno k).
      * intros k'. split; [done|]. by intros ([= <-] & _ & Hs).
      * split; [done|]. intros Hf. specialize (Hf _ eq_refl). congruence.
    + rewrite (multipart_member_none _ Hno). cbn. split_and!; [done|intros k' Hk'; by destruct (Hno k')|done| |].
      * intros k'. split; [done|]. by intros ([= <-] & _ & Hs).
      * split; [done|]. intros Hf. specialize (Hf _ eq_refl). congruence.
  - split_and!; [by intros k' [= <-]|done| | |].
    + split; [|by intros (? & _)]. by destruct k.
    + intros k'. split; [|intros ([= <-] & _ & Hs); by destruct k]. destruct k; intros [= <-]; by repeat split.
    + split; [|intros Hf; specialize (Hf _ eq_refl); congruence]. by destruct k.
Qed.

(** A reply about aggregates, one of an experimenter, and a removed flow. *)
Lemma messages_unpacked_witness :
  handle_union (fun _ => true) 0xffff 5000 OFPT_MULTIPART_REPLY = null_base /\
  ofmsg_union (fun _ => true) OFPMP_AGGREGATE_type OFPT_MULTIPART_REPLY = Ok (OfUnion (Some multipartReplyTable)) /\
  ofmsg_union (fun _ => true) 0 11 = Ok (OfUnion (Some flowRemoved_)) /\ handle_union (fun _ => true) 0 5000 11 = handled flowRemoved_.
Proof.
  split; [|split; [|split]].
  - apply (messages_unpacked (fun _ => true) 0xffff 5000 OFPT_MULTIPART_REPLY). split; [reflexivity|]. split; [reflexivity|]. by intros [].
  - by apply (messages_unpacked (fun _ => true) OFPMP_AGGREGATE_type 0 OFPT_MULTIPART_REPLY) with (k := multipartReplyAggregate).
  - by apply (messages_unpacked (fun _ => true) 0 5000 11).
  - by apply (messages_unpacked (fun _ => true) 0 5000 11).
Defined.
